(* ===== verification/_CoqProject ===== *)
-Q . S2P
Prelude.v
Bits.v
Varint.v
VfsErrors.v
CachedFile.v
VfsRegistry.v
VfsSafety.v
VfsMethods.v
Like.v
Ctype.v
IntArith.v
IntParse.v
HashTable.v
Bitvec.v
TokenTables.v
Tokenize.v
Complete.v
VdbeTxn.v
TxnRefine.v
Transaction.v
LazyInit.v
Scan.v
Types.v
SqlText.v
FilterPushdown.v
Record.v
RealParse.v
Aggregates.v
Utf.v
Glob.v
WalIndex.v
WalCheckpoint.v
WalLog.v
WalWrite.v
WalRecover.v
VdbeExpr.v
Affinity.v
SqlFunctions.v
SqlWriter.v
SqlMeaning.v
WriterSound.v
