(* ===== verification/Prelude.v ===== *)
(** * The DuckDB SQLite extension: a verification library

    The program lets DuckDB attach SQLite database files.  Its parts and how
    they meet:

    - The extension proper (src/src/*.cpp and src/src/storage/*.cpp): a catalog
      and transactions on top of SQLite connections, a parallel table scan with
      filter pushdown, SQL text for statements that change the database, SQL
      functions registered with SQLite so that it evaluates DuckDB's semantics,
      and a read-only VFS through which SQLite reads remote files with DuckDB's
      caching file system.
    - The bundled SQLite engine (src/src/sqlite/sqlite3.c), which the extension
      calls for everything else: its tokenizer reads the statements the
      extension writes, its affinity rules fix the column types the extension
      derives, its transactions are what the extension's transactions run on,
      and its VFS interface is what the remote-file VFS implements.

    DuckDB itself (file systems, catalog, values, error objects, hugeint_t) and
    dbconnector are not in the repository.  What is used of them is a parameter
    of a Section or a class, with what the code relies on as named hypotheses;
    every theorem with such a hypothesis has a witness with a concrete
    instance.

    ** Shared files

    - [Prelude] (this file): machine integers as [Z] with explicit wrap, the
      notations of [c_scope], the exception type [res], the tactic
      [solve_width] and the hint database [width], lemmas on lists and strings.
    - [Bits]: equations between expressions of shifts, masks and ors, decided
      by reflection ([bv_decide]).

    ** Remote files (sqlite_duckdb_vfs_cache.cpp)

    - [VfsErrors]: how an exception becomes a result code and a message
      ([SafeVFSCall], [HttpStatusToSqliteError], [BuildSidecarUrl], ...).  A
      callback that throws never reports success (C17).
    - [CachedFile]: class [DuckDBCachedFile].  Reads refine SQLite's xRead
      contract (C6); initialisation fails closed when a WAL or journal may exist
      (C7); a failure is remembered.
    - [VfsRegistry], [VfsSafety]: registration, retirement and reference
      counting of the wrappers.  Each critical section is one step, so a
      concurrent run is a sequence of steps; the heap is explicit.  No step
      follows a freed pointer (C1), counts are exact (C15), retired wrappers are
      reclaimed (C16).
    - [VfsMethods]: the callbacks and their text buffers.

    ** Transactions

    - [VdbeTxn]: BEGIN, COMMIT, ROLLBACK, savepoints and writing statements of
      one connection (vdbe.c, vdbeaux.c, btree.c, pager.c, main.c).  The content
      of the database is a value of any type; one database file; answers of the
      operating system are arguments.
    - [TxnRefine]: an abstract machine of snapshots and the proof that the
      connection implements it, errors included (C8).
    - [Transaction]: sqlite_transaction.cpp and sqlite_transaction_manager.cpp
      over the class [Connection], which the connection of [TxnRefine]
      instantiates.  The manager's invariant (C9) and atomic commit (C10).
    - [LazyInit]: threads racing in [SQLiteTransaction::GetDB] (C11).

    ** Queries

    - [Scan]: row id range, slices claimed by threads, chunks and filters
      (sqlite_scanner.cpp).  Any interleaving ends and returns each matching row
      once (C5).
    - [FilterPushdown]: sqlite_filter_pushdown.cpp; the pushed condition and the
      remaining filters keep the rows the filters keep (C3).
    - [SqlWriter]: the expressions that sqlite_sql_writer.cpp prints as SQL;
      [SqlMeaning]: what such SQL evaluates to with the operators of [VdbeExpr]
      and [Affinity] and the functions of [SqlFunctions], and what DuckDB
      computes; [WriterSound]: the two agree (C2).
    - [Types]: affinity and type mapping (sqlite_utils.cpp, build.c) (C19).
    - [SqlText]: quoting and statement text, read back by the tokenizer (C18).
    - [Like], [Aggregates], [SqlFunctions]: functions of sqlite_functions.cpp.
      The LIKE matcher (C21); arg_min, arg_max and quantile_disc (C31); shifts,
      rounding and other integer functions (C39); the aggregates over window
      frames (C40).

    ** Engine (sqlite3.c)

    - [Varint]: varints and big-endian words (C20).
    - [Record]: the record format, [OP_MakeRecord] against
      [sqlite3VdbeRecordUnpack] (C30).
    - [Ctype]: character tables, comparison, hashing, quotes (C22).
    - [IntArith], [IntParse], [RealParse]: checked arithmetic, LogEst, text to
      integer (C23) and to double (C36), integer to text.
    - [Utf]: conversions between UTF-8 and UTF-16 (C32).
    - [Glob]: the matcher of GLOB and LIKE (C33), and the extension's rewriting of
      a LIKE pattern as a GLOB pattern (C14).
    - [HashTable]: hash.c on an explicit heap, a finite map (C24).
    - [Bitvec]: bitvec.c in its three representations, a finite set (C25).
    - [TokenTables], [Tokenize]: keyword hash, tokenizer, feed loop of the
      parser (C26 to C28).
    - [Complete]: complete.c (C29).
    - [VdbeExpr]: values, [sqlite3MemCompare] (C34) and the opcodes for
      arithmetic, shifts, comparisons and logic (C35).
    - [Affinity]: [applyAffinity] and CAST (C37, C38).
    - [WalIndex]: the hash tables of the wal-index implement the list of page
      numbers of the frames (C13).
    - [WalCheckpoint]: the merge sort, the iterator and [walCheckpoint]; a
      checkpoint changes no page that a reader sees (C12).
    - [WalLog]: the bytes of the log file, checksums, frames, writing and rolling
      back, in a small monad over the state of a connection; [WalWrite]: a program
      logic for it and the specification of [sqlite3WalFrames]; [WalRecover]:
      [walIndexRecover], and that what was committed is recovered (C4).  These use
      the index through the lemmas of [WalIndex].

    ** Parameters

    What is not in the repository, or is floating point, is an argument: DuckDB's
    caching file system and errors ([CachedFile], [VfsErrors]), its casts and its
    binder with the laws [CastLaws] and [BinderLaws] ([SqlMeaning], shown
    satisfiable by an instance in [WriterSound]), the arithmetic of doubles
    ([VdbeExpr]), the product of an integer with a power of ten in long double
    ([scale10], [RealParse]), the text of a double ([real_text], [Affinity]), and
    the answers of the operating system ([VdbeTxn], [WalCheckpoint], [WalLog]).

    ** Bounds and fuel

    Loops that are not structural recursion take fuel, and each theorem is
    stated for the fuel the definition itself passes.  Varints: ten rounds of the
    length loop, eight or nine bytes.  LIKE: a bound on the iterations that is
    quadratic in the lengths, proved to be enough (C21).  GLOB: one more than the
    length of the pattern, each round takes a character of it.  Tokenizer and feed
    loop: the length of the text, since every token is non-empty (C27, C28).
    Bitvec: twelve levels of subdivision and the size of the hash table.  Hash
    table: the number of elements.  Unpacking a record: the number of fields
    asked for.  Integer to text: twenty digits.  Text to double: the exponent.
    Expressions of the writer: their depth.  Wal-index: the code's own bound on
    collisions.  Checkpoint: the number of frames.  Padding of the log: the bytes
    to the next sector.  Recovery: the pages and frames of the file.  Scan: no
    fuel, the theorem shows that every run ends.

    ** Not modelled

    - The classes of DuckDB and what is only a call of them: catalog entries,
      physical operators, options, value conversion, dates, regular expressions,
      floating point functions; the writer's functions, windows, subqueries and
      query nodes, and the tables of what may be pushed down
      (sqlite_capabilities.cpp), which are keyed by DuckDB's types.
    - sqlite_db.cpp and sqlite_stmt.cpp beyond [GetRowIdInfo], [FindRowIdName]
      and the column types of [GetTableInfo]: wrappers of single SQLite calls.
    - The engine beyond the files above: the LALR parser (generated), code
      generator and planner, cursors of the virtual machine, B-tree, rollback
      journal, page cache, operating system layer, optional extensions.
    - Of the write-ahead log: how a reader chooses its lock and reads a header
      that is being written ([walTryBeginRead], [walIndexTryHdr]), rolling back to
      a savepoint in the file (its effect on the index is in [WalIndex]), and
      writes that the disk reorders between two syncs.
    - Allocation failure is modelled where the code recovers from it ([Bitvec],
      [HashTable], [Record], [Aggregates], [WalLog]) and left out elsewhere;
      integers that the code bounds by construction (counts of fields, lengths of
      text) are not wrapped. *)

From Stdlib Require Export ZArith Lia Bool Ascii ZifyBool.
From Stdlib Require String.
From Stdlib Require Export Sorting.Permutation.
From stdpp Require Export base numbers option strings gmap list.
From stdpp Require Import tactics.

#[global] Open Scope Z_scope.

(** ** Machine integers

    A C integer of width [w] is a [Z] kept in its range by an explicit wrap. *)

Declare Scope c_scope.
Delimit Scope c_scope with C.

Definition wrapu (w z : Z) : Z := z mod 2 ^ w.
Definition wraps (w z : Z) : Z := (z + 2 ^ (w - 1)) mod 2 ^ w - 2 ^ (w - 1).

Abbreviation u8 := (wrapu 8).
Abbreviation u16 := (wrapu 16).
Abbreviation u32 := (wrapu 32).
Abbreviation u64 := (wrapu 64).
Abbreviation i32 := (wraps 32).
Abbreviation i64 := (wraps 64).

Notation "a & b" := (Z.land a b) (at level 40, left associativity) : c_scope.
Notation "a '|||' b" := (Z.lor a b) (at level 50, left associativity) : c_scope.
Notation "a '<<' b" := (Z.shiftl a b) (at level 34, left associativity) : c_scope.
Notation "a '>>' b" := (Z.shiftr a b) (at level 34, left associativity) : c_scope.

Definition is_u (w z : Z) : Prop := 0 <= z < 2 ^ w.
Definition is_s (w z : Z) : Prop := - 2 ^ (w - 1) <= z < 2 ^ (w - 1).
Abbreviation is_byte := (is_u 8).

Lemma wrapu_range w z : 0 <= w -> is_u w (wrapu w z).
Proof. intros. unfold is_u, wrapu. apply Z.mod_pos_bound. lia. Qed.

Lemma wrapu_id w z : is_u w z -> wrapu w z = z.
Proof. apply Z.mod_small. Qed.

Lemma wrapu_land w z : 0 <= w -> wrapu w z = Z.land z (Z.ones w).
Proof. intros. unfold wrapu. by rewrite Z.land_ones. Qed.

Lemma pow2_split w : 1 <= w -> 2 ^ w = 2 * 2 ^ (w - 1).
Proof. intros. replace w with (Z.succ (w - 1)) at 1 by lia. rewrite Z.pow_succ_r; lia. Qed.

Lemma wraps_range w z : 1 <= w -> is_s w (wraps w z).
Proof.
  intros. unfold is_s, wraps. pose proof (pow2_split w ltac:(lia)).
  pose proof (Z.mod_pos_bound (z + 2 ^ (w - 1)) (2 ^ w)). lia.
Qed.

Lemma wraps_id w z : 1 <= w -> is_s w z -> wraps w z = z.
Proof.
  intros Hw [H1 H2]. unfold wraps. pose proof (pow2_split w ltac:(lia)).
  rewrite Z.mod_small; lia.
Qed.

(** The signed reading of an unsigned word and back. *)
Lemma wraps_wrapu w z : 1 <= w -> wraps w (wrapu w z) = wraps w z.
Proof. intros. unfold wraps, wrapu. by rewrite Zplus_mod_idemp_l. Qed.

Lemma wrapu_wraps w z : 1 <= w -> wrapu w (wraps w z) = wrapu w z.
Proof.
  intros. unfold wraps, wrapu.
  rewrite Zminus_mod_idemp_l. f_equal. lia.
Qed.

(** Machine-width side conditions: a value fits its width because it is a wrapped
    value or by linear arithmetic. *)
Ltac solve_width := unfold is_u, is_s in *; lia.

Create HintDb width.
#[export] Hint Resolve wrapu_range wraps_range : width.
#[export] Hint Extern 4 (is_u _ _) => solve_width : width.
#[export] Hint Extern 4 (is_s _ _) => solve_width : width.
#[export] Hint Extern 4 (_ <= _) => lia : width.
#[export] Hint Extern 4 (_ < _) => lia : width.

(** ** Exceptions and error codes

    Code that throws returns a [res]; the error type is the component's. *)

Inductive res (E A : Type) : Type :=
| Ok (a : A)
| Throw (e : E).
Arguments Ok {E A} a.
Arguments Throw {E A} e.

#[export] Instance res_ret {E} : MRet (res E) := fun A a => Ok a.
#[export] Instance res_bind {E} : MBind (res E) :=
  fun A B k m => match m with Ok a => k a | Throw e => Throw e end.

Definition is_ok {E A} (m : res E A) : bool :=
  match m with Ok _ => true | Throw _ => false end.

#[export] Instance res_eq_dec {E A} `{EqDecision E, EqDecision A} : EqDecision (res E A).
Proof. solve_decision. Defined.

Lemma res_then {E A} (m : res E unit) (k : res E A) x : (m ≫= fun _ => k) = Ok x -> k = Ok x.
Proof. by destruct m as [[]|e]. Qed.

(** ** Lists *)

Lemma filter_all {A} (f : A -> bool) l : Forall (fun x => f x = true) l -> List.filter f l = l.
Proof. induction 1 as [|x l Hx _ IH]; cbn; [done|]. by rewrite Hx, IH. Qed.
Lemma filter_none {A} (f : A -> bool) l : Forall (fun x => f x = false) l -> List.filter f l = [].
Proof. induction 1 as [|x l Hx _ IH]; cbn; [done|]. by rewrite Hx, IH. Qed.

Lemma Permutation_filter_length {A} (f : A -> bool) l l' : Permutation l l' ->
  length (List.filter f l) = length (List.filter f l').
Proof.
  induction 1 as [|x l l' _ IH|x y l|l l' l'' _ IH1 _ IH2]; cbn [List.filter]; [done| | |congruence].
  - destruct (f x); cbn [length]; lia.
  - by destruct (f x), (f y).
Qed.

Lemma Forall_perm {A} (l l' : list A) (Q : A -> Prop) : Permutation l l' -> Forall Q l' -> Forall Q l.
Proof.
  intros HP H. rewrite List.Forall_forall in *. intros x Hx. apply H. by rewrite <- HP.
Qed.

(** ** Strings *)

(** The double quote and the single quote, as one-character strings. *)
Definition dq : string := String (ascii_of_nat 34) EmptyString.
Definition sq : string := String (ascii_of_nat 39) EmptyString.

Lemma str_app_nil (a : string) : "" +:+ a = a.
Proof. done. Qed.

Lemma str_app_cons x (a b : string) : String x a +:+ b = String x (a +:+ b).
Proof. done. Qed.

Lemma str_app_assoc (a b c : string) : a +:+ (b +:+ c) = (a +:+ b) +:+ c.
Proof. induction a as [|x a IH]; [done|]. by rewrite !str_app_cons, IH. Qed.

Lemma str_app_nil_r (a : string) : a +:+ "" = a.
Proof. induction a as [|x a IH]; [done|]. by rewrite str_app_cons, IH. Qed.

Lemma str_app_inj_l (a b c : string) : a +:+ b = a +:+ c -> b = c.
Proof. induction a as [|x a IH]; [done|]. rewrite !str_app_cons. intros [= H]. auto. Qed.
