(* ===== verification/Bits.v ===== *)
(** * Bit-vector equations by reflection

    The byte codecs of the engine (variable-length integers, big-endian
    words) are straight-line code over [|], [&] with a mask, [<<], [>>] and a wrap to the machine width.  Every bit of such an
    expression is an OR of input bits, so an equation between two of them is
    decided bit by bit.  [bv_decide] reifies both sides and runs the decision
    procedure in the kernel's virtual machine. *)

From S2P Require Import Prelude.

Inductive bexp : Type :=
| BVar (i : nat)
| BCst (c : Z)
| BOr (a b : bexp)
| BAnd (a : bexp) (c : Z)
| BShl (a : bexp) (k : Z)
| BShr (a : bexp) (k : Z)
| BWrap (w : Z) (a : bexp).

(** A bit's normal form: [None] is the constant true, [Some l] the OR of the
    input bits in [l] (variable, position). *)
Definition nform : Type := option (list (nat * Z)).

Fixpoint ins (x : nat * Z) (l : list (nat * Z)) : list (nat * Z) :=
  match l with
  | [] => [x]
  | y :: l' =>
      if decide (x = y) then l
      else if (x.1 <? y.1)%nat || ((x.1 =? y.1)%nat && (x.2 <? y.2)) then x :: l
      else y :: ins x l'
  end.

Definition nor (a b : nform) : nform :=
  match a, b with
  | Some l, Some m => Some (foldr ins m l)
  | _, _ => None
  end.

Section Sem.
Context (env : list (Z * Z)).

Definition var (i : nat) : Z := nth i (map fst env) 0.
Definition wid_of (i : nat) : Z := nth i (map snd env) 0.

Fixpoint den (e : bexp) : Z :=
  match e with
  | BVar i => var i
  | BCst c => c
  | BOr a b => Z.lor (den a) (den b)
  | BAnd a c => Z.land (den a) c
  | BShl a k => Z.shiftl (den a) k
  | BShr a k => Z.shiftr (den a) k
  | BWrap w a => wrapu w (den a)
  end.

Fixpoint ok (e : bexp) : bool :=
  match e with
  | BVar _ => true
  | BCst c => 0 <=? c
  | BOr a b => ok a && ok b
  | BAnd a c => ok a && (0 <=? c)
  | BShl a k | BShr a k => ok a && (0 <=? k)
  | BWrap w a => ok a && (0 <=? w)
  end.

Fixpoint nf (e : bexp) (n : Z) : nform :=
  match e with
  | BVar i => if n <? wid_of i then Some [(i, n)] else Some []
  | BCst c => if Z.testbit c n then None else Some []
  | BOr a b => nor (nf a n) (nf b n)
  | BAnd a c => if Z.testbit c n then nf a n else Some []
  | BShl a k => if n <? k then Some [] else nf a (n - k)
  | BShr a k => nf a (n + k)
  | BWrap w a => if n <? w then nf a n else Some []
  end.

Fixpoint wid (e : bexp) : Z :=
  match e with
  | BVar i => wid_of i
  | BCst c => Z.log2 c + 1
  | BOr a b => Z.max (wid a) (wid b)
  | BAnd a c => Z.log2 c + 1
  | BShl a k => wid a + k
  | BShr a k => wid a
  | BWrap w a => w
  end.

Definition nsem (f : nform) : bool :=
  match f with
  | None => true
  | Some l => existsb (fun x => Z.testbit (var x.1) x.2) l
  end.

Definition bv_check (a b : bexp) : bool :=
  ok a && ok b &&
  forallb (fun n => bool_decide (nf a (Z.of_nat n) = nf b (Z.of_nat n)))
    (seq 0 (Z.to_nat (Z.max (wid a) (wid b)))).

Hypothesis env_ok : Forall (fun x => 0 <= x.1 < 2 ^ x.2 /\ 0 <= x.2) env.

Lemma var_range i : 0 <= var i < 2 ^ wid_of i /\ 0 <= wid_of i.
Proof.
  unfold var, wid_of. revert i. induction env_ok; intros [|i]; simpl; auto; lia.
Qed.

Lemma existsb_ins x l :
  existsb (fun x => Z.testbit (var x.1) x.2) (ins x l) =
  Z.testbit (var x.1) x.2 || existsb (fun x => Z.testbit (var x.1) x.2) l.
Proof.
  induction l as [|y l IH]; simpl; [done|].
  case_decide as E; [subst; simpl; by destruct (Z.testbit _ _)|].
  destruct ((x.1 <? y.1)%nat || _); simpl; [done|]. rewrite IH.
  by destruct (Z.testbit (var x.1) _), (Z.testbit (var y.1) _).
Qed.

Lemma nsem_nor a b : nsem (nor a b) = nsem a || nsem b.
Proof.
  destruct a as [l|], b as [m|]; simpl; rewrite ?orb_true_r; auto.
  induction l as [|x l IH]; simpl; [done|]. rewrite existsb_ins, IH. by rewrite orb_assoc.
Qed.

Lemma wrapu_testbit w z n : 0 <= w -> 0 <= n ->
  Z.testbit (wrapu w z) n = (n <? w) && Z.testbit z n.
Proof.
  intros. unfold wrapu. destruct (Z.ltb_spec n w); simpl.
  - by rewrite Z.mod_pow2_bits_low by lia.
  - by rewrite Z.mod_pow2_bits_high by lia.
Qed.

Lemma nf_sound e : ok e = true -> forall n, 0 <= n -> Z.testbit (den e) n = nsem (nf e n).
Proof.
  induction e; simpl; intros Hok m Hm; rewrite ?andb_true_iff, ?Z.leb_le in Hok.
  - destruct (var_range i) as [[H1 H2] H3]. destruct (Z.ltb_spec m (wid_of i)); simpl.
    + by rewrite orb_false_r.
    + destruct (decide (var i = 0)) as [->|]; [apply Z.testbit_0_l|].
      apply Z.bits_above_log2; [lia|].
      apply Z.log2_lt_pow2; [lia|]. apply Z.lt_le_trans with (2 ^ wid_of i); [lia|].
      apply Z.pow_le_mono_r; lia.
  - by destruct (Z.testbit c m).
  - rewrite Z.lor_spec, nsem_nor, IHe1, IHe2 by tauto. done.
  - rewrite Z.land_spec, IHe by tauto.
    destruct (Z.testbit c m); by rewrite ?andb_true_r, ?andb_false_r.
  - rewrite Z.shiftl_spec by done. destruct (Z.ltb_spec m k); simpl.
    + by rewrite Z.testbit_neg_r by lia.
    + by rewrite IHe by (tauto || lia).
  - rewrite Z.shiftr_spec by done. by rewrite IHe by (tauto || lia).
  - rewrite wrapu_testbit by tauto. rewrite IHe by tauto. by destruct (m <? w).
Qed.

Lemma log2_lt_width x k : 0 <= x < 2 ^ k -> 0 < k -> Z.log2 x < k.
Proof.
  intros. destruct (decide (x = 0)) as [->|]; [simpl; lia|]. apply Z.log2_lt_pow2; lia.
Qed.

Lemma lor_bound a b j k :
  0 <= a < 2 ^ j -> 0 <= b < 2 ^ k -> 0 <= j -> 0 <= k -> 0 <= Z.lor a b < 2 ^ Z.max j k.
Proof.
  intros [A1 B1] [A2 B2] C1 C2. split; [by apply Z.lor_nonneg|].
  pose proof (proj2 (Z.lor_nonneg a b) (conj A1 A2)).
  destruct (decide (Z.lor a b = 0)) as [->|Hz]; [apply Z.pow_pos_nonneg; lia|].
  destruct (decide (Z.max j k = 0)) as [E|].
  { replace j with 0 in * by lia. replace k with 0 in * by lia. simpl in *.
    replace a with 0 in * by lia. replace b with 0 in * by lia. done. }
  apply Z.log2_lt_pow2; [lia|]. rewrite Z.log2_lor by done.
  apply Z.max_lub_lt; apply log2_lt_width; try lia; split; auto.
  - apply Z.lt_le_trans with (2 ^ j); [done|]. apply Z.pow_le_mono_r; lia.
  - apply Z.lt_le_trans with (2 ^ k); [done|]. apply Z.pow_le_mono_r; lia.
Qed.

Lemma wid_sound e : ok e = true -> 0 <= den e < 2 ^ wid e /\ 0 <= wid e.
Proof.
  induction e; simpl; intros Hok; rewrite ?andb_true_iff, ?Z.leb_le in Hok.
  - apply var_range.
  - pose proof (Z.log2_nonneg c). split; [|lia]. split; [done|].
    destruct (decide (c = 0)) as [->|]; [done|]. apply Z.log2_lt_pow2; lia.
  - destruct IHe1 as [[A1 B1] C1], IHe2 as [[A2 B2] C2]; try tauto.
    split; [|lia]. apply lor_bound; lia.
  - destruct Hok as [H1 H2]. pose proof (Z.log2_nonneg c). split; [|lia].
    destruct (IHe H1) as [[A B] C].
    split; [apply Z.land_nonneg; by left|].
    destruct (decide (Z.land (den e) c = 0)) as [->|]; [apply Z.pow_pos_nonneg; lia|].
    pose proof (proj2 (Z.land_nonneg (den e) c) (or_introl A)).
    apply Z.log2_lt_pow2; [lia|]. pose proof (Z.log2_land (den e) c). lia.
  - destruct (IHe (proj1 Hok)) as [[A B] C]. split; [|lia].
    rewrite Z.shiftl_mul_pow2, Z.pow_add_r by lia.
    pose proof (Z.pow_pos_nonneg 2 k). nia.
  - destruct (IHe (proj1 Hok)) as [[A B] C]. split; [|lia].
    rewrite Z.shiftr_div_pow2 by lia. pose proof (Z.pow_pos_nonneg 2 k ltac:(lia) ltac:(lia)).
    split; [apply Z.div_pos; lia|]. apply Z.le_lt_trans with (den e); [|done].
    apply Z.div_le_upper_bound; nia.
  - split; [apply wrapu_range; tauto|tauto].
Qed.

Lemma testbit_high x w n : 0 <= x < 2 ^ w -> 0 <= w <= n -> Z.testbit x n = false.
Proof.
  intros. destruct (decide (x = 0)) as [->|]; [apply Z.testbit_0_l|].
  apply Z.bits_above_log2; [lia|]. apply Z.lt_le_trans with w; [|lia].
  apply Z.log2_lt_pow2; lia.
Qed.

Theorem bv_check_sound a b : bv_check a b = true -> den a = den b.
Proof.
  unfold bv_check. rewrite !andb_true_iff, forallb_forall. intros [[Ha Hb] H].
  destruct (wid_sound a Ha) as [Ra Wa], (wid_sound b Hb) as [Rb Wb].
  apply Z.bits_inj'. intros n Hn.
  destruct (Z.ltb_spec n (Z.max (wid a) (wid b))) as [L|G].
  - rewrite !nf_sound by done. specialize (H (Z.to_nat n)).
    rewrite in_seq, bool_decide_eq_true in H. rewrite Z2Nat.id in H by done.
    rewrite H; [done|lia].
  - rewrite (testbit_high (den a) (wid a)), (testbit_high (den b) (wid b)) by lia. done.
Qed.

(** The value is bounded by the width of the expression. *)
Lemma bv_bound a w : ok a && (wid a <=? w) = true -> 0 <= den a < 2 ^ w.
Proof.
  rewrite andb_true_iff, Z.leb_le. intros [H1 H2].
  destruct (wid_sound a H1) as [[A B] C]. split; [done|].
  apply Z.lt_le_trans with (2 ^ wid a); [done|]. apply Z.pow_le_mono_r; lia.
Qed.
End Sem.

Ltac bv_cst t :=
  lazymatch t with
  | Z0 => constr:(true) | Zpos _ => constr:(true) | Zneg _ => constr:(true)
  | _ => constr:(false)
  end.

Ltac bv_index x env :=
  lazymatch env with
  | (x, _) :: _ => constr:(O)
  | _ :: ?t => let i := bv_index x t in constr:(S i)
  end.

Ltac bv_reify env t :=
  lazymatch t with
  | Z.lor ?a ?b => let ra := bv_reify env a in let rb := bv_reify env b in constr:(BOr ra rb)
  | Z.land ?a ?c => let ra := bv_reify env a in constr:(BAnd ra c)
  | Z.shiftl ?a ?k => let ra := bv_reify env a in constr:(BShl ra k)
  | Z.shiftr ?a ?k => let ra := bv_reify env a in constr:(BShr ra k)
  | wrapu ?w ?a => let ra := bv_reify env a in constr:(BWrap w ra)
  | _ => lazymatch bv_cst t with
         | true => constr:(BCst t)
         | false => let i := bv_index t env in constr:(BVar i)
         end
  end.

Ltac bv_env_ok :=
  lazymatch goal with
  | |- Forall _ [] => exact (@List.Forall_nil _ _)
  | |- Forall _ (_ :: _) =>
      refine (@List.Forall_cons _ _ _ _ _ _); [simpl; unfold is_u in *; lia | bv_env_ok]
  end.

(** [bv_decide env] proves [x = y] for bit-vector expressions over the
    variables of [env], each given with its width. *)
Ltac bv_decide env :=
  lazymatch goal with
  | |- ?x = ?y =>
      let a := bv_reify env x in
      let b := bv_reify env y in
      change (den env a = den env b);
      apply (bv_check_sound env); [bv_env_ok | vm_compute; reflexivity]
  end.

(** An OR of disjoint bits is a sum. *)
Lemma lor_add a k b : 0 <= k -> 0 <= b < 2 ^ k -> Z.lor (a * 2 ^ k) b = a * 2 ^ k + b.
Proof.
  intros Hk Hb. rewrite <- Z.shiftl_mul_pow2 by done.
  assert (Z.land (Z.shiftl a k) b = 0) as E.
  { apply Z.bits_inj'. intros n Hn. rewrite Z.land_spec, Z.bits_0.
    destruct (Z.lt_ge_cases n k).
    - rewrite Z.shiftl_spec_low by done. done.
    - rewrite (testbit_high b k) by (done || lia). apply andb_false_r. }
  rewrite <- Z.lxor_lor by done. symmetry. by apply Z.add_nocarry_lxor.
Qed.
