(* ===== verification/Varint.v ===== *)
(** * Variable-length integers and big-endian words (util.c of the engine)

    The on-disk codec of the engine: [sqlite3PutVarint], [sqlite3GetVarint],
    [sqlite3GetVarint32], [sqlite3VarintLen], [sqlite3Get4byte] and
    [sqlite3Put4byte], transcribed with their 32-bit temporaries.  The
    unrolled readers are proved equal to a loop that collects seven bits per
    byte, and the writers and readers to be inverse to each other. *)

From S2P Require Import Prelude Bits.

Local Open Scope c_scope.

(** Memory from a pointer on: the byte at each offset. *)
Definition mem : Type := nat -> Z.
Definition mem_ok (p : mem) : Prop := forall i, is_byte (p i).
Definition mem_of (l : list Z) : mem := fun i => nth i l 0.
Definition mem_app (l : list Z) (q : mem) : mem :=
  fun i => if (i <? length l)%nat then nth i l 0 else q (i - length l)%nat.

Definition SLOT_2_0 : Z := 0x001fc07f.
Definition SLOT_4_2_0 : Z := 0xf01fc07f.
Definition SQLITE_MAX_U32 : Z := 0xffffffff.

Module Writer.

(** The branch of [putVarint64] for integers that need nine bytes: the last
    byte holds eight bits, the loop [i = 7 .. 0] fills the others. *)
Fixpoint put9_loop (i : nat) (v : Z) (acc : list Z) : list Z :=
  match i with
  | O => acc
  | S i => put9_loop i (v >> 7) (u8 ((v & 0x7f) ||| 0x80) :: acc)
  end.

(** The [do ... while] loop that fills [buf], least significant group first. *)
Fixpoint put_loop (fuel : nat) (v : Z) (buf : list Z) : list Z :=
  match fuel with
  | O => buf
  | S fuel =>
      let buf := buf ++ [u8 ((v & 0x7f) ||| 0x80)] in
      let v := v >> 7 in
      if v =? 0 then buf else put_loop fuel v buf
  end.

(** The bytes stored at [p[0]], [p[1]], ...; the C function returns their
    number.  [buf] has ten entries, which bounds the loop. *)
Definition putVarint64 (v : Z) : list Z :=
  if (v & (u64 (0xff000000 << 32))) =? 0 then
    match put_loop 10 v [] with
    | [] => []
    | b :: buf => rev ((b & 0x7f) :: buf)
    end
  else put9_loop 8 (v >> 8) [u8 v].

Definition sqlite3PutVarint (v : Z) : list Z :=
  if v <=? 0x7f then [u8 (v & 0x7f)]
  else if v <=? 0x3fff then [u8 (((v >> 7) & 0x7f) ||| 0x80); u8 (v & 0x7f)]
  else putVarint64 v.

Fixpoint varint_len_loop (fuel : nat) (i v : Z) : Z :=
  match fuel with
  | O => i
  | S fuel => let v := v >> 7 in if v =? 0 then i else varint_len_loop fuel (i + 1) v
  end.

(** The loop stops at the first zero shift, which for a 64-bit [v] comes
    within ten rounds. *)
Definition sqlite3VarintLen (v : Z) : Z := varint_len_loop 10 1 v.

Definition sqlite3Put4byte (v : Z) : list Z :=
  [u8 (v >> 24); u8 (v >> 16); u8 (v >> 8); u8 v].

End Writer.

Module Reader.

(** [sqlite3GetVarint] returns the value stored in [*v] and the number of
    bytes read. *)
Definition sqlite3GetVarint (p : mem) : Z * Z :=
  if p 0%nat <? 0x80 then (p 0%nat, 1)
  else if p 1%nat <? 0x80 then (u32 ((p 0%nat & 0x7f) << 7) ||| p 1%nat, 2)
  else
    let a := u32 (p 0%nat << 14) in
    let b := p 1%nat in
    let a := a ||| p 2%nat in
    if a & 0x80 =? 0 then
      let a := a & SLOT_2_0 in
      let b := b & 0x7f in
      let b := u32 (b << 7) in
      (a ||| b, 3)
    else
    let a := a & SLOT_2_0 in
    let b := u32 (b << 14) in
    let b := b ||| p 3%nat in
    if b & 0x80 =? 0 then
      let b := b & SLOT_2_0 in
      let a := u32 (a << 7) in
      (a ||| b, 4)
    else
    let b := b & SLOT_2_0 in
    let s := a in
    let a := u32 (a << 14) in
    let a := a ||| p 4%nat in
    if a & 0x80 =? 0 then
      let b := u32 (b << 7) in
      let a := a ||| b in
      let s := s >> 18 in
      (u64 (s << 32) ||| a, 5)
    else
    let s := u32 (s << 7) in
    let s := s ||| b in
    let b := u32 (b << 14) in
    let b := b ||| p 5%nat in
    if b & 0x80 =? 0 then
      let a := a & SLOT_2_0 in
      let a := u32 (a << 7) in
      let a := a ||| b in
      let s := s >> 18 in
      (u64 (s << 32) ||| a, 6)
    else
    let a := u32 (a << 14) in
    let a := a ||| p 6%nat in
    if a & 0x80 =? 0 then
      let a := a & SLOT_4_2_0 in
      let b := b & SLOT_2_0 in
      let b := u32 (b << 7) in
      let a := a ||| b in
      let s := s >> 11 in
      (u64 (s << 32) ||| a, 7)
    else
    let a := a & SLOT_2_0 in
    let b := u32 (b << 14) in
    let b := b ||| p 7%nat in
    if b & 0x80 =? 0 then
      let b := b & SLOT_4_2_0 in
      let a := u32 (a << 7) in
      let a := a ||| b in
      let s := s >> 4 in
      (u64 (s << 32) ||| a, 8)
    else
    let a := u32 (a << 15) in
    let a := a ||| p 8%nat in
    let b := b & SLOT_2_0 in
    let b := u32 (b << 8) in
    let a := a ||| b in
    let s := u32 (s << 4) in
    let b := p 4%nat in
    let b := b & 0x7f in
    let b := b >> 3 in
    let s := s ||| b in
    (u64 (s << 32) ||| a, 9).

(** [getVarint32] is defined as a macro before this function is compiled, so
    the one-byte case is compiled out of it. *)
Definition sqlite3GetVarint32 (p : mem) : Z * Z :=
  let a := p 0%nat in
  let b := p 1%nat in
  if b & 0x80 =? 0 then
    let a := a & 0x7f in
    let a := u32 (a << 7) in
    (a ||| b, 2)
  else
  let a := u32 (a << 14) in
  let a := a ||| p 2%nat in
  if a & 0x80 =? 0 then
    let a := a & ((0x7f << 14) ||| 0x7f) in
    let b := b & 0x7f in
    let b := u32 (b << 7) in
    (a ||| b, 3)
  else
    let '(v64, n) := sqlite3GetVarint p in
    if (v64 & SQLITE_MAX_U32) =? v64 then (u32 v64, n) else (0xffffffff, n).

(** The macro [getVarint32]: the one-byte case inline. *)
Definition getVarint32 (p : mem) : Z * Z :=
  if p 0%nat <? 0x80 then (p 0%nat, 1) else sqlite3GetVarint32 p.

Definition sqlite3Get4byte (p : mem) : Z :=
  u32 (p 0%nat << 24) ||| (p 1%nat << 16) ||| (p 2%nat << 8) ||| p 3%nat.

End Reader.

Module Spec.

(** The format's meaning: seven bits per byte, most significant group first,
    while the flag bit is set; a ninth byte gives its eight bits. *)
Fixpoint varint_ref (k i : nat) (acc : Z) (p : mem) : Z * Z :=
  match k with
  | O => ((acc << 8) ||| p i, Z.of_nat (S i))
  | S k =>
      if p i <? 0x80 then ((acc << 7) ||| p i, Z.of_nat (S i))
      else varint_ref k (S i) ((acc << 7) ||| (p i & 0x7f)) p
  end.
Definition varint (p : mem) : Z * Z := varint_ref 8 0 0 p.

(** The number of seven-bit groups of [v], nine at most. *)
Definition varint_size (v : Z) : nat :=
  if v <? 2 ^ 7 then 1 else if v <? 2 ^ 14 then 2 else if v <? 2 ^ 21 then 3
  else if v <? 2 ^ 28 then 4 else if v <? 2 ^ 35 then 5 else if v <? 2 ^ 42 then 6
  else if v <? 2 ^ 49 then 7 else if v <? 2 ^ 56 then 8 else 9.

(** The encoding with [n <= 8] groups: flag bits on all bytes but the last. *)
Definition group (v : Z) (k : nat) : Z := (v >> (7 * Z.of_nat k)) & 0x7f.
Definition enc_short (n : nat) (v : Z) : list Z :=
  map (fun k => group v k ||| 0x80) (rev (seq 1 (n - 1))) ++ [group v 0].
Definition enc_9 (v : Z) : list Z :=
  map (fun k => ((v >> (8 + 7 * Z.of_nat k)) & 0x7f) ||| 0x80) (rev (seq 0 8)) ++ [u8 v].
Definition enc (v : Z) : list Z :=
  if v <? 2 ^ 56 then enc_short (varint_size v) v else enc_9 v.

End Spec.

Import Writer Reader Spec.

Lemma flag_test b : is_byte b -> (b & 0x80 =? 0) = (b <? 0x80).
Proof.
  intros H. assert (b & 0x80 = ((b >> 7) << 7)) as -> by (bv_decide [(b, 8)]).
  rewrite Z.shiftl_mul_pow2, Z.shiftr_div_pow2 by lia. unfold is_u in H.
  pose proof (Z.div_mod b (2 ^ 7)). pose proof (Z.mod_pos_bound b (2 ^ 7)).
  destruct (Z.ltb_spec b 0x80), (Z.eqb_spec (b / 2 ^ 7 * 2 ^ 7) 0); lia.
Qed.

(** Decide the next flag test of the unrolled reader: [a]'s bit 7 is that of
    [b], whose value is below 0x80 in the branch that returns. *)
Ltac flag_step b env :=
  match goal with
  | |- context [?a & 0x80 =? 0] =>
      replace (a & 0x80) with (b & 0x80) by (symmetry; bv_decide env);
      rewrite (flag_test b) by assumption
  end;
  destruct (Z.ltb_spec b 0x80).

Ltac pair_bv env := apply (f_equal2 pair); [bv_decide env | reflexivity].

Lemma GetVarint_eq_ref p : mem_ok p -> sqlite3GetVarint p = varint p.
Proof.
  intros Hp. unfold sqlite3GetVarint, varint, varint_ref, SLOT_2_0, SLOT_4_2_0.
  generalize (Hp 0%nat), (Hp 1%nat), (Hp 2%nat), (Hp 3%nat), (Hp 4%nat), (Hp 5%nat),
    (Hp 6%nat), (Hp 7%nat), (Hp 8%nat); clear Hp.
  generalize (p 0%nat), (p 1%nat), (p 2%nat), (p 3%nat), (p 4%nat), (p 5%nat),
    (p 6%nat), (p 7%nat), (p 8%nat); clear p.
  intros b0 b1 b2 b3 b4 b5 b6 b7 b8 H0 H1 H2 H3 H4 H5 H6 H7 H8.
  destruct (Z.ltb_spec b0 0x80); [pair_bv [(b0,7)]|].
  destruct (Z.ltb_spec b1 0x80); [pair_bv [(b0,8);(b1,7)]|].
  flag_step b2 [(b0,8);(b2,8)]; [pair_bv [(b0,8);(b1,8);(b2,7)]|].
  flag_step b3 [(b1,8);(b3,8)]; [pair_bv [(b0,8);(b1,8);(b2,8);(b3,7)]|].
  flag_step b4 [(b0,8);(b2,8);(b4,8)]; [pair_bv [(b0,8);(b1,8);(b2,8);(b3,8);(b4,7)]|].
  flag_step b5 [(b1,8);(b3,8);(b5,8)];
    [pair_bv [(b0,8);(b1,8);(b2,8);(b3,8);(b4,8);(b5,7)]|].
  flag_step b6 [(b0,8);(b2,8);(b4,8);(b6,8)];
    [pair_bv [(b0,8);(b1,8);(b2,8);(b3,8);(b4,8);(b5,8);(b6,7)]|].
  flag_step b7 [(b1,8);(b3,8);(b5,8);(b7,8)];
    [pair_bv [(b0,8);(b1,8);(b2,8);(b3,8);(b4,8);(b5,8);(b6,8);(b7,7)]|].
  pair_bv [(b0,8);(b1,8);(b2,8);(b3,8);(b4,8);(b5,8);(b6,8);(b7,8);(b8,8)].
Qed.

Lemma shiftr_zero v k : 0 <= v -> 0 <= k -> (v >> k =? 0) = (v <? 2 ^ k).
Proof.
  intros. rewrite Z.shiftr_div_pow2 by lia. pose proof (Z.pow_pos_nonneg 2 k).
  destruct (Z.ltb_spec v (2 ^ k)).
  - rewrite Z.div_small by lia. done.
  - apply Z.eqb_neq. intros E. apply Z.div_small_iff in E; lia.
Qed.

Lemma group_shift v k : group (v >> 7) k = group v (S k).
Proof.
  unfold group. rewrite Z.shiftr_shiftr by lia. do 2 f_equal. lia.
Qed.

Lemma group_flag v k : 0 <= v -> u8 (group v k ||| 0x80) = group v k ||| 0x80.
Proof.
  intros. unfold group.
  assert (is_u 7 (Z.land (v >> (7 * Z.of_nat k)) (Z.ones 7))) as H1.
  { rewrite Z.land_ones by lia. apply Z.mod_pos_bound. done. }
  change 0x7f with (Z.ones 7). set (x := Z.land _ (Z.ones 7)) in *. bv_decide [(x, 7)].
Qed.

(** Seven-bit groups needed: [n] is least with [v < 2 ^ (7 n)], at least one. *)
Definition groups (n : nat) (v : Z) : Prop :=
  (0 < n)%nat /\ 0 <= v < 2 ^ (7 * Z.of_nat n) /\ (n = 1%nat \/ 2 ^ (7 * (Z.of_nat n - 1)) <= v).

Lemma groups_step n v : groups (S (S n)) v -> (v >> 7 =? 0) = false /\ groups (S n) (v >> 7).
Proof.
  unfold groups. intros (_ & [H0 H1] & [?|H2]); [lia|].
  replace (7 * (Z.of_nat (S (S n)) - 1)) with (7 + 7 * Z.of_nat n) in H2 by lia.
  replace (7 * Z.of_nat (S (S n))) with (7 + 7 * Z.of_nat (S n)) in H1 by lia.
  rewrite Z.pow_add_r in H1, H2 by lia. rewrite shiftr_zero by lia.
  assert (1 <= 2 ^ (7 * Z.of_nat n)) by (apply Z.lt_pred_le, Z.pow_pos_nonneg; lia).
  split; [apply Z.ltb_ge; nia|]. rewrite Z.shiftr_div_pow2 by lia.
  split; [lia|]. split; [split|right].
  - apply Z.div_pos; lia.
  - apply Z.div_lt_upper_bound; lia.
  - replace (7 * (Z.of_nat (S n) - 1)) with (7 * Z.of_nat n) by lia.
    apply Z.div_le_lower_bound; lia.
Qed.

Lemma groups_one v : groups 1 v -> 0 <= v /\ (v >> 7 =? 0) = true.
Proof. unfold groups. intros (_ & H & _). rewrite shiftr_zero by lia. lia. Qed.

Lemma put_loop_spec n : forall fuel v buf, (n <= fuel)%nat -> groups n v ->
  put_loop fuel v buf = buf ++ map (fun k => group v k ||| 0x80) (seq 0 n).
Proof.
  induction n as [|n IH]; intros fuel v buf Hf Hg; [unfold groups in Hg; lia|].
  destruct fuel as [|fuel]; [lia|]. simpl put_loop.
  replace (v & 0x7f) with (group v 0) by (unfold group; by rewrite Z.shiftr_0_r).
  assert (0 <= v) by (unfold groups in Hg; lia). rewrite group_flag by done.
  destruct n as [|n].
  - apply groups_one in Hg as [_ ->]. done.
  - apply groups_step in Hg as [-> Hg]. rewrite IH by (done || lia).
    rewrite <- app_assoc. f_equal. change (seq 0 (S (S n))) with (0%nat :: seq 1 (S n)).
    rewrite <- (seq_shift (S n) 0), map_cons, map_map. cbn [app]. f_equal.
    apply map_ext. intros k. by rewrite group_shift.
Qed.

Lemma varint_len_loop_spec n : forall fuel i v, (n <= fuel)%nat -> groups n v ->
  varint_len_loop fuel i v = i + Z.of_nat n - 1.
Proof.
  induction n as [|n IH]; intros fuel i v Hf Hg; [unfold groups in Hg; lia|].
  destruct fuel as [|fuel]; [lia|]. simpl. destruct n as [|n].
  - apply groups_one in Hg as [_ ->]. lia.
  - apply groups_step in Hg as [-> Hg]. rewrite IH by (done || lia). lia.
Qed.

Lemma groups_exists v : is_u 63 v -> exists n, (n <= 9)%nat /\ groups n v /\
  n = varint_size v.
Proof.
  unfold is_u, varint_size, groups. intros H.
  repeat match goal with |- context [v <? ?k] => destruct (Z.ltb_spec v k) end;
    (eexists; split; [|split; [|reflexivity]]; [lia|]; simpl; lia).
Qed.

Lemma land_0xff00 v : is_u 64 v -> (v & u64 (0xff000000 << 32) =? 0) = (v <? 2 ^ 56).
Proof.
  intros H. replace (v & u64 (0xff000000 << 32)) with ((v >> 56) << 56)
    by (change (u64 (0xff000000 << 32)) with 0xff00000000000000; bv_decide [(v, 64)]).
  rewrite <- shiftr_zero by (unfold is_u in H; lia).
  rewrite Z.shiftl_mul_pow2 by lia. destruct (Z.eqb_spec (v >> 56) 0) as [->|]; [done|].
  apply Z.eqb_neq. lia.
Qed.

Lemma enc_short_1 v : enc_short 1 v = [v & 0x7f].
Proof. unfold enc_short, group. simpl. by rewrite Z.shiftr_0_r. Qed.

Lemma putVarint64_spec v : is_u 64 v -> putVarint64 v = enc v.
Proof.
  intros H. unfold putVarint64, enc. rewrite land_0xff00 by done.
  destruct (Z.ltb_spec v (2 ^ 56)).
  - destruct (groups_exists v) as (n & Hn & Hg & ->); [unfold is_u in *; lia|].
    rewrite (put_loop_spec (varint_size v)) by (done || lia). simpl app.
    unfold enc_short. destruct (varint_size v) as [|n] eqn:E; [unfold groups in Hg; lia|].
    simpl. rewrite Nat.sub_0_r, map_rev. f_equal. f_equal.
    unfold group. rewrite Z.shiftr_0_r. bv_decide [(v, 64)].
  - unfold enc_9. cbn [put9_loop seq rev app map].
    repeat (apply (f_equal2 cons); [bv_decide [(v, 64)]|]). done.
Qed.

Lemma PutVarint_spec v : is_u 64 v -> sqlite3PutVarint v = enc v.
Proof.
  intros H. unfold sqlite3PutVarint.
  destruct (Z.leb_spec v 0x7f); [|destruct (Z.leb_spec v 0x3fff)]; [..|by apply putVarint64_spec].
  - unfold enc, varint_size. unfold is_u in H.
    replace (v <? 2 ^ 56) with true by lia. replace (v <? 2 ^ 7) with true by lia.
    rewrite enc_short_1. f_equal. bv_decide [(v, 64)].
  - unfold enc, varint_size. unfold is_u in H.
    replace (v <? 2 ^ 56) with true by lia. replace (v <? 2 ^ 7) with false by lia.
    replace (v <? 2 ^ 14) with true by lia. unfold enc_short, group. cbn [seq rev app map Nat.sub].
    f_equal; [|f_equal]; cbn; bv_decide [(v, 64)].
Qed.

Lemma enc_bytes_short n v : Forall is_byte (enc_short n v).
Proof.
  assert (forall k, is_u 7 (group v k)) as G.
  { intros k. unfold group. change 0x7f with (Z.ones 7). rewrite Z.land_ones by lia.
    apply Z.mod_pos_bound. done. }
  unfold enc_short. apply Forall_app. split.
  - apply List.Forall_map, List.Forall_forall. intros k _. specialize (G k).
    set (x := group v k) in *. apply (bv_bound [(x, 7)] ltac:(bv_env_ok) (BOr (BVar 0) (BCst 0x80))). done.
  - constructor; [|constructor]. specialize (G O). unfold is_u in *. lia.
Qed.

Lemma flag_set x : is_u 7 x -> (x ||| 0x80 <? 0x80) = false.
Proof.
  intros. replace (x ||| 0x80) with (x + 0x80); [unfold is_u in *; lia|].
  rewrite <- Z.lxor_lor by (bv_decide [(x, 7)]). apply Z.add_nocarry_lxor.
  bv_decide [(x, 7)].
Qed.

Lemma group_range v k : is_u 7 (group v k).
Proof.
  unfold group. change 0x7f with (Z.ones 7). rewrite Z.land_ones by lia.
  apply Z.mod_pos_bound. done.
Qed.

Lemma varint_enc_short n v q : (n <= 8)%nat -> groups n v ->
  varint (mem_app (enc_short n v) q) = (v, Z.of_nat n).
Proof.
  intros Hn (Hpos & Hv & _). pose proof (group_range v) as G.
  assert (forall k, (group v k ||| 0x80 <? 0x80) = false) as F
    by (intros; by apply flag_set).
  assert ((group v 0 <? 0x80) = true) as F0 by (specialize (G O); unfold is_u in G; lia).
  destruct n as [|[|[|[|[|[|[|[|[|n]]]]]]]]]; [lia|..|lia];
    unfold varint, varint_ref, mem_app, enc_short; cbn [seq rev app map Nat.sub length nth Nat.ltb Nat.leb];
    rewrite ?F, F0; unfold group; apply (f_equal2 pair); try reflexivity.
  all: match type of Hv with _ <= ?x < 2 ^ (7 * Z.of_nat ?m) =>
         let w := eval vm_compute in (7 * Z.of_nat m) in
         change (7 * Z.of_nat m) with w in Hv; bv_decide [(x, w)] end.
Qed.

Lemma varint_enc_9 v q : is_u 64 v -> varint (mem_app (enc_9 v) q) = (v, 9).
Proof.
  intros H. assert (forall j, (((v >> j) & 0x7f) ||| 0x80 <? 0x80) = false) as F.
  { intros j. apply flag_set. change 0x7f with (Z.ones 7). rewrite Z.land_ones by lia.
    apply Z.mod_pos_bound. done. }
  unfold varint, varint_ref, mem_app, enc_9.
  cbn [seq rev app map Nat.sub length nth Nat.ltb Nat.leb]. rewrite ?F.
  apply (f_equal2 pair); [|reflexivity]. bv_decide [(v, 64)].
Qed.

Lemma varint_enc v q : is_u 64 v ->
  varint (mem_app (enc v) q) = (v, Z.of_nat (length (enc v))).
Proof.
  intros H. unfold enc. destruct (Z.ltb_spec v (2 ^ 56)).
  - destruct (groups_exists v) as (n & Hn & Hg & ->); [unfold is_u in *; lia|].
    assert (varint_size v <= 8)%nat as Hs.
    { unfold varint_size. repeat case_match; lia. }
    rewrite varint_enc_short by done. f_equal. f_equal.
    unfold enc_short. destruct Hg as [? _]. simpl_list. simpl. lia.
  - rewrite varint_enc_9 by done. done.
Qed.

Lemma enc_9_bytes v : is_u 64 v -> Forall is_byte (enc_9 v).
Proof.
  intros. unfold enc_9. apply Forall_app. split.
  - apply List.Forall_map, List.Forall_forall. intros k _.
    assert (is_u 7 ((v >> (8 + 7 * Z.of_nat k)) & 0x7f)).
    { change 0x7f with (Z.ones 7). rewrite Z.land_ones by lia. apply Z.mod_pos_bound. done. }
    set (x := _ & 0x7f) in *.
    apply (bv_bound [(x, 7)] ltac:(bv_env_ok) (BOr (BVar 0) (BCst 0x80))). done.
  - repeat constructor; apply wrapu_range; lia.
Qed.

Lemma mem_app_ok l q : Forall is_byte l -> mem_ok q -> mem_ok (mem_app l q).
Proof.
  intros Hl Hq i. unfold mem_app. destruct (Nat.ltb_spec i (length l)); [|apply Hq].
  rewrite List.Forall_forall in Hl. apply Hl, nth_In. done.
Qed.

Lemma mem_of_ok l : forallb (fun b => (0 <=? b) && (b <? 256)) l = true -> mem_ok (mem_of l).
Proof.
  intros H i. rewrite forallb_forall in H. unfold mem_of.
  destruct (nth_in_or_default i l 0) as [E| ->]; [|unfold is_u; lia].
  apply H in E. unfold is_u. lia.
Qed.

Lemma enc_bytes v : is_u 64 v -> Forall is_byte (enc v).
Proof.
  intros. unfold enc. destruct (v <? 2 ^ 56); [apply enc_bytes_short|by apply enc_9_bytes].
Qed.

(** ** Properties *)

(** C20. Writing any 64-bit value with [sqlite3PutVarint] and reading it back
    with [sqlite3GetVarint], whatever bytes follow it in memory, returns the
    value and the number of bytes that were written. *)
Theorem varint_roundtrip v q :
  is_u 64 v -> mem_ok q ->
  sqlite3GetVarint (mem_app (sqlite3PutVarint v) q) =
    (v, Z.of_nat (length (sqlite3PutVarint v))).
Proof.
  intros Hv Hq. rewrite PutVarint_spec by done.
  rewrite GetVarint_eq_ref by (apply mem_app_ok; auto using enc_bytes).
  by apply varint_enc.
Qed.

Lemma varint_roundtrip_witness :
  sqlite3GetVarint (mem_app (sqlite3PutVarint (2 ^ 63 + 5)) (fun _ => 255)) = (2 ^ 63 + 5, 9).
Proof.
  rewrite (varint_roundtrip (2 ^ 63 + 5) (fun _ => 255)); [reflexivity| |]; unfold mem_ok, is_u; lia.
Defined.

Lemma varint_ref_n k : forall i acc p,
  Z.of_nat i < snd (varint_ref k i acc p) <= Z.of_nat i + Z.of_nat k + 1.
Proof.
  induction k as [|k IH]; intros i acc p; cbn [varint_ref]; [simpl; lia|].
  destruct (p i <? 0x80); [simpl; lia|]. specialize (IH (S i) ((acc << 7) ||| (p i & 0x7f)) p). lia.
Qed.

Lemma varint_ref_local k : forall i acc p q,
  (forall j, Z.of_nat j < snd (varint_ref k i acc p) -> q j = p j) ->
  varint_ref k i acc q = varint_ref k i acc p.
Proof.
  induction k as [|k IH]; intros i acc p q H; cbn [varint_ref] in *.
  - rewrite H; [done|simpl; lia].
  - assert (q i = p i) as E.
    { apply H. destruct (p i <? 0x80); [simpl; lia|].
      pose proof (varint_ref_n k (S i) ((acc << 7) ||| (p i & 0x7f)) p). lia. }
    rewrite E. destruct (p i <? 0x80); [done|]. by apply IH.
Qed.

Lemma lor_shift_bound acc w j b : is_u w acc -> is_u j b -> 0 <= w -> 0 <= j ->
  is_u (w + j) ((acc << j) ||| b).
Proof.
  unfold is_u. intros Ha Hb Hw Hj.
  assert (0 <= acc << j < 2 ^ (w + j)) as Hs.
  { rewrite Z.shiftl_mul_pow2, Z.pow_add_r by lia. pose proof (Z.pow_pos_nonneg 2 j). nia. }
  pose proof (lor_bound _ _ (w + j) j Hs Hb). replace (w + j) with (Z.max (w + j) j) by lia.
  apply H; lia.
Qed.

Lemma land7f x : is_u 7 (x & 0x7f).
Proof. change 0x7f with (Z.ones 7). rewrite Z.land_ones by lia. apply Z.mod_pos_bound. done. Qed.

Lemma varint_ref_bound k : forall i acc p, (k <= 8)%nat -> mem_ok p ->
  is_u (7 * (8 - Z.of_nat k)) acc -> is_u 64 (fst (varint_ref k i acc p)).
Proof.
  induction k as [|k IH]; intros i acc p Hk Hp Ha; cbn [varint_ref].
  - apply (lor_shift_bound acc 56 8); auto; lia.
  - destruct (Z.ltb_spec (p i) 0x80).
    + pose proof (Hp i). cbn [fst].
      pose proof (lor_shift_bound acc (7 * (8 - Z.of_nat (S k))) 7 (p i) Ha) as B.
      unfold is_u in *. assert (0 <= p i < 2 ^ 7) as H1 by lia.
      specialize (B H1 ltac:(lia) ltac:(lia)). split; [lia|].
      apply Z.lt_le_trans with (1 := proj2 B). apply Z.pow_le_mono_r; lia.
    + apply IH; [lia|done|].
      replace (7 * (8 - Z.of_nat k)) with (7 * (8 - Z.of_nat (S k)) + 7) by lia.
      apply lor_shift_bound; auto using land7f; lia.
Qed.

(** On any memory, [sqlite3GetVarint], with its 32-bit temporaries and
    unrolled branches, computes what the format defines (seven bits per byte,
    eight in the ninth); it consumes between one and nine bytes, its value
    fits 64 bits, and it depends on no byte beyond those it consumes. *)
Theorem getvarint_correct p :
  mem_ok p ->
  sqlite3GetVarint p = varint p /\
  1 <= snd (sqlite3GetVarint p) <= 9 /\
  is_u 64 (fst (sqlite3GetVarint p)) /\
  (forall q, mem_ok q ->
     (forall j, Z.of_nat j < snd (sqlite3GetVarint p) -> q j = p j) ->
     sqlite3GetVarint q = sqlite3GetVarint p).
Proof.
  intros Hp. rewrite GetVarint_eq_ref by done. split; [done|].
  split; [pose proof (varint_ref_n 8 0 0 p); unfold varint; lia|].
  split; [apply varint_ref_bound; auto; unfold is_u; simpl; lia|].
  intros q Hq H. rewrite GetVarint_eq_ref by done. by apply varint_ref_local.
Qed.

Lemma getvarint_correct_witness :
  sqlite3GetVarint (mem_of [0x81; 0x80; 0x05; 0x77]) = (16389, 3) /\
  is_u 64 (fst (sqlite3GetVarint (mem_of [0x81; 0x80; 0x05; 0x77]))).
Proof.
  split; [reflexivity|].
  apply (getvarint_correct (mem_of [0x81; 0x80; 0x05; 0x77])).
  apply mem_of_ok. reflexivity.
Defined.

(** Saturation to 32 bits, as the header comment of the function says. *)
Definition sat32 (v : Z) : Z := Z.min v 0xffffffff.

Lemma land_max_u32 v : is_u 64 v -> (v & SQLITE_MAX_U32 =? v) = (v <? 2 ^ 32).
Proof.
  intros H. unfold SQLITE_MAX_U32. change 0xffffffff with (Z.ones 32). rewrite Z.land_ones by lia.
  pose proof (Z.mod_pos_bound v (2 ^ 32)). unfold is_u in H.
  destruct (Z.ltb_spec v (2 ^ 32)); [rewrite Z.mod_small by lia; lia|lia].
Qed.

Lemma sat32_small v : v < 2 ^ 32 -> sat32 v = v.
Proof. unfold sat32. lia. Qed.

Lemma getVarint32_ref p : mem_ok p -> getVarint32 p = (sat32 (fst (varint p)), snd (varint p)).
Proof.
  intros Hp. rewrite <- GetVarint_eq_ref by done. pose proof (varint_ref_bound 8 0 0 p ltac:(lia) Hp ltac:(unfold is_u; simpl; lia)) as Hb.
  pose proof (GetVarint_eq_ref p Hp) as E. unfold getVarint32, sqlite3GetVarint32.
  pose proof (Hp 0%nat) as H0. pose proof (Hp 1%nat) as H1. pose proof (Hp 2%nat) as H2.
  destruct (Z.ltb_spec (p 0%nat) 0x80) as [L0|L0].
  { unfold sqlite3GetVarint. replace (p 0%nat <? 0x80) with true by lia. simpl.
    rewrite sat32_small; [done|lia]. }
  rewrite flag_test by done. destruct (Z.ltb_spec (p 1%nat) 0x80) as [L1|L1].
  { rewrite E in *. unfold varint, varint_ref in *. replace (p 0%nat <? 0x80) with false by lia.
    replace (p 1%nat <? 0x80) with true by lia. cbn [fst snd].
    apply (f_equal2 pair); [|done]. rewrite sat32_small; [bv_decide [(p 0%nat,8);(p 1%nat,7)]|].
    apply (bv_bound [(p 0%nat,8);(p 1%nat,8)] ltac:(bv_env_ok)
      (BOr (BShl (BOr (BShl (BCst 0) 7) (BAnd (BVar 0) 127)) 7) (BVar 1)) 32). done. }
  rewrite E in *. flag_step (p 2%nat) [(p 0%nat, 8); (p 2%nat, 8)].
  - unfold varint, varint_ref in *. replace (p 0%nat <? 0x80) with false by lia.
    replace (p 1%nat <? 0x80) with false by lia. replace (p 2%nat <? 0x80) with true by lia.
    cbn [fst snd]. apply (f_equal2 pair); [|done].
    rewrite sat32_small; [bv_decide [(p 0%nat,8);(p 1%nat,8);(p 2%nat,7)]|].
    apply (bv_bound [(p 0%nat,8);(p 1%nat,8);(p 2%nat,8)] ltac:(bv_env_ok)
      (BOr (BShl (BOr (BShl (BOr (BShl (BCst 0) 7) (BAnd (BVar 0) 127)) 7) (BAnd (BVar 1) 127)) 7)
         (BVar 2)) 32). done.
  - unfold varint in *. destruct (varint_ref 8 0 0 p) as [v n]. cbn [fst snd] in *.
    rewrite land_max_u32 by done. unfold sat32, is_u in *.
    destruct (Z.ltb_spec v (2 ^ 32)); f_equal; [rewrite wrapu_id; unfold is_u; lia|lia].
Qed.

(** The 32-bit reader (macro and function) agrees with the 64-bit reader:
    same length, and the same value saturated at 0xffffffff. *)
Theorem getvarint32_correct p :
  mem_ok p ->
  getVarint32 p = (sat32 (fst (sqlite3GetVarint p)), snd (sqlite3GetVarint p)).
Proof. intros Hp. rewrite GetVarint_eq_ref by done. by apply getVarint32_ref. Qed.

Lemma getvarint32_correct_witness :
  getVarint32 (mem_of [0xff; 0xff; 0xff; 0xff; 0xff; 0x7f]) = (0xffffffff, 6).
Proof.
  rewrite (getvarint32_correct (mem_of [0xff; 0xff; 0xff; 0xff; 0xff; 0x7f])); [reflexivity|].
  apply mem_of_ok. reflexivity.
Defined.

Lemma VarintLen_enc v : is_u 63 v -> sqlite3VarintLen v = Z.of_nat (length (enc v)).
Proof.
  intros Hv. unfold sqlite3VarintLen.
  destruct (groups_exists v) as (n & Hn & Hg & ->); [done|].
  rewrite (varint_len_loop_spec (varint_size v)) by (done || lia). unfold enc.
  destruct (Z.ltb_spec v (2 ^ 56)).
  - unfold enc_short. destruct Hg as [? _]. simpl_list. simpl. lia.
  - unfold varint_size, is_u in *. repeat case_match; try lia. done.
Qed.

(** [sqlite3VarintLen] is the number of bytes [sqlite3PutVarint] writes for
    every value below 2^63; from 2^63 on it answers 10 although the encoding
    has nine bytes. *)
Theorem varint_len_correct v :
  is_u 64 v ->
  sqlite3VarintLen v =
    if v <? 2 ^ 63 then Z.of_nat (length (sqlite3PutVarint v))
    else Z.of_nat (length (sqlite3PutVarint v)) + 1.
Proof.
  intros Hv. rewrite PutVarint_spec by done.
  destruct (Z.ltb_spec v (2 ^ 63)); [apply VarintLen_enc; unfold is_u in *; lia|].
  unfold sqlite3VarintLen.
  rewrite (varint_len_loop_spec 10); [|lia|unfold groups, is_u in *; simpl; lia].
  unfold enc. replace (v <? 2 ^ 56) with false by lia. done.
Qed.

Lemma varint_len_correct_witness :
  sqlite3VarintLen 300 = 2 /\ sqlite3VarintLen (2 ^ 63) = 10 /\ length (sqlite3PutVarint (2 ^ 63)) = 9%nat.
Proof.
  split; [|split].
  - rewrite (varint_len_correct 300); [reflexivity|unfold is_u; lia].
  - rewrite (varint_len_correct (2 ^ 63)); [reflexivity|unfold is_u; lia].
  - reflexivity.
Defined.

(** Big-endian words: [sqlite3Get4byte] inverts [sqlite3Put4byte] on every
    32-bit value, [sqlite3Put4byte] inverts [sqlite3Get4byte] on every four
    bytes, and the value read always fits 32 bits. *)
Theorem fourbyte_roundtrip :
  (forall v q, is_u 32 v -> sqlite3Get4byte (mem_app (sqlite3Put4byte v) q) = v) /\
  (forall a b c d q, is_byte a -> is_byte b -> is_byte c -> is_byte d ->
     sqlite3Put4byte (sqlite3Get4byte (mem_app [a; b; c; d] q)) = [a; b; c; d]) /\
  (forall p, mem_ok p -> is_u 32 (sqlite3Get4byte p)).
Proof.
  split; [|split].
  - intros v q Hv. unfold sqlite3Get4byte, sqlite3Put4byte, mem_app. cbn [length nth Nat.ltb Nat.leb].
    bv_decide [(v, 32)].
  - intros a b c d q Ha Hb Hc Hd. unfold sqlite3Get4byte, sqlite3Put4byte, mem_app.
    cbn [length nth Nat.ltb Nat.leb].
    repeat (apply (f_equal2 cons); [bv_decide [(a,8);(b,8);(c,8);(d,8)]|]). done.
  - intros p Hp. unfold sqlite3Get4byte.
    pose proof (Hp 0%nat). pose proof (Hp 1%nat). pose proof (Hp 2%nat). pose proof (Hp 3%nat).
    apply (bv_bound [(p 0%nat,8);(p 1%nat,8);(p 2%nat,8);(p 3%nat,8)] ltac:(bv_env_ok)
      (BOr (BOr (BOr (BWrap 32 (BShl (BVar 0) 24)) (BShl (BVar 1) 16)) (BShl (BVar 2) 8)) (BVar 3)) 32).
    done.
Qed.
