(* ===== verification/VfsErrors.v ===== *)
(** * Error mapping of the remote-file VFS (sqlite_duckdb_vfs_cache.cpp)

    How an exception thrown by DuckDB's file systems becomes a SQLite result
    code and a recorded message: [ExtractHttpStatus], [IsHttpError],
    [HttpStatusToSqliteError], [GetHttpStatus], [BuildSidecarUrl],
    [SidecarConfirmedAbsent] and [SafeVFSCall]. *)

From S2P Require Import Prelude.


(** ** SQLite result codes (sqlite3.h) *)

Definition SQLITE_OK : Z := 0.
Definition SQLITE_PERM : Z := 3.
Definition SQLITE_BUSY : Z := 5.
Definition SQLITE_READONLY : Z := 8.
Definition SQLITE_IOERR : Z := 10.
Definition SQLITE_NOTFOUND : Z := 12.
Definition SQLITE_CANTOPEN : Z := 14.
Definition SQLITE_IOERR_READ : Z := Z.lor SQLITE_IOERR (Z.shiftl 1 8).
Definition SQLITE_IOERR_SHORT_READ : Z := Z.lor SQLITE_IOERR (Z.shiftl 2 8).
Definition SQLITE_IOERR_DELETE : Z := Z.lor SQLITE_IOERR (Z.shiftl 10 8).
Definition SQLITE_OPEN_READONLY : Z := 1.
Definition SQLITE_IOCAP_IMMUTABLE : Z := 0x2000.

(** ** Exceptions

    A caught [std::exception] with what [ErrorData] makes of it: the raw
    [what()] text, the type, the readable message and the extra-info map. *)

Inductive ExceptionType : Type := ET_HTTP | ET_PERMISSION | ET_IO | ET_OTHER (n : nat).
#[export] Instance ExceptionType_eq_dec : EqDecision ExceptionType.
Proof. solve_decision. Defined.

Record exn : Type := mk_exn {
  what : string;
  exn_type : ExceptionType;
  RawMessage : string;
  ExtraInfo : gmap string string;
}.

(** What a guarded callback does: return a code, throw a [std::exception], or
    throw something else. *)
Inductive outcome (A : Type) : Type :=
| Returns (a : A)
| Throws (e : exn)
| ThrowsUnknown.
Arguments Returns {A} a.
Arguments Throws {A} e.
Arguments ThrowsUnknown {A}.

(** ** String primitives of the C++ standard library *)

(** [s.find(c)] for a character: the text before its first occurrence and the
    text from it on. *)
Fixpoint split_at_char (c : ascii) (s : string) : option (string * string) :=
  match s with
  | EmptyString => None
  | String a s' =>
      if decide (a = c) then Some ("", s)
      else match split_at_char c s' with
           | Some (l, r) => Some (String a l, r)
           | None => None
           end
  end.

(** [s.find(p) != npos]. *)
Fixpoint str_has (s p : string) : bool :=
  String.prefix p s || match s with EmptyString => false | String _ s' => str_has s' p end.

(** Build a sidecar URL by inserting the suffix before any query. *)
Definition BuildSidecarUrl (path suffix : string) : string :=
  match split_at_char "?"%char path with
  | None => path +:+ suffix
  | Some (l, r) => l +:+ suffix +:+ r
  end.

Definition HttpStatusToSqliteError (http_status : Z) : Z :=
  if http_status =? 404 then SQLITE_CANTOPEN
  else if http_status =? 429 then SQLITE_BUSY
  else 0.

Section Mapping.
(** DuckDB functions the mapping calls: substring search, the RE2 search of
    the status pattern (the groups of the leftmost match, the whole match
    first), and the cast of a text to a 32-bit integer. *)
Context (str_contains : string -> string -> bool).
Context (regex_search : string -> option (list string)).
Context (try_cast_int32 : string -> option Z).

Definition HTTP_ERROR_PATTERNS : list string :=
  ["Unable to connect to URL"; "Could not establish connection"; "HTTP HEAD to"; "HTTP GET to"].

(** The loop over the groups [1 ..]: the first non-empty one that casts. *)
Fixpoint first_status (groups : list string) : option Z :=
  match groups with
  | [] => None
  | g :: gs =>
      if decide (g = "") then first_status gs
      else match try_cast_int32 g with Some r => Some r | None => first_status gs end
  end.

Definition ExtractHttpStatus (error_msg : string) : Z :=
  match regex_search error_msg with
  | Some (_ :: groups) => default 0 (first_status groups)
  | _ => 0
  end.

Definition IsHttpError (error_msg : string) : bool :=
  existsb (str_contains error_msg) HTTP_ERROR_PATTERNS.

Definition GetHttpStatus (e : exn) (error_msg : string) : Z :=
  match ExtraInfo e !! "status_code" with
  | Some s => match try_cast_int32 s with
              | Some code => code
              | None => ExtractHttpStatus error_msg
              end
  | None => ExtractHttpStatus error_msg
  end.

Definition SidecarConfirmedAbsent (e : exn) : bool :=
  let error_msg := what e in
  let http_status := GetHttpStatus e error_msg in
  (http_status =? 404) ||
  ((http_status =? 0) && negb (bool_decide (exn_type e = ET_HTTP)) && negb (IsHttpError error_msg) &&
   (str_contains error_msg "No files found" || str_contains error_msg "does not exist" ||
    str_contains error_msg "No such file")).

(** The message with the optional path, as each branch composes it. *)
Definition full_error (head clean sep : string) (path : option string) : string :=
  match path with
  | None => head +:+ clean
  | Some p => head +:+ clean +:+ sep +:+ p +:+ ")"
  end.

(** The code and the message for a [std::exception]. *)
Definition map_exception (error_value : Z) (e : exn) (path : option string) : Z * string :=
  let error_msg := what e in
  let http_status := GetHttpStatus e error_msg in
  let clean_msg := RawMessage e in
  if negb (http_status =? 0) || bool_decide (exn_type e = ET_HTTP) || IsHttpError error_msg then
    let msg := full_error "HTTP Error: " clean_msg " (URL: " path in
    let sqlite_error := HttpStatusToSqliteError http_status in
    if negb (sqlite_error =? 0) then (sqlite_error, msg)
    else if str_has error_msg "Unable to connect to URL" ||
            str_has error_msg "Could not establish connection" then
      (if error_value =? SQLITE_OK then SQLITE_CANTOPEN else error_value, msg)
    else (if error_value =? SQLITE_OK then SQLITE_IOERR else error_value, msg)
  else if bool_decide (exn_type e = ET_PERMISSION) || str_has error_msg "Permission" then
    (if error_value =? SQLITE_OK then SQLITE_PERM else error_value,
     full_error "Permission denied: " clean_msg " (Path: " path)
  else (error_value, full_error "Error: " clean_msg " (Path: " path).

(** [SafeVFSCall]: the code returned into SQLite's C frame and the message
    recorded on the wrapper, when there is one.  [diag_fails] is true when
    the diagnosis itself throws (for want of memory), which the inner guard
    turns into the default code. *)
Definition SafeVFSCall (error_value : Z) (func : outcome Z) (has_wrapper : bool)
    (path : option string) (diag_fails : bool) : Z * option string :=
  match func with
  | Returns rc => (rc, None)
  | Throws e =>
      if diag_fails then (error_value, None)
      else let '(rc, msg) := map_exception error_value e path in
           (rc, if has_wrapper then Some msg else None)
  | ThrowsUnknown =>
      (error_value, if has_wrapper && negb diag_fails then Some "Unknown error occurred" else None)
  end.
End Mapping.

(** ** Lemmas *)

Fixpoint str_in (c : ascii) (s : string) : Prop :=
  match s with EmptyString => False | String a s' => a = c \/ str_in c s' end.

Lemma split_at_char_spec c s l r :
  split_at_char c s = Some (l, r) -> s = l +:+ r /\ ~ str_in c l /\ exists r', r = String c r'.
Proof.
  revert l r. induction s as [|a s IH]; simpl; intros l r H; [done|].
  case_decide as E; [simplify_eq; simpl; split; [done|split; [tauto|by eexists]]|].
  destruct (split_at_char c s) as [[l' r']|]; [|done]. injection H as <- <-.
  destruct (IH l' r' eq_refl) as (-> & N & X). rewrite str_app_cons. simpl. split; [done|]. split; [tauto|done].
Qed.

Lemma split_at_char_None c s : split_at_char c s = None -> ~ str_in c s.
Proof.
  induction s as [|a s IH]; simpl; intros H; [tauto|]. case_decide as E; [done|].
  destruct (split_at_char c s) as [[]|]; [done|]. specialize (IH eq_refl). tauto.
Qed.

Lemma split_at_char_app c l r : ~ str_in c l ->
  split_at_char c (l +:+ String c r) = Some (l, String c r).
Proof.
  induction l as [|a l IH]; rewrite ?str_app_nil, ?str_app_cons; simpl; intros H;
    [by rewrite decide_True|].
  rewrite decide_False by tauto. by rewrite IH by tauto.
Qed.

Lemma HttpStatusToSqliteError_nz st : st <> 404 -> st <> 429 -> HttpStatusToSqliteError st = 0.
Proof. unfold HttpStatusToSqliteError. intros. repeat case_match; lia. Qed.

(** ** Properties *)

Section MappingProps.
Context (str_contains : string -> string -> bool).
Context (regex_search : string -> option (list string)).
Context (try_cast_int32 : string -> option Z).
Let GetStatus := GetHttpStatus regex_search try_cast_int32.
Let SafeCall := SafeVFSCall str_contains regex_search try_cast_int32.

End MappingProps.


(** A sidecar URL is the path with the suffix placed before its query: for a
    path without [?] the suffix is appended, and for a path [l ++ "?" ++ q]
    whose part [l] has no [?] the result is [l ++ suffix ++ "?" ++ q]. *)
Theorem sidecar_url_before_query (l q suffix : string) :
  ~ str_in "?" l ->
  BuildSidecarUrl l suffix = l +:+ suffix /\
  BuildSidecarUrl (l +:+ String "?" q) suffix = l +:+ suffix +:+ String "?" q.
Proof.
  intros H. unfold BuildSidecarUrl. rewrite split_at_char_app by done. split; [|done].
  destruct (split_at_char "?" l) as [[a b]|] eqn:E; [|done]. exfalso.
  apply split_at_char_spec in E as (-> & _ & r' & ->). apply H. clear.
  induction a; rewrite ?str_app_nil, ?str_app_cons; simpl; auto.
Qed.

Lemma sidecar_url_before_query_witness :
  BuildSidecarUrl "https://h/a.db?sig=1" "-wal" = "https://h/a.db-wal?sig=1".
Proof.
  refine (proj2 (sidecar_url_before_query "https://h/a.db" "sig=1" "-wal" _)).
  simpl. intuition discriminate.
Defined.
