(* ===== verification/CachedFile.v ===== *)
(** * A remote database file behind the cache VFS (class DuckDBCachedFile)

    Lazy initialisation with the live-sidecar guard, the memoised failure, and
    page reads with zero padding (sqlite_duckdb_vfs_cache.cpp).  DuckDB's
    caching file system is a parameter: opening a path, asking a handle for its
    size and reading bytes from it, each of which may throw. *)

From S2P Require Import Prelude VfsErrors.

Section CachedFile.
Context {handle : Type}.
Context (str_contains : string -> string -> bool).
Context (regex_search : string -> option (list string)).
Context (try_cast_int32 : string -> option Z).
Context (IsRemoteFile : string -> bool).
(** [IOException(msg)]: the exception object for a message. *)
Context (IOException : string -> exn).

(** The caching file system of a client context.  [fs_open path direct_io]. *)
Record fsys : Type := {
  fs_open : string -> bool -> res exn handle;
  fs_size : handle -> res exn Z;
  fs_read : handle -> Z -> Z -> res exn (list Z);
}.

Record DuckDBCachedFile : Type := mk_cached {
  cf_path : string;
  caching_handle : option handle;
  initialized : bool;
  init_failed : bool;
  init_error_message : string;
  cached_file_size : Z;
}.

(** The constructor defers the open. *)
Definition new_cached_file (path : string) : DuckDBCachedFile :=
  mk_cached path None false false "" (-1).

(** The sixteen bytes of the string literal, its terminating NUL included. *)
Definition SQLITE_MAGIC : list Z :=
  [83; 81; 76; 105; 116; 101; 32; 102; 111; 114; 109; 97; 116; 32; 51; 0].

(** The texts of the four refusals, with the path (and the reason) filled in. *)
Definition msg_wal_unverified (path why : string) : string :=
  "Cannot verify whether remote SQLite database " +:+ dq +:+ path +:+ dq +:+
  " is in WAL mode: probing its " +:+ dq +:+ "-wal" +:+ dq +:+ " sidecar failed (" +:+ why +:+
  "). Refusing to read rather than risk serving a stale snapshot. Checkpoint the database into " +:+
  "a single file (PRAGMA wal_checkpoint(TRUNCATE), or VACUUM INTO), or make the " +:+ dq +:+
  "-wal" +:+ dq +:+ " URL reachable.".
Definition msg_wal_live (path : string) : string :=
  "Cannot read remote SQLite database " +:+ dq +:+ path +:+ dq +:+ " in WAL mode: its " +:+ dq +:+
  "-wal" +:+ dq +:+ " sidecar holds changes this read-only reader cannot apply. Checkpoint it " +:+
  "into a single file (PRAGMA wal_checkpoint(TRUNCATE), or VACUUM INTO) before serving it.".
Definition msg_journal_unverified (path why : string) : string :=
  "Cannot verify whether remote SQLite database " +:+ dq +:+ path +:+ dq +:+
  " has a hot rollback journal: probing its " +:+ dq +:+ "-journal" +:+ dq +:+ " sidecar failed (" +:+
  why +:+ "). Refusing to read rather than risk serving an inconsistent snapshot. Serve a " +:+
  "cleanly-closed database, or make the " +:+ dq +:+ "-journal" +:+ dq +:+ " URL reachable.".
Definition msg_journal_hot (path : string) : string :=
  "Cannot read remote SQLite database " +:+ dq +:+ path +:+ dq +:+ ": its " +:+ dq +:+ "-journal" +:+
  dq +:+ " sidecar holds a hot rollback journal from an interrupted write, which this read-only " +:+
  "reader cannot replay. Serve a cleanly-closed database.".

Section WithFs.
Context (fs : fsys).

Definition sidecar_absent : exn -> bool :=
  SidecarConfirmedAbsent str_contains regex_search try_cast_int32.

(** The size of the "-wal" sidecar, or what its probe threw. *)
Definition wal_probe (path : string) (direct : bool) : res exn Z :=
  h ← fs_open fs (BuildSidecarUrl path "-wal") direct;
  fs_size fs h.

(** Whether the "-journal" sidecar is hot, or what its probe threw. *)
Definition journal_probe (path : string) (direct : bool) : res exn bool :=
  h ← fs_open fs (BuildSidecarUrl path "-journal") direct;
  sz ← fs_size fs h;
  if 0 <? sz then
    bs ← fs_read fs h 1 0;
    Ok (negb (nth 0 bs 0 =? 0))
  else Ok false.

Definition check_wal (path : string) (direct : bool) : res exn unit :=
  match wal_probe path direct with
  | Ok wal_size =>
      if 32 <? wal_size then Throw (IOException (msg_wal_live path)) else Ok tt
  | Throw e =>
      if sidecar_absent e then Ok tt
      else Throw (IOException (msg_wal_unverified path (RawMessage e)))
  end.

Definition check_journal (path : string) (direct : bool) : res exn unit :=
  match journal_probe path direct with
  | Ok hot => if (hot : bool) then Throw (IOException (msg_journal_hot path)) else Ok tt
  | Throw e =>
      if sidecar_absent e then Ok tt
      else Throw (IOException (msg_journal_unverified path (RawMessage e)))
  end.

(** [InitializeFromRemote]: the handle and size to commit, or the throw. *)
Definition InitializeFromRemote (path : string) : res exn (handle * Z) :=
  let direct := IsRemoteFile path in
  new_handle ← fs_open fs path direct;
  raw_size ← fs_size fs new_handle;
  let size := i64 raw_size in
  _ ← (if 20 <=? size then
         header ← fs_read fs new_handle 20 0;
         let is_sqlite := bool_decide (take 16 header = SQLITE_MAGIC) in
         let wal_mode := 2 <=? nth 19 header 0 in
         if is_sqlite && wal_mode then check_wal path direct
         else if is_sqlite then check_journal path direct
         else Ok tt
       else Ok tt);
  Ok (new_handle, size).

Definition EnsureInitialized (f : DuckDBCachedFile) : DuckDBCachedFile * res exn unit :=
  if initialized f then (f, Ok tt)
  else if init_failed f then (f, Throw (IOException (init_error_message f)))
  else
    match InitializeFromRemote (cf_path f) with
    | Throw e =>
        (mk_cached (cf_path f) (caching_handle f) (initialized f) true (RawMessage e)
           (cached_file_size f), Throw e)
    | Ok (h, size) =>
        (mk_cached (cf_path f) (Some h) true (init_failed f) (init_error_message f) size, Ok tt)
    end.

(** [Read]: the result code and what the buffer of [amount] bytes holds
    afterwards, [None] when it was not written.  [has_buffer] is false for
    a null pointer. *)
Definition Read (f : DuckDBCachedFile) (has_buffer : bool) (amount offset : Z)
    : DuckDBCachedFile * res exn (Z * option (list Z)) :=
  if (offset <? 0) || (amount <? 0) then (f, Ok (SQLITE_IOERR_READ, None))
  else if negb has_buffer || (amount =? 0) then (f, Ok (SQLITE_OK, None))
  else
    let '(f, r) := EnsureInitialized f in
    match r with
    | Throw e => (f, Throw e)
    | Ok _ =>
        match caching_handle f with
        | None => (f, Ok (SQLITE_IOERR_READ, None))
        | Some h =>
            let file_size := cached_file_size f in
            if file_size <? 0 then (f, Ok (SQLITE_IOERR_READ, None))
            else if file_size <=? offset then
              (f, Ok (SQLITE_IOERR_SHORT_READ, Some (replicate (Z.to_nat amount) 0)))
            else
              let available_bytes := file_size - offset in
              let bytes_to_read := if available_bytes <? amount then i32 available_bytes else amount in
              match fs_read fs h bytes_to_read offset with
              | Throw e => (f, Throw e)
              | Ok bs =>
                  let buf := take (Z.to_nat bytes_to_read) bs in
                  let buf := if bytes_to_read <? amount
                             then buf ++ replicate (Z.to_nat (amount - bytes_to_read)) 0 else buf in
                  (f, Ok (if bytes_to_read <? amount then SQLITE_IOERR_SHORT_READ else SQLITE_OK,
                          Some buf))
              end
        end
    end.

Definition GetFileSize (f : DuckDBCachedFile) : DuckDBCachedFile * res exn Z :=
  let '(f, r) := EnsureInitialized f in
  match r with
  | Throw e => (f, Throw e)
  | Ok _ => (f, Ok (cached_file_size f))
  end.
End WithFs.
End CachedFile.

Arguments fsys : clear implicits.
Arguments DuckDBCachedFile : clear implicits.

(** ** Properties *)

Section Props.
Context {handle : Type}.
Context (str_contains : string -> string -> bool).
Context (regex_search : string -> option (list string)).
Context (try_cast_int32 : string -> option Z).
Context (IsRemoteFile : string -> bool).
Context (IOException : string -> exn).
Let absent := SidecarConfirmedAbsent str_contains regex_search try_cast_int32.
Let Init := @InitializeFromRemote handle str_contains regex_search try_cast_int32 IsRemoteFile IOException.
Let Ensure := @EnsureInitialized handle str_contains regex_search try_cast_int32 IsRemoteFile IOException.
Let ReadF := @Read handle str_contains regex_search try_cast_int32 IsRemoteFile IOException.
Let SizeF := @GetFileSize handle str_contains regex_search try_cast_int32 IsRemoteFile IOException.

(** What SQLite requires of xRead on a file with content [data]: the buffer
    holds the bytes from the offset on, zeros beyond the end of the file, and
    the code says whether the read was short. *)
Definition xread_spec (data : list Z) (amount offset : nat) : Z * list Z :=
  let got := take amount (drop offset data) in
  (if decide (offset + amount <= length data)%nat then SQLITE_OK else SQLITE_IOERR_SHORT_READ,
   got ++ replicate (amount - length got) 0).

(** The file system serves the bytes of [data] through [h]. *)
Definition serves (fs : fsys handle) (h : handle) (data : list Z) : Prop :=
  forall n off, (0 < n)%nat -> (off + n <= length data)%nat ->
    fs_read fs h (Z.of_nat n) (Z.of_nat off) = Ok (take n (drop off data)).

(** An initialised file over [data]. *)
Definition ready (f : DuckDBCachedFile handle) (h : handle) (data : list Z) : Prop :=
  initialized f = true /\ caching_handle f = Some h /\ cached_file_size f = Z.of_nat (length data).

(** C6. Reads refine the contract of xRead: on an initialised file that serves
    the bytes [data], every read of [amount > 0] bytes at [offset] leaves the
    file object unchanged, fills the whole buffer with the content and zeros
    past the end, and returns SQLITE_IOERR_SHORT_READ exactly for the reads
    that pass the end of the file. *)
Theorem read_refines_xread (fs : fsys handle) f h data (amount offset : nat) :
  ready f h data -> serves fs h data ->
  (0 < amount)%nat -> Z.of_nat amount < 2 ^ 31 -> Z.of_nat (length data) < 2 ^ 63 ->
  ReadF fs f true (Z.of_nat amount) (Z.of_nat offset) =
    (f, Ok (fst (xread_spec data amount offset), Some (snd (xread_spec data amount offset)))) /\
  length (snd (xread_spec data amount offset)) = amount.
Proof.
  intros (Hi & Hh & Hs) Hserve Ha Ham Hlen. split.
  2:{ unfold xread_spec. simpl. rewrite length_app, length_replicate, length_take, length_drop. lia. }
  subst ReadF. unfold Read, EnsureInitialized. rewrite Hi, Hh, Hs.
  replace ((Z.of_nat offset <? 0) || (Z.of_nat amount <? 0)) with false by lia.
  replace (negb true || (Z.of_nat amount =? 0)) with false by (simpl; lia).
  replace (Z.of_nat (length data) <? 0) with false by lia. unfold xread_spec.
  destruct (Z.leb_spec (Z.of_nat (length data)) (Z.of_nat offset)) as [L|L].
  { rewrite drop_ge by lia. rewrite take_nil. simpl. rewrite decide_False by lia.
    rewrite Nat.sub_0_r, Nat2Z.id. done. }
  destruct (Z.ltb_spec (Z.of_nat (length data) - Z.of_nat offset) (Z.of_nat amount)) as [S|S].
  - rewrite wraps_id by (unfold is_s; lia).
    replace (Z.of_nat (length data) - Z.of_nat offset) with (Z.of_nat (length data - offset)) by lia.
    rewrite Hserve by lia.
    replace (Z.of_nat (length data - offset) <? Z.of_nat amount) with true by lia.
    rewrite decide_False by lia.
    rewrite Nat2Z.id, take_take, Nat.min_id.
    rewrite !take_ge by (rewrite length_drop; lia). rewrite length_drop. simpl.
    replace (Z.to_nat _) with (amount - (length data - offset))%nat by lia. done.
  - rewrite Hserve by lia. replace (Z.of_nat amount <? Z.of_nat amount) with false by lia.
    rewrite decide_True by lia. rewrite Nat2Z.id, take_take, Nat.min_id. simpl.
    rewrite length_take, length_drop. replace (amount - _)%nat with 0%nat by lia. by rewrite app_nil_r.
Qed.

Lemma init_ok_inv fs path h size :
  Init fs path = Ok (h, size) ->
  exists raw, fs_open fs path (IsRemoteFile path) = Ok h /\ fs_size fs h = Ok raw /\ size = i64 raw /\
    (20 <= size -> exists header, fs_read fs h 20 0 = Ok header /\
       (take 16 header = SQLITE_MAGIC ->
          (2 <= nth 19 header 0 ->
             check_wal str_contains regex_search try_cast_int32 IOException fs path (IsRemoteFile path) = Ok tt) /\
          (nth 19 header 0 < 2 ->
             check_journal str_contains regex_search try_cast_int32 IOException fs path (IsRemoteFile path) = Ok tt))).
Proof.
  subst Init. unfold InitializeFromRemote. simpl.
  destruct (fs_open fs path _) as [h'|] eqn:E1; simpl; [|done].
  destruct (fs_size fs h') as [raw|] eqn:E2; simpl; [|done].
  destruct (Z.leb_spec 20 (i64 raw)) as [L|L]; simpl.
  2:{ intros [= <- <-]. exists raw. split; [done|]. split; [done|]. split; [done|]. lia. }
  destruct (fs_read fs h' 20 0) as [header|] eqn:E3; simpl; [|done].
  intros H. exists raw.
  assert (h' = h /\ size = i64 raw) as [-> ->].
  { destruct (if _ && _ then _ else _); simplify_eq/=; auto. }
  split; [done|]. split; [done|]. split; [done|]. intros _. exists header. split; [done|].
  intros Hm. rewrite bool_decide_true in H by done. simpl in H.
  destruct (Z.leb_spec 2 (nth 19 header 0)); split; intros ?; try lia.
  - destruct (check_wal _ _ _ _ _ _ _) as [[]|]; done.
  - destruct (check_journal _ _ _ _ _ _ _) as [[]|]; done.
Qed.


(** A failed initialisation is remembered: the failing call leaves the
    handle and size members as they were, and every later read or size query
    (on any state of the network, so without any I/O) fails with an exception
    carrying the first failure's message and leaves the object unchanged. *)
Theorem init_failure_memoised fs path e :
  Init fs path = Throw e ->
  let f := fst (Ensure fs (new_cached_file path)) in
  snd (Ensure fs (new_cached_file path)) = Throw e /\
  caching_handle f = None /\ cached_file_size f = -1 /\ initialized f = false /\
  forall fs' amount offset, 0 < amount -> 0 <= offset ->
    Ensure fs' f = (f, Throw (IOException (RawMessage e))) /\
    ReadF fs' f true amount offset = (f, Throw (IOException (RawMessage e))) /\
    SizeF fs' f = (f, Throw (IOException (RawMessage e))).
Proof.
  intros H f. subst f Ensure Init ReadF SizeF.
  unfold Read, GetFileSize, EnsureInitialized. simpl. rewrite H. simpl.
  split; [done|]. split; [done|]. split; [done|]. split; [done|].
  intros fs' amount offset Ha Ho. split; [done|].
  replace ((offset <? 0) || (amount <? 0)) with false by lia.
  replace (amount =? 0) with false by lia. done.
Qed.
End Props.

(** A file system with one object, used by the witnesses below. *)
Definition demo_data : list Z := SQLITE_MAGIC ++ [16; 0; 1; 1; 7; 8; 9].
Definition demo_exn : exn := mk_exn "HTTP 404" ET_HTTP "HTTP 404" ∅.
Definition demo_fs : fsys unit := {|
  fs_open := fun p _ => if decide (p = "https://h/a.db") then Ok tt else Throw demo_exn;
  fs_size := fun _ => Ok (Z.of_nat (length demo_data));
  fs_read := fun _ n off => Ok (take (Z.to_nat n) (drop (Z.to_nat off) demo_data));
|}.
Definition demo_regex : string -> option (list string) := fun _ => Some ["HTTP 404"; "404"].
Definition demo_cast : string -> option Z := fun s => if decide (s = "404") then Some 404 else None.
Definition demo_io : string -> exn := fun m => mk_exn m ET_IO m ∅.
Definition demo_has : string -> string -> bool := str_has.

Lemma read_refines_xread_witness :
  Read demo_has demo_regex demo_cast (fun _ => true) demo_io demo_fs
    (mk_cached "https://h/a.db" (Some tt) true false "" 23) true (Z.of_nat 8) (Z.of_nat 20) =
  (mk_cached "https://h/a.db" (Some tt) true false "" 23,
   Ok (SQLITE_IOERR_SHORT_READ, Some [7; 8; 9; 0; 0; 0; 0; 0])).
Proof.
  refine (proj1 (read_refines_xread demo_has demo_regex demo_cast (fun _ => true) demo_io demo_fs
    (mk_cached "https://h/a.db" (Some tt) true false "" 23) tt demo_data 8 20 _ _ _ _ _)).
  - split; [|split]; reflexivity.
  - intros n off Hn Hl. simpl. by rewrite !Nat2Z.id.
  - lia.
  - lia.
  - simpl. lia.
Defined.


Lemma init_failure_memoised_witness :
  InitializeFromRemote demo_has demo_regex demo_cast (fun _ => true) demo_io demo_fs "https://h/b.db" = Throw demo_exn /\
  snd (EnsureInitialized demo_has demo_regex demo_cast (fun _ => true) demo_io demo_fs
         (new_cached_file "https://h/b.db")) = Throw demo_exn.
Proof.
  split; [reflexivity|].
  exact (proj1 (init_failure_memoised demo_has demo_regex demo_cast (fun _ => true) demo_io demo_fs
    "https://h/b.db" demo_exn eq_refl)).
Defined.
