(* ===== verification/VfsRegistry.v ===== *)
(** * Lifetime of the per-context VFS wrappers (sqlite_duckdb_vfs_cache.cpp)

    The registry of wrappers, the list of retired ones, the open-handle count
    that governs when a wrapper is freed, and SQLite's own list of VFS objects
    (os.c).  Every operation runs under [registry_mutex], so a concurrent
    execution is a sequence of the atomic steps below.  A wrapper is a cell of
    [heap]; following a pointer to a freed wrapper is [None] (undefined
    behaviour), and the safety theorem says that no step ever does. *)

From stdpp Require Import pretty.
From S2P Require Import Prelude VfsErrors.

Abbreviation ctx := nat.
Abbreviation wptr := nat.
Abbreviation fptr := nat.

Record DuckDBVFSWrapper : Type := mk_wrapper {
  w_context : ctx;
  vfs_name : string;
  last_error_message : string;
  open_file_count : Z;
  pending_unregister : bool;
}.

(** A node of SQLite's VFS list: one of the native ones, or a wrapper's base. *)
Inductive vfs_ref : Type := VNative (name : string) | VWrap (w : wptr).
#[export] Instance vfs_ref_eq_dec : EqDecision vfs_ref.
Proof. solve_decision. Defined.

(** The file object SQLite allocates; [pMethods] points into a wrapper. *)
Record SQLiteDuckDBCachedFile : Type := mk_file {
  pMethods : option wptr;
  duckdb_file : option string;
  f_wrapper : option wptr;
}.

Record VFSRegistryData : Type := mk_reg {
  registry : gmap ctx wptr;
  retired : list wptr;
  heap : gmap wptr DuckDBVFSWrapper;
  vfsList : list vfs_ref;
  vfs_counter : Z;
  next_ptr : wptr;
  files : gmap fptr SQLiteDuckDBCachedFile;
}.

Definition set_heap (s : VFSRegistryData) (h : gmap wptr DuckDBVFSWrapper) : VFSRegistryData :=
  mk_reg (registry s) (retired s) h (vfsList s) (vfs_counter s) (next_ptr s) (files s).
Definition set_retired (s : VFSRegistryData) (l : list wptr) (h : gmap wptr DuckDBVFSWrapper) : VFSRegistryData :=
  mk_reg (registry s) l h (vfsList s) (vfs_counter s) (next_ptr s) (files s).
Definition set_files (s : VFSRegistryData) (fs : gmap fptr SQLiteDuckDBCachedFile) : VFSRegistryData :=
  mk_reg (registry s) (retired s) (heap s) (vfsList s) (vfs_counter s) (next_ptr s) fs.

Definition with_count (w : DuckDBVFSWrapper) (n : Z) : DuckDBVFSWrapper :=
  mk_wrapper (w_context w) (vfs_name w) (last_error_message w) n (pending_unregister w).
Definition with_pending (w : DuckDBVFSWrapper) : DuckDBVFSWrapper :=
  mk_wrapper (w_context w) (vfs_name w) (last_error_message w) (open_file_count w) true.
Definition with_error (w : DuckDBVFSWrapper) (m : string) : DuckDBVFSWrapper :=
  mk_wrapper (w_context w) (vfs_name w) m (open_file_count w) (pending_unregister w).

(** ** SQLite's VFS list *)

(** [vfsUnlink]: drop the first node that is the given VFS. *)
Fixpoint vfsUnlink (p : vfs_ref) (l : list vfs_ref) : list vfs_ref :=
  match l with
  | [] => []
  | q :: l' => if decide (q = p) then l' else q :: vfsUnlink p l'
  end.

(** [sqlite3_vfs_register] and [sqlite3_vfs_unregister]: the result code of
    [sqlite3_initialize] is passed on, the list is only changed if it is zero. *)
Definition sqlite3_vfs_register (rc : Z) (p : vfs_ref) (makeDflt : bool) (l : list vfs_ref)
    : Z * list vfs_ref :=
  if negb (rc =? 0) then (rc, l)
  else (SQLITE_OK, match vfsUnlink p l with
                   | [] => [p]
                   | q :: l' => if makeDflt then p :: q :: l' else q :: p :: l'
                   end).
Definition sqlite3_vfs_unregister (rc : Z) (p : vfs_ref) (l : list vfs_ref) : Z * list vfs_ref :=
  if negb (rc =? 0) then (rc, l) else (SQLITE_OK, vfsUnlink p l).

(** [sqlite3_vfs_find(name)]: walks the list, reading the name of each node. *)
Fixpoint sqlite3_vfs_find (h : gmap wptr DuckDBVFSWrapper) (name : string) (l : list vfs_ref)
    : option (option vfs_ref) :=
  match l with
  | [] => Some None
  | VNative n :: l' => if decide (name = n) then Some (Some (VNative n)) else sqlite3_vfs_find h name l'
  | VWrap w :: l' =>
      x ← h !! w;
      if decide (name = vfs_name x) then Some (Some (VWrap w)) else sqlite3_vfs_find h name l'
  end.

(** ** Registry operations *)

(** [ReapIdleRetiredWrappers]: erase (and so free) the idle ones. *)
Fixpoint reap (l : list wptr) (h : gmap wptr DuckDBVFSWrapper)
    : option (list wptr * gmap wptr DuckDBVFSWrapper) :=
  match l with
  | [] => Some ([], h)
  | w :: l' =>
      x ← h !! w;
      if open_file_count x =? 0 then reap l' (delete w h)
      else r ← reap l' h; Some (w :: fst r, snd r)
  end.

Definition ReapIdleRetiredWrappers (s : VFSRegistryData) : option VFSRegistryData :=
  r ← reap (retired s) (heap s); Some (set_retired s (fst r) (snd r)).

(** The name ["duckdb_cache_vfs_" + to_string(n)]; [to_string] is the decimal
    printer of the C++ library. *)
Definition GetUniqueVFSName (n : Z) : string := "duckdb_cache_vfs_" +:+ pretty (Z.to_N n).

Inductive reg_error : Type := NoDefaultVFS | NoMemory | RegisterFailed (rc : Z).

(** [Register].  [find_rc] and [reg_rc] are what [sqlite3_initialize] returns
    inside [sqlite3_vfs_find] and [sqlite3_vfs_register], [malloc_ok] whether
    the name could be allocated. *)
Definition Register (find_rc reg_rc : Z) (malloc_ok : bool) (c : ctx) (s : VFSRegistryData)
    : option (VFSRegistryData * res reg_error unit) :=
  s ← ReapIdleRetiredWrappers s;
  match registry s !! c with
  | Some _ => Some (s, Ok tt)
  | None =>
      (* sqlite3_vfs_find(nullptr) is the head of the list, null if the library
         could not be initialised *)
      if negb (find_rc =? 0) || bool_decide (vfsList s = []) then Some (s, Throw NoDefaultVFS)
      else
        let w := next_ptr s in
        let n := vfs_counter s in
        if negb malloc_ok then
          Some (mk_reg (registry s) (retired s) (heap s) (vfsList s) (u64 (n + 1)) (S w) (files s),
                Throw NoMemory)
        else
          let x := mk_wrapper c (GetUniqueVFSName n) "" 0 false in
          let '(rc, l) := sqlite3_vfs_register reg_rc (VWrap w) false (vfsList s) in
          if negb (rc =? SQLITE_OK) then
            (* erasing the registry entry destroys the wrapper *)
            Some (mk_reg (registry s) (retired s) (heap s) l (u64 (n + 1)) (S w) (files s),
                  Throw (RegisterFailed rc))
          else
            Some (mk_reg (<[c := w]> (registry s)) (retired s) (<[w := x]> (heap s)) l
                    (u64 (n + 1)) (S w) (files s), Ok tt)
  end.

(** [Unregister]; [rc] is what [sqlite3_initialize] returns inside
    [sqlite3_vfs_unregister], whose result is ignored. *)
Definition Unregister (rc : Z) (c : ctx) (s : VFSRegistryData) : option VFSRegistryData :=
  s ← ReapIdleRetiredWrappers s;
  match registry s !! c with
  | None => Some s
  | Some w =>
      x ← heap s !! w;
      Some (mk_reg (delete c (registry s)) (retired s ++ [w]) (<[w := with_pending x]> (heap s))
              (snd (sqlite3_vfs_unregister rc (VWrap w) (vfsList s))) (vfs_counter s) (next_ptr s) (files s))
  end.

Definition GetVFSNameForContext (c : ctx) (s : VFSRegistryData) : option (res unit string) :=
  match registry s !! c with
  | Some w => x ← heap s !! w; Some (Ok (vfs_name x))
  | None => Some (Throw tt)
  end.

Definition GetLastErrorForContext (c : ctx) (s : VFSRegistryData) : option string :=
  match registry s !! c with
  | Some w => x ← heap s !! w; Some (last_error_message x)
  | None => Some ""
  end.

Definition SetLastError (w : wptr) (m : string) (s : VFSRegistryData) : option VFSRegistryData :=
  x ← heap s !! w; Some (set_heap s (<[w := with_error x m]> (heap s))).

Definition ClearLastErrorForContext (c : ctx) (s : VFSRegistryData) : option VFSRegistryData :=
  match registry s !! c with
  | Some w => SetLastError w "" s
  | None => Some s
  end.

(** Erase the first list element equal to [w]. *)
Fixpoint erase_first (w : wptr) (l : list wptr) : list wptr :=
  match l with
  | [] => []
  | v :: l' => if decide (v = w) then l' else v :: erase_first w l'
  end.

(** [ReleaseWrapperHandle]: the count is an unsigned 64-bit integer. *)
Definition ReleaseWrapperHandle (ow : option wptr) (s : VFSRegistryData) : option VFSRegistryData :=
  match ow with
  | None => Some s
  | Some w =>
      x ← heap s !! w;
      let n := u64 (open_file_count x - 1) in
      if (n =? 0) && pending_unregister x then
        if bool_decide (w ∈ retired s) then
          Some (set_retired s (erase_first w (retired s)) (delete w (heap s)))
        else Some (set_heap s (<[w := with_count x n]> (heap s)))
      else Some (set_heap s (<[w := with_count x n]> (heap s)))
  end.

(** The arguments of [Open].  [a_vfs]: the VFS pointer, with its [pAppData] and
    [szOsFile]; [a_new_ok]: whether the file object can be constructed. *)
Record open_args : Type := {
  a_vfs : option (option wptr * Z);
  a_filename : option string;
  a_file : option fptr;
  a_flags : Z;
  a_new_ok : bool;
}.

Section Open.
(** [sizeof(SQLiteDuckDBCachedFile)], and whether a client context still has
    its database instance. *)
Context (sizeof_file : Z) (has_db : ctx -> bool).

Definition Open (a : open_args) (s : VFSRegistryData) : option (VFSRegistryData * Z) :=
  match a_vfs a, a_filename a, a_file a with
  | Some (pAppData, szOsFile), Some filename, Some f =>
      if Z.land (a_flags a) SQLITE_OPEN_READONLY =? 0 then Some (s, SQLITE_CANTOPEN)
      else
        (* file->pMethods = nullptr *)
        let fo := default (mk_file None None None) (files s !! f) in
        let s := set_files s (<[f := mk_file None (duckdb_file fo) (f_wrapper fo)]> (files s)) in
        if szOsFile <? sizeof_file then Some (s, SQLITE_CANTOPEN)
        else match pAppData with
             | None => Some (s, SQLITE_CANTOPEN)
             | Some w =>
                 x ← heap s !! w;
                 if negb (has_db (w_context x)) then Some (s, SQLITE_CANTOPEN)
                 else
                   let s := set_heap s (<[w := with_count x (u64 (open_file_count x + 1))]> (heap s)) in
                   if a_new_ok a then
                     Some (set_files s (<[f := mk_file (Some w) (Some filename) (Some w)]> (files s)), SQLITE_OK)
                   else
                     let s := set_files s (<[f := mk_file None None None]> (files s)) in
                     s ← ReleaseWrapperHandle (Some w) s;
                     Some (s, SQLITE_CANTOPEN)
             end
  | _, _, _ => Some (s, SQLITE_CANTOPEN)
  end.

(** [Close]: the file keeps its [pMethods], which SQLite resets itself. *)
Definition Close (file : option fptr) (s : VFSRegistryData) : option (VFSRegistryData * Z) :=
  match file with
  | None => Some (s, SQLITE_OK)
  | Some f =>
      let fo := default (mk_file None None None) (files s !! f) in
      let w := f_wrapper fo in
      let s := set_files s (<[f := mk_file (pMethods fo) None None]> (files s)) in
      s ← ReleaseWrapperHandle w s;
      Some (s, SQLITE_OK)
  end.
End Open.

(** ** The whole system

    The registry together with the opens in flight: [sqlite3_open_v2] resolves
    the VFS by name before it calls xOpen, so between the two a thread holds a
    bare pointer to the wrapper. *)

Record sys : Type := mk_sys { reg : VFSRegistryData; inflight : list (ctx * wptr) }.

Inductive op : Type :=
| OpRegister (find_rc reg_rc : Z) (malloc_ok : bool) (c : ctx)
| OpUnregister (c : ctx)
| OpResolve (c : ctx)
| OpOpen (c : ctx) (w : wptr) (a : open_args)
| OpFileCall (f : fptr) (error : option string)
| OpClose (f : fptr)
| OpGetLastError (c : ctx)
| OpClearLastError (c : ctx).

Fixpoint remove_one (x : ctx * wptr) (l : list (ctx * wptr)) : list (ctx * wptr) :=
  match l with
  | [] => []
  | y :: l' => if decide (y = x) then l' else y :: remove_one x l'
  end.

Section Exec.
Context (sizeof_file : Z) (has_db : ctx -> bool).

(** One atomic step; [None] is the use of a freed wrapper. *)
Definition exec (o : op) (s : sys) : option sys :=
  match o with
  | OpRegister frc rrc m c => r ← Register frc rrc m c (reg s); Some (mk_sys (fst r) (inflight s))
  | OpUnregister c => r ← Unregister 0 c (reg s); Some (mk_sys r (inflight s))
  | OpResolve c =>
      n ← GetVFSNameForContext c (reg s);
      match n with
      | Throw _ => Some s
      | Ok name =>
          v ← sqlite3_vfs_find (heap (reg s)) name (vfsList (reg s));
          match v with
          | Some (VWrap w) => Some (mk_sys (reg s) ((c, w) :: inflight s))
          | _ => Some s
          end
      end
  | OpOpen c w a =>
      r ← Open sizeof_file has_db a (reg s);
      Some (mk_sys (fst r) (remove_one (c, w) (inflight s)))
  | OpFileCall f err =>
      (* dispatch through pMethods, then record an error on the wrapper *)
      fo ← files (reg s) !! f;
      m ← pMethods fo;
      _ ← heap (reg s) !! m;
      match f_wrapper fo, err with
      | Some w, Some e => r ← SetLastError w e (reg s); Some (mk_sys r (inflight s))
      | _, _ => Some s
      end
  | OpClose f =>
      (* sqlite3OsClose: dispatch through pMethods, then reset it *)
      fo ← files (reg s) !! f;
      m ← pMethods fo;
      _ ← heap (reg s) !! m;
      r ← Close (Some f) (reg s);
      let fo' := default (mk_file None None None) (files (fst r) !! f) in
      Some (mk_sys (set_files (fst r) (<[f := mk_file None (duckdb_file fo') (f_wrapper fo')]> (files (fst r))))
              (inflight s))
  | OpGetLastError c => _ ← GetLastErrorForContext c (reg s); Some s
  | OpClearLastError c => r ← ClearLastErrorForContext c (reg s); Some (mk_sys r (inflight s))
  end.

(** The client's side of the contract: a context is unregistered only when
    none of its opens is in flight (OnConnectionClosed runs once the context
    is quiescent); xOpen is called with a resolved VFS and a file object that
    is not open; SQLite calls and closes only open files.  Fewer than 2^64
    files and registrations exist. *)
Definition allowed (o : op) (s : sys) : Prop :=
  match o with
  | OpRegister _ _ _ _ => vfs_counter (reg s) < 2 ^ 64 - 1
  | OpUnregister c => forall w, (c, w) ∉ inflight s
  | OpOpen c w a =>
      (c, w) ∈ inflight s /\ a_vfs a = Some (Some w, sizeof_file) /\
      Z.of_nat (size (files (reg s))) < 2 ^ 64 - 1 /\
      (forall f fo, a_file a = Some f -> files (reg s) !! f = Some fo -> f_wrapper fo = None)
  | OpFileCall f _ | OpClose f => exists fo w, files (reg s) !! f = Some fo /\ pMethods fo = Some w
  | OpResolve _ | OpGetLastError _ | OpClearLastError _ => True
  end.

Definition init_reg (natives : list string) : VFSRegistryData :=
  mk_reg ∅ [] ∅ (map VNative natives) 0 0%nat ∅.
Definition init_sys (natives : list string) : sys := mk_sys (init_reg natives) [].

Inductive reachable (natives : list string) : sys -> Prop :=
| reach_init : reachable natives (init_sys natives)
| reach_step s o s' :
    reachable natives s -> allowed o s -> exec o s = Some s' -> reachable natives s'.
End Exec.
