(* ===== verification/VfsSafety.v ===== *)
(** * Safety of the wrapper lifetime protocol

    The invariant of the registry: ownership is exact (every live wrapper is
    registered or retired, never both), the open-handle count equals the number
    of open files, every open file and every open in flight points to a live
    wrapper.  It is preserved by every step of every interleaving, so no step
    dereferences a freed wrapper. *)

From stdpp Require Import pretty.
From S2P Require Import Prelude VfsErrors VfsRegistry.

(** ** Counting the open files of a wrapper *)

Definition nopen (w : wptr) (fs : gmap fptr SQLiteDuckDBCachedFile) : Z :=
  Z.of_nat (size (filter (fun kv => f_wrapper kv.2 = Some w) fs)).

Definition ind (w : wptr) (fo : SQLiteDuckDBCachedFile) : Z :=
  if decide (f_wrapper fo = Some w) then 1 else 0.

Definition ind_at (w : wptr) (o : option SQLiteDuckDBCachedFile) : Z :=
  match o with Some fo => ind w fo | None => 0 end.

Lemma open_lookup w f (fs : gmap fptr SQLiteDuckDBCachedFile) :
  filter (fun kv : fptr * SQLiteDuckDBCachedFile => f_wrapper kv.2 = Some w) fs !! f =
  match fs !! f with
  | Some fo => if decide (f_wrapper fo = Some w) then Some fo else None
  | None => None
  end.
Proof.
  destruct (fs !! f) as [fo|] eqn:E; [case_decide|].
  - by apply map_lookup_filter_Some_2.
  - apply map_lookup_filter_None_2. right. intros ? ?; simplify_eq. done.
  - apply map_lookup_filter_None_2. by left.
Qed.

Lemma nopen_delete w f fs : nopen w (delete f fs) = nopen w fs - ind_at w (fs !! f).
Proof.
  unfold nopen. rewrite map_filter_delete, map_size_delete, open_lookup.
  destruct (fs !! f) as [fo|] eqn:E; simpl; unfold ind; [case_decide|]; simpl; [|lia..].
  set (m := filter _ fs). assert (m !! f = Some fo) as M.
  { subst m. rewrite open_lookup, E. by rewrite decide_True. }
  assert (size m <> 0%nat) by (intros Z0; apply map_size_empty_iff in Z0; rewrite Z0 in M; done).
  lia.
Qed.

Lemma nopen_insert w f fo fs : nopen w (<[f := fo]> fs) = nopen w fs - ind_at w (fs !! f) + ind w fo.
Proof.
  rewrite <- nopen_delete. rewrite <- insert_delete_eq. unfold nopen, ind.
  assert (filter (fun kv : fptr * SQLiteDuckDBCachedFile => f_wrapper kv.2 = Some w) (delete f fs) !! f = None) as N.
  { apply map_lookup_filter_None_2. left. apply lookup_delete_eq. }
  case_decide as D.
  - rewrite map_filter_insert_True by done. rewrite map_size_insert_None by done. lia.
  - rewrite map_filter_insert_False by done. rewrite delete_delete_eq. lia.
Qed.

Lemma nopen_pos w f fo fs : fs !! f = Some fo -> f_wrapper fo = Some w -> 0 < nopen w fs.
Proof.
  intros H1 H2. pose proof (nopen_delete w f fs) as E. rewrite H1 in E. simpl in E.
  unfold ind in E. rewrite decide_True in E by done. unfold nopen in *. lia.
Qed.

Lemma nopen_le_size w fs : 0 <= nopen w fs <= Z.of_nat (size fs).
Proof.
  unfold nopen. split; [lia|]. apply Nat2Z.inj_le.
  apply map_subseteq_size, map_filter_subseteq.
Qed.

(** ** SQLite's list, restricted to the wrappers *)

Definition wrap_of (v : vfs_ref) : option wptr := match v with VWrap w => Some w | VNative _ => None end.
Definition wraps_of (l : list vfs_ref) : list wptr := omap wrap_of l.

Lemma wraps_of_unlink w l : wraps_of (vfsUnlink (VWrap w) l) = erase_first w (wraps_of l).
Proof.
  induction l as [|[n|v] l IH]; [done|..]; simpl.
  - done.
  - destruct (decide (v = w)) as [->|N]; [by rewrite decide_True|].
    rewrite decide_False by congruence. simpl. by rewrite IH.
Qed.

Lemma elem_of_erase_first w v l : NoDup l -> v ∈ erase_first w l <-> v ∈ l /\ v <> w.
Proof.
  induction 1 as [|u l Hu Hl IH]; simpl; [set_solver|].
  case_decide as D; [subst|]; set_solver.
Qed.

Lemma NoDup_erase_first w l : NoDup l -> NoDup (erase_first w l).
Proof.
  intros H. pose proof (fun v => elem_of_erase_first w v l H) as E. revert E.
  induction H as [|u l Hu Hl IH]; simpl; intros E; [constructor|].
  case_decide; [done|]. constructor.
  - rewrite elem_of_erase_first by done. tauto.
  - apply IH. intros. by apply elem_of_erase_first.
Qed.

Lemma erase_first_notin w l : w ∉ l -> erase_first w l = l.
Proof. induction l as [|u l IH]; simpl; intros; [done|]. rewrite decide_False, IH; set_solver. Qed.

Lemma wraps_of_register w l : w ∉ wraps_of l -> l <> [] ->
  exists l', snd (sqlite3_vfs_register 0 (VWrap w) false l) = l' /\ l' <> [] /\
    (forall v, v ∈ wraps_of l' <-> v = w \/ v ∈ wraps_of l) /\
    (NoDup (wraps_of l) -> NoDup (wraps_of l')).
Proof.
  intros Hw Hl. unfold sqlite3_vfs_register. simpl. eexists. split; [done|].
  assert (vfsUnlink (VWrap w) l = l) as ->.
  { clear Hl. unfold wraps_of in Hw. induction l as [|[n|v] l IH]; [done|..]; simpl in *.
    - by rewrite IH.
    - rewrite decide_False by set_solver. rewrite IH; set_solver. }
  destruct l as [|q l]; [done|]. split; [done|]. split.
  - intros v. destruct q; simpl; set_solver.
  - destruct q as [|u]; simpl in *; intros ND; [by apply NoDup_cons|].
    apply NoDup_cons in ND as [N1 N2]. apply not_elem_of_cons in Hw as [H1 H2].
    apply NoDup_cons. split; [set_solver|]. by apply NoDup_cons.
Qed.

(** ** The invariant *)

Record Inv (s : VFSRegistryData) (infl : list (ctx * wptr)) : Prop := {
  i_reg : forall c w, registry s !! c = Some w ->
    exists x, heap s !! w = Some x /\ w_context x = c /\ pending_unregister x = false;
  i_ret : forall w, w ∈ retired s -> exists x, heap s !! w = Some x /\ pending_unregister x = true;
  i_nodup : NoDup (retired s);
  i_own : forall w x, heap s !! w = Some x ->
    if pending_unregister x then w ∈ retired s else registry s !! w_context x = Some w;
  i_cnt : forall w x, heap s !! w = Some x -> open_file_count x = nopen w (files s);
  i_file : forall f fo w, files s !! f = Some fo -> f_wrapper fo = Some w -> is_Some (heap s !! w);
  i_meth : forall f fo w, files s !! f = Some fo -> pMethods fo = Some w -> f_wrapper fo = Some w;
  i_fresh : forall w, is_Some (heap s !! w) -> (w < next_ptr s)%nat;
  i_list : forall w, w ∈ wraps_of (vfsList s) -> exists c, registry s !! c = Some w;
  i_list_nodup : NoDup (wraps_of (vfsList s));
  i_names : forall w x, heap s !! w = Some x ->
    exists n, 0 <= n < vfs_counter s /\ vfs_name x = GetUniqueVFSName n;
  i_uniq : forall w x w' x', heap s !! w = Some x -> heap s !! w' = Some x' ->
    vfs_name x = vfs_name x' -> w = w';
  i_cnt0 : 0 <= vfs_counter s;
  i_u64 : Z.of_nat (size (files s)) < 2 ^ 64;
  i_inf : forall c w, (c, w) ∈ infl -> registry s !! c = Some w;
}.

(** ** Reaping *)

Lemma reap_spec l : forall h, NoDup l -> (forall w, w ∈ l -> is_Some (h !! w)) ->
  exists l' h', reap l h = Some (l', h') /\ NoDup l' /\
    (forall w x, h !! w = Some x -> w ∈ l' <-> w ∈ l /\ open_file_count x <> 0) /\
    (forall w, w ∈ l' -> w ∈ l) /\
    (forall w x, h' !! w = Some x <-> h !! w = Some x /\ (w ∈ l -> open_file_count x <> 0)).
Proof.
  induction l as [|w l IH]; intros h ND Hl; simpl.
  { exists [], h. split; [done|]. split; [constructor|]. set_solver. }
  apply NoDup_cons in ND as [Nw ND].
  destruct (Hl w ltac:(set_solver)) as [x Hx]. rewrite Hx. simpl.
  destruct (Z.eqb_spec (open_file_count x) 0) as [E0|E0].
  - destruct (IH (delete w h) ND) as (l' & h' & -> & ND' & A & B & C).
    { intros v Hv. rewrite lookup_delete_ne by (intros ->; done). apply Hl. set_solver. }
    exists l', h'. split; [done|]. split; [done|]. split; [|split].
    + intros v y Hy. destruct (decide (v = w)) as [->|Nv].
      * simplify_eq. split; [intros Hv; exfalso; apply Nw; auto|]. tauto.
      * rewrite (A v y) by (by rewrite lookup_delete_ne). set_solver.
    + set_solver.
    + intros v y. rewrite C. destruct (decide (v = w)) as [->|Nv].
      * rewrite lookup_delete_eq. split; [by intros [? _]|]. intros [Hy Hn]. simplify_eq.
        exfalso. apply Hn; [set_solver|done].
      * rewrite lookup_delete_ne by done. set_solver.
  - destruct (IH h ND) as (l' & h' & -> & ND' & A & B & C); [intros v Hv; apply Hl; set_solver|].
    simpl. exists (w :: l'), h'. split; [done|]. split; [|split; [|split]].
    + apply NoDup_cons. split; [|done]. intros Hw. apply Nw. auto.
    + intros v y Hy. destruct (decide (v = w)) as [->|Nv]; [simplify_eq; set_solver|].
      rewrite elem_of_cons, (A v y Hy). set_solver.
    + set_solver.
    + intros v y. rewrite C. destruct (decide (v = w)) as [->|Nv]; [|set_solver].
      split; intros [Hy Hn]; (split; [done|]); [simplify_eq; done|done].
Qed.

Lemma reap_inv s infl : Inv s infl ->
  exists s', ReapIdleRetiredWrappers s = Some s' /\ Inv s' infl /\
    registry s' = registry s /\ vfsList s' = vfsList s /\ vfs_counter s' = vfs_counter s /\
    next_ptr s' = next_ptr s /\ files s' = files s /\
    (forall w x, w ∈ retired s' -> heap s' !! w = Some x -> open_file_count x <> 0) /\
    (forall w, is_Some (heap s' !! w) -> is_Some (heap s !! w)).
Proof.
  intros I. destruct (reap_spec (retired s) (heap s) (i_nodup _ _ I)) as (l' & h' & E & ND & A & B & C).
  { intros w Hw. destruct (i_ret _ _ I w Hw) as (x & ? & _). eauto. }
  unfold ReapIdleRetiredWrappers. rewrite E. simpl. eexists. split; [done|].
  assert (forall w x, heap s !! w = Some x -> pending_unregister x = false -> h' !! w = Some x) as Live.
  { intros w x Hx Hp. apply C. split; [done|]. intros Hw.
    destruct (i_ret _ _ I w Hw) as (y & Hy & Hpy). simplify_eq. congruence. }
  assert (forall w x, heap s !! w = Some x -> 0 < nopen w (files s) -> h' !! w = Some x) as Used.
  { intros w x Hx Hp. apply C. split; [done|]. intros _. rewrite (i_cnt _ _ I w x Hx). lia. }
  split; [|repeat (split; [done|])].
  2:{ split.
      - simpl. intros w x Hw Hx. apply C in Hx as [Hx Hn]. exact (proj2 (proj1 (A w x Hx) Hw)).
      - simpl. intros w [x Hx]. apply C in Hx as [Hx _]. eauto. }
  constructor; simpl.
  - intros c w Hc. destruct (i_reg _ _ I c w Hc) as (x & Hx & Hcx & Hp). exists x. auto.
  - intros w Hw. destruct (i_ret _ _ I w (B w Hw)) as (x & Hx & Hp). exists x. split; [|done].
    apply C. split; [done|]. intros _. exact (proj2 (proj1 (A w x Hx) Hw)).
  - done.
  - intros w x Hx. apply C in Hx as [Hx Hn]. pose proof (i_own _ _ I w x Hx) as O.
    destruct (pending_unregister x); [|done]. apply (A w x Hx). auto.
  - intros w x Hx. apply C in Hx as [Hx _]. by apply (i_cnt _ _ I).
  - intros f fo w Hf Hw. destruct (i_file _ _ I f fo w Hf Hw) as [x Hx]. exists x.
    apply Used; [done|]. by apply (nopen_pos w f fo).
  - apply (i_meth _ _ I).
  - intros w [x Hx]. apply C in Hx as [Hx _]. apply (i_fresh _ _ I). eauto.
  - apply (i_list _ _ I).
  - apply (i_list_nodup _ _ I).
  - intros w x Hx. apply C in Hx as [Hx _]. by apply (i_names _ _ I w).
  - intros w x w' x' Hx Hx'. apply C in Hx as [Hx _]. apply C in Hx' as [Hx' _].
    by apply (i_uniq _ _ I).
  - apply (i_cnt0 _ _ I).
  - apply (i_u64 _ _ I).
  - apply (i_inf _ _ I).
Qed.

(** ** Updating one live wrapper in place *)

Lemma upd_inv s infl w x x' fs' : Inv s infl -> heap s !! w = Some x ->
  w_context x' = w_context x -> vfs_name x' = vfs_name x ->
  pending_unregister x' = pending_unregister x ->
  open_file_count x' = nopen w fs' ->
  (forall v, v <> w -> nopen v fs' = nopen v (files s)) ->
  (forall f fo v, fs' !! f = Some fo -> f_wrapper fo = Some v -> v = w \/ is_Some (heap s !! v)) ->
  (forall f fo v, fs' !! f = Some fo -> pMethods fo = Some v -> f_wrapper fo = Some v) ->
  Z.of_nat (size fs') < 2 ^ 64 ->
  Inv (set_files (set_heap s (<[w := x']> (heap s))) fs') infl.
Proof.
  intros I Hx Hc Hn Hp Hcnt Hother Hfiles Hmeth Hsz.
  assert (forall v y, <[w := x']> (heap s) !! v = Some y ->
            exists y0, heap s !! v = Some y0 /\ w_context y = w_context y0 /\ vfs_name y = vfs_name y0 /\
              pending_unregister y = pending_unregister y0) as Back.
  { intros v y. rewrite lookup_insert. case_decide; [intros [= <-]; subst; eauto 10|eauto 10]. }
  assert (forall v y0, heap s !! v = Some y0 ->
            exists y, <[w := x']> (heap s) !! v = Some y /\ w_context y = w_context y0 /\
              pending_unregister y = pending_unregister y0) as Forth.
  { intros v y0 Hv. destruct (decide (w = v)) as [<-|]; [|rewrite lookup_insert_ne by done; eauto].
    rewrite lookup_insert_eq. simplify_eq. eauto. }
  constructor; simpl.
  - intros c v Hv. destruct (i_reg _ _ I c v Hv) as (y0 & H0 & Hcy & Hpy).
    destruct (Forth v y0 H0) as (y & ? & ? & ?). exists y. split; [done|]. split; congruence.
  - intros v Hv. destruct (i_ret _ _ I v Hv) as (y0 & H0 & Hpy).
    destruct (Forth v y0 H0) as (y & ? & ? & ?). exists y. split; [done|]. congruence.
  - apply (i_nodup _ _ I).
  - intros v y Hv. destruct (Back v y Hv) as (y0 & H0 & Ec & _ & Ep). rewrite Ep, Ec.
    by apply (i_own _ _ I).
  - intros v y Hv. destruct (decide (v = w)) as [->|Nv].
    + rewrite lookup_insert_eq in Hv. simplify_eq. done.
    + rewrite lookup_insert_ne in Hv by done. rewrite Hother by done. by apply (i_cnt _ _ I).
  - intros f fo v Hf Hv. rewrite lookup_insert. case_decide; [eauto|].
    destruct (Hfiles f fo v Hf Hv); [congruence|done].
  - done.
  - intros v [y Hv]. destruct (Back v y Hv) as (y0 & H0 & _). apply (i_fresh _ _ I). eauto.
  - apply (i_list _ _ I).
  - apply (i_list_nodup _ _ I).
  - intros v y Hv. destruct (Back v y Hv) as (y0 & H0 & _ & -> & _). by apply (i_names _ _ I v).
  - intros v y v' y' Hv Hv' E. destruct (Back v y Hv) as (y0 & H0 & _ & E0 & _).
    destruct (Back v' y' Hv') as (y1 & H1 & _ & E1 & _). apply (i_uniq _ _ I v y0 v' y1); congruence.
  - apply (i_cnt0 _ _ I).
  - done.
  - apply (i_inf _ _ I).
Qed.

(** ** Freeing a retired wrapper *)

Lemma free_inv s infl w x fs' : Inv s infl -> heap s !! w = Some x ->
  pending_unregister x = true -> nopen w fs' = 0 ->
  (forall v, v <> w -> nopen v fs' = nopen v (files s)) ->
  (forall f fo v, fs' !! f = Some fo -> f_wrapper fo = Some v -> is_Some (heap s !! v)) ->
  (forall f fo v, fs' !! f = Some fo -> pMethods fo = Some v -> f_wrapper fo = Some v) ->
  Z.of_nat (size fs') < 2 ^ 64 ->
  Inv (set_files (set_retired s (erase_first w (retired s)) (delete w (heap s))) fs') infl.
Proof.
  intros I Hx Hp H0 Hother Hfiles Hmeth Hsz. pose proof (i_nodup _ _ I) as ND.
  assert (forall v y, delete w (heap s) !! v = Some y -> v <> w /\ heap s !! v = Some y) as Back.
  { intros v y. rewrite lookup_delete. case_decide; [done|]. auto. }
  assert (forall v y, heap s !! v = Some y -> v <> w -> delete w (heap s) !! v = Some y) as Forth.
  { intros v y Hv Nv. by rewrite lookup_delete_ne by auto. }
  constructor; simpl.
  - intros c v Hv. destruct (i_reg _ _ I c v Hv) as (y & Hy & Hc & Hpy). exists y.
    split; [|done]. apply Forth; [done|]. intros ->. simplify_eq. congruence.
  - intros v Hv. apply elem_of_erase_first in Hv as [Hv Nv]; [|done].
    destruct (i_ret _ _ I v Hv) as (y & Hy & Hpy). eauto.
  - by apply NoDup_erase_first.
  - intros v y Hv. apply Back in Hv as [Nv Hv]. pose proof (i_own _ _ I v y Hv) as O.
    destruct (pending_unregister y); [|done]. by apply elem_of_erase_first.
  - intros v y Hv. apply Back in Hv as [Nv Hv]. rewrite Hother by done. by apply (i_cnt _ _ I).
  - intros f fo v Hf Hv. destruct (Hfiles f fo v Hf Hv) as [y Hy]. exists y. apply Forth; [done|].
    intros ->. pose proof (nopen_pos w f fo fs' Hf Hv). lia.
  - done.
  - intros v [y Hv]. apply Back in Hv as [_ Hv]. apply (i_fresh _ _ I). eauto.
  - apply (i_list _ _ I).
  - apply (i_list_nodup _ _ I).
  - intros v y Hv. apply Back in Hv as [_ Hv]. by apply (i_names _ _ I v).
  - intros v y v' y' Hv Hv'. apply Back in Hv as [_ Hv]. apply Back in Hv' as [_ Hv'].
    by apply (i_uniq _ _ I).
  - apply (i_cnt0 _ _ I).
  - done.
  - apply (i_inf _ _ I).
Qed.

(** Releasing the handle of a file that has just been detached. *)
Lemma release_inv s infl w x fs' : Inv s infl -> heap s !! w = Some x ->
  nopen w fs' = nopen w (files s) - 1 ->
  (forall v, v <> w -> nopen v fs' = nopen v (files s)) ->
  (forall f fo v, fs' !! f = Some fo -> f_wrapper fo = Some v -> is_Some (heap s !! v)) ->
  (forall f fo v, fs' !! f = Some fo -> pMethods fo = Some v -> f_wrapper fo = Some v) ->
  Z.of_nat (size fs') < 2 ^ 64 ->
  exists s', ReleaseWrapperHandle (Some w) (set_files s fs') = Some s' /\ Inv s' infl /\ files s' = fs' /\
    registry s' = registry s.
Proof.
  intros I Hx Hn Hother Hfiles Hmeth Hsz. unfold ReleaseWrapperHandle. simpl. rewrite Hx. simpl.
  rewrite (i_cnt _ _ I w x Hx). pose proof (nopen_le_size w (files s)). pose proof (i_u64 _ _ I).
  pose proof (nopen_le_size w fs').
  rewrite wrapu_id by solve_width.
  assert (Inv (set_files (set_heap s (<[w := with_count x (nopen w (files s) - 1)]> (heap s))) fs') infl) as Iu.
  { apply (upd_inv s infl w x); simpl; auto. intros f fo v Hf Hv. right. eauto. }
  destruct (Z.eqb_spec (nopen w (files s) - 1) 0) as [E|E]; simpl; [|by eexists].
  destruct (pending_unregister x) eqn:Hp; [|by eexists].
  pose proof (i_own _ _ I w x Hx) as O. rewrite Hp in O. rewrite bool_decide_true by done.
  eexists. split; [done|]. split; [|done].
  apply (free_inv s infl w x fs'); auto; lia.
Qed.

(** ** Each operation *)

(** A fresh wrapper, registered under its context and linked in SQLite's list. *)
Lemma add_inv s infl c l : Inv s infl -> registry s !! c = None ->
  heap s !! next_ptr s = None -> nopen (next_ptr s) (files s) = 0 ->
  (forall v, v ∈ wraps_of l <-> v = next_ptr s \/ v ∈ wraps_of (vfsList s)) -> NoDup (wraps_of l) ->
  Inv (mk_reg (<[c := next_ptr s]> (registry s)) (retired s)
         (<[next_ptr s := mk_wrapper c (GetUniqueVFSName (vfs_counter s)) "" 0 false]> (heap s)) l
         (vfs_counter s + 1) (S (next_ptr s)) (files s)) infl.
Proof.
  intros I1 Er Hfresh N0 Hlw Hln. pose proof (i_cnt0 _ _ I1) as C0.
  assert (forall w x, heap s !! w = Some x -> vfs_name x <> GetUniqueVFSName (vfs_counter s)) as New.
  { intros w x Hx E. destruct (i_names _ _ I1 w x Hx) as (n & Hn & En). rewrite E in En.
    unfold GetUniqueVFSName in En. apply str_app_inj_l in En. apply (inj pretty) in En. lia. }
  constructor; simpl.
  - intros c' w. rewrite lookup_insert. case_decide as D.
    + intros [= <-]. subst. rewrite lookup_insert_eq. eauto.
    + intros Hw. destruct (i_reg _ _ I1 c' w Hw) as (x & Hx & ?).
      rewrite lookup_insert_ne by congruence. eauto.
  - intros w Hw. destruct (i_ret _ _ I1 w Hw) as (x & Hx & ?). rewrite lookup_insert_ne by congruence. eauto.
  - apply I1.
  - intros w x. rewrite lookup_insert. case_decide as D.
    + intros [= <-]. subst. simpl. by rewrite lookup_insert_eq.
    + intros Hx. pose proof (i_own _ _ I1 w x Hx) as O. destruct (pending_unregister x); [done|].
      rewrite lookup_insert_ne; [done|]. intros ->. congruence.
  - intros w x. rewrite lookup_insert. case_decide as D; [intros [= <-]; subst; done|apply (i_cnt _ _ I1)].
  - intros f fo w Hf Hw. destruct (i_file _ _ I1 f fo w Hf Hw) as [x Hx].
    rewrite lookup_insert_ne by congruence. eauto.
  - apply I1.
  - intros w [x Hx]. rewrite lookup_insert in Hx. case_decide; [lia|].
    pose proof (i_fresh _ _ I1 w ltac:(eauto)). lia.
  - intros w Hw. apply Hlw in Hw as [->|Hw]; [exists c; by rewrite lookup_insert_eq|].
    destruct (i_list _ _ I1 w Hw) as [c' Hc']. exists c'. rewrite lookup_insert_ne; [done|].
    intros ->. congruence.
  - done.
  - intros w x. rewrite lookup_insert. case_decide as D.
    + intros [= <-]. simpl. exists (vfs_counter s). split; [lia|done].
    + intros Hx. destruct (i_names _ _ I1 w x Hx) as (n & ? & ?). exists n. split; [lia|done].
  - intros w x w' x'. rewrite !lookup_insert. repeat case_decide; subst; intros; simplify_eq; auto.
    + exfalso. eapply New; eauto.
    + exfalso. eapply New; eauto.
    + by apply (i_uniq _ _ I1 w x w' x').
  - lia.
  - apply I1.
  - intros c' w Hw. pose proof (i_inf _ _ I1 c' w Hw). rewrite lookup_insert_ne; [done|].
    intros ->. congruence.
Qed.

Lemma register_inv s infl frc rrc m c : Inv s infl -> vfs_counter s < 2 ^ 64 - 1 ->
  exists s' r, Register frc rrc m c s = Some (s', r) /\ Inv s' infl /\
    (r = Ok tt -> is_Some (registry s' !! c)).
Proof.
  intros I Hcnt. unfold Register.
  destruct (reap_inv s infl I) as (s1 & -> & I1 & _ & _ & Ec & _ & _ & _). simpl.
  destruct (registry s1 !! c) as [w|] eqn:Er; [eauto 10|].
  destruct (_ || _) eqn:Ef; [do 2 eexists; split; [done|]; split; [done|done]|].
  apply orb_false_iff in Ef as [_ El]. apply bool_decide_eq_false in El.
  pose proof (i_cnt0 _ _ I1) as C0. rewrite (wrapu_id 64 (vfs_counter s1 + 1)) by solve_width.
  assert (forall l, wraps_of l = wraps_of (vfsList s1) ->
    Inv (mk_reg (registry s1) (retired s1) (heap s1) l (vfs_counter s1 + 1) (S (next_ptr s1)) (files s1)) infl) as Ib.
  { intros l El'. constructor; simpl; try apply I1; rewrite ?El'; try apply I1.
    - intros w Hw. pose proof (i_fresh _ _ I1 w Hw). lia.
    - intros w x Hx. destruct (i_names _ _ I1 w x Hx) as (n & ? & ?). exists n. split; [lia|done].
    - lia. }
  destruct m; simpl; [|do 2 eexists; split; [done|]; split; [by apply Ib|done]].
  destruct (Z.eqb_spec rrc 0) as [->|Nr].
  2:{ unfold sqlite3_vfs_register. replace (rrc =? 0) with false by lia. simpl.
      unfold SQLITE_OK. replace (rrc =? 0) with false by lia. simpl.
      do 2 eexists. split; [done|]. split; [by apply Ib|done]. }
  assert (heap s1 !! next_ptr s1 = None) as Hfresh.
  { destruct (heap s1 !! next_ptr s1) eqn:E; [|done].
    pose proof (i_fresh _ _ I1 (next_ptr s1) ltac:(eauto)). lia. }
  destruct (wraps_of_register (next_ptr s1) (vfsList s1)) as (l & Hl & _ & Hlw & Hln).
  { intros Hw. destruct (i_list _ _ I1 _ Hw) as [c' Hc'].
    destruct (i_reg _ _ I1 _ _ Hc') as (x & Hx & _). congruence. }
  { done. }
  destruct (sqlite3_vfs_register 0 _ _ _) as [rc l0] eqn:Es. simpl in Hl. subst l0.
  assert (rc = 0) as -> by (unfold sqlite3_vfs_register in Es; by simplify_eq/=). simpl.
  do 2 eexists. split; [done|]. split; [|intros _; simpl; rewrite lookup_insert_eq; eauto].
  assert (nopen (next_ptr s1) (files s1) = 0) as N0.
  { pose proof (nopen_le_size (next_ptr s1) (files s1)). unfold nopen in *.
    destruct (map_choose_or_empty (filter (fun kv : fptr * SQLiteDuckDBCachedFile =>
      f_wrapper kv.2 = Some (next_ptr s1)) (files s1))) as [(f & fo & Hf)| ->]; [|done].
    apply map_lookup_filter_Some in Hf as [Hf Hw].
    destruct (i_file _ _ I1 f fo _ Hf Hw) as [x Hx]. congruence. }
  apply add_inv; auto. apply Hln, I1.
Qed.

Lemma unregister_inv s infl c : Inv s infl -> (forall w, (c, w) ∉ infl) ->
  exists s', Unregister 0 c s = Some s' /\ Inv s' infl /\ registry s' !! c = None /\ files s' = files s.
Proof.
  intros I Hq. unfold Unregister.
  destruct (reap_inv s infl I) as (s1 & -> & I1 & _ & _ & _ & _ & Ef & _). simpl.
  destruct (registry s1 !! c) as [w|] eqn:Er; [|eauto].
  destruct (i_reg _ _ I1 c w Er) as (x & Hx & Hc & Hp). rewrite Hx. simpl.
  eexists. split; [done|]. split; [|split; [apply lookup_delete_eq|done]].
  assert (w ∉ retired s1) as Nw.
  { intros Hw. destruct (i_ret _ _ I1 w Hw) as (y & Hy & Hpy). simplify_eq. congruence. }
  assert (forall v y, v <> w -> heap s1 !! v = Some y -> <[w := with_pending x]> (heap s1) !! v = Some y) as Forth.
  { intros v y Nv Hv. by rewrite lookup_insert_ne by auto. }
  constructor; simpl.
  - intros c' v. rewrite lookup_delete. case_decide; [done|]. intros Hv.
    destruct (i_reg _ _ I1 c' v Hv) as (y & Hy & Hcy & Hpy). exists y. split; [|done].
    apply Forth; [|done]. intros ->. simplify_eq.
  - intros v Hv. apply elem_of_app in Hv as [Hv|Hv].
    + destruct (i_ret _ _ I1 v Hv) as (y & Hy & Hpy). exists y. split; [|done].
      apply Forth; [|done]. intros ->. done.
    + apply list_elem_of_singleton in Hv as ->. rewrite lookup_insert_eq. eauto.
  - apply NoDup_app. split; [apply I1|]. split; [|apply NoDup_singleton].
    intros v Hv Hv'. apply list_elem_of_singleton in Hv' as ->. done.
  - intros v y. rewrite lookup_insert. case_decide as D.
    + intros [= <-]. simpl. apply elem_of_app. right. subst. by apply list_elem_of_singleton.
    + intros Hv. pose proof (i_own _ _ I1 v y Hv) as O. destruct (pending_unregister y).
      * apply elem_of_app. by left.
      * rewrite lookup_delete_ne; [done|]. intros E. rewrite <- E in O. congruence.
  - intros v y. rewrite lookup_insert. case_decide; [intros [= <-]; subst; simpl|]; by apply (i_cnt _ _ I1).
  - intros f fo v Hf Hv. destruct (i_file _ _ I1 f fo v Hf Hv) as [y Hy].
    rewrite lookup_insert. case_decide; eauto.
  - apply I1.
  - intros v [y Hv]. rewrite lookup_insert in Hv. apply (i_fresh _ _ I1). case_decide; [subst|]; eauto.
  - intros v. rewrite wraps_of_unlink. intros Hv.
    apply elem_of_erase_first in Hv as [Hv Nv]; [|apply I1].
    destruct (i_list _ _ I1 v Hv) as [c' Hc']. exists c'. rewrite lookup_delete_ne; [done|]. congruence.
  - rewrite wraps_of_unlink. apply NoDup_erase_first, I1.
  - intros v y. rewrite lookup_insert.
    case_decide; [intros [= <-]; subst; simpl; by apply (i_names _ _ I1 v)|apply (i_names _ _ I1)].
  - intros v y v' y'. rewrite !lookup_insert. repeat case_decide; intros; simplify_eq; auto;
      simpl in *; eapply (i_uniq _ _ I1); eauto.
  - apply I1.
  - apply I1.
  - intros c' v Hv. pose proof (i_inf _ _ I1 c' v Hv). rewrite lookup_delete_ne; [done|].
    intros ->. by apply (Hq v).
Qed.

Lemma set_error_inv s infl w x m : Inv s infl -> heap s !! w = Some x ->
  exists s', SetLastError w m s = Some s' /\ Inv s' infl.
Proof.
  intros I Hx. unfold SetLastError. rewrite Hx. simpl. eexists. split; [done|].
  pose proof (upd_inv s infl w x (with_error x m) (files s) I Hx) as U. destruct s. apply U; simpl; auto.
  - by apply (i_cnt _ _ I).
  - intros f fo v Hf Hv. right. by apply (i_file _ _ I f fo).
  - apply (i_meth _ _ I).
  - apply (i_u64 _ _ I).
Qed.

(** The lookup by name finds the context's own wrapper. *)
Lemma find_own s infl c w x l : Inv s infl -> registry s !! c = Some w -> heap s !! w = Some x ->
  (forall v, v ∈ wraps_of l -> v ∈ wraps_of (vfsList s)) ->
  exists r, sqlite3_vfs_find (heap s) (vfs_name x) l = Some r /\ (forall v, r = Some (VWrap v) -> v = w).
Proof.
  intros I Hr Hx. induction l as [|[n|v] l IH]; simpl; intros Hl.
  - eexists. split; [done|]. done.
  - case_decide; [eexists; split; [done|]; done|]. apply IH. done.
  - destruct (i_list _ _ I v (Hl v ltac:(set_solver))) as [c' Hc'].
    destruct (i_reg _ _ I c' v Hc') as (y & Hy & _). rewrite Hy. simpl.
    case_decide as E; [|apply IH; set_solver].
    eexists. split; [done|]. intros u [= <-]. symmetry. by apply (i_uniq _ _ I w x v y).
Qed.

Lemma elem_of_remove_one y x l : y ∈ remove_one x l -> y ∈ l.
Proof. induction l as [|z l IH]; simpl; [done|]. case_decide; set_solver. Qed.

Lemma Inv_inflight s infl infl' : Inv s infl -> (forall y, y ∈ infl' -> y ∈ infl) -> Inv s infl'.
Proof. intros I H. constructor; try apply I. intros c w Hw. apply (i_inf _ _ I). auto. Qed.

(** ** File objects *)

Lemma files_inv s infl fs' : Inv s infl ->
  (forall v, nopen v fs' = nopen v (files s)) ->
  (forall f fo v, fs' !! f = Some fo -> f_wrapper fo = Some v -> is_Some (heap s !! v)) ->
  (forall f fo v, fs' !! f = Some fo -> pMethods fo = Some v -> f_wrapper fo = Some v) ->
  Z.of_nat (size fs') < 2 ^ 64 -> Inv (set_files s fs') infl.
Proof.
  intros I Hn Hf Hm Hs. constructor; simpl; try apply I; auto.
  intros w x Hx. rewrite Hn. by apply (i_cnt _ _ I).
Qed.

(** What inserting the file object [fo] at [f] does to the three file clauses. *)
Lemma insert_refs (P : wptr -> Prop) (fs : gmap fptr SQLiteDuckDBCachedFile) f fo :
  (forall g go v, fs !! g = Some go -> f_wrapper go = Some v -> P v) ->
  (forall v, f_wrapper fo = Some v -> P v) ->
  forall g go v, <[f := fo]> fs !! g = Some go -> f_wrapper go = Some v -> P v.
Proof. intros H1 H2 g go v. rewrite lookup_insert. case_decide; [intros [= <-]; auto|apply H1]. Qed.

Lemma insert_meths (fs : gmap fptr SQLiteDuckDBCachedFile) f fo :
  (forall g go v, fs !! g = Some go -> pMethods go = Some v -> f_wrapper go = Some v) ->
  (forall v, pMethods fo = Some v -> f_wrapper fo = Some v) ->
  forall g go v, <[f := fo]> fs !! g = Some go -> pMethods go = Some v -> f_wrapper go = Some v.
Proof. intros H1 H2 g go v. rewrite lookup_insert. case_decide; [intros [= <-]; auto|apply H1]. Qed.

Lemma size_insert_le (fs : gmap fptr SQLiteDuckDBCachedFile) f fo :
  (size fs <= size (<[f := fo]> fs) <= S (size fs))%nat /\ (is_Some (fs !! f) -> size (<[f := fo]> fs) = size fs).
Proof.
  rewrite map_size_insert. destruct (fs !! f); simpl; (split; [lia|]); [done|by intros []].
Qed.

Lemma ind_at_none w fs f :
  (forall fo, (fs : gmap fptr SQLiteDuckDBCachedFile) !! f = Some fo -> f_wrapper fo = None) ->
  ind_at w (fs !! f) = 0.
Proof.
  intros H. destruct (fs !! f) as [fo|] eqn:E; [|done]. simpl. unfold ind.
  rewrite (H fo eq_refl). done.
Qed.

(** Counting the handle and attaching the file to the wrapper, or (when the file
    object could not be constructed) uncounting it again. *)
Lemma attach_inv s infl w x f fo : Inv s infl -> heap s !! w = Some x ->
  files s !! f = Some fo -> f_wrapper fo = None -> forall fname,
  Inv (set_files (set_heap s (<[w := with_count x (open_file_count x + 1)]> (heap s)))
         (<[f := mk_file (Some w) fname (Some w)]> (files s))) infl /\
  Inv (set_files (set_heap s (<[w := with_count (with_count x (open_file_count x + 1)) (open_file_count x)]> (heap s)))
         (<[f := mk_file None None None]> (files s))) infl.
Proof.
  intros I Hx Hf Hw fname. pose proof (i_cnt _ _ I w x Hx) as Cx. pose proof (i_u64 _ _ I) as S0.
  assert (forall v, ind_at v (files s !! f) = 0) as H1 by (intros; rewrite Hf; simpl; unfold ind; by rewrite Hw).
  split; (eapply (upd_inv s infl w x); [done|done|done|done|done|..]).
  - simpl. rewrite nopen_insert, H1. unfold ind. rewrite decide_True by done. lia.
  - intros v Nv. rewrite nopen_insert, H1. unfold ind. simpl. rewrite decide_False by congruence. lia.
  - apply insert_refs; [|intros v [= <-]; by left]. intros g go v E1 E2. right. by apply (i_file _ _ I g go).
  - apply insert_meths; [apply (i_meth _ _ I)|done].
  - destruct (size_insert_le (files s) f (mk_file (Some w) fname (Some w))) as [_ ->]; [done|eauto].
  - simpl. rewrite nopen_insert, H1. unfold ind. simpl. lia.
  - intros v Nv. rewrite nopen_insert, H1. unfold ind. simpl. lia.
  - apply insert_refs; [|done]. intros g go v E1 E2. right. by apply (i_file _ _ I g go).
  - apply insert_meths; [apply (i_meth _ _ I)|done].
  - destruct (size_insert_le (files s) f (mk_file None None None)) as [_ ->]; [done|eauto].
Qed.

(** Clearing the method table of a file object that is not attached. *)
Lemma clear_inv s infl f d : Inv s infl -> Z.of_nat (size (files s)) < 2 ^ 64 - 1 ->
  (forall fo, files s !! f = Some fo -> f_wrapper fo = None) ->
  Inv (set_files s (<[f := mk_file None d None]> (files s))) infl.
Proof.
  intros I Hsz Hfile. pose proof (size_insert_le (files s) f (mk_file None d None)) as [Sz _].
  apply files_inv; [done|..].
  - intros v. rewrite nopen_insert, ind_at_none by done. unfold ind. simpl. lia.
  - apply insert_refs; [apply (i_file _ _ I)|done].
  - apply insert_meths; [apply (i_meth _ _ I)|done].
  - lia.
Qed.

Lemma open_inv sizeof has_db s infl c w a : Inv s infl -> (c, w) ∈ infl ->
  a_vfs a = Some (Some w, sizeof) -> Z.of_nat (size (files s)) < 2 ^ 64 - 1 ->
  (forall f fo, a_file a = Some f -> files s !! f = Some fo -> f_wrapper fo = None) ->
  exists s' rc, Open sizeof has_db a s = Some (s', rc) /\ Inv s' infl /\
    (rc = SQLITE_OK -> exists f fo, a_file a = Some f /\ files s' !! f = Some fo /\
       pMethods fo = Some w /\ f_wrapper fo = Some w) /\
    (rc <> SQLITE_OK -> forall f fo, a_file a = Some f -> Z.land (a_flags a) SQLITE_OPEN_READONLY <> 0 ->
       is_Some (a_filename a) -> files s' !! f = Some fo -> pMethods fo = None).
Proof.
  intros I Hin Hv Hsz Hfile. unfold Open. rewrite Hv.
  destruct (a_filename a) as [fname|] eqn:Hfn; [|do 2 eexists; split; [done|]; split; [done|];
    split; [done|intros _ ? ? ? ? [? ?]; done]].
  destruct (a_file a) as [f|] eqn:Hf; [|do 2 eexists; split; [done|]; split; [done|]; split; done].
  destruct (Z.eqb_spec (Z.land (a_flags a) SQLITE_OPEN_READONLY) 0) as [Eg|Eg].
  { do 2 eexists. split; [done|]. split; [done|]. split; done. }
  assert (f_wrapper (default (mk_file None None None) (files s !! f)) = None) as ->.
  { destruct (files s !! f) as [fo|] eqn:E; [|done]. by apply (Hfile f fo). }
  set (d := duckdb_file _). pose proof (clear_inv s infl f d I Hsz (fun fo => Hfile f fo eq_refl)) as I0.
  replace (sizeof <? sizeof) with false by lia.
  destruct (i_reg _ _ I0 c w (i_inf _ _ I0 c w Hin)) as (x & Hx & _ & Hp). rewrite Hx. simpl.
  destruct (has_db (w_context x)); simpl.
  2:{ do 2 eexists. split; [done|]. split; [done|]. split; [done|].
      intros _ f' fo [= <-] _ _. simpl. rewrite lookup_insert_eq. by intros [= <-]. }
  pose proof (i_cnt _ _ I w x Hx) as Cx. pose proof (nopen_le_size w (files s)).
  rewrite (wrapu_id 64 (open_file_count x + 1)) by solve_width.
  destruct (attach_inv _ _ w x f (mk_file None d None) I0 Hx ltac:(simpl; apply lookup_insert_eq) eq_refl
              (Some fname)) as [I1 I2].
  destruct (a_new_ok a); [do 2 eexists; split; [done|]; split; [exact I1|split; [|done]]|].
  { intros _. exists f. eexists. simpl. rewrite lookup_insert_eq. eauto. }
  unfold ReleaseWrapperHandle. simpl. rewrite lookup_insert_eq. simpl.
  replace (open_file_count x + 1 - 1) with (open_file_count x) by lia.
  rewrite (wrapu_id 64 (open_file_count x)) by solve_width.
  rewrite Hp, andb_false_r. simpl. do 2 eexists. split; [done|]. rewrite (insert_insert_eq (heap s)).
  split; [exact I2|split; [done|]].
  intros _ f' fo [= <-] _ _. simpl. rewrite lookup_insert_eq. by intros [= <-].
Qed.

(** [Close] followed by SQLite's reset of the method table. *)
Lemma close_inv s infl f fo : Inv s infl -> files s !! f = Some fo -> is_Some (pMethods fo) ->
  exists s', Close (Some f) s = Some (s', SQLITE_OK) /\ files s' !! f = Some (mk_file (pMethods fo) None None) /\
    Inv (set_files s' (<[f := mk_file None None None]> (files s'))) infl.
Proof.
  intros I Hf [w Hm]. pose proof (i_meth _ _ I f fo w Hf Hm) as Hw.
  destruct (i_file _ _ I f fo w Hf Hw) as [x Hx].
  set (fs' := <[f := mk_file None None None]> (files s)).
  assert (forall v, nopen v fs' = nopen v (files s) - ind v fo) as Hn.
  { intros v. unfold fs'. rewrite nopen_insert, Hf. simpl. unfold ind. simpl. lia. }
  destruct (release_inv s infl w x fs' I Hx) as (s' & Hr & I' & Ef & _).
  - rewrite Hn. unfold ind. by rewrite decide_True.
  - intros v Nv. rewrite Hn. unfold ind. rewrite decide_False by congruence. lia.
  - apply insert_refs; [apply (i_file _ _ I)|done].
  - apply insert_meths; [apply (i_meth _ _ I)|done].
  - unfold fs'. destruct (size_insert_le (files s) f (mk_file None None None)) as [_ ->]; [apply I|eauto].
  - unfold Close. rewrite Hf. simpl. rewrite Hw, Hm.
    unfold ReleaseWrapperHandle in *. simpl in *. rewrite Hx in *. simpl in *.
    repeat case_match; simplify_eq/=; (eexists; split; [done|]; simpl; rewrite insert_insert_eq; split;
      [by rewrite lookup_insert_eq|exact I']).
Qed.

(** ** Steps and reachable states *)

#[local] Arguments Close : simpl never.

Section Reachable.
Context (sizeof_file : Z) (has_db : ctx -> bool).
Let exec := exec sizeof_file has_db.
Let allowed := allowed sizeof_file.
Let reachable := reachable sizeof_file has_db.

Lemma resolve_inv s c : Inv (reg s) (inflight s) ->
  exists s', exec (OpResolve c) s = Some s' /\ Inv (reg s') (inflight s') /\ reg s' = reg s.
Proof.
  intros I. subst exec. unfold VfsRegistry.exec, GetVFSNameForContext.
  destruct (registry (reg s) !! c) as [w|] eqn:Er; simpl; [|eauto].
  destruct (i_reg _ _ I c w Er) as (x & Hx & _). rewrite Hx. simpl.
  destruct (find_own _ _ c w x (vfsList (reg s)) I Er Hx ltac:(auto)) as (r & -> & Hr). simpl.
  destruct r as [[n|v]|]; [eauto| |eauto]. rewrite (Hr v eq_refl). eexists. split; [done|]. split; [|done].
  simpl. constructor; try apply I. intros c' w' Hin.
  apply elem_of_cons in Hin as [E|Hin]; [by simplify_eq|by apply (i_inf _ _ I)].
Qed.

Lemma file_call_inv s f err : Inv (reg s) (inflight s) -> allowed (OpFileCall f err) s ->
  exists s', exec (OpFileCall f err) s = Some s' /\ Inv (reg s') (inflight s').
Proof.
  intros I (fo & w & Hf & Hm). subst exec. unfold VfsRegistry.exec. rewrite Hf. simpl. rewrite Hm. simpl.
  pose proof (i_meth _ _ I f fo w Hf Hm) as Hw.
  destruct (i_file _ _ I f fo w Hf Hw) as [x Hx]. rewrite Hx. simpl. rewrite Hw.
  destruct err as [e|]; [|eauto].
  destruct (set_error_inv (reg s) (inflight s) w x e I Hx) as (s' & -> & I'). simpl. eauto.
Qed.

(** Every allowed step is defined and preserves the invariant. *)
Lemma exec_inv o s : Inv (reg s) (inflight s) -> allowed o s ->
  exists s', exec o s = Some s' /\ Inv (reg s') (inflight s').
Proof.
  intros I Ha. destruct o as [frc rrc m c|c|c|c w a|f err|f|c|c].
  - destruct (register_inv (reg s) (inflight s) frc rrc m c I Ha) as (s' & r & E & I' & _).
    exists (mk_sys s' (inflight s)). subst exec. simpl. by rewrite E.
  - destruct (unregister_inv (reg s) (inflight s) c I Ha) as (s' & E & I' & _).
    exists (mk_sys s' (inflight s)). subst exec. simpl. by rewrite E.
  - destruct (resolve_inv s c I) as (s' & ? & ? & _). eauto.
  - destruct Ha as (Hin & Hv & Hsz & Hf).
    destruct (open_inv sizeof_file has_db _ _ c w a I Hin Hv Hsz Hf) as (s' & rc & E & I' & _).
    exists (mk_sys s' (remove_one (c, w) (inflight s))). subst exec. simpl. rewrite E. simpl.
    split; [done|]. apply (Inv_inflight _ _ _ I'). intros y. apply elem_of_remove_one.
  - by apply file_call_inv.
  - destruct Ha as (fo & w & Hf & Hm).
    destruct (close_inv (reg s) (inflight s) f fo I Hf ltac:(eauto)) as (s' & E & Ef & I').
    subst exec. unfold VfsRegistry.exec. rewrite Hf. simpl. rewrite Hm. simpl.
    destruct (i_file _ _ I f fo w Hf (i_meth _ _ I f fo w Hf Hm)) as [x Hx]. rewrite Hx. simpl.
    rewrite E. simpl. rewrite Ef. simpl. eexists. split; [done|]. exact I'.
  - exists s. subst exec. simpl. unfold GetLastErrorForContext.
    destruct (registry (reg s) !! c) as [w|] eqn:Er; [|done].
    destruct (i_reg _ _ I c w Er) as (x & -> & _). done.
  - subst exec. simpl. unfold ClearLastErrorForContext.
    destruct (registry (reg s) !! c) as [w|] eqn:Er; [|simpl; eauto].
    destruct (i_reg _ _ I c w Er) as (x & Hx & _).
    destruct (set_error_inv (reg s) (inflight s) w x "" I Hx) as (s' & -> & I'). simpl. eauto.
Qed.

Lemma init_inv natives : Inv (init_reg natives) [].
Proof.
  assert (wraps_of (map VNative natives) = []) as E by (induction natives; done).
  constructor; simpl; try done; try (intros ? ? ?; set_solver); try set_solver.
  - constructor.
  - intros w [x Hx]. done.
  - rewrite E. set_solver.
  - rewrite E. constructor.
Qed.

Lemma reachable_inv natives s : reachable natives s -> Inv (reg s) (inflight s).
Proof.
  induction 1 as [|s o s' H IH Ha He]; [apply init_inv|].
  destruct (exec_inv o s IH Ha) as (s1 & E & I). subst exec. by simplify_eq.
Qed.
End Reachable.

(** ** Properties *)

(** C1. No use after free, in any interleaving.  From any reachable state of the
    registry (any sequence of registrations, teardowns, name lookups, opens,
    file calls and closes that respects the client contract), the next allowed
    step never follows a pointer to a freed wrapper; in particular every open
    file's method table and every open in flight points into a live wrapper. *)
Theorem wrapper_no_use_after_free sizeof_file has_db natives s :
  reachable sizeof_file has_db natives s ->
  (forall o, allowed sizeof_file o s -> is_Some (exec sizeof_file has_db o s)) /\
  (forall f fo w, files (reg s) !! f = Some fo -> pMethods fo = Some w -> is_Some (heap (reg s) !! w)) /\
  (forall c w, (c, w) ∈ inflight s -> is_Some (heap (reg s) !! w)).
Proof.
  intros H. pose proof (reachable_inv _ _ _ _ H) as I. split; [|split].
  - intros o Ha. destruct (exec_inv sizeof_file has_db o s I Ha) as (s' & -> & _). eauto.
  - intros f fo w Hf Hm. eapply (i_file _ _ I); [exact Hf|]. by apply (i_meth _ _ I f fo).
  - intros c w Hin. destruct (i_reg _ _ I c w (i_inf _ _ I c w Hin)) as (x & Hx & _). eauto.
Qed.

(** A run: two contexts register, one opens a file and is torn down while the
    file is still open. *)
Definition demo_args : open_args :=
  {| a_vfs := Some (Some 0%nat, 24); a_filename := Some "https://h/a.db"; a_file := Some 7%nat;
     a_flags := 1; a_new_ok := true |}.
Definition demo_step (o : op) (s : sys) : sys := default (init_sys []) (exec 24 (fun _ => true) o s).
Definition demo_0 : sys := init_sys ["unix"].
Definition demo_1 : sys := demo_step (OpRegister 0 0 true 1%nat) demo_0.
Definition demo_2 : sys := demo_step (OpRegister 0 0 true 2%nat) demo_1.
Definition demo_3 : sys := demo_step (OpResolve 1%nat) demo_2.
Definition demo_4 : sys := demo_step (OpOpen 1%nat 0%nat demo_args) demo_3.
Definition demo_state : sys := demo_step (OpUnregister 1%nat) demo_4.

Lemma demo_reachable : reachable 24 (fun _ => true) ["unix"] demo_state.
Proof.
  apply (reach_step _ _ _ demo_4 (OpUnregister 1%nat)); [|intros w; vm_compute; inversion 1|reflexivity].
  apply (reach_step _ _ _ demo_3 (OpOpen 1%nat 0%nat demo_args)); [| |reflexivity].
  2:{ split; [vm_compute; constructor|]. split; [reflexivity|]. split; [vm_compute; reflexivity|].
      intros f fo. vm_compute. intros [= <-]. discriminate. }
  apply (reach_step _ _ _ demo_2 (OpResolve 1%nat)); [|exact I|reflexivity].
  apply (reach_step _ _ _ demo_1 (OpRegister 0 0 true 2%nat)); [|vm_compute; reflexivity|reflexivity].
  apply (reach_step _ _ _ demo_0 (OpRegister 0 0 true 1%nat)); [|vm_compute; reflexivity|reflexivity].
  apply reach_init.
Qed.

Lemma wrapper_no_use_after_free_witness :
  is_Some (exec 24 (fun _ => true) (OpClose 7%nat) demo_state).
Proof.
  apply (proj1 (wrapper_no_use_after_free 24 (fun _ => true) ["unix"] demo_state demo_reachable)).
  eexists _, _. split; reflexivity.
Defined.

(** C15. Exact ownership and counting.  In every reachable state a wrapper is
    alive exactly when it is registered for its context or waits on the retired
    list (never both), its open-handle count is the number of open files
    attached to it, and SQLite's VFS list holds only wrappers that are still
    registered. *)
Theorem wrapper_refcount_exact sizeof_file has_db natives s :
  reachable sizeof_file has_db natives s ->
  (forall w x, heap (reg s) !! w = Some x ->
     open_file_count x = nopen w (files (reg s)) /\
     (pending_unregister x = true <-> w ∈ retired (reg s)) /\
     (pending_unregister x = false <-> exists c, registry (reg s) !! c = Some w)) /\
  (forall c w, registry (reg s) !! c = Some w -> is_Some (heap (reg s) !! w)) /\
  (forall w, w ∈ retired (reg s) -> is_Some (heap (reg s) !! w)) /\
  (forall w, VWrap w ∈ vfsList (reg s) -> exists c, registry (reg s) !! c = Some w).
Proof.
  intros H. pose proof (reachable_inv _ _ _ _ H) as I. split; [|split; [|split]].
  - intros w x Hx. split; [by apply (i_cnt _ _ I)|]. pose proof (i_own _ _ I w x Hx) as O. split; split.
    + intros E. by rewrite E in O.
    + intros Hw. destruct (i_ret _ _ I w Hw) as (y & Hy & ?). by simplify_eq.
    + intros E. rewrite E in O. eauto.
    + intros [c Hc]. destruct (i_reg _ _ I c w Hc) as (y & Hy & _ & ?). by simplify_eq.
  - intros c w Hc. destruct (i_reg _ _ I c w Hc) as (x & ? & _). eauto.
  - intros w Hw. destruct (i_ret _ _ I w Hw) as (x & ? & _). eauto.
  - intros w Hw. apply (i_list _ _ I). apply list_elem_of_omap. exists (VWrap w). done.
Qed.

Lemma wrapper_refcount_exact_witness :
  exists x, heap (reg demo_state) !! 0%nat = Some x /\ open_file_count x = 1 /\
    open_file_count x = nopen 0%nat (files (reg demo_state)) /\ pending_unregister x = true.
Proof.
  eexists. split; [reflexivity|]. split; [reflexivity|]. split; [|reflexivity].
  apply (proj1 (wrapper_refcount_exact 24 (fun _ => true) ["unix"] demo_state demo_reachable)).
  reflexivity.
Defined.

(** C16. Retired wrappers do not leak.  The last [Close] on a retired wrapper
    frees it at once, and after any [Register] the retired list holds only
    wrappers with an open file. *)
Theorem retired_reclaimed sizeof_file has_db natives s :
  reachable sizeof_file has_db natives s ->
  (forall frc rrc m c s', allowed sizeof_file (OpRegister frc rrc m c) s ->
     exec sizeof_file has_db (OpRegister frc rrc m c) s = Some s' ->
     forall w, w ∈ retired (reg s') -> 0 < nopen w (files (reg s'))) /\
  (forall f fo w s', files (reg s) !! f = Some fo -> pMethods fo = Some w -> w ∈ retired (reg s) ->
     nopen w (files (reg s)) = 1 ->
     exec sizeof_file has_db (OpClose f) s = Some s' ->
     heap (reg s') !! w = None /\ w ∉ retired (reg s')).
Proof.
  intros H. pose proof (reachable_inv _ _ _ _ H) as I. split.
  - intros frc rrc m c s' Ha E w Hw.
    destruct (register_inv (reg s) (inflight s) frc rrc m c I Ha) as (s1 & r & E1 & I1 & _).
    simpl in E. rewrite E1 in E. simplify_eq/=.
    unfold Register in E1. destruct (reap_inv _ _ I) as (s2 & Er & I2 & _ & _ & _ & _ & _ & Hc & _).
    rewrite Er in E1. simpl in E1.
    assert (retired s1 = retired s2 /\ files s1 = files s2) as [Er1 Ef1].
    { repeat case_match; by simplify_eq/=. }
    rewrite Er1 in Hw. rewrite Ef1. destruct (i_ret _ _ I2 w Hw) as (x & Hx & _).
    specialize (Hc w x Hw Hx). rewrite (i_cnt _ _ I2 w x Hx) in Hc.
    pose proof (nopen_le_size w (files s2)). lia.
  - intros f fo w s' Hf Hm Hr Hn E. pose proof (i_meth _ _ I f fo w Hf Hm) as Hw.
    destruct (i_ret _ _ I w Hr) as (x & Hx & Hp).
    unfold exec in E. rewrite Hf in E. simpl in E. rewrite Hm in E. simpl in E. rewrite Hx in E. simpl in E.
    unfold Close in E. rewrite Hf in E. simpl in E. rewrite Hw in E.
    unfold ReleaseWrapperHandle in E. simpl in E. rewrite Hx in E. simpl in E.
    rewrite (i_cnt _ _ I w x Hx), Hn, Hp in E. simpl in E. rewrite bool_decide_true in E by done.
    simplify_eq/=. split; [apply lookup_delete_eq|].
    rewrite elem_of_erase_first by apply I. tauto.
Qed.

Lemma retired_reclaimed_witness :
  exists s', exec 24 (fun _ => true) (OpClose 7%nat) demo_state = Some s' /\
    heap (reg s') !! 0%nat = None.
Proof.
  eexists. split; [reflexivity|].
  refine (proj1 (proj2 (retired_reclaimed 24 (fun _ => true) ["unix"] demo_state demo_reachable)
    7%nat _ 0%nat _ eq_refl eq_refl _ _ eq_refl)).
  - vm_compute. constructor.
  - vm_compute. reflexivity.
Defined.
