(* ===== verification/VfsMethods.v ===== *)
(** * The callbacks SQLite calls (class SQLiteDuckDBCacheVFS)

    The file methods and VFS methods of sqlite_duckdb_vfs_cache.cpp on top of
    the cached file and the error mapping: xRead, xFileSize, xFullPathname,
    xAccess, xGetLastError, xDlError and the constant answers of a read-only,
    immutable file. *)

From S2P Require Import Prelude VfsErrors CachedFile.

(** A C string as the bytes of its characters. *)
Fixpoint bytes_of (s : string) : list Z :=
  match s with
  | EmptyString => []
  | String c s' => Z.of_N (N_of_ascii c) :: bytes_of s'
  end.

(** [strncpy(out, s, n)] followed by [out[n] = 0], for a buffer of [n + 1]
    bytes: the text up to its NUL or to [n] bytes, zero filled. *)
Fixpoint until_nul (l : list Z) : list Z :=
  match l with [] => [] | b :: l' => if b =? 0 then [] else b :: until_nul l' end.
Definition strncpy_terminated (s : list Z) (n : nat) : list Z :=
  let t := take n (until_nul s) in t ++ replicate (S n - length t) 0.

Section Methods.
Context {handle : Type}.
Context (str_contains : string -> string -> bool).
Context (regex_search : string -> option (list string)).
Context (try_cast_int32 : string -> option Z).
Context (IsRemoteFile : string -> bool).
Context (IOException : string -> exn).
Let SafeCall := SafeVFSCall str_contains regex_search try_cast_int32.

Definition outcome_of {A} (r : res exn A) : outcome A :=
  match r with Ok a => Returns a | Throw e => Throws e end.

(** The file object as the callbacks see it: the cached file, if any, and
    whether a wrapper is attached. *)
Record vfs_file : Type := mk_vfile { vf_file : option (DuckDBCachedFile handle); vf_wrapper : bool }.

Record io_result : Type := mk_io_result {
  io_file : option vfs_file;
  io_rc : Z;
  io_buffer : option (list Z);
  io_error : option string;
}.

(** xRead. *)
Definition xRead (fs : fsys handle) (file : option vfs_file) (has_buffer : bool) (amount offset : Z)
    (diag_fails : bool) : io_result :=
  let wrapper := match file with Some f => vf_wrapper f | None => false end in
  let done_ (file : option vfs_file) (o : outcome Z) (buf : option (list Z)) :=
    let '(rc, msg) := SafeCall SQLITE_IOERR_READ o wrapper None diag_fails in
    mk_io_result file rc buf msg in
  match file with
  | None => done_ file (Returns SQLITE_IOERR_READ) None
  | Some f =>
      if negb has_buffer then done_ file (Returns SQLITE_IOERR_READ) None
      else match vf_file f with
           | None => done_ file (Returns SQLITE_IOERR_READ) None
           | Some cf =>
               let '(cf', r) := Read str_contains regex_search try_cast_int32 IsRemoteFile IOException
                                  fs cf has_buffer amount offset in
               let file' := Some (mk_vfile (Some cf') (vf_wrapper f)) in
               match r with
               | Ok (rc, buf) => done_ file' (Returns rc) buf
               | Throw e => done_ file' (Throws e) None
               end
           end
  end.

(** xFileSize: the code and the size stored in [*size], if it was stored. *)
Definition xFileSize (fs : fsys handle) (file : option vfs_file) (has_size : bool) (diag_fails : bool)
    : option vfs_file * Z * option Z * option string :=
  let wrapper := match file with Some f => vf_wrapper f | None => false end in
  let done_ (file : option vfs_file) (o : outcome Z) (sz : option Z) :=
    let '(rc, msg) := SafeCall SQLITE_IOERR o wrapper None diag_fails in
    (file, rc, sz, msg) in
  match file with
  | None => done_ file (Returns SQLITE_IOERR) None
  | Some f =>
      if negb has_size then done_ file (Returns SQLITE_IOERR) None
      else match vf_file f with
           | None => done_ file (Returns SQLITE_IOERR) None
           | Some cf =>
               let '(cf', r) := GetFileSize str_contains regex_search try_cast_int32 IsRemoteFile IOException fs cf in
               let file' := Some (mk_vfile (Some cf') (vf_wrapper f)) in
               match r with
               | Ok size => if size <? 0 then done_ file' (Returns SQLITE_IOERR) None
                            else done_ file' (Returns SQLITE_OK) (Some size)
               | Throw e => done_ file' (Throws e) None
               end
           end
  end.

(** xFullPathname: the code and the contents of the output buffer. *)
Definition xFullPathname (filename : option (list Z)) (out_size : Z) (has_buf : bool) : Z * option (list Z) :=
  match filename with
  | None => (SQLITE_IOERR, None)
  | Some s =>
      if negb has_buf || (out_size <=? 0) then (SQLITE_IOERR, None)
      else if out_size <=? i32 (Z.of_nat (length (until_nul s))) then (SQLITE_CANTOPEN, None)
      else (SQLITE_OK, Some (strncpy_terminated s (Z.to_nat (out_size - 1))))
  end.

(** xAccess: every probe is answered "does not exist" without any I/O. *)
Definition xAccess (filename : option string) (has_result : bool) : Z * option Z :=
  match filename with
  | Some _ => if has_result then (SQLITE_OK, Some 0) else (SQLITE_IOERR, None)
  | None => (SQLITE_IOERR, None)
  end.

(** xGetLastError. *)
Definition xGetLastError (last_error : option (list Z)) (bytes : Z) (has_buf : bool) : Z * option (list Z) :=
  match last_error with
  | None => (0, None)
  | Some error =>
      if negb has_buf || (bytes <=? 0) then (0, None)
      else match error with
           | [] => (0, Some [0])
           | _ => (0, Some (strncpy_terminated error (Z.to_nat (bytes - 1))))
           end
  end.

Definition dl_message : list Z :=
  bytes_of "Dynamic loading not supported through the DuckDB filesystem VFS".
Definition xDlError (bytes : Z) (has_buf : bool) : option (list Z) :=
  if has_buf && (0 <? bytes) then Some (strncpy_terminated dl_message (Z.to_nat (bytes - 1))) else None.

Definition xCheckReservedLock (has_result : bool) : Z * option Z :=
  (SQLITE_OK, if has_result then Some 0 else None).

(** [CanHandlePath]; [emscripten] is the build flag. *)
Definition CanHandlePath (emscripten : bool) (path : string) : bool :=
  if IsRemoteFile path then true else emscripten.
End Methods.

(** The constant answers. *)
Definition xDelete : Z := SQLITE_IOERR_DELETE.
Definition xWrite : Z := SQLITE_READONLY.
Definition xTruncate : Z := SQLITE_READONLY.
Definition xSync : Z := SQLITE_OK.
Definition xLock : Z := SQLITE_OK.
Definition xUnlock : Z := SQLITE_OK.
Definition xFileControl : Z := SQLITE_NOTFOUND.
Definition SQLITE_SECTOR_SIZE : Z := 4096.
Definition xSectorSize : Z := SQLITE_SECTOR_SIZE.
Definition xDeviceCharacteristics : Z := SQLITE_IOCAP_IMMUTABLE.

(** ** Properties *)

Lemma until_nul_le l : (length (until_nul l) <= length l)%nat.
Proof. induction l as [|b l IH]; simpl; [done|]. destruct (b =? 0); simpl; lia. Qed.

Lemma until_nul_app t k : Forall (fun b => b <> 0) t -> until_nul (t ++ replicate (S k) 0) = t.
Proof.
  induction 1 as [|b t Hb Ht IH]; simpl; [done|].
  replace (b =? 0) with false by (symmetry; by apply Z.eqb_neq). f_equal. exact IH.
Qed.

Lemma until_nul_nz l : Forall (fun b => b <> 0) (until_nul l).
Proof.
  induction l as [|b l IH]; simpl; [constructor|].
  destruct (Z.eqb_spec b 0); constructor; auto.
Qed.

Lemma strncpy_spec s n :
  length (strncpy_terminated s n) = S n /\ until_nul (strncpy_terminated s n) = take n (until_nul s).
Proof.
  unfold strncpy_terminated. set (t := take n (until_nul s)).
  assert (length t <= n)%nat as Hl by (unfold t; rewrite length_take; lia).
  split; [rewrite length_app, length_replicate; lia|].
  replace (S n - length t)%nat with (S (n - length t)) by lia.
  apply until_nul_app. unfold t. apply Forall_take, until_nul_nz.
Qed.

(** Names and messages cross the C boundary intact: a full path that is
    accepted fills exactly the buffer and reads back as the whole name, a name
    that does not fit is refused and nothing is written, and error messages are
    cut to the buffer, always NUL-terminated. *)
Theorem vfs_text_buffers (s : list Z) (n : nat) :
  Z.of_nat (length s) < 2 ^ 31 -> (0 < n)%nat ->
  (match xFullPathname (Some s) (Z.of_nat n) true with
   | (rc, Some buf) => rc = SQLITE_OK /\ length buf = n /\ until_nul buf = until_nul s
   | (rc, None) => rc = SQLITE_CANTOPEN /\ (n <= length (until_nul s))%nat
   end) /\
  (forall buf, snd (xGetLastError (Some s) (Z.of_nat n) true) = Some buf -> s <> [] ->
     length buf = n /\ until_nul buf = take (n - 1) (until_nul s)) /\
  (exists buf, xDlError (Z.of_nat n) true = Some buf /\ length buf = n).
Proof.
  intros Hs Hn. pose proof (until_nul_le s). split; [|split].
  - unfold xFullPathname. replace (negb true || _) with false by lia.
    rewrite wraps_id by (unfold is_s; lia). destruct (Z.leb_spec (Z.of_nat n) (Z.of_nat (length (until_nul s)))).
    + split; [done|lia].
    + split; [done|]. destruct (strncpy_spec s (Z.to_nat (Z.of_nat n - 1))) as [-> ->].
      split; [lia|]. rewrite take_ge; [done|lia].
  - intros buf. unfold xGetLastError. replace (negb true || _) with false by lia.
    destruct s as [|b s]; [done|]. intros [= <-] _.
    destruct (strncpy_spec (b :: s) (Z.to_nat (Z.of_nat n - 1))) as [-> ->]. split; [lia|].
    by replace (Z.to_nat (Z.of_nat n - 1)) with (n - 1)%nat by lia.
  - unfold xDlError. replace (true && _) with true by lia. eexists. split; [done|].
    destruct (strncpy_spec dl_message (Z.to_nat (Z.of_nat n - 1))) as [-> _]. lia.
Qed.

Lemma vfs_text_buffers_witness :
  xFullPathname (Some [104; 105]) 4 true = (SQLITE_OK, Some [104; 105; 0; 0]) /\
  xFullPathname (Some [104; 105]) 2 true = (SQLITE_CANTOPEN, None) /\
  (exists buf, xDlError 8 true = Some buf /\ length buf = 8%nat).
Proof.
  split; [reflexivity|]. split; [reflexivity|].
  exact (proj2 (proj2 (vfs_text_buffers [104; 105] 8 ltac:(simpl; lia) ltac:(lia)))).
Defined.
