(* ===== verification/Like.v ===== *)
(** * DuckDB's LIKE inside SQLite (sqlite_functions.cpp)

    [SQLiteLikeMatches] is a greedy matcher over the bytes of a UTF-8 string
    that remembers only the last [%].  It is modelled with the remaining
    pattern and string in place of the indices [pidx], [sidx], [retry_pidx]
    and [retry_sidx], and proved equal to the backtracking meaning of the
    pattern, with a bound on the number of iterations. *)

From S2P Require Import Prelude.

(** [(b & 0xc0) == 0x80]: a UTF-8 continuation byte. *)
Definition is_cont (b : Z) : bool := Z.land b 0xc0 =? 0x80.

Fixpoint skip_cont (s : list Z) : list Z :=
  match s with
  | [] => []
  | b :: s' => if is_cont b then skip_cont s' else s
  end.

Definition c_underscore : Z := 95.
Definition c_percent : Z := 37.

Fixpoint skip_percent (p : list Z) : list Z :=
  match p with
  | [] => []
  | b :: p' => if b =? c_percent then skip_percent p' else p
  end.

Inductive like_error : Type := EscapeAtEnd | InvalidEscape.

Section Matcher.
Context (escape : option Z).

Definition is_escape (b : Z) : bool :=
  match escape with Some e => b =? e | None => false end.

(** The loop after the string is exhausted: only [%] may remain. *)
Fixpoint like_tail (p : list Z) : res like_error bool :=
  match p with
  | [] => Ok true
  | b :: p' =>
      if is_escape b then match p' with [] => Throw EscapeAtEnd | _ => Ok false end
      else if b =? c_percent then like_tail p' else Ok false
  end.

(** The main loop.  [retry] holds the pattern after the last [%] and the place
    in the string it was last tried at; [None] is [has_percentage == false]. *)
Fixpoint like_loop (fuel : nat) (p s : list Z) (retry : option (list Z * list Z))
    : option (res like_error bool) :=
  match fuel with
  | O => None
  | S fuel =>
      match s with
      | [] => Some (like_tail p)
      | schar :: s' =>
          let again :=
            match retry with
            | None => Some (Ok false)
            | Some (rp, rs) => like_loop fuel rp (tail rs) (Some (rp, tail rs))
            end in
          match p with
          | [] => again
          | pchar :: p' =>
              if is_escape pchar then
                match p' with
                | [] => Some (Throw EscapeAtEnd)
                | c :: p'' => if c =? schar then like_loop fuel p'' s' retry else again
                end
              else if pchar =? c_underscore then like_loop fuel p' (skip_cont s') retry
              else if pchar =? c_percent then
                match skip_percent p' with
                | [] => Some (Ok true)
                | p'' => like_loop fuel p'' s (Some (p'', s))
                end
              else if pchar =? schar then like_loop fuel p' s' retry
              else again
          end
      end
  end.

(** Enough iterations for any pattern and string. *)
Definition like_fuel (p s : list Z) : nat :=
  S (length s * (length p + length s + 1) + length p + length s).

Definition SQLiteLikeMatches (s p : list Z) : option (res like_error bool) :=
  like_loop (like_fuel p s) p s None.

(** ** The meaning of a pattern *)

Inductive tok : Type := TLit (b : Z) | TOne | TMany.

(** The tokens of a pattern, [None] if it ends in the escape character. *)
Fixpoint tokens (p : list Z) : option (list tok) :=
  match p with
  | [] => Some []
  | b :: p' =>
      if is_escape b then
        match p' with
        | [] => None
        | c :: p'' => ts ← tokens p''; Some (TLit c :: ts)
        end
      else ts ← tokens p';
           Some ((if b =? c_underscore then TOne else if b =? c_percent then TMany else TLit b) :: ts)
  end.

End Matcher.

(** A literal matches its byte, [_] one UTF-8 character, [%] any bytes. *)
Fixpoint lmatch (ts : list tok) (s : list Z) : bool :=
  match ts with
  | [] => match s with [] => true | _ => false end
  | TLit b :: ts => match s with c :: s' => (b =? c) && lmatch ts s' | [] => false end
  | TOne :: ts => match s with _ :: s' => lmatch ts (skip_cont s') | [] => false end
  | TMany :: ts =>
      (fix any (s : list Z) : bool :=
         lmatch ts s || match s with [] => false | _ :: s' => any s' end) s
  end.

(** [duckdb_like(string, pattern[, escape])] on non-NULL text arguments: the
    escape argument is empty or one byte; [ilike] folds the three by DuckDB's
    lower-casing. *)
Section LikeFunction.
Context (SQLiteLowerCase : list Z -> list Z) (CharacterToLower : Z -> Z).

Definition SQLiteLikeFunction (case_insensitive : bool) (args : list (option (list Z)))
    : option (option (res like_error Z)) :=
  match mapM id args with
  | None => Some None   (* a NULL argument gives NULL *)
  | Some (str :: pattern :: rest) =>
      match rest with
      | (_ :: _ :: _) :: _ => Some (Some (Throw InvalidEscape))
      | _ =>
          let escape := match rest with [e] :: _ => Some e | _ => None end in
          let str := if case_insensitive then SQLiteLowerCase str else str in
          let pattern := if case_insensitive then SQLiteLowerCase pattern else pattern in
          let escape := if case_insensitive then CharacterToLower <$> escape else escape in
          r ← SQLiteLikeMatches escape str pattern;
          Some (Some (match r with Ok b => Ok (if (b : bool) then 1 else 0) | Throw e => Throw e end))
      end
  | Some _ => None   (* fewer than two arguments: not callable *)
  end.
End LikeFunction.

(** ** Termination *)

Lemma length_skip_cont s : (length (skip_cont s) <= length s)%nat.
Proof. induction s as [|b s IH]; simpl; [done|]. case_match; simpl; lia. Qed.

Lemma length_skip_percent p : (length (skip_percent p) <= length p)%nat.
Proof. induction p as [|b p IH]; simpl; [done|]. case_match; simpl; lia. Qed.

(** What is left to do: the places the last [%] can still be retried at, then
    the pattern and string of the current attempt. *)
Definition like_measure (P S : nat) (p s : list Z) (retry : option (list Z * list Z)) : nat :=
  (match retry with Some (_, rs) => length rs | None => S end) * (P + S + 1) + length p + length s.

Definition retry_ok (P S : nat) (s : list Z) (retry : option (list Z * list Z)) : Prop :=
  match retry with
  | Some (rp, rs) => length s <= length rs <= S /\ length rp <= P
  | None => length s <= S
  end%nat.

Lemma like_loop_total escape P S fuel : forall p s retry,
  (length p <= P)%nat -> retry_ok P S s retry ->
  (like_measure P S p s retry < fuel)%nat -> is_Some (like_loop escape fuel p s retry).
Proof.
  induction fuel as [|fuel IH]; intros p s retry Hp Hr Hm; [lia|]. simpl.
  destruct s as [|c s]; [eauto|].
  assert (Hagain : is_Some (match retry with
    | None => Some (Ok false)
    | Some (rp, rs) => like_loop escape fuel rp (tail rs) (Some (rp, tail rs)) end)).
  { destruct retry as [[rp [|r rs]]|]; [simpl in *; lia| |eauto].
    simpl in Hr. apply IH; unfold retry_ok, like_measure in *; simpl in *; nia. }
  assert (Hstep : forall p' s', (length p' + length s' < length p + length (c :: s))%nat ->
    (length p' <= length p)%nat -> (length s' <= length (c :: s))%nat ->
    is_Some (like_loop escape fuel p' s' retry)).
  { intros p' s' H1 H2 H3. apply IH; [lia| |unfold like_measure in *; lia].
    destruct retry as [[rp rs]|]; simpl in *; lia. }
  pose proof (length_skip_cont s) as Hsc.
  destruct p as [|b p]; [done|]. pose proof (length_skip_percent p) as Hsp.
  repeat case_match; eauto; try (apply Hstep; simpl in *; lia);
    (apply IH; unfold like_measure, retry_ok in *; simpl in *; nia).
Qed.

(** ** Correctness *)

Lemma lmatch_many ts s :
  lmatch (TMany :: ts) s = lmatch ts s || match s with [] => false | _ :: s' => lmatch (TMany :: ts) s' end.
Proof. by destruct s. Qed.

Lemma lmatch_many_suffix ts s t :
  t `suffix_of` s -> lmatch (TMany :: ts) t = true -> lmatch (TMany :: ts) s = true.
Proof.
  intros [k ->] H. induction k as [|x k IH]; [done|].
  change ((x :: k) ++ t) with (x :: (k ++ t)). rewrite lmatch_many, IH. apply orb_true_r.
Qed.

Lemma lmatch_many_true ts s :
  lmatch (TMany :: ts) s = true -> exists t, t `suffix_of` s /\ lmatch ts t = true.
Proof.
  induction s as [|x s IH]; rewrite lmatch_many; intros [H|H]%orb_true_iff; eauto; [done|].
  destruct (IH H) as (t & Ht & Hm). exists t. split; [by apply suffix_cons_r|done].
Qed.

Lemma lmatch_many_nil s : lmatch [TMany] s = true.
Proof. induction s as [|x s IH]; [done|]. rewrite lmatch_many, IH. apply orb_true_r. Qed.

Lemma lmatch_many_many ts s : lmatch (TMany :: TMany :: ts) s = lmatch (TMany :: ts) s.
Proof.
  induction s as [|x s IH]; rewrite lmatch_many; [by rewrite orb_false_r|].
  rewrite IH, (lmatch_many ts (x :: s)). by destruct (lmatch ts (x :: s)), (lmatch (TMany :: ts) s).
Qed.

(** The string left when a pattern piece without [%] is matched at its front. *)
Fixpoint consume (pre : list tok) (s : list Z) : option (list Z) :=
  match pre, s with
  | [], _ => Some s
  | TLit b :: pre, c :: s' => if b =? c then consume pre s' else None
  | TOne :: pre, _ :: s' => consume pre (skip_cont s')
  | _, _ => None
  end.

Lemma lmatch_consume pre ts s : Forall (.≠ TMany) pre ->
  lmatch (pre ++ ts) s = match consume pre s with Some t => lmatch ts t | None => false end.
Proof.
  intros Hp. revert s. induction Hp as [|[b| |] pre Hx Hp IH]; intros s; [done| | |done].
  - destruct s as [|c s]; simpl; [done|]. by destruct (b =? c); rewrite ?IH.
  - destruct s as [|c s]; simpl; auto.
Qed.

Lemma consume_snoc pre x s t : consume pre s = Some t -> consume (pre ++ [x]) s = consume [x] t.
Proof.
  revert s. induction pre as [|[b| |] pre IH]; intros s H; simpl in *.
  - by injection H as ->.
  - destruct s as [|c s]; [done|]. destruct (b =? c); [auto|done].
  - destruct s; [done|auto].
  - done.
Qed.

Lemma suffix_tail_mono (t s : list Z) : t `suffix_of` s -> tail t `suffix_of` tail s.
Proof.
  intros [k ->]. destruct k as [|x k]; [done|]. simpl.
  destruct t as [|y t]; simpl; [apply suffix_nil|].
  exists (k ++ [y]). by rewrite <- app_assoc.
Qed.

Lemma skip_cont_suffix s : skip_cont s `suffix_of` s.
Proof. induction s as [|b s IH]; simpl; [done|]. case_match; [by apply suffix_cons_r|done]. Qed.

Lemma skip_cont_mono t s : t `suffix_of` s -> skip_cont t `suffix_of` skip_cont s.
Proof.
  intros [k ->]. induction k as [|b k IH]; simpl; [done|]. case_match; [done|].
  apply suffix_cons_r. etrans; [apply skip_cont_suffix|by exists k].
Qed.

(** A later attempt of the same piece cannot leave more of the string. *)
Lemma consume_mono pre : forall t s t' s',
  t `suffix_of` s -> consume pre t = Some t' -> consume pre s = Some s' -> t' `suffix_of` s'.
Proof.
  induction pre as [|[b| |] pre IH]; intros t s t' s' Hs Ht Hs'; simpl in *; simplify_eq; try done.
  - pose proof (suffix_tail_mono _ _ Hs). destruct t, s; simplify_eq. repeat case_match; simplify_eq. eauto.
  - pose proof (suffix_tail_mono _ _ Hs). destruct t, s; simplify_eq.
    eapply IH; [|done..]. by apply skip_cont_mono.
Qed.

Section LoopInvariant.
Context (escape : option Z).

Lemma tokens_tail p ts : tokens escape p = Some ts -> like_tail escape p = Ok (lmatch ts []).
Proof.
  revert ts. induction p as [|b p IH]; intros ts H; simpl in *; [by simplify_eq|].
  destruct (is_escape escape b).
  - destruct p as [|c p]; [done|]. apply bind_Some in H as (? & _ & [= <-]). done.
  - apply bind_Some in H as (ts' & Ht & [= <-]). unfold c_underscore, c_percent in *.
    destruct (b =? 95) eqn:E1; [by replace (b =? 37) with false by lia|].
    destruct (b =? 37); [|done]. rewrite (IH _ Ht). simpl. by rewrite orb_false_r.
Qed.

Lemma tokens_skip_percent p ts : is_escape escape c_percent = false -> tokens escape p = Some ts ->
  exists ts', tokens escape (skip_percent p) = Some ts' /\
    forall s, lmatch (TMany :: ts) s = lmatch (TMany :: ts') s.
Proof.
  intros He. revert ts. induction p as [|b p IH]; intros ts H; [by exists ts|]. simpl skip_percent.
  destruct (b =? c_percent) eqn:E; [|by exists ts].
  apply Z.eqb_eq in E as ->. simpl in H. rewrite He in H.
  apply bind_Some in H as (ts1 & Ht & [= <-]). destruct (IH _ Ht) as (ts' & Ht' & Hm).
  exists ts'. split; [done|]. intros s. rewrite <- Hm. apply lmatch_many_many.
Qed.

(** [rts] are the tokens after the last [%]; [pre] is the part of them matched
    so far in the current attempt, from [rs]. *)
Definition retry_inv (ts : list tok) (s : list Z) (retry : option (list Z * list Z)) (rts : list tok) : Prop :=
  match retry with
  | None => True
  | Some (rp, rs) => tokens escape rp = Some rts /\
      exists pre, rts = pre ++ ts /\ Forall (.≠ TMany) pre /\ consume pre rs = Some s
  end.

(** The attempts still open if the current one fails. *)
Definition later (retry : option (list Z * list Z)) (rts : list tok) : bool :=
  match retry with
  | None => false
  | Some (_, rs) => match rs with [] => false | _ :: rs' => lmatch (TMany :: rts) rs' end
  end.

Lemma retry_inv_step ts s s' retry rts x : x <> TMany -> consume [x] s = Some s' ->
  retry_inv (x :: ts) s retry rts -> retry_inv ts s' retry rts.
Proof.
  destruct retry as [[rp rs]|]; [|done]. intros Hx Hc (Ht & pre & -> & Hp & Hs).
  split; [done|]. exists (pre ++ [x]). rewrite <- app_assoc. repeat split; [|by rewrite (consume_snoc _ _ _ s)].
  apply Forall_app; auto.
Qed.

(** With the string used up, or at another [%], the later attempts add nothing. *)
Lemma later_subsumed ts s retry rts : retry_inv ts s retry rts ->
  (forall t, t `suffix_of` s -> lmatch ts t = true -> lmatch ts s = true) ->
  lmatch ts s || later retry rts = lmatch ts s.
Proof.
  destruct retry as [[rp [|r rs]]|]; cbn [later retry_inv]; intros Hi Hm; rewrite ?orb_false_r; [done| |done].
  destruct Hi as (_ & pre & -> & Hp & Hs).
  destruct (lmatch (TMany :: pre ++ ts) rs) eqn:E; [|apply orb_false_r].
  rewrite orb_true_r. symmetry. apply lmatch_many_true in E as (t & Ht & E).
  rewrite lmatch_consume in E by done. destruct (consume pre t) as [t'|] eqn:Et; [|done].
  apply (Hm t'); [|done]. eapply consume_mono; [|exact Et|exact Hs]. by apply suffix_cons_r.
Qed.

Lemma later_again ts s retry rts : retry_inv ts s retry rts -> s <> [] ->
  match retry with
  | None => later retry rts = false
  | Some (rp, rs) => retry_inv rts (tail rs) (Some (rp, tail rs)) rts /\
      later retry rts = lmatch rts (tail rs) || later (Some (rp, tail rs)) rts
  end.
Proof.
  destruct retry as [[rp rs]|]; [|done]. intros (Ht & pre & Hr & Hp & Hs) Hn. split.
  - split; [done|]. by exists [].
  - destruct rs as [|r rs]; [|apply lmatch_many].
    destruct pre as [|[]]; simpl in Hs; simplify_eq.
Qed.

Lemma like_loop_correct fuel : forall p s retry ts rts r,
  tokens escape p = Some ts -> retry_inv ts s retry rts ->
  like_loop escape fuel p s retry = Some r -> r = Ok (lmatch ts s || later retry rts).
Proof.
  induction fuel as [|fuel IH]; intros p s retry ts rts r Ht Hi H; [done|]. simpl in H.
  destruct s as [|c s].
  { simplify_eq. rewrite (tokens_tail _ _ Ht). f_equal. symmetry. eapply later_subsumed; [done|].
    by intros t ->%suffix_nil_inv. }
  assert (Hagain : match retry with
    | None => Some (Ok false)
    | Some (rp, rs) => like_loop escape fuel rp (tail rs) (Some (rp, tail rs)) end = Some r ->
    lmatch ts (c :: s) = false -> r = Ok (lmatch ts (c :: s) || later retry rts)).
  { intros Hr ->. pose proof (later_again _ _ _ _ Hi ltac:(done)) as Hl.
    destruct retry as [[rp rs]|]; [|by simplify_eq]. destruct Hl as [Hi' Hl]. rewrite orb_false_l, Hl.
    eapply IH; [apply Hi'|exact Hi'|exact Hr]. }
  assert (Hstep : forall x p' s' ts', ts = x :: ts' -> x <> TMany -> consume [x] (c :: s) = Some s' ->
    tokens escape p' = Some ts' -> like_loop escape fuel p' s' retry = Some r ->
    r = Ok (lmatch ts (c :: s) || later retry rts)).
  { intros x p' s' ts' -> Hx Hc Ht' Hr.
    rewrite (lmatch_consume [x] ts') by (repeat constructor; done). rewrite Hc.
    eapply IH; [done| |done]. eapply retry_inv_step; eauto. }
  destruct p as [|b p]; [injection Ht as <-; by apply Hagain|]. simpl in Ht.
  destruct (is_escape escape b) eqn:Ee.
  { destruct p as [|b' p]; [done|]. apply bind_Some in Ht as (ts' & Ht & [= <-]).
    destruct (b' =? c) eqn:E; [|apply Hagain; [done|simpl; by rewrite E]].
    eapply Hstep; eauto. simpl. by rewrite E. }
  apply bind_Some in Ht as (ts' & Ht & [= <-]).
  destruct (b =? c_underscore); [eapply Hstep; eauto; done|].
  destruct (b =? c_percent) eqn:Ep.
  - apply Z.eqb_eq in Ep as ->. destruct (tokens_skip_percent _ _ Ee Ht) as (ts2 & Ht2 & Hm).
    rewrite (later_subsumed _ _ _ _ Hi) by (intros; eapply lmatch_many_suffix; eauto). rewrite Hm.
    destruct (skip_percent p) as [|q p2]; [simpl in Ht2; simplify_eq; by rewrite lmatch_many_nil|].
    rewrite lmatch_many. eapply IH in H; [exact H|done|]. split; [done|]. by exists [].
  - destruct (b =? c) eqn:E; [|apply Hagain; [done|simpl; by rewrite E]].
    eapply Hstep; eauto. simpl. by rewrite E.
Qed.
End LoopInvariant.

Lemma like_matches_total escape s p : is_Some (SQLiteLikeMatches escape s p).
Proof. apply (like_loop_total _ (length p) (length s)); unfold retry_ok, like_measure, like_fuel; lia. Qed.

Lemma like_matches_tokens escape s p ts : tokens escape p = Some ts ->
  SQLiteLikeMatches escape s p = Some (Ok (lmatch ts s)).
Proof.
  intros Ht. destruct (like_matches_total escape s p) as [r Hr]. rewrite Hr. f_equal.
  eapply (like_loop_correct _ _ _ _ None _ []) in Hr; [|done..].
  by rewrite orb_false_r in Hr.
Qed.

(** C21. [LIKE] always terminates, and on a pattern whose escape characters are
    all followed by a byte the greedy matcher, which only ever returns to the
    last [%], decides the backtracking meaning of the pattern: literal and
    escaped bytes match themselves, [_] one UTF-8 character, [%] anything. *)
Theorem like_matches_correct (escape : option Z) (s p : list Z) :
  is_Some (SQLiteLikeMatches escape s p) /\
  forall ts, tokens escape p = Some ts -> SQLiteLikeMatches escape s p = Some (Ok (lmatch ts s)).
Proof. split; [apply like_matches_total|]. intros ts. apply like_matches_tokens. Qed.

Lemma like_matches_correct_witness :
  SQLiteLikeMatches (Some 92) [97; 195; 169; 37; 98; 99] [37; 95; 92; 37; 37; 99] = Some (Ok true).
Proof.
  exact (proj2 (like_matches_correct (Some 92) [97; 195; 169; 37; 98; 99] [37; 95; 92; 37; 37; 99])
    [TMany; TOne; TLit 37; TMany; TLit 99] eq_refl).
Defined.
