(* ===== verification/Ctype.v ===== *)
(** * Characters and identifiers (SQLite's global.c and util.c)

    The two 256-byte tables SQLite classifies and folds characters with, the
    predicates on them, case-independent comparison and hashing of
    zero-terminated strings, and removal of SQL quotes.  A zero-terminated
    string is the list of the bytes before its terminator. *)

From S2P Require Import Prelude.

(** ** The tables *)

Definition sqlite3UpperToLower : list Z :=
  [0; 1; 2; 3; 4; 5; 6; 7; 8; 9; 10; 11; 12; 13; 14; 15; 16; 17;
   18; 19; 20; 21; 22; 23; 24; 25; 26; 27; 28; 29; 30; 31; 32; 33; 34; 35;
   36; 37; 38; 39; 40; 41; 42; 43; 44; 45; 46; 47; 48; 49; 50; 51; 52; 53;
   54; 55; 56; 57; 58; 59; 60; 61; 62; 63; 64; 97; 98; 99; 100; 101; 102; 103;
   104; 105; 106; 107; 108; 109; 110; 111; 112; 113; 114; 115; 116; 117; 118; 119; 120; 121;
   122; 91; 92; 93; 94; 95; 96; 97; 98; 99; 100; 101; 102; 103; 104; 105; 106; 107;
   108; 109; 110; 111; 112; 113; 114; 115; 116; 117; 118; 119; 120; 121; 122; 123; 124; 125;
   126; 127; 128; 129; 130; 131; 132; 133; 134; 135; 136; 137; 138; 139; 140; 141; 142; 143;
   144; 145; 146; 147; 148; 149; 150; 151; 152; 153; 154; 155; 156; 157; 158; 159; 160; 161;
   162; 163; 164; 165; 166; 167; 168; 169; 170; 171; 172; 173; 174; 175; 176; 177; 178; 179;
   180; 181; 182; 183; 184; 185; 186; 187; 188; 189; 190; 191; 192; 193; 194; 195; 196; 197;
   198; 199; 200; 201; 202; 203; 204; 205; 206; 207; 208; 209; 210; 211; 212; 213; 214; 215;
   216; 217; 218; 219; 220; 221; 222; 223; 224; 225; 226; 227; 228; 229; 230; 231; 232; 233;
   234; 235; 236; 237; 238; 239; 240; 241; 242; 243; 244; 245; 246; 247; 248; 249; 250; 251;
   252; 253; 254; 255].

Definition sqlite3CtypeMap : list Z :=
  [0; 0; 0; 0; 0; 0; 0; 0; 0; 1; 1; 1; 1; 1; 0; 0;
   0; 0; 0; 0; 0; 0; 0; 0; 0; 0; 0; 0; 0; 0; 0; 0;
   1; 0; 128; 0; 64; 0; 0; 128; 0; 0; 0; 0; 0; 0; 0; 0;
   12; 12; 12; 12; 12; 12; 12; 12; 12; 12; 0; 0; 0; 0; 0; 0;
   0; 10; 10; 10; 10; 10; 10; 2; 2; 2; 2; 2; 2; 2; 2; 2;
   2; 2; 2; 2; 2; 2; 2; 2; 2; 2; 2; 128; 0; 0; 0; 64;
   128; 42; 42; 42; 42; 42; 42; 34; 34; 34; 34; 34; 34; 34; 34; 34;
   34; 34; 34; 34; 34; 34; 34; 34; 34; 34; 34; 0; 0; 0; 0; 0;
   64; 64; 64; 64; 64; 64; 64; 64; 64; 64; 64; 64; 64; 64; 64; 64;
   64; 64; 64; 64; 64; 64; 64; 64; 64; 64; 64; 64; 64; 64; 64; 64;
   64; 64; 64; 64; 64; 64; 64; 64; 64; 64; 64; 64; 64; 64; 64; 64;
   64; 64; 64; 64; 64; 64; 64; 64; 64; 64; 64; 64; 64; 64; 64; 64;
   64; 64; 64; 64; 64; 64; 64; 64; 64; 64; 64; 64; 64; 64; 64; 64;
   64; 64; 64; 64; 64; 64; 64; 64; 64; 64; 64; 64; 64; 64; 64; 64;
   64; 64; 64; 64; 64; 64; 64; 64; 64; 64; 64; 64; 64; 64; 64; 64;
   64; 64; 64; 64; 64; 64; 64; 64; 64; 64; 64; 64; 64; 64; 64; 64].

(** A table access, with the index taken as an [unsigned char]. *)
Definition table (t : list Z) (x : Z) : Z := nth (Z.to_nat (u8 x)) t 0.

Abbreviation UpperToLower := (table sqlite3UpperToLower).
Abbreviation ctype x m := (negb (Z.land (table sqlite3CtypeMap x) m =? 0)).

Definition sqlite3Toupper (x : Z) : Z := Z.ldiff x (Z.land (table sqlite3CtypeMap x) 0x20).
Definition sqlite3Isspace (x : Z) : bool := ctype x 0x01.
Definition sqlite3Isalnum (x : Z) : bool := ctype x 0x06.
Definition sqlite3Isalpha (x : Z) : bool := ctype x 0x02.
Definition sqlite3Isdigit (x : Z) : bool := ctype x 0x04.
Definition sqlite3Isxdigit (x : Z) : bool := ctype x 0x08.
Definition sqlite3Tolower (x : Z) : Z := UpperToLower x.
Definition sqlite3Isquote (x : Z) : bool := ctype x 0x80.
(** [IdChar]: alphanumerics, [_], [$] and every non-ASCII byte. *)
Definition IdChar (x : Z) : bool := ctype x 0x46.

(** *** Facts about single bytes, by evaluation over the 256 of them *)

Definition all_bytes : list Z := Z.of_nat <$> seq 0 256.

Lemma all_bytes_spec (P : Z -> bool) b : forallb P all_bytes = true -> is_byte b -> P b = true.
Proof.
  intros H [H0 H1]. rewrite forallb_forall in H. apply H. unfold all_bytes.
  apply in_map_iff. exists (Z.to_nat b). split; [lia|]. apply in_seq. change (2 ^ 8) with 256 in H1. lia.
Qed.

Lemma isspace_spec b : is_byte b -> sqlite3Isspace b = ((9 <=? b) && (b <=? 13) || (b =? 32)).
Proof.
  intros H. apply eqb_prop.
  exact (all_bytes_spec (fun b => eqb (sqlite3Isspace b) ((9 <=? b) && (b <=? 13) || (b =? 32))) b eq_refl H).
Qed.

Lemma isdigit_spec b : is_byte b -> sqlite3Isdigit b = ((48 <=? b) && (b <=? 57)).
Proof.
  intros H. apply eqb_prop.
  exact (all_bytes_spec (fun b => eqb (sqlite3Isdigit b) ((48 <=? b) && (b <=? 57))) b eq_refl H).
Qed.

Lemma isxdigit_spec b : is_byte b ->
  sqlite3Isxdigit b = ((48 <=? b) && (b <=? 57) || (65 <=? b) && (b <=? 70) || (97 <=? b) && (b <=? 102)).
Proof.
  intros H. apply eqb_prop.
  exact (all_bytes_spec (fun b => eqb (sqlite3Isxdigit b)
    ((48 <=? b) && (b <=? 57) || (65 <=? b) && (b <=? 70) || (97 <=? b) && (b <=? 102))) b eq_refl H).
Qed.

Lemma isquote_spec b : is_byte b -> sqlite3Isquote b = ((b =? 34) || (b =? 39) || (b =? 91) || (b =? 96)).
Proof.
  intros H. apply eqb_prop.
  exact (all_bytes_spec (fun b => eqb (sqlite3Isquote b)
    ((b =? 34) || (b =? 39) || (b =? 91) || (b =? 96))) b eq_refl H).
Qed.

Lemma UpperToLower_spec b : is_byte b ->
  UpperToLower b = if (65 <=? b) && (b <=? 90) then b + 32 else b.
Proof.
  intros H. apply Z.eqb_eq.
  exact (all_bytes_spec (fun b => UpperToLower b =? if (65 <=? b) && (b <=? 90) then b + 32 else b) b eq_refl H).
Qed.


(** ** Comparison and hashing of identifiers *)

(** The loop of [sqlite3StrICmp]; the terminator of the shorter string is read
    as a zero byte. *)
Fixpoint sqlite3StrICmp (zLeft zRight : list Z) : Z :=
  match zLeft, zRight with
  | [], [] => 0
  | [], x :: _ => UpperToLower 0 - UpperToLower x
  | c :: _, [] => UpperToLower c - UpperToLower 0
  | c :: a, x :: b =>
      if c =? x then sqlite3StrICmp a b
      else let d := UpperToLower c - UpperToLower x in
           if negb (d =? 0) then d else sqlite3StrICmp a b
  end.

(** The public entry point; [None] is a null pointer. *)
Definition sqlite3_stricmp (zLeft zRight : option (list Z)) : Z :=
  match zLeft, zRight with
  | None, None => 0
  | None, Some _ => -1
  | Some _, None => 1
  | Some a, Some b => sqlite3StrICmp a b
  end.

(** [while( N-- > 0 && *a!=0 && UpperToLower[*a]==UpperToLower[*b] )]: the
    result is 0 if the loop ended with [N<0], the difference otherwise. *)
Fixpoint strnicmp_loop (N : nat) (a b : list Z) : Z :=
  match N with
  | O => 0
  | S N' =>
      match a with
      | [] => UpperToLower 0 - UpperToLower (hd 0 b)
      | c :: a' =>
          if UpperToLower c =? UpperToLower (hd 0 b) then strnicmp_loop N' a' (tl b)
          else UpperToLower c - UpperToLower (hd 0 b)
      end
  end.

Definition sqlite3_strnicmp (zLeft zRight : option (list Z)) (N : Z) : Z :=
  match zLeft, zRight with
  | None, None => 0
  | None, Some _ => -1
  | Some _, None => 1
  | Some a, Some b => strnicmp_loop (Z.to_nat N) a b
  end.

Definition sqlite3StrIHash (z : option (list Z)) : Z :=
  match z with
  | None => 0
  | Some z => fold_left (fun h c => u8 (h + UpperToLower c)) z 0
  end.

(** ** Removing quotes *)

(** The loop of [sqlite3Dequote] after the opening quote: the text kept, [None]
    where the source asserts that the closing quote exists. *)
Fixpoint dequote_loop (quote : Z) (z : list Z) : option (list Z) :=
  match z with
  | [] => None
  | c :: z' =>
      if c =? quote then
        match z' with
        | c' :: z'' => if c' =? quote then cons quote <$> dequote_loop quote z'' else Some []
        | [] => Some []
        end
      else cons c <$> dequote_loop quote z'
  end.

Definition sqlite3Dequote (z : list Z) : option (list Z) :=
  match z with
  | [] => Some []
  | quote :: z' =>
      if negb (sqlite3Isquote quote) then Some z
      else dequote_loop (if quote =? 91 then 93 else quote) z'
  end.

(** A token is its bytes; the quotes go only if no quote is inside. *)
Definition sqlite3DequoteToken (p : list Z) : list Z :=
  if (length p <? 2)%nat then p
  else if negb (sqlite3Isquote (hd 0 p)) then p
  else if existsb sqlite3Isquote (removelast (tl p)) then p
  else removelast (tl p).

(** ** Theorems *)

(** A string of bytes without a terminator inside. *)
Definition cstring (z : list Z) : Prop := Forall (fun b => 0 < b < 256) z.

#[export] Instance cstring_dec z : Decision (cstring z).
Proof. unfold cstring. apply _. Defined.

Definition fold_case (z : list Z) : list Z := UpperToLower <$> z.

Fixpoint lexcmp (a b : list Z) : comparison :=
  match a, b with
  | [], [] => Eq
  | [], _ :: _ => Lt
  | _ :: _, [] => Gt
  | x :: a, y :: b => match x ?= y with Eq => lexcmp a b | c => c end
  end.

Lemma lexcmp_eq a b : lexcmp a b = Eq <-> a = b.
Proof.
  revert b. induction a as [|x a IH]; intros [|y b]; simpl; [done..|].
  destruct (x ?= y) eqn:E; [|split; [done|intros [= -> ->]; by rewrite Z.compare_refl in E]..].
  apply Z.compare_eq in E as ->. rewrite IH. split; congruence.
Qed.

Lemma cstring_byte b : 0 < b < 256 -> is_byte b.
Proof. unfold is_u. change (2 ^ 8) with 256. lia. Qed.

Lemma UpperToLower_pos b : 0 < b < 256 -> 0 < UpperToLower b < 256.
Proof. intros H. rewrite UpperToLower_spec by (by apply cstring_byte). case_match; lia. Qed.

Lemma compare_diff x y : (x - y ?= 0) = (x ?= y).
Proof. rewrite (Z.compare_sub x y). done. Qed.

Lemma stricmp_lex a b : cstring a -> cstring b ->
  (sqlite3StrICmp a b ?= 0) = lexcmp (fold_case a) (fold_case b).
Proof.
  intros Ha. revert b. induction Ha as [|x a Hx Ha IH]; intros b Hb; destruct Hb as [|y b Hy Hb]; simpl.
  - done.
  - pose proof (UpperToLower_pos _ Hy). change (UpperToLower 0) with 0. by apply Z.compare_lt_iff; lia.
  - pose proof (UpperToLower_pos _ Hx). change (UpperToLower 0) with 0. by apply Z.compare_gt_iff; lia.
  - destruct (Z.eqb_spec x y) as [->|Hn]; [rewrite Z.compare_refl; auto|].
    destruct (Z.eqb_spec (UpperToLower x - UpperToLower y) 0) as [E|E]; simpl.
    + replace (UpperToLower x) with (UpperToLower y) by lia. rewrite Z.compare_refl. auto.
    + rewrite compare_diff. destruct (Z.compare_spec (UpperToLower x) (UpperToLower y)); [lia|done..].
Qed.

Lemma strnicmp_take n a b : cstring a -> cstring b ->
  (strnicmp_loop n a b ?= 0) = (sqlite3StrICmp (take n a) (take n b) ?= 0).
Proof.
  intros Ha. revert n b. induction Ha as [|x a Hx Ha IH]; intros [|n] b Hb; try done.
  - destruct Hb as [|y b Hy Hb]; done.
  - destruct Hb as [|y b Hy Hb]; cbn [strnicmp_loop hd tl take sqlite3StrICmp].
    + pose proof (UpperToLower_pos _ Hx). change (UpperToLower 0) with 0. case_match; [lia|done].
    + destruct (Z.eqb_spec (UpperToLower x) (UpperToLower y)) as [E|E].
      * rewrite IH by done. destruct (x =? y); [done|]. by rewrite E, Z.sub_diag.
      * destruct (Z.eqb_spec x y) as [->|]; [done|].
        by replace (_ - _ =? 0) with false by lia.
Qed.

Lemma strihash_fold a b : fold_case a = fold_case b ->
  sqlite3StrIHash (Some a) = sqlite3StrIHash (Some b).
Proof.
  simpl. generalize 0. revert b. induction a as [|x a IH]; intros [|y b] h H; try done.
  injection H as E H. simpl. rewrite E. by apply IH.
Qed.

(** On zero-terminated strings [sqlite3StrICmp] has the sign of the
    lexicographic comparison of the folded strings (so it is a total preorder,
    0 exactly on strings equal up to ASCII case); [sqlite3_strnicmp] compares
    the first [n] bytes the same way; equal strings have the same
    [sqlite3StrIHash]. *)
Theorem stricmp_case_order (a b : list Z) (n : Z) : cstring a -> cstring b ->
  (sqlite3StrICmp a b ?= 0) = lexcmp (fold_case a) (fold_case b) /\
  (sqlite3StrICmp a b = 0 <-> fold_case a = fold_case b) /\
  (sqlite3_strnicmp (Some a) (Some b) n ?= 0) =
    (sqlite3_stricmp (Some (take (Z.to_nat n) a)) (Some (take (Z.to_nat n) b)) ?= 0) /\
  (sqlite3StrICmp a b = 0 -> sqlite3StrIHash (Some a) = sqlite3StrIHash (Some b)).
Proof.
  intros Ha Hb. pose proof (stricmp_lex a b Ha Hb) as Hl.
  assert (sqlite3StrICmp a b = 0 <-> fold_case a = fold_case b) as He.
  { rewrite <- lexcmp_eq, <- Hl. symmetry. apply Z.compare_eq_iff. }
  repeat split; try (by apply He); try done; [by apply strnicmp_take|].
  intros H. by apply strihash_fold, He.
Qed.

Lemma stricmp_case_order_witness :
  sqlite3StrICmp [83; 69; 76] [115; 101; 108] = 0 /\ fold_case [83; 69; 76] = fold_case [115; 101; 108].
Proof.
  assert (sqlite3StrICmp [83; 69; 76] [115; 101; 108] = 0) as H by reflexivity. split; [exact H|].
  refine (proj1 (proj1 (proj2 (stricmp_case_order [83; 69; 76] [115; 101; 108] 2 _ _))) H);
    repeat constructor; done.
Defined.

(** The quoted form of a text: the closing quote is doubled inside. *)
Definition closing (quote : Z) : Z := if quote =? 91 then 93 else quote.

Fixpoint double (q : Z) (t : list Z) : list Z :=
  match t with
  | [] => []
  | c :: t => if c =? q then q :: q :: double q t else c :: double q t
  end.

Lemma dequote_double q t rest : hd 0 rest <> q ->
  dequote_loop q (double q t ++ q :: rest) = Some t.
Proof.
  intros Hr. induction t as [|c t IH]; simpl.
  - rewrite Z.eqb_refl. destruct rest; [done|]. simpl in Hr. by rewrite (proj2 (Z.eqb_neq _ _) Hr).
  - destruct (Z.eqb_spec c q) as [->|Hn]; simpl.
    + by rewrite !Z.eqb_refl, IH.
    + by rewrite (proj2 (Z.eqb_neq _ _) Hn), IH.
Qed.

Lemma dequote_token_inner quote t : is_byte quote -> sqlite3Isquote quote = true ->
  sqlite3DequoteToken (quote :: double (closing quote) t ++ [closing quote]) =
  if existsb sqlite3Isquote (double (closing quote) t)
  then quote :: double (closing quote) t ++ [closing quote] else double (closing quote) t.
Proof.
  intros Hb Hq. unfold sqlite3DequoteToken. cbn [hd tl]. rewrite Hq, removelast_last.
  cbn [length]. rewrite length_app. simpl.
  replace (_ <? 2)%nat with false; [done|]. symmetry. apply Nat.ltb_ge. lia.
Qed.

Lemma double_noop q t : ~ In q t -> double q t = t.
Proof.
  induction t as [|c t IH]; simpl; [done|]. intros H.
  rewrite IH by tauto. destruct (Z.eqb_spec c q); [subst; tauto|done].
Qed.

(** C22. [sqlite3Dequote] inverts SQL quoting for each of the four quoting
    styles, whatever the text holds, and leaves an unquoted string alone; the
    in-place token version, where it applies, gives the same text. *)
Theorem dequote_inverts_quoting (quote : Z) (t : list Z) : is_byte quote ->
  (sqlite3Isquote quote = true ->
     sqlite3Dequote (quote :: double (closing quote) t ++ [closing quote]) = Some t) /\
  (sqlite3Isquote quote = false -> sqlite3Dequote (quote :: t) = Some (quote :: t)) /\
  (sqlite3Isquote quote = true -> existsb sqlite3Isquote t = false -> ~ In (closing quote) t ->
     sqlite3DequoteToken (quote :: t ++ [closing quote]) = t).
Proof.
  intros Hb. repeat split; [intros Hq|intros Hq|intros Hq Ht Hc].
  - simpl. rewrite Hq. apply dequote_double.
    rewrite isquote_spec in Hq by done. unfold closing. simpl. case_match; lia.
  - simpl. by rewrite Hq.
  - pose proof (dequote_token_inner quote t Hb Hq) as H. by rewrite double_noop, Ht in H.
Qed.

Lemma dequote_inverts_quoting_witness :
  sqlite3Dequote [91; 97; 93; 93; 98; 93] = Some [97; 93; 98].
Proof.
  refine (proj1 (dequote_inverts_quoting 91 [97; 93; 98] _) eq_refl). unfold is_u. lia.
Defined.
