(* ===== verification/IntArith.v ===== *)
(** * Overflow-checked arithmetic and logarithmic estimates (SQLite's util.c)

    The portable branches of [sqlite3AddInt64], [sqlite3SubInt64] and
    [sqlite3MulInt64] (the other branch is the compiler's builtin), with every
    signed operation of the C code checked: an intermediate result outside
    [i64] is undefined behaviour, [None] here.  Then [LogEst], the
    [10*log2(x)] estimates of the query planner, in the builtin and in the
    portable form. *)

From S2P Require Import Prelude.

Definition LARGEST_INT64 : Z := 2 ^ 63 - 1.
Definition SMALLEST_INT64 : Z := - 1 - LARGEST_INT64.

(** A signed 64-bit result; [None] is undefined behaviour. *)
Definition s64 (z : Z) : option Z :=
  if (SMALLEST_INT64 <=? z) && (z <=? LARGEST_INT64) then Some z else None.

Definition in_i64 (z : Z) : bool := (SMALLEST_INT64 <=? z) && (z <=? LARGEST_INT64).

(** The operations return the new [*pA] and the return code. *)
Definition sqlite3AddInt64 (iA iB : Z) : option (Z * Z) :=
  if iB >=? 0 then
    d ← (if iA >? 0 then s64 (LARGEST_INT64 - iA) else Some iB);
    if (iA >? 0) && (d <? iB) then Some (iA, 1) else r ← s64 (iA + iB); Some (r, 0)
  else
    l ← (if iA <? 0 then t ← s64 (iA + LARGEST_INT64); s64 (- t) else Some 0);
    r1 ← s64 (iB + 1);
    if (iA <? 0) && (l >? r1) then Some (iA, 1) else r ← s64 (iA + iB); Some (r, 0).

Definition sqlite3SubInt64 (iA iB : Z) : option (Z * Z) :=
  if iB =? SMALLEST_INT64 then
    if iA >=? 0 then Some (iA, 1) else r ← s64 (iA - iB); Some (r, 0)
  else nB ← s64 (- iB); sqlite3AddInt64 iA nB.

(** C's [/] truncates towards zero. *)
Definition sqlite3MulInt64 (iA iB : Z) : option (Z * Z) :=
  let product := r ← s64 (iA * iB); Some (r, 0) in
  if iB >? 0 then
    hi ← s64 (Z.quot LARGEST_INT64 iB);
    if iA >? hi then Some (iA, 1) else
    lo ← s64 (Z.quot SMALLEST_INT64 iB);
    if iA <? lo then Some (iA, 1) else product
  else if iB <? 0 then
    if iA >? 0 then
      lo ← s64 (Z.quot SMALLEST_INT64 iA);
      if iB <? lo then Some (iA, 1) else product
    else if iA <? 0 then
      if iB =? SMALLEST_INT64 then Some (iA, 1) else
      if iA =? SMALLEST_INT64 then Some (iA, 1) else
      nA ← s64 (- iA); nB ← s64 (- iB); hi ← s64 (Z.quot LARGEST_INT64 nB);
      if nA >? hi then Some (iA, 1) else product
    else product
  else product.

(** [(int)0x80000000] is the smallest [int]. *)
Definition sqlite3AbsInt32 (x : Z) : Z :=
  if x >=? 0 then x
  else if x =? i32 0x80000000 then 0x7fffffff
  else - x.

(** ** LogEst *)

Definition logest_add_table : list Z :=
  [10; 10; 9; 9; 8; 8; 7; 7; 7; 6; 6; 6; 5; 5; 5; 4; 4; 4; 4;
   3; 3; 3; 3; 3; 3; 2; 2; 2; 2; 2; 2; 2].

(** Arguments and result are 16-bit; the sums are computed in [int]. *)
Definition sqlite3LogEstAdd (a b : Z) : Z :=
  if a >=? b then
    if a >? b + 49 then a
    else if a >? b + 31 then wraps 16 (a + 1)
    else wraps 16 (a + nth (Z.to_nat (a - b)) logest_add_table 0)
  else
    if b >? a + 49 then b
    else if b >? a + 31 then wraps 16 (b + 1)
    else wraps 16 (b + nth (Z.to_nat (b - a)) logest_add_table 0).

Definition logest_table : list Z := [0; 2; 3; 5; 6; 7; 8; 9].

(** [while( x<8 ){ y -= 10; x <<= 1; }] on [2 <= x < 8]. *)
Fixpoint logest_up (fuel : nat) (x y : Z) : Z * Z :=
  match fuel with
  | O => (x, y)
  | S fuel => if x <? 8 then logest_up fuel (u64 (Z.shiftl x 1)) (y - 10) else (x, y)
  end.

(** [while( x>255 ){ y += 40; x >>= 4; }] then [while( x>15 ){ y += 10; x >>= 1; }]. *)
Fixpoint logest_down (lim dy dx : Z) (fuel : nat) (x y : Z) : Z * Z :=
  match fuel with
  | O => (x, y)
  | S fuel => if x >? lim then logest_down lim dy dx fuel (Z.shiftr x dx) (y + dy) else (x, y)
  end.

Definition logest_finish (xy : Z * Z) : Z :=
  wraps 16 (nth (Z.to_nat (Z.land (fst xy) 7)) logest_table 0 + snd xy - 10).

(** [__builtin_clzll], on a nonzero argument. *)
Definition clzll (x : Z) : Z := 63 - Z.log2 x.

(** The reduction of [x >= 8] to [8 <= x < 16]: with the compiler's builtin, and portably. *)
Definition logest_reduce_builtin (x y : Z) : Z * Z :=
  let i := 60 - clzll x in (Z.shiftr x i, y + i * 10).

Definition logest_reduce_portable (x y : Z) : Z * Z :=
  let (x, y) := logest_down 255 40 4 64 x y in logest_down 15 10 1 64 x y.

Definition sqlite3LogEst_with (reduce : Z -> Z -> Z * Z) (x : Z) : Z :=
  if x <? 8 then
    if x <? 2 then 0 else logest_finish (logest_up 64 x 40)
  else logest_finish (reduce x 40).

Definition sqlite3LogEst : Z -> Z := sqlite3LogEst_with logest_reduce_builtin.
Definition sqlite3LogEst_portable : Z -> Z := sqlite3LogEst_with logest_reduce_portable.

(** [x%10] and [x/=10] of a non-negative [LogEst]. *)
Definition sqlite3LogEstToInt (x : Z) : Z :=
  let n := u64 (Z.rem x 10) in
  let x := Z.quot x 10 in
  let n := if n >=? 5 then u64 (n - 2) else if n >=? 1 then u64 (n - 1) else n in
  if x >? 60 then LARGEST_INT64
  else if x >=? 3 then u64 (Z.shiftl (u64 (n + 8)) (x - 3)) else Z.shiftr (u64 (n + 8)) (3 - x).

(** ** Theorems *)

Lemma s64_some z : in_i64 z = true -> s64 z = Some z.
Proof. unfold s64, in_i64. by intros ->. Qed.

Lemma quot_hi M a b : 0 <= M -> 0 < b -> (a <= Z.quot M b <-> a * b <= M).
Proof. intros. Z.to_euclidean_division_equations. nia. Qed.

Lemma quot_lo m a b : m <= 0 -> 0 < b -> (Z.quot m b <= a <-> m <= a * b).
Proof. intros. Z.to_euclidean_division_equations. nia. Qed.

Lemma s64_quot a b : in_i64 a = true -> 0 < b -> s64 (Z.quot a b) = Some (Z.quot a b).
Proof.
  unfold in_i64. intros Ha Hb. apply s64_some. unfold in_i64.
  assert (Z.abs (Z.quot a b) <= Z.abs a) by (Z.to_euclidean_division_equations; nia).
  unfold SMALLEST_INT64, LARGEST_INT64 in *. destruct (Z.le_gt_cases 0 a).
  - assert (0 <= Z.quot a b) by (by apply Z.quot_pos). lia.
  - assert (Z.quot a b <= 0) by (Z.to_euclidean_division_equations; nia). lia.
Qed.

(** What each operation promises: the exact result with code 0, or the
    unchanged operand with code 1 if the result does not fit. *)
Definition checked (a exact : Z) : option (Z * Z) := Some (if in_i64 exact then (exact, 0) else (a, 1)).

Ltac s64_solve :=
  repeat match goal with
  | |- context [s64 ?z] => rewrite (s64_some z) by (unfold in_i64, SMALLEST_INT64, LARGEST_INT64 in *; lia)
  | |- context [if ?b then _ else _] => let E := fresh "E" in destruct b eqn:E
  | _ => progress simpl
  end.

Lemma add_checked a b : in_i64 a = true -> in_i64 b = true -> sqlite3AddInt64 a b = checked a (a + b).
Proof.
  unfold checked, sqlite3AddInt64. intros Ha Hb.
  s64_solve; unfold in_i64, SMALLEST_INT64, LARGEST_INT64 in *; try (exfalso; lia); done.
Qed.

Lemma sub_checked a b : in_i64 a = true -> in_i64 b = true -> sqlite3SubInt64 a b = checked a (a - b).
Proof.
  unfold sqlite3SubInt64. intros Ha Hb. destruct (b =? SMALLEST_INT64) eqn:E.
  - unfold checked. s64_solve; unfold in_i64, SMALLEST_INT64, LARGEST_INT64 in *; try (exfalso; lia); done.
  - rewrite s64_some by (unfold in_i64, SMALLEST_INT64, LARGEST_INT64 in *; lia). simpl.
    rewrite add_checked; [by rewrite Z.add_opp_r|done|unfold in_i64, SMALLEST_INT64, LARGEST_INT64 in *; lia].
Qed.

Lemma in_i64_bounds z : in_i64 z = true <-> SMALLEST_INT64 <= z <= LARGEST_INT64.
Proof. unfold in_i64. lia. Qed.

Lemma mul_checked_pos a b : in_i64 a = true -> in_i64 b = true -> 0 < b ->
  sqlite3MulInt64 a b = checked a (a * b).
Proof.
  intros Ha Hb Hp. unfold sqlite3MulInt64, checked, s64. replace (b >? 0) with true by lia.
  fold (s64 (Z.quot LARGEST_INT64 b)) (s64 (Z.quot SMALLEST_INT64 b)) (in_i64 (a * b)).
  rewrite !s64_quot by done. simpl.
  pose proof (quot_hi LARGEST_INT64 a b ltac:(done) Hp). pose proof (quot_lo SMALLEST_INT64 a b ltac:(done) Hp).
  destruct (in_i64 (a * b)) eqn:E; [rewrite in_i64_bounds in E|apply not_true_iff_false in E; rewrite in_i64_bounds in E].
  - replace (_ >? _) with false by lia. by replace (_ <? _) with false by lia.
  - destruct (_ >? _) eqn:E1; [done|]. by replace (_ <? _) with true by lia.
Qed.

Lemma mul_checked_neg a b : in_i64 a = true -> in_i64 b = true -> b < 0 ->
  sqlite3MulInt64 a b = checked a (a * b).
Proof.
  intros Ha Hb Hp. unfold sqlite3MulInt64, checked.
  replace (b >? 0) with false by lia. replace (b <? 0) with true by lia.
  destruct (Z.lt_trichotomy a 0) as [Hn|[->|Hn]].
  - replace (a >? 0) with false by lia. replace (a <? 0) with true by lia.
    destruct (Z.eqb_spec b SMALLEST_INT64) as [->|Hbm].
    { replace (in_i64 _) with false; [done|]. unfold in_i64, SMALLEST_INT64, LARGEST_INT64. lia. }
    destruct (Z.eqb_spec a SMALLEST_INT64) as [->|Ham].
    { replace (in_i64 _) with false; [done|]. unfold in_i64, SMALLEST_INT64, LARGEST_INT64. lia. }
    rewrite (s64_some (- a)), (s64_some (- b)) by (unfold in_i64, SMALLEST_INT64, LARGEST_INT64 in *; lia). simpl.
    rewrite s64_quot by (done || lia). simpl.
    pose proof (quot_hi LARGEST_INT64 (- a) (- b) ltac:(done) ltac:(lia)).
    unfold s64. fold (in_i64 (a * b)). destruct (in_i64 (a * b)) eqn:E;
      [rewrite in_i64_bounds in E|apply not_true_iff_false in E; rewrite in_i64_bounds in E].
    + by replace (_ >? _) with false by lia.
    + replace (_ >? _) with true; [done|]. unfold SMALLEST_INT64, LARGEST_INT64 in *. nia.
  - done.
  - replace (a >? 0) with true by lia. rewrite s64_quot by done. simpl.
    pose proof (quot_lo SMALLEST_INT64 b a ltac:(done) Hn).
    unfold s64. fold (in_i64 (a * b)). destruct (in_i64 (a * b)) eqn:E;
      [rewrite in_i64_bounds in E|apply not_true_iff_false in E; rewrite in_i64_bounds in E].
    + by replace (_ <? _) with false by lia.
    + replace (_ <? _) with true; [done|]. unfold SMALLEST_INT64, LARGEST_INT64 in *. nia.
Qed.

Lemma mul_checked a b : in_i64 a = true -> in_i64 b = true -> sqlite3MulInt64 a b = checked a (a * b).
Proof.
  intros Ha Hb. destruct (Z.lt_trichotomy b 0) as [H|[->|H]].
  - by apply mul_checked_neg.
  - unfold checked, sqlite3MulInt64. by rewrite Z.mul_0_r.
  - by apply mul_checked_pos.
Qed.

(** The three checked operations never execute an overflowing signed
    operation, return the exact result with code 0 when it fits 64 bits, and
    otherwise leave the operand unchanged with code 1; the 32-bit absolute
    value saturates at the only value that has none. *)
Theorem int64_arith_exact (a b : Z) : in_i64 a = true -> in_i64 b = true ->
  sqlite3AddInt64 a b = checked a (a + b) /\
  sqlite3SubInt64 a b = checked a (a - b) /\
  sqlite3MulInt64 a b = checked a (a * b) /\
  (is_s 32 a -> sqlite3AbsInt32 a = Z.min (Z.abs a) (2 ^ 31 - 1)).
Proof.
  intros Ha Hb. repeat split; [by apply add_checked|by apply sub_checked|by apply mul_checked|].
  intros H. unfold sqlite3AbsInt32. change (i32 0x80000000) with (- 2 ^ 31).
  unfold is_s in H. simpl in *. repeat case_match; lia.
Qed.

Lemma int64_arith_exact_witness :
  sqlite3MulInt64 3037000500 (- 3037000500) = Some (3037000500, 1) /\
  sqlite3SubInt64 (- 1) SMALLEST_INT64 = Some (LARGEST_INT64, 0).
Proof.
  split.
  - exact (proj1 (proj2 (proj2 (int64_arith_exact 3037000500 (- 3037000500) eq_refl eq_refl)))).
  - exact (proj1 (proj2 (int64_arith_exact (- 1) SMALLEST_INT64 eq_refl eq_refl))).
Defined.

(** ** LogEst: both reductions agree, and the estimate is accurate *)

Lemma log2_shiftr x i : 0 <= i <= Z.log2 x -> 0 < x -> Z.log2 (Z.shiftr x i) = Z.log2 x - i.
Proof. intros. rewrite Z.log2_shiftr by lia. lia. Qed.

Lemma log2_ge x k : 0 <= k -> 2 ^ k <= x -> k <= Z.log2 x.
Proof. intros Hk H. apply Z.log2_le_pow2; [|done]. pose proof (Z.pow_pos_nonneg 2 k). lia. Qed.

Lemma reduce_builtin_step x y d : 2 ^ (d + 3) <= x -> 0 <= d ->
  logest_reduce_builtin (Z.shiftr x d) (y + 10 * d) = logest_reduce_builtin x y.
Proof.
  intros Hx Hd. pose proof (log2_ge x (d + 3) ltac:(lia) Hx).
  pose proof (Z.pow_pos_nonneg 2 (d + 3)). unfold logest_reduce_builtin, clzll.
  rewrite log2_shiftr by lia. rewrite Z.shiftr_shiftr by lia. f_equal; [f_equal|]; lia.
Qed.

Lemma reduce_builtin_small x y : 8 <= x < 16 -> logest_reduce_builtin x y = (x, y).
Proof.
  intros H. unfold logest_reduce_builtin, clzll.
  replace (Z.log2 x) with 3 by (symmetry; apply Z.log2_unique; lia).
  change (60 - (63 - 3)) with 0. rewrite Z.shiftr_0_r. f_equal. lia.
Qed.

Lemma logest_down_spec lim d fuel x y : 1 <= d -> lim = 2 ^ (d + 4) - 1 \/ d = 1 /\ lim = 15 ->
  8 <= x -> Z.log2 x < Z.of_nat fuel ->
  let r := logest_down lim (10 * d) d fuel x y in
  8 <= fst r <= Z.max lim 15 /\ logest_reduce_builtin (fst r) (snd r) = logest_reduce_builtin x y.
Proof.
  intros Hd Hl. revert x y. induction fuel as [|fuel IH]; intros x y Hx Hf; [pose proof (Z.log2_nonneg x); lia|].
  simpl. destruct (x >? lim) eqn:E; [|split; [simpl; lia|done]].
  assert (2 ^ (d + 3) <= x) as Hp.
  { destruct Hl as [->|[-> ->]]; [|simpl; lia]. replace (d + 4) with (d + 3 + 1) in E by lia.
    rewrite Z.pow_add_r in E by lia. lia. }
  pose proof (log2_ge x (d + 3) ltac:(lia) Hp).
  rewrite <- (reduce_builtin_step x y d) by lia. apply IH.
  - rewrite Z.shiftr_div_pow2 by lia. apply Z.div_le_lower_bound; [lia|].
    rewrite Z.pow_add_r in Hp by lia. lia.
  - rewrite log2_shiftr by lia. lia.
Qed.

Lemma reduce_portable_eq x y : 8 <= x < 2 ^ 64 ->
  logest_reduce_portable x y = logest_reduce_builtin x y.
Proof.
  intros Hx. unfold logest_reduce_portable.
  assert (Z.log2 x < 64) by (apply Z.log2_lt_pow2; lia).
  destruct (logest_down_spec 255 4 64 x y) as [H1 H2]; [lia|by left|lia|lia|].
  change (10 * 4) with 40 in *. destruct (logest_down 255 40 4 64 x y) as [x1 y1]. simpl in H1, H2.
  assert (Z.log2 x1 < 64) by (apply Z.log2_lt_pow2; lia).
  destruct (logest_down_spec 15 1 64 x1 y1) as [H3 H4]; [lia|by right|lia|lia|].
  change (10 * 1) with 10 in *. destruct (logest_down 15 10 1 64 x1 y1) as [x2 y2]. simpl in H3, H4.
  rewrite <- H2, <- H4. symmetry. apply reduce_builtin_small. lia.
Qed.

(** The estimate on [8 <= x]: [m] are the four leading bits. *)
Lemma logest_large x : 8 <= x < 2 ^ 64 -> exists m i, 8 <= m < 16 /\ 0 <= i <= 60 /\
  m * 2 ^ i <= x < (m + 1) * 2 ^ i /\
  sqlite3LogEst x = nth (Z.to_nat (Z.land m 7)) logest_table 0 + 30 + 10 * i.
Proof.
  intros Hx. pose proof (log2_ge x 3 ltac:(lia) ltac:(simpl; lia)).
  assert (Z.log2 x < 64) by (apply Z.log2_lt_pow2; lia).
  pose proof (Z.log2_spec x ltac:(lia)) as [L1 L2]. set (i := Z.log2 x - 3).
  pose proof (Z.pow_pos_nonneg 2 i ltac:(lia) ltac:(lia)) as Hi.
  assert (2 ^ Z.log2 x = 8 * 2 ^ i) as Hp.
  { change 8 with (2 ^ 3). rewrite <- Z.pow_add_r by lia. f_equal. lia. }
  rewrite Z.pow_succ_r in L2 by lia.
  pose proof (Z.div_mod x (2 ^ i) ltac:(lia)). pose proof (Z.mod_pos_bound x (2 ^ i) Hi).
  exists (x / 2 ^ i), i. assert (8 <= x / 2 ^ i < 16) as Hm by nia. repeat split; try lia; try nia.
  unfold sqlite3LogEst, sqlite3LogEst_with. replace (x <? 8) with false by lia.
  unfold logest_finish, logest_reduce_builtin, clzll. cbn [fst snd].
  replace (60 - (63 - Z.log2 x)) with i by lia. rewrite Z.shiftr_div_pow2 by lia.
  remember (x / 2 ^ i) as m. rewrite wraps_id; [lia|lia|].
  assert (0 <= nth (Z.to_nat (Z.land m 7)) logest_table 0 <= 9).
  { assert (In m [8; 9; 10; 11; 12; 13; 14; 15]) as HIn by (simpl; lia).
    simpl in HIn. repeat destruct HIn as [<-|HIn]; simpl; lia. }
  unfold is_s. change (2 ^ (16 - 1)) with 32768. lia.
Qed.

Lemma logest_table_accurate m : 8 <= m < 16 ->
  let t := nth (Z.to_nat (Z.land m 7)) logest_table 0 in
  0 <= t /\ 2 ^ (t + 30) <= 2 * m ^ 10 /\ (m + 1) ^ 10 <= 2 ^ (t + 32).
Proof.
  intros Hm. assert (In m [8; 9; 10; 11; 12; 13; 14; 15]) as HIn by (simpl; lia).
  simpl in HIn. cbv zeta.
  repeat destruct HIn as [<-|HIn]; try contradiction HIn; split_and!; apply Z.leb_le; vm_compute; reflexivity.
Qed.

Lemma logest_accurate x : 1 <= x < 2 ^ 64 ->
  2 ^ sqlite3LogEst x <= 2 * x ^ 10 /\ x ^ 10 < 2 ^ (sqlite3LogEst x + 2).
Proof.
  intros Hx. destruct (Z.lt_ge_cases x 8) as [Hs|Hs].
  { assert (In x [1; 2; 3; 4; 5; 6; 7]) as HIn by (simpl; lia).
    simpl in HIn. repeat destruct HIn as [<-|HIn]; try contradiction HIn;
      (split; [apply Z.leb_le|apply Z.ltb_lt]; vm_compute; reflexivity). }
  destruct (logest_large x ltac:(lia)) as (m & i & Hm & Hi & [B1 B2] & ->).
  destruct (logest_table_accurate m Hm) as (Ht & T1 & T2).
  set (t := nth (Z.to_nat (Z.land m 7)) logest_table 0) in *.
  pose proof (Z.pow_pos_nonneg 2 i ltac:(lia) ltac:(lia)) as Hp.
  pose proof (Z.pow_le_mono_l (m * 2 ^ i) x 10 ltac:(nia)) as E1.
  pose proof (Z.pow_lt_mono_l x ((m + 1) * 2 ^ i) 10 ltac:(lia) ltac:(nia)) as E2.
  rewrite Z.pow_mul_l, <- Z.pow_mul_r in E1, E2 by lia.
  pose proof (Z.pow_pos_nonneg 2 (i * 10) ltac:(lia) ltac:(lia)).
  split.
  - replace (t + 30 + 10 * i) with (t + 30 + i * 10) by lia. rewrite Z.pow_add_r by lia. nia.
  - replace (t + 30 + 10 * i + 2) with (t + 32 + i * 10) by lia. rewrite Z.pow_add_r by lia. nia.
Qed.

Lemma logest_portable_eq x : 0 <= x < 2 ^ 64 -> sqlite3LogEst_portable x = sqlite3LogEst x.
Proof.
  intros Hx. unfold sqlite3LogEst_portable, sqlite3LogEst, sqlite3LogEst_with.
  destruct (Z.ltb_spec x 8); [done|]. by rewrite reduce_portable_eq by lia.
Qed.

Lemma logest_add_bounds a b : is_s 15 a -> is_s 15 b ->
  Z.max a b <= sqlite3LogEstAdd a b <= Z.max a b + 10 /\ sqlite3LogEstAdd a b = sqlite3LogEstAdd b a.
Proof.
  unfold is_s. simpl. intros Ha Hb.
  assert (forall k, 0 <= nth k logest_add_table 0 <= 10) as Hk.
  { intros k. do 32 (destruct k as [|k]; [simpl; lia|]). simpl. destruct k; lia. }
  unfold sqlite3LogEstAdd. pose proof (Hk (Z.to_nat (a - b))). pose proof (Hk (Z.to_nat (b - a))).
  assert (forall z, - 30000 <= z <= 30000 -> wraps 16 z = z) as Hw.
  { intros z Hz. apply wraps_id; [lia|]. unfold is_s. simpl. lia. }
  repeat case_match; rewrite ?Hw by lia; try lia.
  replace b with a by lia. split; [|done]. rewrite Z.sub_diag. simpl. lia.
Qed.

(** The loop and the count-leading-zeros version of [sqlite3LogEst] agree
    on every 64-bit integer; the estimate [L] of [x >= 1] satisfies
    [2^L <= 2 x^10] and [x^10 < 2^(L+2)], that is, it is within
    [-2 < L - 10*log2 x <= 1]; and converting a [LogEst] of [30..609] to an
    integer and back moves it by at most 1.  [sqlite3LogEstAdd] is commutative
    and lies between the larger operand and 10 (a doubling) above it. *)
Theorem logest_accuracy (x e a b : Z) : 1 <= x < 2 ^ 64 -> 30 <= e <= 609 -> is_s 15 a -> is_s 15 b ->
  sqlite3LogEst_portable x = sqlite3LogEst x /\
  2 ^ sqlite3LogEst x <= 2 * x ^ 10 /\ x ^ 10 < 2 ^ (sqlite3LogEst x + 2) /\
  Z.abs (sqlite3LogEst (sqlite3LogEstToInt e) - e) <= 1 /\
  Z.max a b <= sqlite3LogEstAdd a b <= Z.max a b + 10 /\ sqlite3LogEstAdd a b = sqlite3LogEstAdd b a.
Proof.
  intros Hx He Ha Hb. split; [apply logest_portable_eq; lia|].
  split; [by apply logest_accurate|]. split; [by apply logest_accurate|]. split; [|by apply logest_add_bounds].
  assert (forallb (fun n => Z.abs (sqlite3LogEst (sqlite3LogEstToInt (Z.of_nat n)) - Z.of_nat n) <=? 1)
    (seq 30 580) = true) as H by (vm_compute; reflexivity).
  rewrite forallb_forall in H. specialize (H (Z.to_nat e)). rewrite Z2Nat.id in H by lia.
  apply Z.leb_le, H, in_seq. lia.
Qed.

Lemma logest_accuracy_witness : 2 ^ sqlite3LogEst 1000000 <= 2 * 1000000 ^ 10.
Proof. refine (proj1 (proj2 (logest_accuracy 1000000 100 33 40 _ _ _ _))); unfold is_s; lia. Defined.
