(* ===== verification/IntParse.v ===== *)
(** * Text to integer (SQLite's util.c)

    [sqlite3Atoi64] in its three encodings, [sqlite3DecOrHexToI64],
    [sqlite3GetInt32] and [sqlite3GetUInt32].  A zero-terminated string is the
    list of its bytes, read as 0 at its end; the result of a function with an
    output parameter is the pair of the value stored and the return code. *)

From S2P Require Import Prelude Ctype IntArith.

(** ** Definitions *)

Definition SQLITE_UTF8 : Z := 1.
Definition SQLITE_UTF16LE : Z := 2.
Definition SQLITE_UTF16BE : Z := 3.

Fixpoint skip_while (P : Z -> bool) (z : list Z) : list Z :=
  match z with
  | [] => []
  | c :: z' => if P c then skip_while P z' else z
  end.

(** [for(i=0; c==0 && i<18; i++) c = (zNum[i*incr]-pow63[i])*10;] and the last digit. *)
Definition pow63 : list Z := [57; 50; 50; 51; 51; 55; 50; 48; 51; 54; 56; 53; 52; 55; 55; 53; 56; 48].

Fixpoint compare2pow63_loop (pow zNum : list Z) : Z :=
  match pow with
  | [] => hd 0 zNum - 56
  | p :: pow => let c := (hd 0 zNum - p) * 10 in
                if c =? 0 then compare2pow63_loop pow (tl zNum) else c
  end.

Definition compare2pow63 (zNum : list Z) : Z := compare2pow63_loop pow63 zNum.

(** The digit loop: the accumulated value (mod 2^64), the number of digits and the rest. *)
Fixpoint digit_loop (z : list Z) (u : Z) (i : nat) : Z * nat * list Z :=
  match z with
  | c :: z' => if (48 <=? c) && (c <=? 57) then digit_loop z' (u64 (u * 10 + c - 48)) (S i) else (u, i, z)
  | [] => (u, i, z)
  end.

(** [sqlite3Atoi64] on the code units between [zNum] and [zEnd]. *)
Definition Atoi64_units (zNum : list Z) (nonNum : bool) : Z * Z :=
  let zNum := skip_while sqlite3Isspace zNum in
  let '(neg, zStart) :=
    match zNum with
    | c :: z' => if c =? 45 then (true, z') else if c =? 43 then (false, z') else (false, zNum)
    | [] => (false, zNum)
    end in
  let zNum := skip_while (Z.eqb 48) zStart in
  let '(u, i, rest) := digit_loop zNum 0 0 in
  let pNum := if u >? LARGEST_INT64 then (if neg : bool then SMALLEST_INT64 else LARGEST_INT64)
              else if neg then - u else u in
  let rc := if (i =? 0)%nat && (length zStart =? length zNum)%nat then -1
            else if nonNum then 1
            else if negb (forallb sqlite3Isspace rest) then 1 else 0 in
  if (i <? 19)%nat then (pNum, rc)
  else
    let c := if (19 <? i)%nat then 1 else compare2pow63 zNum in
    if c <? 0 then (pNum, rc)
    else
      let pNum := if neg then SMALLEST_INT64 else LARGEST_INT64 in
      if c >? 0 then (pNum, 2) else (pNum, if neg then rc else 3).

(** [for(i=3-enc; i<length && zNum[i]==0; i+=2){}]: the first high byte that is not 0. *)
Fixpoint first_high (fuel : nat) (zNum : list Z) (len i : Z) : Z :=
  match fuel with
  | O => i
  | S fuel => if (i <? len) && (nth (Z.to_nat i) zNum 0 =? 0) then first_high fuel zNum len (i + 2) else i
  end.

(** The units at [pos], [pos+incr], ... below [zEnd]. *)
Fixpoint units (fuel : nat) (zNum : list Z) (pos incr zEnd : Z) : list Z :=
  match fuel with
  | O => []
  | S fuel => if pos <? zEnd then nth (Z.to_nat pos) zNum 0 :: units fuel zNum (pos + incr) incr zEnd else []
  end.

Definition sqlite3Atoi64 (zNum : list Z) (enc : Z) : Z * Z :=
  let fuel := S (length zNum) in
  if enc =? SQLITE_UTF8 then Atoi64_units (units fuel zNum 0 1 (Z.of_nat (length zNum))) false
  else
    let len := Z.ldiff (Z.of_nat (length zNum)) 1 in
    let i := first_high fuel zNum len (3 - enc) in
    Atoi64_units (units fuel zNum (Z.land enc 1) 2 (Z.lxor i 1)) (i <? len).

Definition sqlite3HexToInt (h : Z) : Z :=
  let h := h + 9 * Z.land 1 (Z.shiftr h 6) in u8 (Z.land h 0xf).

Fixpoint hex_loop (bits : Z) (fuel : nat) (z : list Z) (u : Z) (k : nat) : Z * nat * list Z :=
  match fuel, z with
  | S fuel, c :: z' =>
      if sqlite3Isxdigit c then hex_loop bits fuel z' (wrapu bits (u * 16 + sqlite3HexToInt c)) (S k) else (u, k, z)
  | _, _ => (u, k, z)
  end.

Definition is_hex_prefix (z : list Z) : bool :=
  match z with c0 :: c1 :: _ => (c0 =? 48) && ((c1 =? 120) || (c1 =? 88)) | _ => false end.

Definition sqlite3DecOrHexToI64 (z : list Z) : Z * Z :=
  if is_hex_prefix z then
    let z := skip_while (Z.eqb 48) (drop 2 z) in
    let '(u, k, rest) := hex_loop 64 (length z) z 0 0 in
    (i64 u, if match rest with [] => (k <=? 16)%nat | _ => false end then 0 else 2)
  else sqlite3Atoi64 z SQLITE_UTF8.

(** [Some v] is the return value 1 with [*pValue = v], [None] the return value 0. *)
Fixpoint int32_loop (fuel : nat) (z : list Z) (v : Z) (i : nat) : Z * nat :=
  match fuel, z with
  | S fuel, c :: z' => if (c - 48 >=? 0) && (c - 48 <=? 9) then int32_loop fuel z' (v * 10 + (c - 48)) (S i) else (v, i)
  | _, _ => (v, i)
  end.

Definition sqlite3GetInt32_dec (neg : bool) (zNum : list Z) : option Z :=
  if negb (sqlite3Isdigit (hd 0 zNum)) then None
  else
    let '(v, i) := int32_loop 11 (skip_while (Z.eqb 48) zNum) 0 0 in
    if (10 <? i)%nat then None
    else if v - (if neg then 1 else 0) >? 2147483647 then None
    else Some (i32 (if neg then - v else v)).

Definition sqlite3GetInt32 (zNum : list Z) : option Z :=
  if hd 0 zNum =? 45 then sqlite3GetInt32_dec true (tl zNum)
  else if hd 0 zNum =? 43 then sqlite3GetInt32_dec false (tl zNum)
  else if is_hex_prefix zNum && sqlite3Isxdigit (nth 2 zNum 0) then
    let '(u, _, rest) := hex_loop 32 8 (skip_while (Z.eqb 48) (drop 2 zNum)) 0 0 in
    if (Z.land u 0x80000000 =? 0) && negb (sqlite3Isxdigit (hd 0 rest)) then Some (i32 u) else None
  else sqlite3GetInt32_dec false zNum.

Definition sqlite3Atoi (z : list Z) : Z := default 0 (sqlite3GetInt32 z).

(** The loop of [sqlite3GetUInt32]: [None] is the early return with [*pI = 0]. *)
Fixpoint uint32_loop (z : list Z) (v : Z) (i : nat) : option (Z * nat * list Z) :=
  match z with
  | c :: z' =>
      if sqlite3Isdigit c then
        let v := u64 (v * 10 + c - 48) in
        if v >? 4294967296 then None else uint32_loop z' v (S i)
      else Some (v, i, z)
  | [] => Some (v, i, z)
  end.

Definition sqlite3GetUInt32 (z : list Z) : Z * Z :=
  match uint32_loop z 0 0 with
  | Some (v, i, rest) =>
      if (i =? 0)%nat || match rest with [] => false | _ => true end then (0, 0) else (u32 v, 1)
  | None => (0, 0)
  end.

(** ** The value of a numeral *)

Definition is_digit (c : Z) : Prop := 48 <= c <= 57.

Fixpoint dec (ds : list Z) : Z :=
  match ds with [] => 0 | c :: ds => (c - 48) * 10 ^ Z.of_nat (length ds) + dec ds end.

Definition hex_digit (c : Z) : Z := if c <=? 57 then c - 48 else if c <=? 70 then c - 55 else c - 87.

Fixpoint hex (hs : list Z) : Z :=
  match hs with [] => 0 | c :: hs => hex_digit c * 16 ^ Z.of_nat (length hs) + hex hs end.

(** ** Scanning lemmas *)

Lemma skip_while_all P a b : Forall (fun c => P c = true) a -> skip_while P (a ++ b) = skip_while P b.
Proof. induction 1 as [|c a Hc Ha IH]; simpl; [done|]. by rewrite Hc. Qed.

Lemma skip_while_stop P z : P (hd 0 z) = false -> skip_while P z = z.
Proof. destruct z as [|c z]; simpl; [done|]. by intros ->. Qed.

Lemma units_bytes fuel z pos : (length z <= fuel + pos)%nat ->
  units fuel z (Z.of_nat pos) 1 (Z.of_nat (length z)) = drop pos z.
Proof.
  revert pos. induction fuel as [|fuel IH]; intros pos Hf; simpl.
  - by rewrite drop_ge by lia.
  - destruct (Z.ltb_spec (Z.of_nat pos) (Z.of_nat (length z))) as [Hl|Hl]; [|by rewrite drop_ge by lia].
    replace (Z.of_nat pos + 1) with (Z.of_nat (S pos)) by lia. rewrite IH, Nat2Z.id by lia.
    destruct (lookup_lt_is_Some_2 z pos ltac:(lia)) as [c Hc].
    rewrite (drop_S _ _ _ Hc). f_equal. by apply nth_lookup_Some with (d := 0) in Hc.
Qed.

Lemma pow_len_pos b (l : list Z) : 0 < b -> 0 < b ^ Z.of_nat (length l).
Proof. intros. apply Z.pow_pos_nonneg; lia. Qed.

Lemma pow_len_cons b (c : Z) (l : list Z) : b ^ Z.of_nat (length (c :: l)) = b * b ^ Z.of_nat (length l).
Proof. cbn [length]. by rewrite Nat2Z.inj_succ, Z.pow_succ_r by lia. Qed.

Lemma dec_bounds ds : Forall is_digit ds -> 0 <= dec ds < 10 ^ Z.of_nat (length ds).
Proof.
  induction 1 as [|c ds Hc Hds IH]; [simpl; lia|]. rewrite pow_len_cons. cbn [dec].
  unfold is_digit in Hc. pose proof (pow_len_pos 10 ds). nia.
Qed.

Lemma dec_zeros n ds : dec (replicate n 48 ++ ds) = dec ds.
Proof. induction n as [|n IH]; simpl; [done|]. rewrite IH. lia. Qed.

Lemma dec_lower c ds : is_digit c -> c <> 48 -> Forall is_digit ds -> 10 ^ Z.of_nat (length ds) <= dec (c :: ds).
Proof.
  unfold is_digit. intros Hc Hn Hds. cbn [dec]. pose proof (dec_bounds ds Hds).
  pose proof (pow_len_pos 10 ds). nia.
Qed.

Lemma digit_byte c : is_digit c -> is_byte c.
Proof. unfold is_digit, is_u. change (2 ^ 8) with 256. lia. Qed.

(** Leading zeros split off. *)
Lemma leading_zeros ds rest : Forall is_digit ds -> hd 0 rest <> 48 -> exists n ds',
  ds = replicate n 48 ++ ds' /\ Forall is_digit ds' /\ hd 0 ds' <> 48 /\ dec ds' = dec ds /\
  skip_while (Z.eqb 48) (ds ++ rest) = ds' ++ rest.
Proof.
  intros H Hr. induction H as [|c ds Hc Hds IH].
  - exists 0%nat, []. repeat split; [by constructor|done|]. apply skip_while_stop, Z.eqb_neq. simpl. congruence.
  - destruct (Z.eq_dec c 48) as [->|Hn].
    + destruct IH as (n & ds' & -> & H1 & H2 & H3 & H4). exists (S n), ds'. repeat split; try done.
    + exists 0%nat, (c :: ds). repeat split; [by constructor|done|]. apply skip_while_stop, Z.eqb_neq. simpl. congruence.
Qed.

Definition nondigit_head (rest : list Z) : Prop := ~ is_digit (hd 0 rest).

Lemma digit_loop_spec ds rest u i : Forall is_digit ds -> nondigit_head rest -> is_u 64 u ->
  digit_loop (ds ++ rest) u i = (u64 (u * 10 ^ Z.of_nat (length ds) + dec ds), (i + length ds)%nat, rest).
Proof.
  intros H Hr. revert u i. induction H as [|c ds Hc Hds IH]; intros u i Hu.
  - simpl app. cbn [dec length]. rewrite Z.mul_1_r, Z.add_0_r, (wrapu_id _ _ Hu), Nat.add_0_r.
    destruct rest as [|c rest]; [done|]. unfold nondigit_head, is_digit in Hr. simpl in *.
    by replace ((48 <=? c) && (c <=? 57)) with false by lia.
  - simpl. unfold is_digit in Hc. replace ((48 <=? c) && (c <=? 57)) with true by lia.
    rewrite IH by (apply wrapu_range; lia). do 2 f_equal; [|lia].
    change (S (length ds)) with (length (c :: ds)). rewrite pow_len_cons. unfold wrapu.
    rewrite <- Zplus_mod_idemp_l, Zmult_mod_idemp_l, Zplus_mod_idemp_l. f_equal. ring.
Qed.

(** The comparison with 2^63 has the sign of the difference. *)
Lemma compare_loop_spec pow z q : Forall is_digit pow -> is_digit q -> Forall is_digit z ->
  length z = S (length pow) -> q = 56 ->
  (compare2pow63_loop pow z ?= 0) = (dec z ?= dec (pow ++ [q])).
Proof.
  intros Hp Hq Hz Hl ->. revert z Hz Hl.
  induction Hp as [|p pow Hc Hp IH]; intros z Hz Hl; destruct Hz as [|c z Hcz Hz]; try done.
  - destruct z; [|done]. simpl. rewrite <- (compare_diff (_ + 0)). f_equal. lia.
  - cbn [compare2pow63_loop hd tl]. simpl in Hl. injection Hl as Hl.
    pose proof (dec_bounds z Hz) as B1.
    assert (Forall is_digit (pow ++ [56])) as Hp' by (apply Forall_app; split; [done|by repeat constructor]).
    pose proof (dec_bounds _ Hp') as B2.
    assert (length (pow ++ [56]) = length z) as El by (rewrite length_app, Hl; simpl; lia). rewrite El in B2.
    change ((p :: pow) ++ [56]) with (p :: pow ++ [56]). cbn [dec]. rewrite El.
    destruct (Z.eqb_spec ((c - p) * 10) 0).
    + replace c with p by lia. rewrite IH by done. by rewrite Zcompare_plus_compat.
    + destruct (Z.lt_trichotomy c p) as [H|[H|H]]; [|lia|].
      * transitivity Lt; [apply Z.compare_lt_iff; lia|symmetry; apply Z.compare_lt_iff; nia].
      * transitivity Gt; [apply Z.compare_gt_iff; lia|symmetry; apply Z.compare_gt_iff; nia].
Qed.

Lemma compare2pow63_spec z : Forall is_digit z -> length z = 19%nat ->
  (compare2pow63 z ?= 0) = (dec z ?= 2 ^ 63).
Proof.
  intros Hz Hl. unfold compare2pow63. rewrite (compare_loop_spec _ _ 56); try done.
  by repeat constructor.
Qed.

(** ** [sqlite3Atoi64] *)

Definition signed (sg : list Z) (v : Z) : Z := if decide (sg = [45]) then - v else v.
Definition is_sign (sg : list Z) : Prop := sg = [] \/ sg = [43] \/ sg = [45].

Definition is_nil (ds : list Z) : bool := match ds with [] => true | _ => false end.

(** The documented result for the value [v]: the value with the baseline code
    if it fits, the special code 3 for 2^63, else the nearest end with code 2. *)
Definition atoi64_result (v base : Z) : Z * Z :=
  if in_i64 v then (v, base)
  else if v =? 2 ^ 63 then (LARGEST_INT64, 3)
  else (if v <? 0 then SMALLEST_INT64 else LARGEST_INT64, 2).

Lemma compare_loop_app pow z rest : (length pow < length z)%nat ->
  compare2pow63_loop pow (z ++ rest) = compare2pow63_loop pow z.
Proof.
  revert z. induction pow as [|p pow IH]; intros [|c z] Hl; simpl in *; try lia.
  by rewrite IH by lia.
Qed.

(** What remains once the sign is read and the leading zeros are skipped. *)
Lemma atoi64_tail (neg : bool) ds rest rc : Forall is_digit ds -> hd 0 ds <> 48 ->
  (let u := u64 (dec ds) in
   let pNum := if u >? LARGEST_INT64 then (if neg then SMALLEST_INT64 else LARGEST_INT64)
               else if neg then - u else u in
   if (length ds <? 19)%nat then (pNum, rc)
   else let c := if (19 <? length ds)%nat then 1 else compare2pow63 (ds ++ rest) in
        if c <? 0 then (pNum, rc)
        else let pNum := if neg then SMALLEST_INT64 else LARGEST_INT64 in
             if c >? 0 then (pNum, 2) else (pNum, if neg then rc else 3))
  = atoi64_result (if neg then - dec ds else dec ds) rc.
Proof.
  intros Hds Hn. pose proof (dec_bounds ds Hds) as B. cbv zeta. unfold atoi64_result, in_i64.
  destruct (Nat.ltb_spec (length ds) 19) as [Hl|Hl].
  { assert (dec ds < 10 ^ 18) by (pose proof (Z.pow_le_mono_r 10 (Z.of_nat (length ds)) 18); lia).
    rewrite wrapu_id by solve_width. unfold SMALLEST_INT64, LARGEST_INT64.
    replace (_ >? _) with false by lia. by destruct neg; replace (_ && _) with true by lia. }
  destruct (Nat.ltb_spec 19 (length ds)) as [Hl2|Hl2].
  { destruct ds as [|c ds]; [simpl in Hl; lia|]. apply Forall_cons in Hds as [Hc Hds]. simpl in Hl2, Hn.
    pose proof (dec_lower c ds Hc Hn Hds).
    pose proof (Z.pow_le_mono_r 10 19 (Z.of_nat (length ds)) ltac:(lia) ltac:(lia)).
    assert (10 ^ 19 <= dec (c :: ds)) by lia. remember (dec (c :: ds)) as v.
    unfold SMALLEST_INT64, LARGEST_INT64. change (1 <? 0) with false. change (1 >? 0) with true. cbv iota.
    destruct neg; replace (_ && _) with false by lia; replace (_ =? _) with false by lia;
      [by replace (_ <? 0) with true by lia|by replace (_ <? 0) with false by lia]. }
  assert (length ds = 19%nat) as E by lia. pose proof (compare2pow63_spec ds Hds E) as Hc.
  rewrite E in B. assert (dec ds < 10 ^ 19) by lia. rewrite wrapu_id by solve_width.
  unfold compare2pow63 at 1 2. rewrite compare_loop_app by (simpl; lia). fold (compare2pow63 ds).
  clear Hn E Hl Hl2 Hds. remember (compare2pow63 ds) as c. clear Heqc. unfold SMALLEST_INT64, LARGEST_INT64 in *.
  destruct (Z.compare_spec (dec ds) (2 ^ 63)) as [Ed|Ed|Ed].
  - apply Z.compare_eq_iff in Hc as ->. rewrite Ed. by destruct neg.
  - rewrite Z.compare_lt_iff in Hc. replace (c <? 0) with true by lia.
    replace (dec ds >? _) with false by lia. by destruct neg; replace (_ && _) with true by lia.
  - rewrite Z.compare_gt_iff in Hc. replace (c <? 0) with false by lia. replace (c >? 0) with true by lia.
    destruct neg; replace (_ && _) with false by lia; replace (_ =? _) with false by lia;
      [by replace (_ <? 0) with true by lia|by replace (_ <? 0) with false by lia].
Qed.

Lemma atoi64_units_spec sp sg ds rest nonNum :
  Forall (fun c => sqlite3Isspace c = true) sp -> is_sign sg -> Forall is_digit ds -> nondigit_head rest ->
  (sg = [] -> ds = [] -> sqlite3Isspace (hd 0 rest) = false /\ hd 0 rest <> 43 /\ hd 0 rest <> 45) ->
  Atoi64_units (sp ++ sg ++ ds ++ rest) nonNum =
  atoi64_result (signed sg (dec ds))
    (if is_nil ds then -1 else if nonNum then 1 else if negb (forallb sqlite3Isspace rest) then 1 else 0).
Proof.
  intros Hsp Hsg Hds Hr Hstart. unfold Atoi64_units. rewrite skip_while_all by done.
  assert (skip_while sqlite3Isspace (sg ++ ds ++ rest) = sg ++ ds ++ rest) as ->.
  { apply skip_while_stop. destruct Hsg as [->|[->| ->]]; [|done..].
    destruct Hds as [|c ds Hc Hds]; [by apply Hstart|]. simpl. unfold is_digit in Hc.
    rewrite isspace_spec by (by apply digit_byte). lia. }
  assert (match sg ++ ds ++ rest with
    | [] => (false, sg ++ ds ++ rest)
    | c :: z' => if c =? 45 then (true, z') else if c =? 43 then (false, z') else (false, sg ++ ds ++ rest)
    end = (bool_decide (sg = [45]), ds ++ rest)) as ->.
  { destruct Hsg as [->|[->| ->]]; [|done..]. simpl.
    destruct Hds as [|c ds Hc Hds]; simpl.
    - destruct rest as [|c rest]; [done|]. destruct (Hstart eq_refl eq_refl) as (_ & H1 & H2). simpl in *.
      replace (c =? 45) with false by lia. by replace (c =? 43) with false by lia.
    - unfold is_digit in Hc. replace (c =? 45) with false by lia. by replace (c =? 43) with false by lia. }
  destruct (leading_zeros ds rest Hds) as (n & ds' & E & Hds' & Hn & Hv & Hs).
  { unfold nondigit_head, is_digit in Hr. lia. }
  rewrite Hs, digit_loop_spec by (done || solve_width). rewrite Z.mul_0_l, Z.add_0_l, Nat.add_0_l.
  assert ((length ds' =? 0)%nat && (length (ds ++ rest) =? length (ds' ++ rest))%nat = is_nil ds) as ->.
  { rewrite E, !length_app, length_replicate. destruct ds' as [|c ds']; simpl.
    - destruct n; [by rewrite Nat.eqb_refl|]. simpl is_nil. apply Nat.eqb_neq. lia.
    - by destruct n. }
  assert (signed sg (dec ds) = if bool_decide (sg = [45]) then - dec ds' else dec ds') as ->.
  { rewrite Hv. unfold signed. by repeat case_decide; case_bool_decide. }
  rewrite <- (atoi64_tail (bool_decide (sg = [45])) ds' rest) by done. reflexivity.
Qed.

Lemma atoi64_utf8_units z : sqlite3Atoi64 z SQLITE_UTF8 = Atoi64_units z false.
Proof. unfold sqlite3Atoi64. simpl. f_equal. by apply (units_bytes (S (length z)) z 0); lia. Qed.

(** ** UTF-16 *)

Definition utf16le (s : list Z) : list Z := flat_map (fun c => [c; 0]) s.
Definition utf16be (s : list Z) : list Z := flat_map (fun c => [0; c]) s.

Lemma nth_utf16le s k : nth (2 * k) (utf16le s) 0 = nth k s 0 /\ nth (2 * k + 1) (utf16le s) 0 = 0.
Proof.
  revert k. induction s as [|c s IH]; intros [|k]; try done.
  replace (2 * S k)%nat with (S (S (2 * k))) by lia. apply IH.
Qed.

Lemma nth_utf16be s k : nth (2 * k + 1) (utf16be s) 0 = nth k s 0 /\ nth (2 * k) (utf16be s) 0 = 0.
Proof.
  revert k. induction s as [|c s IH]; intros [|k]; try done.
  replace (2 * S k)%nat with (S (S (2 * k))) by lia. apply IH.
Qed.

Lemma length_utf16 s : length (utf16le s) = (2 * length s)%nat /\ length (utf16be s) = (2 * length s)%nat.
Proof. induction s as [|c s [IH1 IH2]]; simpl in *; [done|]. rewrite IH1, IH2. lia. Qed.

Lemma first_high_zero z n off fuel k : (off = 0 \/ off = 1) -> (k <= n)%nat -> (n - k < fuel)%nat ->
  (forall j, nth (2 * j + Z.to_nat off) z 0 = 0) ->
  first_high fuel z (2 * Z.of_nat n) (2 * Z.of_nat k + off) = 2 * Z.of_nat n + off.
Proof.
  intros Ho Hk Hf Hz. revert k Hk Hf. induction fuel as [|fuel IH]; intros k Hk Hf; [lia|]. simpl.
  replace (Z.to_nat (2 * Z.of_nat k + off)) with (2 * k + Z.to_nat off)%nat by lia.
  rewrite Hz, Z.eqb_refl, andb_true_r. destruct (Z.ltb_spec (2 * Z.of_nat k + off) (2 * Z.of_nat n)).
  - replace (2 * Z.of_nat k + off + 2) with (2 * Z.of_nat (S k) + off) by lia. apply IH; lia.
  - assert (k = n) as -> by lia. done.
Qed.

Lemma units_stride z s off fuel k : (off = 0 \/ off = 1) -> (k <= length s)%nat -> (length s - k < fuel)%nat ->
  (forall j, nth (2 * j + Z.to_nat off) z 0 = nth j s 0) ->
  units fuel z (2 * Z.of_nat k + off) 2 (2 * Z.of_nat (length s) + off) = drop k s.
Proof.
  intros Ho Hk Hf Hz. revert k Hk Hf. induction fuel as [|fuel IH]; intros k Hk Hf; [lia|]. simpl.
  destruct (Z.ltb_spec (2 * Z.of_nat k + off) (2 * Z.of_nat (length s) + off)); [|by rewrite drop_ge by lia].
  replace (Z.to_nat (2 * Z.of_nat k + off)) with (2 * k + Z.to_nat off)%nat by lia. rewrite Hz.
  replace (2 * Z.of_nat k + off + 2) with (2 * Z.of_nat (S k) + off) by lia. rewrite IH by lia.
  destruct (lookup_lt_is_Some_2 s k ltac:(lia)) as [c Hc].
  rewrite (drop_S _ _ _ Hc). f_equal. by apply nth_lookup_Some with (d := 0) in Hc.
Qed.

Lemma lxor_even n : Z.lxor (2 * Z.of_nat n) 1 = 2 * Z.of_nat n + 1 /\ Z.lxor (2 * Z.of_nat n + 1) 1 = 2 * Z.of_nat n.
Proof.
  assert (Z.lxor (2 * Z.of_nat n) 1 = 2 * Z.of_nat n + 1) as E.
  { symmetry. apply Z.add_nocarry_lxor. apply Z.bits_inj'. intros i Hi.
    rewrite Z.land_spec, Z.bits_0. destruct (Z.eq_dec i 0) as [->|].
    - by rewrite Z.testbit_even_0.
    - replace i with (Z.succ (i - 1)) by lia. rewrite andb_comm.
      change 1 with (2 * 0 + 1). by rewrite Z.testbit_odd_succ, Z.bits_0 by lia. }
  split; [done|]. rewrite <- E at 1. by rewrite Z.lxor_assoc, Z.lxor_nilpotent, Z.lxor_0_r.
Qed.

Lemma ldiff_even n : Z.ldiff (2 * Z.of_nat n) 1 = 2 * Z.of_nat n.
Proof.
  apply Z.bits_inj'. intros i Hi. rewrite Z.ldiff_spec. destruct (Z.eq_dec i 0) as [->|].
  - by rewrite Z.testbit_even_0.
  - replace i with (Z.succ (i - 1)) by lia. change 1 with (2 * 0 + 1) at 2.
    by rewrite Z.testbit_odd_succ, Z.bits_0, andb_true_r by lia.
Qed.

Lemma atoi64_utf16le s : sqlite3Atoi64 (utf16le s) SQLITE_UTF16LE = Atoi64_units s false.
Proof.
  unfold sqlite3Atoi64. change (SQLITE_UTF16LE =? SQLITE_UTF8) with false. cbv iota zeta.
  change (3 - SQLITE_UTF16LE) with 1. change (Z.land SQLITE_UTF16LE 1) with 0.
  rewrite (proj1 (length_utf16 s)), Nat2Z.inj_mul. change (Z.of_nat 2) with 2. rewrite ldiff_even.
  rewrite (first_high_zero _ (length s) 1 _ 0) by (done || lia || (intros; apply nth_utf16le)).
  rewrite (proj2 (lxor_even _)). replace (_ <? _) with false by lia. f_equal.
  pose proof (units_stride (utf16le s) s 0 (S (2 * length s)) 0) as H. rewrite !Z.add_0_r in H.
  change (2 * Z.of_nat 0) with 0 in H. rewrite H; [done|lia..|]. intros j. rewrite Nat.add_0_r. apply nth_utf16le.
Qed.

Lemma atoi64_utf16be s : sqlite3Atoi64 (utf16be s) SQLITE_UTF16BE = Atoi64_units s false.
Proof.
  unfold sqlite3Atoi64. change (SQLITE_UTF16BE =? SQLITE_UTF8) with false. cbv iota zeta.
  change (3 - SQLITE_UTF16BE) with 0. change (Z.land SQLITE_UTF16BE 1) with 1.
  rewrite (proj2 (length_utf16 s)), Nat2Z.inj_mul. change (Z.of_nat 2) with 2. rewrite ldiff_even.
  pose proof (first_high_zero (utf16be s) (length s) 0 (S (2 * length s)) 0) as H. rewrite !Z.add_0_r in H.
  change (2 * Z.of_nat 0) with 0 in H. rewrite H; [|by left|lia|lia|intros; rewrite Nat.add_0_r; apply nth_utf16be].
  rewrite (proj1 (lxor_even _)). replace (_ <? _) with false by lia. f_equal.
  apply (units_stride (utf16be s) s 1 (S (2 * length s)) 0); [lia..|]. intros j. apply nth_utf16be.
Qed.



(** ** 32-bit integers and hexadecimal *)

Lemma int32_loop_spec fuel ds rest v i : Forall is_digit ds -> nondigit_head rest ->
  int32_loop fuel (ds ++ rest) v i =
  (v * 10 ^ Z.of_nat (length (take fuel ds)) + dec (take fuel ds), (i + length (take fuel ds))%nat).
Proof.
  intros H Hr. revert fuel v i. induction H as [|c ds Hc Hds IH]; intros [|fuel] v i;
    cbn [take app length dec]; try (simpl; f_equal; lia).
  - cbn [dec length take]. rewrite Z.mul_1_r, Z.add_0_r, Nat.add_0_r.
    destruct rest as [|c rest]; [done|]. unfold nondigit_head, is_digit in Hr. simpl in *.
    by replace ((c - 48 >=? 0) && (c - 48 <=? 9)) with false by lia.
  - cbn [int32_loop]. unfold is_digit in Hc. replace ((c - 48 >=? 0) && (c - 48 <=? 9)) with true by lia.
    rewrite IH. rewrite Nat2Z.inj_succ, Z.pow_succ_r by lia. f_equal; [ring|lia].
Qed.

Lemma getint32_dec_spec neg ds rest : ds <> [] -> Forall is_digit ds -> nondigit_head rest ->
  sqlite3GetInt32_dec neg (ds ++ rest) =
  let v := if (neg : bool) then - dec ds else dec ds in
  if (- 2 ^ 31 <=? v) && (v <? 2 ^ 31) then Some v else None.
Proof.
  intros Hne Hds Hr. unfold sqlite3GetInt32_dec.
  assert (sqlite3Isdigit (hd 0 (ds ++ rest)) = true) as ->.
  { destruct Hds as [|c ds Hc Hds]; [done|]. simpl. unfold is_digit in Hc.
    rewrite isdigit_spec by (by apply digit_byte). lia. }
  destruct (leading_zeros ds rest Hds) as (n & ds' & E & Hds' & Hn & Hv & Hs).
  { unfold nondigit_head, is_digit in Hr. lia. }
  cbv beta iota. rewrite Hs, int32_loop_spec, <- Hv by done. rewrite Z.mul_0_l, Z.add_0_l, Nat.add_0_l.
  cbv zeta. destruct (Nat.le_gt_cases (length ds') 10) as [Hl|Hl].
  - rewrite take_ge by lia. replace (10 <? length ds')%nat with false by (symmetry; apply Nat.ltb_ge; lia).
    pose proof (dec_bounds ds' Hds').
    destruct neg, (_ >? _) eqn:Eg; simpl negb; cbv iota; (case_match; [|done || lia]); try lia;
      (rewrite wraps_id; [done|lia|unfold is_s; lia]).
  - rewrite length_take_le by lia. change (10 <? 11)%nat with true. change (negb true) with false. cbv iota.
    destruct ds' as [|c ds']; [simpl in Hl; lia|]. apply Forall_cons in Hds' as [Hc Hds']. simpl in Hl, Hn.
    pose proof (dec_lower c ds' Hc Hn Hds').
    pose proof (Z.pow_le_mono_r 10 10 (Z.of_nat (length ds')) ltac:(lia) ltac:(lia)).
    remember (dec (c :: ds')) as v. destruct neg; (case_match; [lia|done]).
Qed.

Definition is_xdigit (c : Z) : Prop := is_byte c /\ sqlite3Isxdigit c = true.

Lemma xdigit_range c : is_xdigit c -> 48 <= c <= 57 \/ 65 <= c <= 70 \/ 97 <= c <= 102.
Proof. intros [Hb H]. rewrite isxdigit_spec in H by done. lia. Qed.

Lemma hextoint_spec c : is_xdigit c -> sqlite3HexToInt c = hex_digit c.
Proof.
  intros [Hb H]. apply Z.eqb_eq.
  pose proof (all_bytes_spec (fun c => negb (sqlite3Isxdigit c) || (sqlite3HexToInt c =? hex_digit c)) c eq_refl Hb) as P.
  simpl in P. by rewrite H in P.
Qed.

Lemma hex_digit_range c : is_xdigit c -> 0 <= hex_digit c < 16 /\ (c <> 48 -> 0 < hex_digit c).
Proof. intros H%xdigit_range. unfold hex_digit. repeat case_match; lia. Qed.

Lemma hex_bounds hs : Forall is_xdigit hs -> 0 <= hex hs < 16 ^ Z.of_nat (length hs).
Proof.
  induction 1 as [|c hs Hc Hhs IH]; [simpl; lia|]. rewrite pow_len_cons. cbn [hex].
  pose proof (hex_digit_range c Hc). pose proof (pow_len_pos 16 hs). nia.
Qed.

Lemma hex_lower c hs : is_xdigit c -> c <> 48 -> Forall is_xdigit hs -> 16 ^ Z.of_nat (length hs) <= hex (c :: hs).
Proof.
  intros Hc Hn Hhs. cbn [hex]. pose proof (hex_bounds hs Hhs). pose proof (hex_digit_range c Hc) as [_ Hd].
  pose proof (pow_len_pos 16 hs). specialize (Hd Hn). nia.
Qed.

Lemma leading_zeros_hex hs rest : Forall is_xdigit hs -> hd 0 rest <> 48 -> exists hs',
  Forall is_xdigit hs' /\ hd 0 hs' <> 48 /\ hex hs' = hex hs /\
  skip_while (Z.eqb 48) (hs ++ rest) = hs' ++ rest.
Proof.
  intros H Hr. induction H as [|c hs Hc Hhs IH].
  - exists []. repeat split; [by constructor|done|]. apply skip_while_stop, Z.eqb_neq. simpl. congruence.
  - destruct (Z.eq_dec c 48) as [->|Hn].
    + destruct IH as (hs' & H1 & H2 & H3 & H4). exists hs'. repeat split; done.
    + exists (c :: hs). repeat split; [by constructor|done|]. apply skip_while_stop, Z.eqb_neq. simpl. congruence.
Qed.

Definition nonxdigit_head (rest : list Z) : Prop := rest = [] \/ sqlite3Isxdigit (hd 0 rest) = false.

Lemma hex_loop_spec bits fuel hs rest u k : 0 <= bits -> Forall is_xdigit hs -> nonxdigit_head rest -> is_u bits u ->
  hex_loop bits fuel (hs ++ rest) u k =
  (wrapu bits (u * 16 ^ Z.of_nat (length (take fuel hs)) + hex (take fuel hs)),
   (k + length (take fuel hs))%nat, drop fuel hs ++ rest).
Proof.
  intros Hbits H Hr. revert fuel u k. induction H as [|c hs Hc Hhs IH]; intros [|fuel] u k Hu;
    cbn [take drop app length hex].
  1,3: rewrite Z.mul_1_r, Z.add_0_r, Nat.add_0_r, (wrapu_id _ _ Hu); by destruct rest.
  - rewrite Z.mul_1_r, Z.add_0_r, Nat.add_0_r, (wrapu_id _ _ Hu).
    destruct rest as [|c rest]; [done|]. destruct Hr as [|Hr]; [done|]. simpl in *. by rewrite Hr.
  - cbn [hex_loop]. rewrite (proj2 Hc), (hextoint_spec c Hc), IH by (by apply wrapu_range).
    rewrite Nat2Z.inj_succ, Z.pow_succ_r by lia. do 2 f_equal; [|lia]. unfold wrapu.
    rewrite <- Zplus_mod_idemp_l, Zmult_mod_idemp_l, Zplus_mod_idemp_l. f_equal. ring.
Qed.

Lemma top_bit_clear u : 0 <= u < 2 ^ 32 -> (Z.land u 0x80000000 =? 0) = (u <? 2 ^ 31).
Proof.
  intros Hu. change 0x80000000 with (2 ^ 31). destruct (Z.ltb_spec u (2 ^ 31)) as [H|H].
  - apply Z.eqb_eq. apply Z.bits_inj'. intros i Hi. rewrite Z.land_spec, Z.bits_0, Z.pow2_bits_eqb by lia.
    destruct (Z.eqb_spec 31 i) as [<-|]; [|by rewrite andb_false_r].
    rewrite Z.testbit_eqb by lia. by rewrite Z.div_small by lia.
  - apply Z.eqb_neq. intros E. apply (f_equal (fun z => Z.testbit z 31)) in E.
    rewrite Z.land_spec, Z.bits_0, Z.pow2_bits_true, andb_true_r in E by lia.
    rewrite Z.testbit_eqb in E by lia. replace (u / 2 ^ 31) with 1 in E; [done|].
    apply Z.div_unique with (u - 2 ^ 31); lia.
Qed.

Lemma nonxdigit_head_not_zero rest : nonxdigit_head rest -> hd 0 rest <> 48.
Proof. intros [->|H]; [done|]. intros E. by rewrite E in H. Qed.

Lemma nonxdigit_head_false rest : nonxdigit_head rest -> sqlite3Isxdigit (hd 0 rest) = false.
Proof. by intros [->|H]. Qed.

Lemma hex_long hs n : Forall is_xdigit hs -> hd 0 hs <> 48 -> (n < length hs)%nat -> 16 ^ Z.of_nat n <= hex hs.
Proof.
  intros Hhs Hn Hl. destruct hs as [|c hs]; [simpl in Hl; lia|]. apply Forall_cons in Hhs as [Hc Hhs].
  simpl in Hl, Hn. pose proof (hex_lower c hs Hc Hn Hhs).
  pose proof (Z.pow_le_mono_r 16 (Z.of_nat n) (Z.of_nat (length hs)) ltac:(lia) ltac:(lia)). lia.
Qed.

Lemma hex_short hs n : Forall is_xdigit hs -> (length hs <= n)%nat -> 0 <= hex hs < 16 ^ Z.of_nat n.
Proof.
  intros Hhs Hl. pose proof (hex_bounds hs Hhs).
  pose proof (Z.pow_le_mono_r 16 (Z.of_nat (length hs)) (Z.of_nat n) ltac:(lia) ltac:(lia)). lia.
Qed.

Lemma getint32_hex_spec x hs rest : x = 120 \/ x = 88 -> hs <> [] -> Forall is_xdigit hs -> nonxdigit_head rest ->
  sqlite3GetInt32 (48 :: x :: hs ++ rest) = if hex hs <? 2 ^ 31 then Some (hex hs) else None.
Proof.
  intros Hx Hne Hhs Hr. unfold sqlite3GetInt32, is_hex_prefix. cbn [hd nth drop].
  change (48 =? 45) with false. change (48 =? 43) with false. cbv iota.
  assert (sqlite3Isxdigit (nth 0 (hs ++ rest) 0) = true) as ->.
  { destruct Hhs as [|c hs Hc Hhs]; [done|]. apply Hc. }
  replace ((x =? 120) || (x =? 88)) with true by lia. change ((48 =? 48) && true && true) with true. cbv iota.
  destruct (leading_zeros_hex hs rest Hhs) as (hs' & Hhs' & Hn & Hv & Hs); [by apply nonxdigit_head_not_zero|].
  rewrite drop_0, Hs, hex_loop_spec, <- Hv by (done || solve_width). rewrite Z.mul_0_l, Z.add_0_l.
  destruct (Nat.le_gt_cases (length hs') 8) as [Hl|Hl].
  - rewrite take_ge, drop_ge by done. cbn [app]. pose proof (hex_short hs' 8 Hhs' Hl).
    rewrite wrapu_id by solve_width. rewrite top_bit_clear by lia.
    rewrite nonxdigit_head_false, andb_true_r by done.
    destruct (Z.ltb_spec (hex hs') (2 ^ 31)); [|done]. rewrite wraps_id; [done|lia|unfold is_s; lia].
  - pose proof (hex_long hs' 8 Hhs' Hn Hl). replace (hex hs' <? 2 ^ 31) with false by lia.
    destruct (lookup_lt_is_Some_2 hs' 8 Hl) as [c Hc]. rewrite (drop_S _ _ _ Hc). cbn [app hd].
    rewrite (proj2 (Forall_lookup_1 _ _ _ _ Hhs' Hc)). by rewrite andb_false_r.
Qed.

Lemma getint32_sign sg ds rest : is_sign sg -> ds <> [] -> Forall is_digit ds ->
  (sg = [] -> is_hex_prefix (ds ++ rest) && sqlite3Isxdigit (nth 2 (ds ++ rest) 0) = false) ->
  sqlite3GetInt32 (sg ++ ds ++ rest) = sqlite3GetInt32_dec (bool_decide (sg = [45])) (ds ++ rest).
Proof.
  intros Hsg Hne Hds Hx. unfold sqlite3GetInt32. destruct Hsg as [->|[->| ->]]; [|done..].
  destruct Hds as [|c ds Hc Hds]; [done|]. unfold is_digit in Hc. cbn [app hd].
  replace (c =? 45) with false by lia. replace (c =? 43) with false by lia. specialize (Hx eq_refl).
  cbn [app] in Hx. by rewrite Hx.
Qed.

(** 32-bit conversion: a decimal numeral with an optional sign, followed
    by anything, is accepted exactly when its value fits a signed 32-bit
    integer, and gives that value; a [0x] numeral is accepted exactly below
    2^31.  [sqlite3DecOrHexToI64] reads a hexadecimal literal as the 64-bit
    two's complement of its value and flags more than 16 significant digits. *)
Theorem getint32_spec (sg ds rest hs : list Z) (x : Z) :
  is_sign sg -> ds <> [] -> Forall is_digit ds -> nondigit_head rest ->
  (sg = [] -> is_hex_prefix (ds ++ rest) && sqlite3Isxdigit (nth 2 (ds ++ rest) 0) = false) ->
  x = 120 \/ x = 88 -> hs <> [] -> Forall is_xdigit hs -> nonxdigit_head rest ->
  sqlite3GetInt32 (sg ++ ds ++ rest) =
    (let v := signed sg (dec ds) in if (- 2 ^ 31 <=? v) && (v <? 2 ^ 31) then Some v else None) /\
  sqlite3GetInt32 (48 :: x :: hs ++ rest) = (if hex hs <? 2 ^ 31 then Some (hex hs) else None) /\
  sqlite3DecOrHexToI64 (48 :: x :: hs) = (i64 (hex hs), if hex hs <? 2 ^ 64 then 0 else 2).
Proof.
  intros Hsg Hne Hds Hr Hx Hc Hnh Hhs Hrx. split_and!.
  - rewrite getint32_sign, getint32_dec_spec by done. unfold signed. by case_decide; case_bool_decide.
  - by apply getint32_hex_spec.
  - unfold sqlite3DecOrHexToI64, is_hex_prefix. replace ((x =? 120) || (x =? 88)) with true by lia.
    change ((48 =? 48) && true) with true. cbn [drop]. cbv iota.
    destruct (leading_zeros_hex hs [] Hhs) as (hs' & Hhs' & Hn & Hv & Hs); [done|]. rewrite !app_nil_r in Hs.
    rewrite drop_0, Hs. rewrite <- (app_nil_r hs') at 2.
    rewrite hex_loop_spec, <- Hv by (done || (by left) || solve_width).
    rewrite take_ge, drop_ge, Z.mul_0_l, Z.add_0_l, Nat.add_0_l, wraps_wrapu by done. cbn [app]. f_equal.
    destruct (Nat.leb_spec (length hs') 16) as [Hl|Hl].
    + pose proof (hex_short hs' 16 Hhs' Hl). by replace (hex hs' <? 2 ^ 64) with true by lia.
    + pose proof (hex_long hs' 16 Hhs' Hn Hl). by replace (hex hs' <? 2 ^ 64) with false by lia.
Qed.

Lemma getint32_spec_witness :
  sqlite3GetInt32 ([45] ++ [50; 49; 52; 55; 52; 56; 51; 54; 52; 56] ++ []) = Some (- 2 ^ 31) /\
  sqlite3DecOrHexToI64 (48 :: 120 :: [102; 102]) = (255, 0).
Proof.
  destruct (getint32_spec [45] [50; 49; 52; 55; 52; 56; 51; 54; 52; 56] [] [102; 102] 120) as (H1 & _ & H3).
  - by right; right.
  - done.
  - by repeat constructor.
  - unfold nondigit_head, is_digit. simpl. lia.
  - done.
  - by left.
  - done.
  - by repeat constructor.
  - by left.
  - split; [exact H1|exact H3].
Defined.

Lemma uint32_loop_digits z v i : Forall is_digit z -> 0 <= v <= 2 ^ 32 ->
  uint32_loop z v i =
  let n := v * 10 ^ Z.of_nat (length z) + dec z in
  if n <=? 2 ^ 32 then Some (n, (i + length z)%nat, []) else None.
Proof.
  intros Hz. revert v i. induction Hz as [|c z Hc Hz IH]; intros v i Hv; cbv zeta.
  { cbn [length dec uint32_loop]. rewrite Z.mul_1_r, Z.add_0_r, Nat.add_0_r.
    by replace (v <=? _) with true by lia. }
  rewrite pow_len_cons. cbn [uint32_loop dec length].
  rewrite isdigit_spec by (by apply digit_byte). unfold is_digit in Hc.
  replace ((48 <=? c) && (c <=? 57)) with true by lia. rewrite wrapu_id by solve_width.
  pose proof (pow_len_pos 10 z). pose proof (dec_bounds z Hz).
  replace (v * (10 * 10 ^ Z.of_nat (length z)) + ((c - 48) * 10 ^ Z.of_nat (length z) + dec z))
    with ((v * 10 + c - 48) * 10 ^ Z.of_nat (length z) + dec z) by ring.
  destruct (Z.gtb_spec (v * 10 + c - 48) 4294967296) as [Hg|Hg].
  - replace (_ <=? 2 ^ 32) with false; [done|]. symmetry. apply Z.leb_gt. nia.
  - rewrite IH by lia. cbv zeta. case_match; [|done]. do 3 f_equal. lia.
Qed.

Lemma uint32_loop_rest z v i v' i' : Forall is_byte z -> uint32_loop z v i = Some (v', i', []) ->
  Forall is_digit z /\ i' = (i + length z)%nat.
Proof.
  intros Hz. revert v i. induction Hz as [|c z Hc Hz IH]; intros v i H; simpl in H.
  - injection H as _ <-. split; [constructor|simpl; lia].
  - destruct (sqlite3Isdigit c) eqn:E; [|done]. destruct (_ >? _); [done|].
    apply IH in H as [H1 H2]. rewrite isdigit_spec in E by done.
    split; [constructor; [unfold is_digit; lia|done]|simpl; lia].
Qed.

(** Conversion to an unsigned 32-bit integer succeeds exactly on the
    non-empty digit strings of value at most 2^32 (not 2^32-1), and stores the
    value reduced modulo 2^32; so "4294967296" is accepted and read as 0. *)
Theorem getuint32_spec (z : list Z) : Forall is_byte z ->
  (z <> [] -> Forall is_digit z ->
     sqlite3GetUInt32 z = if dec z <=? 2 ^ 32 then (u32 (dec z), 1) else (0, 0)) /\
  (z = [] \/ ~ Forall is_digit z -> sqlite3GetUInt32 z = (0, 0)) /\
  sqlite3GetUInt32 [52; 50; 57; 52; 57; 54; 55; 50; 57; 54] = (0, 1).
Proof.
  intros Hz. unfold sqlite3GetUInt32 at 1 2. split_and!; [| |done].
  - intros Hne Hd. rewrite uint32_loop_digits by (done || lia). cbv zeta.
    rewrite Z.mul_0_l, Z.add_0_l. destruct (dec z <=? 2 ^ 32); [|done]. by destruct z.
  - intros H. destruct (uint32_loop z 0 0) as [[[v i] rest]|] eqn:E; [|done].
    destruct rest as [|c rest]; [|by rewrite orb_true_r].
    apply uint32_loop_rest in E as [E1 E2]; [|done]. destruct H as [->|H]; [|done]. by rewrite E2.
Qed.

Lemma getuint32_spec_witness : sqlite3GetUInt32 [52; 50] = (42, 1).
Proof.
  refine (proj1 (getuint32_spec [52; 50] _) _ _).
  - repeat (constructor; [unfold is_u; lia|]). constructor.
  - done.
  - repeat (constructor; [unfold is_digit; lia|]). constructor.
Defined.
