(* ===== verification/HashTable.v ===== *)
(** * SQLite's string hash table (hash.c)

    The table of schemas, functions, collations and modules: all elements sit
    on one doubly linked list, and a bucket is a pointer into that list with
    the number of consecutive elements that belong to it.  The elements live in
    an explicit heap, so stale pointers, leaks and null dereferences are
    visible: an operation that dereferences a pointer with no element, or runs
    into an [assert], is [None].  The invariant groups the list into one
    segment per bucket; the table is proved to implement a finite map on case
    folded keys, in both modes (with and without the bucket array) and across
    rehashing and failed allocations. *)

From S2P Require Import Prelude Ctype.

Section HashTable.
Context {D : Type}.

(** ** Data *)

Record HashElem : Type := mkElem {
  next : option positive;
  prev : option positive;
  data : D;                  (* never NULL in a table *)
  pKey : list Z;
}.

(** [struct _ht]: one bucket. *)
Record bucket : Type := mkBucket { b_count : Z; chain : option positive }.

Record Hash : Type := mkHash {
  htsize : Z;
  count : Z;
  first : option positive;
  ht : option (list bucket);
}.

Abbreviation heap := (gmap positive HashElem).
Abbreviation state := (Hash * heap)%type.

Definition set_next (v : option positive) (e : HashElem) : HashElem := mkElem v (prev e) (data e) (pKey e).
Definition set_prev (v : option positive) (e : HashElem) : HashElem := mkElem (next e) v (data e) (pKey e).
Definition set_data (v : D) (k : list Z) (e : HashElem) : HashElem := mkElem (next e) (prev e) v k.
Definition set_first (v : option positive) (h : Hash) : Hash := mkHash (htsize h) (count h) v (ht h).
Definition set_ht (v : option (list bucket)) (h : Hash) : Hash := mkHash (htsize h) (count h) (first h) v.
Definition set_count (v : Z) (h : Hash) : Hash := mkHash (htsize h) v (first h) (ht h).

(** A store through a pointer. *)
Definition upd (p : positive) (f : HashElem -> HashElem) (m : heap) : option heap :=
  e ← m !! p; Some (<[p := f e]> m).

(** ** Operations *)

Definition sqlite3HashInit : Hash := mkHash 0 0 None None.

(** The loop that frees every element. *)
Fixpoint clear_loop (fuel : nat) (elem : option positive) (m : heap) : option heap :=
  match elem with
  | None => Some m
  | Some p =>
      match fuel with
      | O => None
      | S fuel => e ← m !! p; clear_loop fuel (next e) (delete p m)
      end
  end.

Definition sqlite3HashClear (s : state) : option state :=
  let (pH, m) := s in
  m' ← clear_loop (S (size m)) (first pH) m;
  Some (mkHash 0 0 None None, m').

Definition strHash (z : list Z) : Z :=
  fold_left (fun h c => u32 (u32 (h + UpperToLower c) * 0x9e3779b1)) z 0.

(** [insertElement], first part: the bucket is charged with the new element and
    the head of its chain is read; [pEntry] is a bucket index, [None] for a null
    pointer. *)
Definition enter_bucket (pH : Hash) (pEntry : option nat) (pNew : positive) : option (Hash * option positive) :=
  match pEntry with
  | Some j =>
      bs ← ht pH; b ← bs !! j;
      Some (set_ht (Some (<[j := mkBucket (u32 (b_count b + 1)) (Some pNew)]> bs)) pH,
            if b_count b =? 0 then None else chain b)
  | None => Some (pH, None)
  end.

(** Second part, [pHead] not null: the element goes before [pHead]. *)
Definition link_before (s : state) (pHead pNew : positive) : option state :=
  let (pH, m) := s in
  eh ← m !! pHead;
  m ← upd pNew (fun e => set_prev (prev eh) (set_next (Some pHead) e)) m;
  '(pH, m) ←
    match prev eh with
    | Some r => m ← upd r (set_next (Some pNew)) m; Some (pH, m)
    | None => Some (set_first (Some pNew) pH, m)
    end;
  m ← upd pHead (set_prev (Some pNew)) m;
  Some (pH, m).

(** Second part, no [pHead]: the element goes to the front of the list. *)
Definition link_first (s : state) (pNew : positive) : option state :=
  let (pH, m) := s in
  m ← upd pNew (set_next (first pH)) m;
  m ← match first pH with Some f => upd f (set_prev (Some pNew)) m | None => Some m end;
  m ← upd pNew (set_prev None) m;
  Some (set_first (Some pNew) pH, m).

Definition insertElement (s : state) (pEntry : option nat) (pNew : positive) : option state :=
  '(pH, pHead) ← enter_bucket (fst s) pEntry pNew;
  match pHead with
  | Some q => link_before (pH, snd s) q pNew
  | None => link_first (pH, snd s) pNew
  end.

Definition SQLITE_MALLOC_SOFT_LIMIT : Z := 1024.
Definition sizeof_ht : Z := 16.

(** The loop that moves every element of the old list. *)
Fixpoint rehash_loop (fuel : nat) (elem : option positive) (s : state) : option state :=
  match elem with
  | None => Some s
  | Some p =>
      match fuel with
      | O => None
      | S fuel =>
          e ← snd s !! p;
          let h := strHash (pKey e) mod htsize (fst s) in
          s ← insertElement s (Some (Z.to_nat h)) p;
          rehash_loop fuel (next e) s
      end
  end.

(** [alloc] is the outcome of the allocation: [None], or the number of buckets
    that fit the memory obtained ([sqlite3MallocSize(new_ht)/sizeof(struct _ht)]). *)
Definition rehash (s : state) (new_size : Z) (alloc : option Z) : option (state * bool) :=
  let (pH, m) := s in
  let new_size := if u32 new_size * sizeof_ht >? SQLITE_MALLOC_SOFT_LIMIT
                  then SQLITE_MALLOC_SOFT_LIMIT / sizeof_ht else u32 new_size in
  if new_size =? htsize pH then Some (s, false)
  else
    match alloc with
    | None => Some (s, false)
    | Some n =>
        let pH' := mkHash n (count pH) None (Some (replicate (Z.to_nat n) (mkBucket 0 None))) in
        s ← rehash_loop (S (size m)) (first pH) (pH', m);
        Some (s, true)
    end.

(** [while( count-- )]: the element found, if any. *)
Fixpoint find_loop (m : heap) (key : list Z) (fuel : nat) (elem : option positive) : option (option positive) :=
  match fuel with
  | O => Some None
  | S fuel =>
      p ← elem; e ← m !! p;
      if sqlite3StrICmp (pKey e) key =? 0 then Some (Some p) else find_loop m key fuel (next e)
  end.

(** The element (or [None], the static null element) and the bucket index. *)
Definition findElementWithHash (s : state) (key : list Z) : option (option positive * nat) :=
  let (pH, m) := s in
  match ht pH with
  | Some bs =>
      let h := Z.to_nat (strHash key mod htsize pH) in
      b ← bs !! h;
      r ← find_loop m key (Z.to_nat (b_count b)) (chain b); Some (r, h)
  | None => r ← find_loop m key (Z.to_nat (count pH)) (first pH); Some (r, 0%nat)
  end.

(** [removeElementGivenHash]: unlinking, then the bucket, then the count. *)
Definition unlink (s : state) (elem : positive) (e : HashElem) : option state :=
  let (pH, m) := s in
  '(pH, m) ←
    match prev e with
    | Some p => m ← upd p (set_next (next e)) m; Some (pH, m)
    | None => Some (set_first (next e) pH, m)
    end;
  m ← match next e with Some n => upd n (set_prev (prev e)) m | None => Some m end;
  Some (pH, m).

Definition leave_bucket (pH : Hash) (h : nat) (elem : positive) (e : HashElem) : option Hash :=
  match ht pH with
  | Some bs =>
      b ← bs !! h;
      if b_count b >? 0 then
        Some (set_ht (Some (<[h := mkBucket (u32 (b_count b - 1))
          (if bool_decide (chain b = Some elem) then next e else chain b)]> bs)) pH)
      else None
  | None => Some pH
  end.

Definition removeElementGivenHash (s : state) (elem : positive) (h : nat) : option state :=
  e ← snd s !! elem;
  '(pH, m) ← unlink s elem e;
  pH ← leave_bucket pH h elem e;
  let m := delete elem m in
  let pH := set_count (u32 (count pH - 1)) pH in
  if count pH =? 0 then
    match first pH with None => sqlite3HashClear (pH, m) | Some _ => None end
  else Some (pH, m).

Definition sqlite3HashFind (s : state) (key : list Z) : option (option D) :=
  '(elem, _) ← findElementWithHash s key;
  match elem with None => Some None | Some p => e ← snd s !! p; Some (Some (data e)) end.

(** [dat = None] is a null pointer: the key is removed.  [newp] is the element
    the allocator hands out (its links are not initialised), [None] if it fails; [alloc] is for the rehash.
    The result is the new state and the pointer returned. *)
Definition sqlite3HashInsert (s : state) (key : list Z) (dat : option D)
    (newp : option positive) (alloc : option Z) : option (state * option D) :=
  '(elem, h) ← findElementWithHash s key;
  match elem with
  | Some p =>
      e ← snd s !! p;
      match dat with
      | None => s' ← removeElementGivenHash s p h; Some (s', Some (data e))
      | Some d => m ← upd p (set_data d key) (snd s); Some ((fst s, m), Some (data e))
      end
  | None =>
      match dat with
      | None => Some (s, None)
      | Some d =>
          match newp with
          | None => Some (s, Some d)
          | Some p =>
              let s := (set_count (u32 (count (fst s) + 1)) (fst s), <[p := mkElem None None d key]> (snd s)) in
              '(s, h) ←
                (if (count (fst s) >=? 10) && (count (fst s) >? u32 (2 * htsize (fst s))) then
                   '(s, b) ← rehash s (u32 (count (fst s) * 2)) alloc;
                   Some (s, if (b : bool) then Z.to_nat (strHash key mod htsize (fst s)) else h)
                 else Some (s, h));
              s ← insertElement s (match ht (fst s) with Some _ => Some h | None => None end) p;
              Some (s, None)
          end
      end
  end.

(** ** The doubly linked list *)

Definition hd_or (nx : option positive) (l : list positive) : option positive :=
  match l with [] => nx | q :: _ => Some q end.
Definition lst_or (pr : option positive) (l : list positive) : option positive :=
  match last l with Some q => Some q | None => pr end.

(** The elements [l], linked both ways between [pr] and [nx]. *)
Fixpoint dll (m : heap) (pr : option positive) (l : list positive) (nx : option positive) : Prop :=
  match l with
  | [] => True
  | p :: l' => exists e, m !! p = Some e /\ prev e = pr /\ next e = hd_or nx l' /\ dll m (Some p) l' nx
  end.

Lemma lst_or_cons pr p l : lst_or pr (p :: l) = lst_or (Some p) l.
Proof. unfold lst_or. rewrite last_cons. by destruct (last l). Qed.

Lemma hd_or_app nx a b : hd_or nx (a ++ b) = hd_or (hd_or nx b) a.
Proof. by destruct a. Qed.

Lemma dll_app m pr a b nx : dll m pr (a ++ b) nx <-> dll m pr a (hd_or nx b) /\ dll m (lst_or pr a) b nx.
Proof.
  revert pr. induction a as [|p a IH]; intros pr; simpl; [tauto|].
  rewrite lst_or_cons. setoid_rewrite IH. setoid_rewrite hd_or_app. naive_solver.
Qed.

Lemma dll_frame m m' pr l nx : (forall p, p ∈ l -> m' !! p = m !! p) -> dll m pr l nx -> dll m' pr l nx.
Proof.
  revert pr. induction l as [|p l IH]; intros pr Hm; simpl; [done|].
  intros (e & He & Hp & Hn & Hd). exists e. rewrite Hm by set_solver.
  split_and!; try done. apply IH; [set_solver|done].
Qed.

Lemma dll_lookup m pr l nx p : dll m pr l nx -> p ∈ l -> is_Some (m !! p).
Proof.
  revert pr. induction l as [|q l IH]; intros pr Hd Hp; [by apply elem_of_nil in Hp|].
  destruct Hd as (e & He & _ & _ & Hd). apply elem_of_cons in Hp as [->|Hp]; eauto.
Qed.

(** Redirecting the outgoing links of a piece. *)
Lemma dll_set_next m m' pr l r nx nx' : NoDup (l ++ [r]) -> dll m pr (l ++ [r]) nx ->
  (forall p, p ∈ l -> m' !! p = m !! p) -> m' !! r = set_next nx' <$> m !! r ->
  dll m' pr (l ++ [r]) nx'.
Proof.
  intros Hnd [H1 (e & He & Hp & Hn & _)]%dll_app Hm Hr. apply dll_app. split; [by eapply dll_frame|].
  simpl. rewrite Hr, He. exists (set_next nx' e). done.
Qed.

Lemma dll_set_prev m m' pr pr' q l nx : NoDup (q :: l) -> dll m pr (q :: l) nx ->
  (forall p, p ∈ l -> m' !! p = m !! p) -> m' !! q = set_prev pr' <$> m !! q ->
  dll m' pr' (q :: l) nx.
Proof.
  intros Hnd (e & He & Hp & Hn & Hd) Hm Hq. simpl. rewrite Hq, He. exists (set_prev pr' e).
  split_and!; try done. by eapply dll_frame.
Qed.

(** The heap after the links around the gap between [a] and [b] were redirected
    to [nx'] and [pr']. *)
Definition relinked (m m' : heap) (a b : list positive) (nx' pr' : option positive) : Prop :=
  (forall p, p ∈ a -> m' !! p = (if decide (last a = Some p) then set_next nx' <$> m !! p else m !! p)) /\
  (forall p, p ∈ b -> m' !! p = (if decide (head b = Some p) then set_prev pr' <$> m !! p else m !! p)).

Lemma dll_relink m m' a b nx nx' pr' : NoDup (a ++ b) -> relinked m m' a b nx' pr' ->
  dll m None a nx -> forall pr0, dll m pr0 b None -> dll m' None a nx' /\ dll m' pr' b None.
Proof.
  intros Hnd [Ha Hb] Hda pr0 Hdb. apply NoDup_app in Hnd as (Hna & _ & Hnb). split.
  - destruct a as [|r a' _] using rev_ind; [done|].
    eapply dll_set_next; [done|exact Hda| |].
    + intros p Hp. rewrite Ha by set_solver. rewrite last_snoc.
      destruct (decide _) as [[= ->]|]; [|done]. apply NoDup_app in Hna as (_ & Hna & _). set_solver.
    + rewrite Ha by set_solver. rewrite last_snoc. by rewrite decide_True.
  - destruct b as [|q b']; [done|]. eapply dll_set_prev; [done|exact Hdb| |].
    + intros p Hp. rewrite Hb by (by right). simpl. destruct (decide _) as [[= ->]|]; [|done].
      by apply NoDup_cons in Hnb as [Hnb _].
    + rewrite Hb by left. simpl. by rewrite decide_True.
Qed.

Lemma dll_insert m m' a b x e : NoDup (a ++ b) -> dll m None (a ++ b) None ->
  relinked m m' a b (Some x) (Some x) -> m' !! x = Some e -> next e = hd_or None b -> prev e = lst_or None a ->
  dll m' None (a ++ x :: b) None.
Proof.
  intros Hnd [Ha Hb]%dll_app Hr Hx Hn Hp.
  destruct (dll_relink _ _ _ _ _ _ _ Hnd Hr Ha _ Hb) as [Ha' Hb'].
  apply dll_app. split; [done|]. exists e. by rewrite <- Hp.
Qed.

Lemma dll_delete m m' a b x : NoDup (a ++ b) -> dll m None (a ++ x :: b) None ->
  relinked m m' a b (hd_or None b) (lst_or None a) -> dll m' None (a ++ b) None.
Proof.
  intros Hnd [Ha (e & He & Hp & Hn & Hb)]%dll_app Hr.
  destruct (dll_relink _ _ _ _ _ _ _ Hnd Hr Ha _ Hb) as [Ha' Hb'].
  by apply dll_app.
Qed.

(** Only links change. *)
Definition payload (e : HashElem) : list Z * D := (pKey e, data e).
Definition same_payload (m m' : heap) : Prop := forall p, payload <$> m' !! p = payload <$> m !! p.

Lemma same_payload_refl m : same_payload m m.
Proof. done. Qed.

Lemma same_payload_trans m1 m2 m3 : same_payload m1 m2 -> same_payload m2 m3 -> same_payload m1 m3.
Proof. intros H1 H2 p. by rewrite H2, H1. Qed.

Lemma same_payload_insert m p e e' : m !! p = Some e -> payload e' = payload e -> same_payload m (<[p := e']> m).
Proof.
  intros Hp He q. destruct (decide (p = q)) as [<-|Hn].
  - rewrite lookup_insert_eq, Hp. simpl. by rewrite He.
  - by rewrite lookup_insert_ne.
Qed.

Lemma same_payload_dom m m' p : same_payload m m' -> is_Some (m' !! p) <-> is_Some (m !! p).
Proof. intros H. specialize (H p). rewrite <- (fmap_is_Some payload (m' !! p)), H. apply fmap_is_Some. Qed.

(** The two stores around a gap, as the code does them. *)
Definition set_last_next (a : list positive) (nx : option positive) (m : heap) : heap :=
  match last a with Some r => alter (set_next nx) r m | None => m end.
Definition set_head_prev (b : list positive) (pr : option positive) (m : heap) : heap :=
  match head b with Some q => alter (set_prev pr) q m | None => m end.

Lemma upd_some p f m e : m !! p = Some e -> upd p f m = Some (<[p := f e]> m).
Proof. unfold upd. by intros ->. Qed.

Lemma upd_alter p f m : is_Some (m !! p) -> upd p f m = Some (alter f p m).
Proof.
  intros [e He]. unfold upd. rewrite He. simpl. f_equal. apply map_eq. intros q.
  destruct (decide (p = q)) as [<-|Hn].
  - by rewrite lookup_insert_eq, lookup_alter_eq, He.
  - by rewrite lookup_insert_ne, lookup_alter_ne.
Qed.

Lemma lookup_set_last_next a nx m p :
  set_last_next a nx m !! p = if decide (last a = Some p) then set_next nx <$> m !! p else m !! p.
Proof.
  unfold set_last_next. destruct (last a) as [r|]; case_decide as E; simplify_eq; try done.
  - by rewrite lookup_alter_eq.
  - by rewrite lookup_alter_ne by congruence.
Qed.

Lemma lookup_set_head_prev b pr m p :
  set_head_prev b pr m !! p = if decide (head b = Some p) then set_prev pr <$> m !! p else m !! p.
Proof.
  unfold set_head_prev. destruct (head b) as [r|]; case_decide as E; simplify_eq; try done.
  - by rewrite lookup_alter_eq.
  - by rewrite lookup_alter_ne by congruence.
Qed.

Lemma relink_payload a b nx pr m : same_payload m (set_head_prev b pr (set_last_next a nx m)).
Proof.
  intros p. rewrite lookup_set_head_prev, lookup_set_last_next.
  by repeat case_decide; destruct (m !! p).
Qed.

Lemma last_elem (a : list positive) p : last a = Some p -> p ∈ a.
Proof. intros H. apply last_Some in H as [l ->]. set_solver. Qed.
Lemma head_elem (b : list positive) p : head b = Some p -> p ∈ b.
Proof. destruct b; intros [= ->]. set_solver. Qed.

Lemma relink_frame a b nx pr m p : p ∉ a ++ b -> set_head_prev b pr (set_last_next a nx m) !! p = m !! p.
Proof.
  intros Hp. rewrite lookup_set_head_prev, lookup_set_last_next.
  rewrite decide_False by (intros ?%head_elem; set_solver).
  by rewrite decide_False by (intros ?%last_elem; set_solver).
Qed.

Lemma relink_relinked a b nx pr m m0 : NoDup (a ++ b) -> (forall p, p ∈ a ++ b -> m !! p = m0 !! p) ->
  relinked m0 (set_head_prev b pr (set_last_next a nx m)) a b nx pr.
Proof.
  intros (_ & Hd & _)%NoDup_app Hm. split; intros p Hp; rewrite lookup_set_head_prev, lookup_set_last_next.
  - rewrite (decide_False (P := head b = Some p)) by (intros ?%head_elem; set_solver).
    by rewrite Hm by set_solver.
  - rewrite (decide_False (P := last a = Some p)) by (intros ?%last_elem; set_solver).
    by rewrite Hm by set_solver.
Qed.

(** Both ways of linking a new element do the same relinking. *)
Definition linked (m : heap) (a b : list positive) (x : positive) (ex : HashElem) : heap :=
  set_head_prev b (Some x) (set_last_next a (Some x)
    (<[x := set_prev (lst_or None a) (set_next (hd_or None b) ex)]> m)).

Lemma linked_spec m a b x ex : NoDup (a ++ b) -> x ∉ a ++ b -> dll m None (a ++ b) None -> m !! x = Some ex ->
  dll (linked m a b x ex) None (a ++ x :: b) None /\ same_payload m (linked m a b x ex) /\
  (forall p, p ∉ a ++ x :: b -> linked m a b x ex !! p = m !! p).
Proof.
  intros Hnd Hx Hd Hex. unfold linked. split_and!.
  - eapply dll_insert; [done|done| |by rewrite relink_frame, lookup_insert_eq|done|done].
    apply relink_relinked; [done|]. intros p Hp. rewrite lookup_insert_ne; [done|set_solver].
  - eapply same_payload_trans; [eapply same_payload_insert; [exact Hex|]|apply relink_payload]. done.
  - intros p Hp. rewrite relink_frame, lookup_insert_ne by set_solver. done.
Qed.

Lemma dll_prev m a q b : dll m None (a ++ q :: b) None ->
  exists e, m !! q = Some e /\ prev e = lst_or None a /\ next e = hd_or None b.
Proof. intros [_ (e & He & Hp & Hn & _)]%dll_app. by exists e. Qed.

Lemma link_before_spec pH m a q b x ex : NoDup (a ++ q :: b) -> x ∉ a ++ q :: b ->
  dll m None (a ++ q :: b) None -> m !! x = Some ex -> first pH = hd_or None (a ++ q :: b) ->
  link_before (pH, m) q x = Some (set_first (hd_or None (a ++ x :: q :: b)) pH, linked m a (q :: b) x ex).
Proof.
  intros Hnd Hx Hd Hex Hf. destruct (dll_prev _ _ _ _ Hd) as (eq & Heq & Hpq & _).
  assert (q <> x) as Hqx by set_solver. unfold link_before. rewrite Heq. simpl. rewrite Hpq.
  rewrite (upd_some _ _ _ _ Hex). simpl. unfold linked, set_last_next, lst_or. simpl hd_or.
  destruct a as [|r a _] using rev_ind; simpl.
  - rewrite upd_alter by (by rewrite lookup_insert_ne, Heq). done.
  - rewrite last_snoc. pose proof Hd as [[_ (er & Her & _)]%dll_app _]%dll_app.
    assert (r <> x) as Hrx by set_solver.
    rewrite upd_alter by (by rewrite lookup_insert_ne, Her). simpl.
    rewrite upd_alter.
    + simpl. do 2 f_equal. destruct pH. unfold set_first. simpl in *. rewrite Hf. by destruct a.
    + rewrite lookup_alter_ne, lookup_insert_ne by (done || (apply NoDup_app in Hnd as (_ & Hn & _); set_solver)).
      by rewrite Heq.
Qed.

Lemma link_first_spec pH m l x ex : x ∉ l -> dll m None l None -> m !! x = Some ex -> first pH = hd_or None l ->
  link_first (pH, m) x = Some (set_first (Some x) pH, linked m [] l x ex).
Proof.
  intros Hx Hd Hex Hf. unfold link_first, linked, set_last_next, set_head_prev. rewrite Hf.
  rewrite (upd_some _ _ _ _ Hex). simpl. destruct l as [|f l]; simpl.
  - unfold upd. rewrite lookup_insert_eq. simpl. by rewrite insert_insert_eq.
  - destruct Hd as (e & He & _). assert (f <> x) as Hfx by set_solver.
    rewrite upd_alter by (by rewrite lookup_insert_ne, He). simpl.
    unfold upd. rewrite lookup_alter_ne, lookup_insert_eq by done. simpl. do 2 f_equal.
    apply map_eq. intros p. destruct (decide (p = x)) as [->|Hpx].
    + by rewrite lookup_insert_eq, lookup_alter_ne, lookup_insert_eq.
    + rewrite lookup_insert_ne by done. destruct (decide (p = f)) as [->|Hpf].
      * by rewrite !lookup_alter_eq, !lookup_insert_ne.
      * by rewrite !lookup_alter_ne, !lookup_insert_ne.
Qed.

Lemma unlink_spec pH m a x b e : NoDup (a ++ x :: b) -> dll m None (a ++ x :: b) None -> m !! x = Some e ->
  first pH = hd_or None (a ++ x :: b) ->
  unlink (pH, m) x e = Some (set_first (hd_or None (a ++ b)) pH,
    set_head_prev b (lst_or None a) (set_last_next a (hd_or None b) m)).
Proof.
  intros Hnd Hd He Hf. destruct (dll_prev _ _ _ _ Hd) as (e' & He' & Hp & Hn).
  rewrite He in He'. injection He' as <-. unfold unlink. rewrite Hp, Hn.
  pose proof Hd as [Ha Hb]%dll_app. destruct Hb as (? & _ & _ & _ & Hb).
  assert (forall m', (forall p, is_Some (m !! p) -> is_Some (m' !! p)) ->
    match hd_or None b with Some n => upd n (set_prev (lst_or None a)) m' | None => Some m' end =
    Some (set_head_prev b (lst_or None a) m')) as Hstep.
  { intros m' Hm'. unfold set_head_prev. destruct b as [|n b]; [done|]. simpl.
    apply upd_alter, Hm'. destruct Hb as (? & -> & _). done. }
  unfold set_last_next, lst_or in *. destruct a as [|r a _] using rev_ind; simpl.
  - by rewrite Hstep.
  - rewrite last_snoc in *. apply dll_app in Ha as [_ (er & Her & _)].
    rewrite upd_alter by (by rewrite Her). simpl. rewrite Hstep; simpl.
    + do 2 f_equal. destruct pH. unfold set_first. simpl in *. rewrite Hf. by destruct a.
    + intros p [ep Hep]. destruct (decide (p = r)) as [->|]; [|by rewrite lookup_alter_ne, Hep].
      by rewrite lookup_alter_eq, Hep.
Qed.

(** ** Segments: the list is one run of elements per bucket *)

Abbreviation segs := (list (nat * list positive)).

Definition flat (S : segs) : list positive := concat (S.*2).

Fixpoint segof (j : nat) (S : segs) : list positive :=
  match S with
  | [] => []
  | (k, l) :: rest => if decide (k = j) then l else segof j rest
  end.

Definition good (S : segs) : Prop := NoDup (S.*1) /\ Forall (fun s => s.2 <> []) S.

Lemma good_nil : good [].
Proof. split; [apply NoDup_nil_2|constructor]. Qed.

Lemma flat_app S1 S2 : flat (S1 ++ S2) = flat S1 ++ flat S2.
Proof. unfold flat. by rewrite fmap_app, concat_app. Qed.

Lemma segof_notin j S : j ∉ S.*1 -> segof j S = [].
Proof.
  induction S as [|[k l] S IH]; simpl; [done|]. intros [H1 H2]%not_elem_of_cons.
  rewrite decide_False by congruence. auto.
Qed.

Lemma segof_app j S1 S2 : j ∉ S1.*1 -> segof j (S1 ++ S2) = segof j S2.
Proof.
  induction S1 as [|[k l] S1 IH]; simpl; [done|]. intros [H1 H2]%not_elem_of_cons.
  rewrite decide_False by congruence. auto.
Qed.

Lemma segof_app_in j S1 S2 : j ∈ S1.*1 -> segof j (S1 ++ S2) = segof j S1.
Proof.
  induction S1 as [|[k l] S1 IH]; simpl; [by intros ?%elem_of_nil|]. intros [->|H]%elem_of_cons.
  - by rewrite !decide_True.
  - case_decide; [done|]. auto.
Qed.

Lemma good_split j S : good S -> segof j S = [] /\ j ∉ S.*1 \/
  exists S1 S2, S = S1 ++ (j, segof j S) :: S2 /\ j ∉ S1.*1 /\ j ∉ S2.*1 /\ segof j S <> [].
Proof.
  intros [Hk Hn]. destruct (decide (j ∈ S.*1)) as [Hj|Hj]; [right|left; split; [by apply segof_notin|done]].
  apply list_elem_of_fmap in Hj as ([k l] & -> & Hj). apply list_elem_of_split in Hj as (S1 & S2 & ->).
  rewrite fmap_app in Hk. apply NoDup_app in Hk as (_ & Hd & [Hk _]%NoDup_cons).
  assert (k ∉ S1.*1) as H1 by (intros H; apply (Hd _ H); left).
  exists S1, S2. simpl. rewrite segof_app by done. simpl. rewrite decide_True by done.
  split_and!; try done. rewrite Forall_app, Forall_cons in Hn. apply Hn.
Qed.

(** The part of a list before and after position [j] sees other indices unchanged. *)
Lemma segof_middle k j l S1 S2 : k <> j -> segof k (S1 ++ (j, l) :: S2) = segof k (S1 ++ S2).
Proof.
  intros Hk. destruct (decide (k ∈ S1.*1)) as [H|H].
  - by rewrite !segof_app_in.
  - rewrite !segof_app by done. simpl. by rewrite decide_False by congruence.
Qed.

Lemma good_middle j l l' S1 S2 : l' <> [] -> good (S1 ++ (j, l) :: S2) -> good (S1 ++ (j, l') :: S2).
Proof.
  intros Hl [Hk Hn]. split.
  - by rewrite fmap_app in *.
  - rewrite Forall_app, Forall_cons in *. naive_solver.
Qed.

Lemma good_remove j l S1 S2 : good (S1 ++ (j, l) :: S2) -> good (S1 ++ S2).
Proof.
  intros [Hk Hn]. split.
  - rewrite fmap_app in *. simpl in Hk. apply NoDup_app in Hk as (H1 & H2 & [H3 H4]%NoDup_cons).
    apply NoDup_app. split_and!; set_solver.
  - rewrite Forall_app, Forall_cons in *. naive_solver.
Qed.

Lemma seg_insert j x S : good S -> exists S' a b, good S' /\ flat S = a ++ b /\ flat S' = a ++ x :: b /\
  match segof j S with [] => a = [] | q :: _ => hd_or None b = Some q end /\
  (forall k, segof k S' = if decide (k = j) then x :: segof j S else segof k S).
Proof.
  intros Hg. destruct (good_split j S Hg) as [[E Hj]|(S1 & S2 & E & H1 & H2 & Hne)].
  - exists ((j, [x]) :: S), [], (flat S). rewrite E. split_and!; try done.
    + destruct Hg as [Hk Hn]. split; [by apply NoDup_cons|by constructor].
    + intros k. simpl. destruct (decide (j = k)), (decide (k = j)); congruence.
  - set (l := segof j S) in *. exists (S1 ++ (j, x :: l) :: S2), (flat S1), (l ++ flat S2).
    rewrite E at 1. rewrite !flat_app. split_and!; try done.
    + apply (good_middle j l); [done|]. by rewrite <- E.
    + by destruct l.
    + intros k. destruct (decide (k = j)) as [->|Hk].
      * rewrite segof_app by done. simpl. by rewrite decide_True.
      * rewrite E, !segof_middle by done. done.
Qed.

Lemma seg_delete j x S : good S -> x ∈ segof j S -> exists S' a b l1 l2, good S' /\
  flat S = a ++ x :: b /\ flat S' = a ++ b /\ segof j S = l1 ++ x :: l2 /\
  (forall k, segof k S' = if decide (k = j) then l1 ++ l2 else segof k S) /\
  (l2 <> [] -> hd_or None b = head l2).
Proof.
  intros Hg Hx. destruct (good_split j S Hg) as [[E _]|(S1 & S2 & E & H1 & H2 & Hne)].
  { rewrite E in Hx. by apply elem_of_nil in Hx. }
  set (l := segof j S) in *.
  apply list_elem_of_split in Hx as (l1 & l2 & El).
  destruct (decide (l1 ++ l2 = [])) as [En|En].
  - exists (S1 ++ S2), (flat S1), (flat S2), l1, l2. apply app_eq_nil in En as [-> ->].
    rewrite E at 1. rewrite !flat_app, El. split_and!; try done.
    + eapply good_remove. by rewrite <- E.
    + intros k. destruct (decide (k = j)) as [->|Hk].
      * by rewrite segof_app, segof_notin.
      * by rewrite E, segof_middle.
  - exists (S1 ++ (j, l1 ++ l2) :: S2), (flat S1 ++ l1), (l2 ++ flat S2), l1, l2.
    rewrite E at 1. rewrite !flat_app, El. unfold flat. simpl. rewrite <- !app_assoc. split_and!; try done.
    + apply (good_middle j l); [done|]. by rewrite <- E.
    + intros k. destruct (decide (k = j)) as [->|Hk].
      * rewrite segof_app by done. simpl. by rewrite decide_True.
      * by rewrite E, !segof_middle.
    + by destruct l2.
Qed.

Lemma seg_flat j S : good S -> exists a b, flat S = a ++ segof j S ++ b.
Proof.
  intros Hg. destruct (good_split j S Hg) as [[E _]|(S1 & S2 & E & _)].
  - exists [], (flat S). by rewrite E.
  - exists (flat S1), (flat S2). rewrite E at 1. by rewrite flat_app.
Qed.

Lemma elem_of_flat p S : good S -> p ∈ flat S -> exists j, p ∈ segof j S.
Proof.
  intros [Hk _] Hp. unfold flat in Hp. apply list_elem_of_In, in_concat in Hp as (l & Hl & Hp%list_elem_of_In).
  apply list_elem_of_In, list_elem_of_fmap in Hl as ([j l'] & -> & Hl). exists j.
  apply list_elem_of_split in Hl as (S1 & S2 & ->). rewrite fmap_app in Hk.
  apply NoDup_app in Hk as (_ & Hd & _). rewrite segof_app; [simpl; by rewrite decide_True|].
  intros H. apply (Hd _ H). left.
Qed.

(** ** The structural invariant *)

(** The bucket of a key; without a bucket array the whole list is one bucket. *)
Definition hidx (h : Hash) (k : list Z) : nat :=
  match ht h with Some _ => Z.to_nat (strHash k mod htsize h) | None => 0%nat end.

Definition buckets_ok (h : Hash) (S : segs) : Prop :=
  match ht h with
  | None => True
  | Some bs => 0 < htsize h /\ Z.of_nat (length bs) = htsize h /\
      forall j b, bs !! j = Some b ->
        b_count b = Z.of_nat (length (segof j S)) /\ (segof j S <> [] -> chain b = head (segof j S))
  end.

Record WF (h : Hash) (m : heap) (S : segs) : Prop := {
  wf_good : good S;
  wf_nodup : NoDup (flat S);
  wf_dll : dll m None (flat S) None;
  wf_first : first h = hd_or None (flat S);
  wf_hash : forall j p e, p ∈ segof j S -> m !! p = Some e -> hidx h (pKey e) = j;
  wf_ht : buckets_ok h S;
}.

Lemma hidx_lt h S bs k : buckets_ok h S -> ht h = Some bs -> is_Some (bs !! hidx h k).
Proof.
  unfold buckets_ok, hidx. intros H E. rewrite E in *. destruct H as (H1 & H2 & _).
  apply lookup_lt_is_Some. pose proof (Z.mod_pos_bound (strHash k) (htsize h) H1). lia.
Qed.

Lemma segof_zero h m S j : WF h m S -> ht h = None -> j <> 0%nat -> segof j S = [].
Proof.
  intros W E Hj. destruct (segof j S) as [|p l] eqn:Es; [done|]. exfalso.
  destruct (seg_flat j S (wf_good _ _ _ W)) as (a & b & Ef).
  destruct (dll_lookup _ _ _ _ p (wf_dll _ _ _ W)) as [e He].
  { rewrite Ef, Es. set_solver. }
  pose proof (wf_hash _ _ _ W j p e ltac:(rewrite Es; left) He) as H. unfold hidx in H. rewrite E in H. congruence.
Qed.

Lemma flat_zero h m S : WF h m S -> ht h = None -> flat S = segof 0 S.
Proof.
  intros W E. destruct (wf_good _ _ _ W) as [Hk Hn]. destruct S as [|[j l] S']; [done|].
  assert (forall k l', (k, l') ∈ (j, l) :: S' -> k = 0%nat) as Hz.
  { intros k l' Hin. destruct (decide (k = 0%nat)) as [|Hk0]; [done|].
    pose proof (segof_zero _ _ _ k W E Hk0) as Hs. exfalso.
    destruct (good_split k _ (wf_good _ _ _ W)) as [[_ Hni]|(S1 & S2 & _ & _ & _ & Hne)]; [|done].
    apply Hni. apply list_elem_of_fmap. by exists (k, l'). }
  pose proof (Hz j l ltac:(left)) as ->. destruct S' as [|[k l'] S'].
  - unfold flat. simpl. by rewrite app_nil_r.
  - pose proof (Hz k l' ltac:(by right; left)) as ->. apply NoDup_cons in Hk as [Hk _]. exfalso. apply Hk. left.
Qed.

(** What an operation on the list leaves alone: sizes, mode and payloads. *)
Definition same_shape (h h' : Hash) : Prop :=
  htsize h' = htsize h /\ count h' = count h /\ (ht h' = None <-> ht h = None).

Lemma hidx_shape h h' k : same_shape h h' -> hidx h' k = hidx h k.
Proof. intros (H1 & _ & H2). unfold hidx. rewrite H1. destruct (ht h), (ht h'); naive_solver. Qed.

Definition entry_of (h : Hash) (k : list Z) : option nat :=
  match ht h with Some _ => Some (hidx h k) | None => None end.

(** Entering a bucket yields the head of its segment. *)
Lemma enter_bucket_spec h m S x k : WF h m S -> Z.of_nat (length (flat S)) + 1 < 2 ^ 32 ->
  exists h', enter_bucket h (entry_of h k) x = Some (h', match ht h with Some _ => head (segof (hidx h k) S) | None => None end) /\
    same_shape h h' /\ first h' = first h /\
    forall S', (forall j, segof j S' = if decide (j = hidx h k) then x :: segof j S else segof j S) -> buckets_ok h' S'.
Proof.
  intros W Hb. unfold enter_bucket, entry_of. destruct (ht h) as [bs|] eqn:E.
  - pose proof (wf_ht _ _ _ W) as Hok. destruct (hidx_lt h S bs k Hok E) as [b Eb].
    simpl. rewrite Eb. simpl. unfold buckets_ok in Hok. rewrite E in Hok. destruct Hok as (Hp & Hl & Hbk).
    destruct (Hbk _ _ Eb) as [Hc Hch].
    assert (Z.of_nat (length (segof (hidx h k) S)) <= Z.of_nat (length (flat S))).
    { destruct (seg_flat (hidx h k) S (wf_good _ _ _ W)) as (a & b' & ->). rewrite !length_app. lia. }
    eexists. split; [f_equal; f_equal|].
    { destruct (segof (hidx h k) S) as [|q l]; [by rewrite Hc|]. rewrite (Hch ltac:(done)).
      destruct (Z.eqb_spec (b_count b) 0); [simpl in *; lia|done]. }
    split; [by repeat split; simpl; rewrite E|]. split; [done|]. intros S' HS'.
    unfold buckets_ok. simpl. split; [done|]. split; [by rewrite length_insert|].
    intros j b' Hb'. rewrite HS'. destruct (decide (j = hidx h k)) as [->|Hj].
    + rewrite list_lookup_insert_eq in Hb' by (by apply lookup_lt_Some in Eb). injection Hb' as <-. simpl.
      rewrite Hc, wrapu_id by solve_width. split; [lia|done].
    + rewrite list_lookup_insert_ne in Hb' by congruence. auto.
  - exists h. split_and!; [done|by repeat split|done|]. intros S' _. unfold buckets_ok. by rewrite E.
Qed.

Lemma insertElement_spec h m S x ex : WF h m S -> Z.of_nat (length (flat S)) + 1 < 2 ^ 32 ->
  x ∉ flat S -> m !! x = Some ex ->
  exists h' m' S', insertElement (h, m) (entry_of h (pKey ex)) x = Some (h', m') /\ WF h' m' S' /\
    same_shape h h' /\ same_payload m m' /\ flat S' ≡ₚ x :: flat S /\
    (forall p, p ∉ flat S' -> m' !! p = m !! p).
Proof.
  intros W Hb Hx Hex.
  destruct (enter_bucket_spec h m S x (pKey ex) W Hb) as (h1 & Ee & Hsh & Hf & Hbk).
  destruct (seg_insert (hidx h (pKey ex)) x S (wf_good _ _ _ W)) as (S' & a & b & Hg & E1 & E2 & Hhd & Hseg).
  pose proof (wf_nodup _ _ _ W) as Hnd. pose proof (wf_dll _ _ _ W) as Hdll. pose proof (wf_first _ _ _ W) as Hfst.
  rewrite E1 in Hnd, Hdll, Hfst, Hx. destruct (linked_spec m a b x ex Hnd Hx Hdll Hex) as (Hd' & Hp' & Hfr).
  assert (insertElement (h, m) (entry_of h (pKey ex)) x = Some (set_first (hd_or None (flat S')) h1, linked m a b x ex)) as Ei.
  { unfold insertElement. simpl fst. rewrite Ee, E2. simpl.
    assert (match ht h with Some _ => head (segof (hidx h (pKey ex)) S) | None => None end = None -> a = []) as Ha.
    { destruct (ht h) as [bs|] eqn:Eht.
      - by destruct (segof (hidx h (pKey ex)) S).
      - intros _. pose proof (flat_zero _ _ _ W Eht) as Ez. unfold hidx in Hhd. rewrite Eht in Hhd.
        destruct (segof 0 S) as [|q l]; [done|]. rewrite E1 in Ez. destruct a as [|y a]; [done|].
        destruct b as [|q' b]; [done|]. injection Hhd as ->. injection Ez as -> _.
        apply NoDup_cons in Hnd as [Hnd _]. exfalso. apply Hnd. set_solver. }
    destruct (match ht h with Some _ => head (segof (hidx h (pKey ex)) S) | None => None end) as [q|] eqn:Eq.
    - destruct (ht h) as [bs|]; [|done]. destruct (segof (hidx h (pKey ex)) S) as [|q' l]; [done|]. injection Eq as ->.
      destruct b as [|q2 b]; [done|]. injection Hhd as ->. apply link_before_spec; try done. by rewrite Hf.
    - rewrite (Ha eq_refl) in *. simpl. apply link_first_spec; try done. by rewrite Hf. }
  exists (set_first (hd_or None (flat S')) h1), (linked m a b x ex), S'. split; [done|].
  assert (same_shape h (set_first (hd_or None (flat S')) h1)) as Hsh' by done.
  split; [|split_and!; [done|done|rewrite E1, E2; by rewrite Permutation_middle|rewrite E2; done]].
  constructor.
  - done.
  - rewrite E2. apply NoDup_app in Hnd as (? & ? & ?). apply NoDup_app. rewrite NoDup_cons. set_solver.
  - by rewrite E2.
  - done.
  - intros j p e Hp He. rewrite (hidx_shape h) by done. pose proof (Hp' p) as Hpay. rewrite He in Hpay.
    rewrite Hseg in Hp. destruct (m !! p) as [e0|] eqn:E0; [|done]. injection Hpay as Hk _. rewrite Hk.
    destruct (decide (j = hidx h (pKey ex))) as [->|Hj].
    + apply elem_of_cons in Hp as [->|Hp]; [by rewrite Hex in E0; injection E0 as <-|by eapply wf_hash].
    + by eapply wf_hash.
  - apply Hbk. intros j. rewrite Hseg. by destruct (decide (j = _)) as [->|].
Qed.

(** ** Searching *)

Definition key_at (m : heap) (p : positive) (k : list Z) : Prop :=
  exists e, m !! p = Some e /\ fold_case (pKey e) = fold_case k.

Definition keys_ok (m : heap) : Prop := forall p e, m !! p = Some e -> cstring (pKey e).

Lemma strHash_fold a b : fold_case a = fold_case b -> strHash a = strHash b.
Proof.
  unfold strHash. generalize 0. revert b. induction a as [|x a IH]; intros [|y b] h H; try done.
  injection H as E H. simpl. rewrite E. by apply IH.
Qed.

Lemma hidx_fold h a b : fold_case a = fold_case b -> hidx h a = hidx h b.
Proof. intros H. unfold hidx. by rewrite (strHash_fold a b H). Qed.

Lemma stricmp_zero a b : cstring a -> cstring b -> (sqlite3StrICmp a b =? 0) = bool_decide (fold_case a = fold_case b).
Proof.
  intros Ha Hb. pose proof (stricmp_lex a b Ha Hb) as H. destruct (Z.eqb_spec (sqlite3StrICmp a b) 0) as [E|E].
  - rewrite E in H. symmetry in H. simpl in H. apply lexcmp_eq in H. by rewrite bool_decide_true.
  - rewrite bool_decide_false; [done|]. intros F. apply E. apply Z.compare_eq_iff. rewrite H. by apply lexcmp_eq.
Qed.

(** The scan of [length l] elements finds the first matching one of [l]. *)
Lemma find_loop_spec m key pr l b nx : keys_ok m -> cstring key -> dll m pr (l ++ b) nx ->
  exists r, find_loop m key (length l) (hd_or nx (l ++ b)) = Some r /\
    match r with
    | Some p => p ∈ l /\ key_at m p key
    | None => forall p, p ∈ l -> ~ key_at m p key
    end.
Proof.
  intros Hk Hc. revert pr. induction l as [|p l IH]; intros pr Hd.
  { exists None. split; [done|]. intros p Hp. by apply elem_of_nil in Hp. }
  destruct Hd as (e & He & _ & Hn & Hd). simpl. rewrite He. simpl.
  rewrite stricmp_zero by (done || by eapply Hk). case_bool_decide as Ek.
  - exists (Some p). split; [done|]. split; [left|by exists e].
  - rewrite Hn. destruct (IH _ Hd) as (r & -> & Hr). exists r. split; [done|]. destruct r as [q|].
    + destruct Hr. split; [by right|done].
    + intros q [->|Hq]%elem_of_cons; [|by apply Hr]. intros (e' & He' & Ek'). congruence.
Qed.

Lemma elem_segof h m S p e : WF h m S -> p ∈ flat S -> m !! p = Some e -> p ∈ segof (hidx h (pKey e)) S.
Proof.
  intros W Hp He. destruct (elem_of_flat _ _ (wf_good _ _ _ W) Hp) as [j Hj].
  by rewrite (wf_hash _ _ _ W _ _ _ Hj He).
Qed.

Lemma find_spec h m S key : WF h m S -> count h = Z.of_nat (length (flat S)) -> keys_ok m -> cstring key ->
  exists r, findElementWithHash (h, m) key = Some (r, hidx h key) /\
    match r with
    | Some p => p ∈ segof (hidx h key) S /\ key_at m p key
    | None => forall p, p ∈ flat S -> ~ key_at m p key
    end.
Proof.
  intros W Hcount Hk Hc.
  assert (forall p, p ∈ flat S -> key_at m p key -> p ∈ segof (hidx h key) S) as Hin.
  { intros p Hp (e & He & Ef). rewrite <- (hidx_fold h _ _ Ef). by eapply elem_segof. }
  destruct (seg_flat (hidx h key) S (wf_good _ _ _ W)) as (a & b & Ef).
  assert (exists r, find_loop m key (length (segof (hidx h key) S)) (hd_or None (segof (hidx h key) S ++ b)) = Some r /\
    match r with
    | Some p => p ∈ segof (hidx h key) S /\ key_at m p key
    | None => forall p, p ∈ flat S -> ~ key_at m p key
    end) as (r & Hr & Hspec).
  { pose proof (wf_dll _ _ _ W) as Hd. rewrite Ef in Hd. apply dll_app in Hd as [_ Hd].
    destruct (find_loop_spec m key _ _ _ _ Hk Hc Hd) as (r & Hr & Hs). exists r. split; [done|].
    destruct r; [done|]. intros p Hp Hkey. by apply (Hs p); auto. }
  exists r. split; [|done]. unfold findElementWithHash. destruct (ht h) as [bs|] eqn:E.
  - destruct (hidx_lt h S bs key (wf_ht _ _ _ W) E) as [bk Eb].
    pose proof (wf_ht _ _ _ W) as Hok. unfold buckets_ok in Hok. rewrite E in Hok. destruct Hok as (_ & _ & Hbk).
    destruct (Hbk _ _ Eb) as [Hbc Hch]. unfold hidx in *. rewrite E in *. rewrite Eb. simpl. rewrite Hbc, Nat2Z.id.
    destruct (segof _ S) as [|q l]; [simpl in *; by simplify_eq|]. rewrite (Hch ltac:(done)).
    cbn [length app hd_or head] in *. by rewrite Hr.
  - pose proof (flat_zero _ _ _ W E) as Ez. unfold hidx in *. rewrite E in *.
    rewrite Hcount, Nat2Z.id, (wf_first _ _ _ W), Ez.
    rewrite Ez in Ef. assert (a = [] /\ b = []) as [-> ->].
    { apply (f_equal length) in Ef. rewrite !length_app in Ef. split; apply length_zero_iff_nil; lia. }
    rewrite app_nil_r in Hr. by rewrite Hr.
Qed.

(** ** Rehashing *)

(** The remaining elements, by their [next] pointers alone. *)
Fixpoint nexts (m : heap) (p : option positive) (R : list positive) : Prop :=
  match R with
  | [] => p = None
  | q :: R' => p = Some q /\ exists e, m !! q = Some e /\ nexts m (next e) R'
  end.

Lemma dll_nexts m pr l : dll m pr l None -> nexts m (hd_or None l) l.
Proof.
  revert pr. induction l as [|p l IH]; intros pr; simpl; [done|].
  intros (e & He & _ & Hn & Hd). split; [done|]. exists e. rewrite Hn. eauto.
Qed.

Lemma nexts_frame m m' p R : (forall q, q ∈ R -> m' !! q = m !! q) -> nexts m p R -> nexts m' p R.
Proof.
  revert p. induction R as [|q R IH]; intros p Hm; simpl; [done|]. intros (-> & e & He & Hn).
  split; [done|]. exists e. rewrite Hm by left. split; [done|]. apply IH; [|done]. intros r Hr. apply Hm. by right.
Qed.

Lemma rehash_loop_spec fuel R p h m S : WF h m S -> is_Some (ht h) -> nexts m p R -> NoDup (R ++ flat S) ->
  (length R < fuel)%nat -> Z.of_nat (length (R ++ flat S)) + 1 < 2 ^ 32 ->
  exists h' m' S', rehash_loop fuel p (h, m) = Some (h', m') /\ WF h' m' S' /\ same_shape h h' /\
    same_payload m m' /\ flat S' ≡ₚ R ++ flat S /\ (forall q, q ∉ flat S' -> m' !! q = m !! q).
Proof.
  revert R p h m S. induction fuel as [|fuel IH]; intros R p h m S W Hht Hn Hnd Hl Hb; [lia|].
  destruct R as [|q R]; simpl in Hn.
  { subst p. exists h, m, S. split_and!; try done. }
  destruct Hn as (-> & e & He & Hn). simpl. rewrite He. simpl.
  apply NoDup_cons in Hnd as [Hq Hnd]. simpl in Hl, Hb. rewrite length_app in Hb.
  destruct (insertElement_spec h m S q e W) as (h1 & m1 & S1 & Ei & W1 & Hs1 & Hp1 & Hf1 & Hfr1);
    [lia|set_solver|done|].
  unfold entry_of, hidx in Ei. destruct Hht as [bs Ebs]. rewrite Ebs in Ei. rewrite Ei. simpl.
  destruct (IH R (next e) h1 m1 S1) as (h2 & m2 & S2 & Er & W2 & Hs2 & Hp2 & Hf2 & Hfr2).
  - done.
  - destruct Hs1 as (_ & _ & Hs1). destruct (ht h1); [done|]. exfalso. rewrite (proj1 Hs1 eq_refl) in Ebs. done.
  - apply (nexts_frame m); [|done]. intros r Hr. apply Hfr1. rewrite Hf1.
    apply NoDup_app in Hnd as (_ & Hd & _). specialize (Hd r Hr). set_solver.
  - rewrite Hf1. rewrite <- Permutation_middle. by apply NoDup_cons.
  - lia.
  - rewrite length_app, Hf1. simpl. lia.
  - exists h2, m2, S2. split; [done|]. split; [done|]. split.
    { destruct Hs1 as (? & ? & ?), Hs2 as (? & ? & ?). repeat split; try congruence; naive_solver. }
    split; [by eapply same_payload_trans|].
    assert (flat S2 ≡ₚ q :: R ++ flat S) as Hperm.
    { rewrite Hf2, Hf1. symmetry. apply Permutation_middle. }
    split; [done|]. intros r Hr. rewrite Hfr2 by done. apply Hfr1. rewrite Hf1.
    rewrite Hperm in Hr. set_solver.
Qed.

Lemma length_le_size (m : heap) l : NoDup l -> (forall p, p ∈ l -> is_Some (m !! p)) -> (length l <= size m)%nat.
Proof.
  intros Hnd Hin. rewrite <- size_dom. rewrite <- (size_list_to_set (C := gset positive)) by done.
  apply subseteq_size. intros p Hp. apply elem_of_list_to_set in Hp. by apply elem_of_dom, Hin.
Qed.

Lemma WF_frame h h' m m' S : WF h m S -> (forall q, q ∈ flat S -> m' !! q = m !! q) ->
  ht h' = ht h -> htsize h' = htsize h -> first h' = first h -> WF h' m' S.
Proof.
  intros W Hm E1 E2 E3. assert (forall k, hidx h' k = hidx h k) as Hi by (intros k; unfold hidx; by rewrite E1, E2).
  constructor.
  - apply W.
  - apply W.
  - eapply dll_frame; [done|apply W].
  - rewrite E3. apply W.
  - intros j p e Hp He. rewrite Hi. eapply wf_hash; [done|done|]. rewrite <- Hm; [done|].
    destruct (seg_flat j S (wf_good _ _ _ W)) as (a & b & ->). set_solver.
  - unfold buckets_ok. rewrite E1, E2. apply W.
Qed.

Definition alloc_ok (alloc : option Z) : Prop := match alloc with Some n => 0 < n | None => True end.

Lemma rehash_spec h m S size alloc : WF h m S -> alloc_ok alloc -> Z.of_nat (length (flat S)) + 1 < 2 ^ 32 ->
  exists h' m' S' b, rehash (h, m) size alloc = Some ((h', m'), b) /\ WF h' m' S' /\ flat S' ≡ₚ flat S /\
    same_payload m m' /\ count h' = count h /\ (forall q, q ∉ flat S -> m' !! q = m !! q) /\
    (if (b : bool) then is_Some (ht h') else h' = h).
Proof.
  intros W Ha Hb. unfold rehash. assert (forall s, s = (h, m) -> exists h' m' S' b, Some (s, false) = Some ((h', m'), b) /\
    WF h' m' S' /\ flat S' ≡ₚ flat S /\ same_payload m m' /\ count h' = count h /\
    (forall q, q ∉ flat S -> m' !! q = m !! q) /\ (if (b : bool) then is_Some (ht h') else h' = h)) as Hno.
  { intros s ->. by exists h, m, S, false. }
  cbv zeta. case_match; [by apply Hno|]. destruct alloc as [n|]; [|by apply Hno]. simpl in Ha.
  set (h0 := mkHash n (count h) None (Some (replicate (Z.to_nat n) (mkBucket 0 None)))).
  assert (WF h0 m []) as W0.
  { constructor; simpl; try done; [apply good_nil|by constructor|by intros ??? ?%elem_of_nil|].
    unfold buckets_ok. simpl. rewrite length_replicate. split; [done|]. split; [lia|].
    intros j b [-> _]%lookup_replicate. done. }
  pose proof (dll_nexts _ _ _ (wf_dll _ _ _ W)) as Hn. rewrite <- (wf_first _ _ _ W) in Hn.
  destruct (rehash_loop_spec (Datatypes.S (base.size m)) (flat S) (first h) h0 m []) as (h' & m' & S' & Er & W' & Hs & Hp & Hperm & Hfr).
  - done.
  - by eexists.
  - done.
  - rewrite app_nil_r. apply W.
  - pose proof (length_le_size m (flat S) (wf_nodup _ _ _ W) (fun p => dll_lookup _ _ _ _ p (wf_dll _ _ _ W))). lia.
  - by rewrite app_nil_r.
  - rewrite app_nil_r in Hperm. exists h', m', S', true. rewrite Er. simpl. split; [done|]. split_and!; try done.
    + apply Hs.
    + intros q Hq. apply Hfr. by rewrite Hperm.
    + destruct Hs as (_ & _ & Hs). destruct (ht h'); [by eexists|]. by destruct (proj1 Hs eq_refl).
Qed.

(** ** Removal *)

Lemma leave_bucket_spec h h1 m S j x e l1 l2 b : WF h m S -> ht h1 = ht h -> htsize h1 = htsize h ->
  Z.of_nat (length (flat S)) < 2 ^ 32 -> segof j S = l1 ++ x :: l2 -> NoDup (segof j S) ->
  hidx h (pKey e) = j -> next e = hd_or None b -> (l2 <> [] -> hd_or None b = head l2) ->
  exists h', leave_bucket h1 j x e = Some h' /\ htsize h' = htsize h /\ count h' = count h1 /\ first h' = first h1 /\
    (ht h' = None <-> ht h = None) /\
    forall S', (forall k, segof k S' = if decide (k = j) then l1 ++ l2 else segof k S) -> buckets_ok h' S'.
Proof.
  intros W E1 E2 Hb El Hnd Hi Hn Hl2. unfold leave_bucket. rewrite E1. destruct (ht h) as [bs|] eqn:E.
  - pose proof (wf_ht _ _ _ W) as Hok. destruct (hidx_lt h S bs (pKey e) Hok E) as [bk Eb]. rewrite Hi in Eb.
    rewrite Eb. simpl. unfold buckets_ok in Hok. rewrite E in Hok. destruct Hok as (Hp & Hl & Hbk).
    destruct (Hbk _ _ Eb) as [Hc Hch]. rewrite El in Hc, Hch. rewrite length_app in Hc. simpl in Hc.
    assert (Z.of_nat (length (l1 ++ x :: l2)) <= Z.of_nat (length (flat S))).
    { rewrite <- El. destruct (seg_flat j S (wf_good _ _ _ W)) as (a & b' & ->). rewrite !length_app. lia. }
    rewrite length_app in *. simpl in *. replace (b_count bk >? 0) with true by lia.
    eexists. split; [done|]. simpl. split_and!; try done. intros S' HS'. unfold buckets_ok. simpl.
    rewrite E2. split; [done|]. split; [by rewrite length_insert|]. intros k b' Hb'. rewrite HS'.
    destruct (decide (k = j)) as [->|Hk].
    + rewrite list_lookup_insert_eq in Hb' by (by apply lookup_lt_Some in Eb). injection Hb' as <-. simpl.
      rewrite Hc, wrapu_id by solve_width. rewrite length_app. split; [lia|]. intros Hne.
      rewrite Hch by (by destruct l1). destruct l1 as [|y l1]; simpl.
      * rewrite bool_decide_true by done. rewrite Hn. by apply Hl2.
      * rewrite bool_decide_false; [done|]. intros [= ->]. rewrite El in Hnd.
        apply NoDup_cons in Hnd as [Hnd _]. apply Hnd. set_solver.
    + rewrite list_lookup_insert_ne in Hb' by congruence. auto.
  - exists h1. rewrite E1. split_and!; try done. intros S' _. unfold buckets_ok. by rewrite E1.
Qed.

Lemma remove_spec h m S x e : WF h m S -> count h = Z.of_nat (length (flat S)) -> count h < 2 ^ 32 ->
  x ∈ flat S -> m !! x = Some e ->
  exists h' m' S', removeElementGivenHash (h, m) x (hidx h (pKey e)) = Some (h', m') /\ WF h' m' S' /\
    flat S ≡ₚ x :: flat S' /\ count h' = Z.of_nat (length (flat S')) /\
    (forall p, payload <$> m' !! p = payload <$> delete x m !! p).
Proof.
  intros W Hc Hlt Hx He. pose proof (elem_segof _ _ _ _ _ W Hx He) as Hxs.
  destruct (seg_delete _ x S (wf_good _ _ _ W) Hxs) as (S' & a & b & l1 & l2 & Hg & E1 & E2 & El & Hseg & Hl2).
  pose proof (wf_nodup _ _ _ W) as Hnd. pose proof (wf_dll _ _ _ W) as Hd. pose proof (wf_first _ _ _ W) as Hf.
  assert (NoDup (segof (hidx h (pKey e)) S)) as Hnds.
  { destruct (seg_flat (hidx h (pKey e)) S (wf_good _ _ _ W)) as (a' & b' & Ef). rewrite Ef in Hnd.
    apply NoDup_app in Hnd as (_ & _ & Hnd). by apply NoDup_app in Hnd as (? & _). }
  rewrite E1 in Hnd, Hd, Hf. destruct (dll_prev _ _ _ _ Hd) as (e0 & He0 & _ & Hn0).
  rewrite He in He0. injection He0 as <-.
  assert (NoDup (x :: a ++ b)) as Hnd' by (by rewrite Permutation_middle).
  apply NoDup_cons in Hnd' as [Hxab Hab].
  unfold removeElementGivenHash. simpl snd. rewrite He. cbn [mbind option_bind].
  rewrite (unlink_spec _ _ _ _ _ _ Hnd Hd He Hf). cbn [mbind option_bind]. cbv beta iota.
  destruct (leave_bucket_spec h (set_first (hd_or None (a ++ b)) h) m S (hidx h (pKey e)) x e l1 l2 b)
    as (h2 & Elb & Hsz & Hcnt & Hfst & Hht & Hbk); try done; [lia|].
  rewrite Elb. cbn [mbind option_bind]. cbv zeta. set (m1 := set_head_prev b _ _).
  assert (count (set_count (u32 (count h2 - 1)) h2) = Z.of_nat (length (flat S'))) as Hcount.
  { simpl. rewrite Hcnt. simpl. rewrite Hc, E1, E2, !length_app. simpl. rewrite wrapu_id; [lia|].
    rewrite Hc, E1, length_app in Hlt. simpl in Hlt. unfold is_u. lia. }
  assert (forall p, payload <$> delete x m1 !! p = payload <$> delete x m !! p) as Hpay.
  { intros p. destruct (decide (p = x)) as [->|Hpx]; [by rewrite !lookup_delete_eq|].
    rewrite !lookup_delete_ne by done. apply relink_payload. }
  assert (flat S ≡ₚ x :: flat S') as Hperm by (rewrite E1, E2; by rewrite Permutation_middle).
  assert (forall S0 h0, flat S0 = flat S' -> good S0 -> first h0 = hd_or None (flat S') -> buckets_ok h0 S0 ->
    (forall j p ep, p ∈ segof j S0 -> m !! p = Some ep -> hidx h0 (pKey ep) = j) -> WF h0 (delete x m1) S0) as Hmk.
  { intros S0 h0 Ef Hg0 Hf0 Hb0 Hh0. constructor; rewrite ?Ef; try done; [by rewrite E2| |].
    - rewrite E2. apply (dll_frame m1); [intros p Hp; rewrite lookup_delete_ne; set_solver|].
      eapply dll_delete; [done|exact Hd|]. by apply relink_relinked.
    - intros j p ep Hp Hep. destruct (decide (p = x)) as [->|Hpx]; [by rewrite lookup_delete_eq in Hep|].
      rewrite lookup_delete_ne in Hep by done. pose proof (relink_payload a b (hd_or None b) (lst_or None a) m p) as Hq.
      fold m1 in Hq. rewrite Hep in Hq. destruct (m !! p) as [e1|] eqn:E3; [|done]. injection Hq as -> _. eauto. }
  destruct (Z.eqb_spec (count (set_count (u32 (count h2 - 1)) h2)) 0) as [Ez|Ez].
  - rewrite Hcount in Ez. assert (flat S' = []) as En by (apply length_zero_iff_nil; lia).
    simpl first. rewrite Hfst. simpl. rewrite <- E2, En. simpl. unfold sqlite3HashClear.
    simpl. rewrite Hfst. simpl. rewrite <- E2, En. simpl.
    exists sqlite3HashInit, (delete x m1), []. split; [done|]. split; [|split_and!; [by rewrite Hperm, En|done|done]].
    apply Hmk; try done; [apply good_nil|by rewrite En|by intros ??? ?%elem_of_nil].
  - exists (set_count (u32 (count h2 - 1)) h2), (delete x m1), S'. split; [done|].
    split; [|split_and!; done]. apply Hmk; try done; [simpl; by rewrite Hfst, E2|by apply Hbk|].
    intros j p ep Hp Hep. assert (hidx (set_count (u32 (count h2 - 1)) h2) (pKey ep) = hidx h (pKey ep)) as ->.
    { unfold hidx. simpl. rewrite Hsz. destruct (ht h2), (ht h); naive_solver. }
    rewrite Hseg in Hp. destruct (decide (j = _)) as [->|Hj]; [|by eapply wf_hash].
    eapply wf_hash; [done| |done]. rewrite El. set_solver.
Qed.

(** ** Refinement to a finite map on folded keys *)

(** The heap holds exactly the elements of the table: nothing leaks. *)
Record Inv (s : state) (A : gmap (list Z) D) : Prop := {
  inv_wf : exists S, WF (fst s) (snd s) S /\ (forall p, is_Some (snd s !! p) <-> p ∈ flat S) /\
                     count (fst s) = Z.of_nat (length (flat S));
  inv_keys : keys_ok (snd s);
  inv_inj : forall p q e e', snd s !! p = Some e -> snd s !! q = Some e' ->
              fold_case (pKey e) = fold_case (pKey e') -> p = q;
  inv_abs : forall k d, A !! k = Some d <-> exists p e, snd s !! p = Some e /\ fold_case (pKey e) = k /\ data e = d;
}.

Lemma Inv_init : Inv (sqlite3HashInit, ∅) ∅.
Proof.
  constructor; simpl.
  - exists []. split; [|split; [|done]].
    + constructor; simpl; try done; [apply good_nil|apply NoDup_nil_2].
    + intros p. rewrite lookup_empty. split; [by intros []|by intros ?%elem_of_nil].
  - intros p e. by rewrite lookup_empty.
  - intros p q e e'. by rewrite lookup_empty.
  - intros k d. rewrite lookup_empty. split; [done|]. intros (p & e & He & _). by rewrite lookup_empty in He.
Qed.

(** The abstraction only depends on payloads. *)
Lemma Inv_payload s s' A : Inv s A -> (exists S, WF (fst s') (snd s') S /\
    (forall p, is_Some (snd s' !! p) <-> p ∈ flat S) /\ count (fst s') = Z.of_nat (length (flat S))) ->
  same_payload (snd s) (snd s') -> Inv s' A.
Proof.
  intros I Hw Hp. assert (forall p e', snd s' !! p = Some e' -> exists e, snd s !! p = Some e /\ payload e' = payload e) as Hback.
  { intros p e' He'. specialize (Hp p). rewrite He' in Hp. destruct (snd s !! p) as [e|]; [|done].
    injection Hp as H1 H2. exists e. unfold payload. by rewrite H1, H2. }
  constructor; [done| | |].
  - intros p e' He'. destruct (Hback _ _ He') as (e & He & [= -> _]). by eapply inv_keys.
  - intros p q e1 e2 H1 H2. destruct (Hback _ _ H1) as (e1' & He1 & [= -> _]).
    destruct (Hback _ _ H2) as (e2' & He2 & [= -> _]). by eapply inv_inj.
  - intros k d. rewrite (inv_abs _ _ I). split.
    + intros (p & e & He & Hk & Hd). pose proof (Hp p) as Hpp. rewrite He in Hpp.
      destruct (snd s' !! p) as [e'|] eqn:E; [|done]. injection Hpp as H1 H2. exists p, e'. by rewrite H1, H2.
    + intros (p & e' & He' & Hk & Hd). destruct (Hback _ _ He') as (e & He & [= H1 H2]). exists p, e. by rewrite <- H1, <- H2.
Qed.

Lemma find_inv s A key : Inv s A -> cstring key ->
  exists r, findElementWithHash s key = Some (r, hidx (fst s) key) /\
    match r with
    | Some p => exists e, snd s !! p = Some e /\ fold_case (pKey e) = fold_case key /\ A !! fold_case key = Some (data e)
    | None => A !! fold_case key = None
    end.
Proof.
  intros I Hc. destruct (inv_wf _ _ I) as (S & W & Hdom & Hcnt). destruct s as [h m]. simpl in *.
  destruct (find_spec h m S key W Hcnt (inv_keys _ _ I) Hc) as (r & Hr & Hs). exists r. split; [done|].
  destruct r as [p|].
  - destruct Hs as (_ & e & He & Hk). exists e. split_and!; try done. apply (inv_abs _ _ I). by exists p, e.
  - destruct (A !! fold_case key) as [d|] eqn:E; [|done]. apply (inv_abs _ _ I) in E as (p & e & He & Hk & _).
    exfalso. apply (Hs p); [by apply Hdom; eexists|by exists e].
Qed.

(** [sqlite3HashInsert], the three cases. *)
Lemma insert_replace s A key d newp alloc p e : Inv s A -> cstring key ->
  findElementWithHash s key = Some (Some p, hidx (fst s) key) -> snd s !! p = Some e ->
  fold_case (pKey e) = fold_case key ->
  exists s', sqlite3HashInsert s key (Some d) newp alloc = Some (s', Some (data e)) /\ Inv s' (<[fold_case key := d]> A).
Proof.
  intros I Hc Hf He Hk. unfold sqlite3HashInsert. rewrite Hf. simpl. rewrite He. simpl.
  rewrite (upd_some _ _ _ _ He). simpl. eexists. split; [done|].
  destruct (inv_wf _ _ I) as (S & W & Hdom & Hcnt). destruct s as [h m]. simpl in *.
  set (m' := <[p := set_data d key e]> m).
  assert (forall q e', m' !! q = Some e' -> exists e0, m !! q = Some e0 /\ fold_case (pKey e') = fold_case (pKey e0) /\
    next e' = next e0 /\ prev e' = prev e0 /\ (q <> p -> e' = e0)) as Hback.
  { intros q e' Hq. unfold m' in Hq. destruct (decide (p = q)) as [<-|Hn].
    - rewrite lookup_insert_eq in Hq. injection Hq as <-. exists e. split_and!; simpl; try done; by symmetry.
    - rewrite lookup_insert_ne in Hq by done. by exists e'. }
  assert (forall pr l nx, dll m pr l nx -> dll m' pr l nx) as Hdll.
  { intros pr l. revert pr. induction l as [|q l IH]; intros pr nx; simpl; [done|]. intros (e0 & H0 & H1 & H2 & H3).
    unfold m'. destruct (decide (p = q)) as [<-|Hn].
    - rewrite lookup_insert_eq. rewrite He in H0. injection H0 as <-. eexists. split; [done|]. simpl. auto.
    - rewrite lookup_insert_ne by done. exists e0. auto. }
  constructor; simpl.
  - exists S. split; [|split; [|done]].
    + destruct W as [W1 W2 W3 W4 W5 W6]. constructor; try done; [by apply Hdll|].
      intros j q e' Hq He'. destruct (Hback _ _ He') as (e0 & H0 & Hk0 & _).
      rewrite (hidx_fold h _ _ Hk0). by eapply W5.
    + intros q. rewrite <- Hdom. unfold m'. destruct (decide (p = q)) as [<-|Hn].
      * rewrite lookup_insert_eq, He. split; intros; by eexists.
      * by rewrite lookup_insert_ne.
  - intros q e' Hq. unfold m' in Hq. destruct (decide (p = q)) as [<-|Hn].
    + rewrite lookup_insert_eq in Hq. injection Hq as <-. done.
    + rewrite lookup_insert_ne in Hq by done. by eapply (inv_keys _ _ I).
  - intros q1 q2 e1 e2 H1 H2 Hkk. destruct (Hback _ _ H1) as (e1' & ? & K1 & _), (Hback _ _ H2) as (e2' & ? & K2 & _).
    eapply (inv_inj _ _ I); [done|done|]. by rewrite <- K1, <- K2.
  - intros k d'. unfold m' in *. destruct (decide (fold_case key = k)) as [<-|Hkk].
    + rewrite lookup_insert_eq. split.
      * intros [= <-]. exists p, (set_data d key e). by rewrite lookup_insert_eq.
      * intros (q & e' & Hq & Hkq & Hd). destruct (decide (p = q)) as [<-|Hn].
        { rewrite lookup_insert_eq in Hq. injection Hq as <-. by rewrite <- Hd. }
        exfalso. apply Hn. rewrite lookup_insert_ne in Hq by done. eapply (inv_inj _ _ I); [done|done|].
        by rewrite Hk, Hkq.
    + rewrite lookup_insert_ne by done. rewrite (inv_abs _ _ I). simpl. split; intros (q & e' & Hq & Hkq & Hd).
      * exists q, e'. rewrite lookup_insert_ne; [done|]. intros <-. rewrite He in Hq. congruence.
      * destruct (decide (p = q)) as [<-|Hn].
        { rewrite lookup_insert_eq in Hq. injection Hq as <-. simpl in Hkq. congruence. }
        rewrite lookup_insert_ne in Hq by done. by exists q, e'.
Qed.

Lemma insert_remove s A key newp alloc p e : Inv s A -> count (fst s) < 2 ^ 32 ->
  findElementWithHash s key = Some (Some p, hidx (fst s) key) -> snd s !! p = Some e ->
  fold_case (pKey e) = fold_case key ->
  exists s', sqlite3HashInsert s key None newp alloc = Some (s', Some (data e)) /\ Inv s' (delete (fold_case key) A).
Proof.
  intros I Hlt Hf He Hk. unfold sqlite3HashInsert. rewrite Hf. simpl. rewrite He. simpl.
  destruct (inv_wf _ _ I) as (S & W & Hdom & Hcnt). destruct s as [h m]. simpl in *.
  rewrite <- (hidx_fold h _ _ Hk).
  destruct (remove_spec h m S p e W Hcnt Hlt) as (h' & m' & S' & Er & W' & Hperm & Hcnt' & Hpay);
    [by apply Hdom; eexists|done|]. rewrite Er. simpl. eexists. split; [done|].
  assert (forall q e', m' !! q = Some e' -> q <> p /\ exists e0, m !! q = Some e0 /\ payload e' = payload e0) as Hback.
  { intros q e' Hq. specialize (Hpay q). rewrite Hq in Hpay. destruct (decide (q = p)) as [->|Hn].
    - by rewrite lookup_delete_eq in Hpay.
    - rewrite lookup_delete_ne in Hpay by done. split; [done|]. destruct (m !! q) as [e0|]; [|done].
      injection Hpay as H1 H2. exists e0. unfold payload. by rewrite H1, H2. }
  assert (p ∉ flat S') as Hpn.
  { pose proof (wf_nodup _ _ _ W) as Hnd. rewrite Hperm in Hnd. by apply NoDup_cons in Hnd as [? _]. }
  constructor; simpl.
  - exists S'. split; [done|]. split; [|done]. intros q. specialize (Hpay q). destruct (decide (q = p)) as [->|Hn].
    + rewrite lookup_delete_eq in Hpay. destruct (m' !! p); [done|]. split; [by intros []|done].
    + rewrite lookup_delete_ne in Hpay by done. specialize (Hdom q). rewrite Hperm, elem_of_cons in Hdom.
      destruct (m' !! q), (m !! q); try done; split; intros; try (by eexists); naive_solver.
  - intros q e' Hq. destruct (Hback _ _ Hq) as (_ & e0 & H0 & [= -> _]). by eapply (inv_keys _ _ I).
  - intros q1 q2 e1 e2 H1 H2. destruct (Hback _ _ H1) as (_ & e1' & ? & [= -> _]), (Hback _ _ H2) as (_ & e2' & ? & [= -> _]).
    by eapply (inv_inj _ _ I).
  - intros k d. destruct (decide (fold_case key = k)) as [<-|Hkk].
    + rewrite lookup_delete_eq. split; [done|]. intros (q & e' & Hq & Hkq & _). exfalso.
      destruct (Hback _ _ Hq) as (Hn & e0 & H0 & [= H1 _]). apply Hn. eapply (inv_inj _ _ I); [done|done|].
      by rewrite <- H1, Hkq, Hk.
    + rewrite lookup_delete_ne by done. rewrite (inv_abs _ _ I). split.
      * intros (q & e0 & H0 & Hk0 & Hd). simpl in H0. specialize (Hpay q). rewrite lookup_delete_ne in Hpay by congruence.
        rewrite H0 in Hpay. destruct (m' !! q) as [e'|] eqn:Eq; [|done]. injection Hpay as H1 H2.
        exists q, e'. by rewrite H1, H2.
      * intros (q & e' & Hq & Hkq & Hd). destruct (Hback _ _ Hq) as (_ & e0 & H0 & [= H1 H2]). exists q, e0. by rewrite <- H1, <- H2.
Qed.

Lemma Inv_extend s s' A key d p : Inv s A -> snd s !! p = None -> A !! fold_case key = None -> cstring key ->
  (exists S, WF (fst s') (snd s') S /\
    (forall q, is_Some (snd s' !! q) <-> q ∈ flat S) /\ count (fst s') = Z.of_nat (length (flat S))) ->
  same_payload (<[p := mkElem None None d key]> (snd s)) (snd s') -> Inv s' (<[fold_case key := d]> A).
Proof.
  intros I Hp HA Hc Hw Hpay.
  assert (forall q e', snd s' !! q = Some e' -> q = p /\ payload e' = (key, d) \/
    q <> p /\ exists e, snd s !! q = Some e /\ payload e' = payload e) as Hback.
  { intros q e' Hq. specialize (Hpay q). rewrite Hq in Hpay. destruct (decide (q = p)) as [->|Hn].
    - rewrite lookup_insert_eq in Hpay. injection Hpay as H1 H2. left. unfold payload. by rewrite H1, H2.
    - rewrite lookup_insert_ne in Hpay by done. right. split; [done|]. destruct (snd s !! q) as [e|]; [|done].
      injection Hpay as H1 H2. exists e. unfold payload. by rewrite H1, H2. }
  assert (forall q e, snd s !! q = Some e -> fold_case (pKey e) <> fold_case key) as Hnew.
  { intros q e Hq E. assert (A !! fold_case key = Some (data e)); [|congruence]. apply (inv_abs _ _ I). by exists q, e. }
  constructor; [done| | |].
  - intros q e' Hq. destruct (Hback _ _ Hq) as [[_ [= -> _]]|(_ & e & He & [= -> _])]; [done|by eapply (inv_keys _ _ I)].
  - intros q1 q2 e1 e2 H1 H2 Hk.
    destruct (Hback _ _ H1) as [[-> [= K1 _]]|(_ & e1' & G1 & [= K1 _])],
             (Hback _ _ H2) as [[-> [= K2 _]]|(_ & e2' & G2 & [= K2 _])]; try done.
    + exfalso. apply (Hnew _ _ G2). by rewrite <- K2, <- Hk, K1.
    + exfalso. apply (Hnew _ _ G1). by rewrite <- K1, Hk, K2.
    + eapply (inv_inj _ _ I); [done|done|]. by rewrite <- K1, <- K2.
  - intros k d'. destruct (decide (fold_case key = k)) as [<-|Hkk].
    + rewrite lookup_insert_eq. split.
      * intros [= <-]. specialize (Hpay p). rewrite lookup_insert_eq in Hpay.
        destruct (snd s' !! p) as [e'|] eqn:E; [|done]. injection Hpay as H1 H2. exists p, e'. by rewrite H1, H2.
      * intros (q & e' & Hq & Hkq & Hd). destruct (Hback _ _ Hq) as [[_ [= _ <-]]|(_ & e & He & [= H1 _])]; [by rewrite Hd|].
        exfalso. apply (Hnew _ _ He). by rewrite <- H1.
    + rewrite lookup_insert_ne by done. rewrite (inv_abs _ _ I). split.
      * intros (q & e & He & Hkq & Hd). specialize (Hpay q). rewrite lookup_insert_ne in Hpay by congruence.
        rewrite He in Hpay. destruct (snd s' !! q) as [e'|] eqn:E; [|done]. injection Hpay as H1 H2.
        exists q, e'. by rewrite H1, H2.
      * intros (q & e' & Hq & Hkq & Hd). destruct (Hback _ _ Hq) as [[_ [= H1 _]]|(_ & e & He & [= H1 H2])].
        { exfalso. apply Hkk. by rewrite <- Hkq, H1. }
        exists q, e. by rewrite <- H1, <- H2.
Qed.

(** The growth step of an insertion, taken or not, keeps the structure and the
    bucket of the new key. *)
Lemma grow_spec h m S key alloc : WF h m S -> alloc_ok alloc -> Z.of_nat (length (flat S)) + 1 < 2 ^ 32 ->
  exists h1 m1 S1 hh,
    (if (count h >=? 10) && (count h >? u32 (2 * htsize h)) then
       '(s, b) ← rehash (h, m) (u32 (count h * 2)) alloc;
       Some (s, if (b : bool) then Z.to_nat (strHash key mod htsize (fst s)) else hidx h key)
     else Some ((h, m), hidx h key)) = Some ((h1, m1), hh) /\
    WF h1 m1 S1 /\ flat S1 ≡ₚ flat S /\ same_payload m m1 /\ count h1 = count h /\
    (forall q, q ∉ flat S -> m1 !! q = m !! q) /\
    (match ht h1 with Some _ => Some hh | None => None end) = entry_of h1 key.
Proof.
  intros W Ha Hb. case_match.
  - destruct (rehash_spec h m S (u32 (count h * 2)) alloc W Ha Hb) as (h1 & m1 & S1 & b & Er & W1 & Hperm & Hp & Hc & Hfr & Hm).
    rewrite Er. simpl. exists h1, m1, S1, (if b then Z.to_nat (strHash key mod htsize h1) else hidx h key).
    split_and!; try done. unfold entry_of. destruct b.
    + destruct Hm as [bs Hm]. unfold hidx. by rewrite Hm.
    + subst h1. done.
  - exists h, m, S, (hidx h key). by split_and!.
Qed.

Lemma insert_new s A key d p alloc : Inv s A -> cstring key -> alloc_ok alloc -> count (fst s) + 2 < 2 ^ 32 ->
  findElementWithHash s key = Some (None, hidx (fst s) key) -> A !! fold_case key = None -> snd s !! p = None ->
  exists s', sqlite3HashInsert s key (Some d) (Some p) alloc = Some (s', None) /\ Inv s' (<[fold_case key := d]> A).
Proof.
  intros I Hc Ha Hlt Hf HA Hp. unfold sqlite3HashInsert. rewrite Hf. cbn [mbind option_bind]. cbv beta iota zeta.
  destruct (inv_wf _ _ I) as (S & W & Hdom & Hcnt). destruct s as [h m]. cbn [fst snd] in *.
  assert (p ∉ flat S) as Hpn by (intros H%Hdom; rewrite Hp in H; by destruct H).
  set (h0 := set_count (u32 (count h + 1)) h). set (e0 := mkElem None None d key). set (m0 := <[p := e0]> m).
  assert (WF h0 m0 S) as W0.
  { eapply WF_frame; [exact W| |done..]. intros q Hq. unfold m0. rewrite lookup_insert_ne; [done|set_solver]. }
  destruct (grow_spec h0 m0 S key alloc W0 Ha) as (h1 & m1 & S1 & hh & Eg & W1 & Hp1 & Hpay1 & Hc1 & Hfr1 & Hent); [lia|].
  change (hidx h key) with (hidx h0 key). rewrite Eg. cbn [mbind option_bind fst snd]. rewrite Hent.
  assert (m1 !! p = Some e0) as He1 by (rewrite Hfr1 by done; unfold m0; by rewrite lookup_insert_eq).
  destruct (insertElement_spec h1 m1 S1 p e0 W1) as (h2 & m2 & S2 & Ei & W2 & Hs2 & Hpay2 & Hp2 & _);
    [rewrite Hp1; lia|by rewrite Hp1|done|].
  change key with (pKey e0) at 1. rewrite Ei. cbn [mbind option_bind]. eexists. split; [done|].
  assert (same_payload m0 m2) as Hpay by (by eapply same_payload_trans).
  apply (Inv_extend (h, m) (h2, m2) A key d p); try done. exists S2. split; [done|].
  split; cbn [fst snd].
  - intros q. rewrite (same_payload_dom _ _ q Hpay), Hp2, Hp1, elem_of_cons, <- Hdom. unfold m0.
    rewrite lookup_insert_is_Some'. naive_solver.
  - destruct Hs2 as (_ & -> & _). rewrite Hc1, Hp2, Hp1. simpl. rewrite wrapu_id; [lia|]. unfold is_u. lia.
Qed.

Lemma clear_loop_spec fuel R p m : nexts m p R -> NoDup R -> (length R < fuel)%nat ->
  exists m', clear_loop fuel p m = Some m' /\ forall q, m' !! q = if decide (q ∈ R) then None else m !! q.
Proof.
  revert R p m. induction fuel as [|fuel IH]; intros R p m Hn Hnd Hl; [lia|].
  destruct R as [|q R]; simpl in Hn; [subst p; by exists m|].
  destruct Hn as (-> & e & He & Hn). simpl. rewrite He. simpl. apply NoDup_cons in Hnd as [Hq Hnd]. simpl in Hl.
  destruct (IH R (next e) (delete q m)) as (m' & -> & Hm'); [|done|lia|].
  - apply (nexts_frame m); [|done]. intros r Hr. rewrite lookup_delete_ne; [done|]. by intros ->.
  - exists m'. split; [done|]. intros r. rewrite Hm'. destruct (decide (r = q)) as [->|Hrq].
    + rewrite decide_False, lookup_delete_eq by done. by rewrite decide_True by left.
    + rewrite lookup_delete_ne by done. destruct (decide (r ∈ R)) as [Hr|Hr].
      * by rewrite decide_True by (by right).
      * rewrite decide_False; [done|]. by intros [?|?]%elem_of_cons.
Qed.

Lemma hash_clear_inv s A : Inv s A -> sqlite3HashClear s = Some (sqlite3HashInit, ∅).
Proof.
  intros I. destruct (inv_wf _ _ I) as (S & W & Hdom & _). destruct s as [h m]. cbn [fst snd] in *. unfold sqlite3HashClear.
  pose proof (dll_nexts _ _ _ (wf_dll _ _ _ W)) as Hn. rewrite <- (wf_first _ _ _ W) in Hn.
  pose proof (length_le_size m (flat S) (wf_nodup _ _ _ W) (fun p => dll_lookup _ _ _ _ p (wf_dll _ _ _ W))).
  destruct (clear_loop_spec (Datatypes.S (size m)) (flat S) (first h) m Hn (wf_nodup _ _ _ W)) as (m' & -> & Hm'); [lia|].
  simpl. do 2 f_equal. apply map_eq. intros q. rewrite Hm', lookup_empty. case_decide as Hq; [done|].
  rewrite <- Hdom in Hq. destruct (m !! q); [|done]. exfalso. apply Hq. by eexists.
Qed.

(** What [sqlite3HashInsert] promises, on a finite map keyed by folded names. *)
Definition spec_insert (A : gmap (list Z) D) (k : list Z) (dat : option D) (oom : bool) : gmap (list Z) D * option D :=
  match dat, A !! k with
  | None, old => (delete k A, old)
  | Some d, Some old => (<[k := d]> A, Some old)
  | Some d, None => if oom then (A, Some d) else (<[k := d]> A, None)
  end.

(** C24. The hash table implements a finite map on case-folded keys.  From a
    state that represents [A]: [sqlite3HashFind] returns the mapping of the
    key; [sqlite3HashInsert] replaces, adds, or (with a null datum) removes the
    mapping and returns the old one, and changes nothing when the allocation of
    a new element fails, whatever happens to the allocation of the bucket array;
    [sqlite3HashClear] frees every element.  No operation follows a stale or
    null pointer, and no element is lost. *)
Theorem hash_refines_map (s : state) (A : gmap (list Z) D) (key : list Z) : Inv s A -> cstring key ->
  sqlite3HashFind s key = Some (A !! fold_case key) /\
  (forall dat newp alloc, (forall p, newp = Some p -> snd s !! p = None) -> alloc_ok alloc -> count (fst s) + 2 < 2 ^ 32 ->
     exists s', sqlite3HashInsert s key dat newp alloc =
         Some (s', snd (spec_insert A (fold_case key) dat (bool_decide (newp = None)))) /\
       Inv s' (fst (spec_insert A (fold_case key) dat (bool_decide (newp = None))))) /\
  sqlite3HashClear s = Some (sqlite3HashInit, ∅).
Proof.
  intros I Hc. destruct (find_inv s A key I Hc) as (r & Hf & Hr). split_and!; [| |by eapply hash_clear_inv].
  - unfold sqlite3HashFind. rewrite Hf. simpl. destruct r as [p|]; [|by rewrite Hr].
    destruct Hr as (e & He & _ & HA). by rewrite He, HA.
  - intros dat newp alloc Hnew Ha Hlt. unfold spec_insert. destruct r as [p|].
    + destruct Hr as (e & He & Hk & HA). rewrite HA. destruct dat as [d|]; simpl.
      * by eapply insert_replace.
      * eapply insert_remove; try done. lia.
    + rewrite Hr. destruct dat as [d|].
      * destruct newp as [p|]; simpl.
        { eapply insert_new; try done. by apply Hnew. }
        exists s. split; [|done]. unfold sqlite3HashInsert. by rewrite Hf.
      * exists s. simpl. rewrite delete_id by done. split; [|done]. unfold sqlite3HashInsert. by rewrite Hf.
Qed.
End HashTable.

Lemma hash_refines_map_witness : sqlite3HashFind (sqlite3HashInit, ∅ : gmap positive (@HashElem Z)) [97; 98] = Some None /\
  exists s', sqlite3HashInsert (sqlite3HashInit, ∅) [97; 98] (Some 7) (Some 1%positive) None = Some (s', None) /\
    Inv s' (<[[97; 98] := 7]> ∅).
Proof.
  destruct (hash_refines_map (sqlite3HashInit, ∅) (∅ : gmap (list Z) Z) [97; 98]) as (H1 & H2 & _).
  - exact Inv_init.
  - repeat constructor; done.
  - split; [exact H1|]. refine (H2 (Some 7) (Some 1%positive) None _ I eq_refl).
    intros p [= <-]. reflexivity.
Defined.
