(* ===== verification/Bitvec.v ===== *)
(** * The bit vector of the pager (SQLite's bitvec.c)

    A set of page numbers [1..iSize] in one of three representations: a bitmap
    when it is small, an open-addressing hash table while it has few members,
    and an array of sub-vectors once the hash table has filled up.  The model
    keeps the three arms of the C union as constructors (the C code tells them
    apart by [iSize] and [iDivisor]), the memory allocator as the number of
    allocations that still succeed, and the code's recursion with fuel; the
    theorems show that every vector is a finite set, whatever the
    representation changes on the way. *)

From S2P Require Import Prelude.

#[local] Set Warnings "-register-all".

(** ** Constants and data *)

Definition BITVEC_NELEM : nat := 496.
Definition BITVEC_NBIT : Z := 3968.
Definition BITVEC_NINT : nat := 124.
Definition BITVEC_MXHASH : Z := 62.
Definition BITVEC_NPTR : nat := 62.
Definition SQLITE_OK : Z := 0.
Definition SQLITE_NOMEM : Z := 7.

Definition BITVEC_HASH (x : Z) : nat := Z.to_nat (x mod Z.of_nat BITVEC_NINT).

Inductive Bitvec : Type :=
| Bitmap (iSize : Z) (aBitmap : list Z)
| Hashed (iSize nSet : Z) (aHash : list Z)
| Divided (iSize iDivisor : Z) (apSub : list (option Bitvec)).

Definition sqlite3BitvecSize (p : Bitvec) : Z :=
  match p with Bitmap n _ | Hashed n _ _ | Divided n _ _ => n end.

(** Zeroed memory of the given size. *)
Definition sqlite3BitvecCreate (iSize : Z) : Bitvec :=
  if iSize <=? BITVEC_NBIT then Bitmap iSize (replicate BITVEC_NELEM 0)
  else Hashed iSize 0 (replicate BITVEC_NINT 0).

(** ** Probing *)

(** The slot after [h]: [h++; if( h>=BITVEC_NINT ) h = 0;]. *)
Definition slot_next (h : nat) : nat := if (S h <? BITVEC_NINT)%nat then S h else 0%nat.

(** The walk from [h] over the occupied slots: [true] and the slot of [v], or
    [false] and the first free slot.  [None]: the table is full. *)
Fixpoint probe (fuel : nat) (aHash : list Z) (v : Z) (h : nat) : option (bool * nat) :=
  match fuel with
  | O => None
  | S fuel =>
      let x := nth h aHash 0 in
      if x =? 0 then Some (false, h)
      else if x =? v then Some (true, h)
      else probe fuel aHash v (slot_next h)
  end.

(** The walk of [sqlite3BitvecClear], which only looks for a free slot. *)
Fixpoint free_slot (fuel : nat) (aHash : list Z) (h : nat) : option nat :=
  match fuel with
  | O => None
  | S fuel => if nth h aHash 0 =? 0 then Some h else free_slot fuel aHash (slot_next h)
  end.

(** ** Operations

    The bit index is zero-based inside the loops, as after the code's [i--]. *)

Definition bitmap_test (a : list Z) (i : Z) : bool :=
  negb (Z.land (nth (Z.to_nat (i / 8)) a 0) (Z.shiftl 1 (Z.land i 7)) =? 0).

Fixpoint test0 (fuel : nat) (p : Bitvec) (i : Z) : option bool :=
  match fuel with
  | O => None
  | S fuel =>
      match p with
      | Divided _ iDivisor apSub =>
          match apSub !! Z.to_nat (i / iDivisor) with
          | None => None
          | Some None => Some false
          | Some (Some q) => test0 fuel q (i mod iDivisor)
          end
      | Bitmap _ a => Some (bitmap_test a i)
      | Hashed _ _ a => r ← probe BITVEC_NINT a (i + 1) (BITVEC_HASH i); Some (fst r)
      end
  end.

(** Enough for any 32-bit size: every level divides the size by 62. *)
Definition bitvec_fuel : nat := 12.

Definition sqlite3BitvecTestNotNull (p : Bitvec) (i : Z) : option bool :=
  let i := u32 (i - 1) in
  if i >=? sqlite3BitvecSize p then Some false else test0 bitvec_fuel p i.

Definition sqlite3BitvecTest (p : option Bitvec) (i : Z) : option bool :=
  match p with None => Some false | Some p => sqlite3BitvecTestNotNull p i end.

(** [mem] is the number of allocations that succeed from here on; the result is
    the new vector, the return code and the allocations left. *)
Fixpoint set0 (fuel : nat) (mem : nat) (p : Bitvec) (i : Z) : option (Bitvec * Z * nat) :=
  match fuel with
  | O => None
  | S fuel =>
      match p with
      | Divided iSize iDivisor apSub =>
          let bin := Z.to_nat (i / iDivisor) in
          sub ← apSub !! bin;
          match sub, mem with
          | None, O => Some (p, SQLITE_NOMEM, O)
          | None, S mem =>
              '(q, rc, mem) ← set0 fuel mem (sqlite3BitvecCreate iDivisor) (i mod iDivisor);
              Some (Divided iSize iDivisor (<[bin := Some q]> apSub), rc, mem)
          | Some q, _ =>
              '(q, rc, mem) ← set0 fuel mem q (i mod iDivisor);
              Some (Divided iSize iDivisor (<[bin := Some q]> apSub), rc, mem)
          end
      | Bitmap iSize a =>
          let k := Z.to_nat (i / 8) in
          Some (Bitmap iSize (<[k := u8 (Z.lor (nth k a 0) (Z.shiftl 1 (Z.land i 7)))]> a), SQLITE_OK, mem)
      | Hashed iSize nSet a =>
          let h := BITVEC_HASH i in
          let v := i + 1 in
          let set_end h := Some (Hashed iSize (u32 (nSet + 1)) (<[h := v]> a), SQLITE_OK, mem) in
          let rehash h :=
            if nSet >=? BITVEC_MXHASH then
              match mem with
              | O => Some (p, SQLITE_NOMEM, O)
              | S mem =>
                  let iDivisor := (iSize + Z.of_nat BITVEC_NPTR - 1) / Z.of_nat BITVEC_NPTR in
                  r ← set0 fuel mem (Divided iSize iDivisor (replicate BITVEC_NPTR None)) i;
                  foldl (fun acc x =>
                    '(p, rc, mem) ← acc;
                    if x =? 0 then Some (p, rc, mem)
                    else '(p, rc', mem) ← set0 fuel mem p (x - 1); Some (p, Z.lor rc rc', mem)) (Some r) a
              end
            else set_end h in
          if nth h a 0 =? 0 then
            if nSet <? Z.of_nat BITVEC_NINT - 1 then set_end h else rehash h
          else
            '(found, h) ← probe BITVEC_NINT a v h;
            if (found : bool) then Some (p, SQLITE_OK, mem) else rehash h
      end
  end.

Definition sqlite3BitvecSet (mem : nat) (p : option Bitvec) (i : Z) : option (option Bitvec * Z * nat) :=
  match p with
  | None => Some (None, SQLITE_OK, mem)
  | Some p => '(p, rc, mem) ← set0 bitvec_fuel mem p (u32 (i - 1)); Some (Some p, rc, mem)
  end.

(** The rebuilt hash table, without [drop]. *)
Definition rebuild (old : list Z) (drop : Z) : option (list Z * Z) :=
  foldl (fun acc x =>
    '(a, nSet) ← acc;
    if negb (x =? 0) && negb (x =? drop) then
      h ← free_slot BITVEC_NINT a (BITVEC_HASH (x - 1));
      Some (<[h := x]> a, u32 (nSet + 1))
    else Some (a, nSet)) (Some (replicate BITVEC_NINT 0, 0)) old.

Fixpoint clear0 (fuel : nat) (p : Bitvec) (i : Z) : option Bitvec :=
  match fuel with
  | O => None
  | S fuel =>
      match p with
      | Divided iSize iDivisor apSub =>
          let bin := Z.to_nat (i / iDivisor) in
          sub ← apSub !! bin;
          match sub with
          | None => Some p
          | Some q => q ← clear0 fuel q (i mod iDivisor); Some (Divided iSize iDivisor (<[bin := Some q]> apSub))
          end
      | Bitmap iSize a =>
          let k := Z.to_nat (i / 8) in
          Some (Bitmap iSize (<[k := Z.ldiff (nth k a 0) (Z.shiftl 1 (Z.land i 7))]> a))
      | Hashed iSize _ a => '(a, nSet) ← rebuild a (i + 1); Some (Hashed iSize nSet a)
      end
  end.

Definition sqlite3BitvecClear (p : option Bitvec) (i : Z) : option (option Bitvec) :=
  match p with
  | None => Some None
  | Some p => p ← clear0 bitvec_fuel p (u32 (i - 1)); Some (Some p)
  end.

(** ** The hash table *)

Abbreviation N := BITVEC_NINT.

(** The slot [d] steps after [h]. *)
Definition walk (h d : nat) : nat := ((h + d) mod N)%nat.

Lemma walk_lt h d : (walk h d < N)%nat.
Proof. apply Nat.mod_upper_bound. done. Qed.

Lemma slot_next_walk h : (h < N)%nat -> slot_next h = walk h 1.
Proof.
  unfold slot_next, walk, BITVEC_NINT. intros H. destruct (Nat.ltb_spec (S h) 124).
  - rewrite Nat.mod_small; lia.
  - replace (h + 1)%nat with 124%nat by lia. done.
Qed.

Lemma walk_walk h d e : walk (walk h d) e = walk h (d + e).
Proof. unfold walk. rewrite Nat.Div0.add_mod_idemp_l. f_equal. lia. Qed.

Lemma walk_reach h s : (h < N)%nat -> (s < N)%nat -> exists d, (d < N)%nat /\ walk h d = s.
Proof.
  unfold walk, BITVEC_NINT. intros Hh Hs. exists ((s + 124 - h) mod 124)%nat. split; [by apply Nat.mod_upper_bound|].
  rewrite Nat.Div0.add_mod_idemp_r. replace (h + (s + 124 - h))%nat with (s + 1 * 124)%nat by lia.
  rewrite Nat.Div0.mod_add. by apply Nat.mod_small.
Qed.

Lemma hash_lt x : (BITVEC_HASH x < N)%nat.
Proof. unfold BITVEC_HASH. pose proof (Z.mod_pos_bound x (Z.of_nat N)). unfold BITVEC_NINT in *. lia. Qed.

Lemma probe_spec a v fuel h : (h < N)%nat -> (exists d, (d < fuel)%nat /\ nth (walk h d) a 0 = 0) ->
  exists d b, (d < fuel)%nat /\ probe fuel a v h = Some (b, walk h d) /\
    (forall d', (d' < d)%nat -> nth (walk h d') a 0 <> 0 /\ nth (walk h d') a 0 <> v) /\
    (if (b : bool) then nth (walk h d) a 0 = v /\ v <> 0 else nth (walk h d) a 0 = 0).
Proof.
  revert h. induction fuel as [|fuel IH]; intros h Hh (d0 & Hd0 & Hz); [lia|].
  assert (walk h 0 = h) as Hw0 by (unfold walk; rewrite Nat.add_0_r; by apply Nat.mod_small).
  simpl. destruct (Z.eqb_spec (nth h a 0) 0) as [E|E].
  { exists 0%nat, false. rewrite Hw0. split_and!; try done; lia. }
  destruct (Z.eqb_spec (nth h a 0) v) as [E'|E'].
  { exists 0%nat, true. rewrite Hw0. split_and!; try done; [lia|lia|congruence]. }
  rewrite slot_next_walk by done. destruct (IH (walk h 1)) as (d & b & Hd & Hp & Hbefore & Hend).
  - apply walk_lt.
  - destruct d0 as [|d0]; [congruence|]. exists d0. split; [lia|]. by rewrite walk_walk.
  - exists (S d), b. rewrite Hp, walk_walk in *. split_and!; try done; [lia|].
    intros [|d'] Hd'; [by rewrite Hw0|]. change (S d') with (1 + d')%nat. rewrite <- walk_walk. apply Hbefore. lia.
Qed.

Definition nonzeros (a : list Z) : list Z := filter (.≠ 0) a.

(** Every stored value can be reached from its home slot. *)
Definition reachable (a : list Z) : Prop := forall s, (s < N)%nat -> nth s a 0 <> 0 ->
  exists d, (d < N)%nat /\ walk (BITVEC_HASH (nth s a 0 - 1)) d = s /\
    forall d', (d' < d)%nat -> nth (walk (BITVEC_HASH (nth s a 0 - 1)) d') a 0 <> 0.

Record table_ok (a : list Z) (n : Z) : Prop := {
  tab_len : length a = N;
  tab_reach : reachable a;
  tab_nodup : NoDup (nonzeros a);
  tab_count : n = Z.of_nat (length (nonzeros a));
}.

Lemma nonzeros_elem a v : v ∈ nonzeros a <-> v <> 0 /\ v ∈ a.
Proof. unfold nonzeros. by rewrite list_elem_of_filter. Qed.

Lemma free_exists a : (length (nonzeros a) < length a)%nat -> exists s, (s < length a)%nat /\ nth s a 0 = 0.
Proof.
  induction a as [|x a IH]; simpl; [lia|]. unfold nonzeros. rewrite filter_cons. case_decide as E; simpl; intros H.
  - destruct IH as (s & Hs & Hz); [unfold nonzeros; lia|]. exists (S s). split; [lia|done].
  - exists 0%nat. split; [lia|]. simpl. destruct (Z.eq_dec x 0); [done|]. by exfalso.
Qed.

Lemma nonzeros_insert a h v : (h < length a)%nat -> nth h a 0 = 0 -> v <> 0 ->
  nonzeros (<[h := v]> a) ≡ₚ v :: nonzeros a.
Proof.
  revert h. induction a as [|x a IH]; intros [|h] Hh Hz Hv; simpl in *; try lia.
  - subst x. unfold nonzeros. rewrite !filter_cons. rewrite decide_True by done. by rewrite decide_False by tauto.
  - unfold nonzeros in *. rewrite !filter_cons. case_decide.
    + rewrite IH by (done || lia). apply Permutation_swap.
    + apply IH; [lia|done..].
Qed.

Lemma nth_insert_eq (a : list Z) h v : (h < length a)%nat -> nth h (<[h := v]> a) 0 = v.
Proof. intros H. apply nth_lookup_Some. by apply list_lookup_insert_eq. Qed.

Lemma nth_insert_ne (a : list Z) h s v : h <> s -> nth s (<[h := v]> a) 0 = nth s a 0.
Proof. intros H. by rewrite !nth_lookup, list_lookup_insert_ne. Qed.

(** A search decides membership, and a failed one ends where the value can go. *)
Lemma probe_mem a n v : table_ok a n -> n < Z.of_nat N -> v <> 0 ->
  exists b h, probe N a v (BITVEC_HASH (v - 1)) = Some (b, h) /\ (b = true <-> v ∈ nonzeros a) /\
    (b = false -> (h < N)%nat /\ nth h a 0 = 0 /\
       exists d, (d < N)%nat /\ walk (BITVEC_HASH (v - 1)) d = h /\
         forall d', (d' < d)%nat -> nth (walk (BITVEC_HASH (v - 1)) d') a 0 <> 0).
Proof.
  intros T Hn Hv. pose proof (tab_len _ _ T) as Hl. rewrite (tab_count _ _ T) in Hn.
  destruct (free_exists a) as (s & Hs & Hz); [lia|].
  destruct (walk_reach (BITVEC_HASH (v - 1)) s (hash_lt _) ltac:(lia)) as (d0 & Hd0 & Hw0).
  destruct (probe_spec a v N (BITVEC_HASH (v - 1)) (hash_lt _)) as (d & b & Hd & Hp & Hbef & Hend).
  { exists d0. by rewrite Hw0. }
  exists b, (walk (BITVEC_HASH (v - 1)) d). split; [done|]. split.
  - rewrite nonzeros_elem. split.
    + intros ->. split; [done|]. destruct Hend as [<- _]. apply list_elem_of_In, nth_In.
      rewrite Hl. apply walk_lt.
    + intros [_ Hin]. destruct b; [done|]. exfalso. apply list_elem_of_In, (In_nth _ _ 0) in Hin as (s' & Hs' & Hv').
      destruct (tab_reach _ _ T s') as (e & He & Hwe & Hocc); [lia|congruence|]. rewrite Hv' in *.
      destruct (Nat.lt_trichotomy d e) as [H|[->|H]].
      * by apply (Hocc d H).
      * rewrite Hwe in Hend. congruence.
      * destruct (Hbef e H) as [_ Hne]. by rewrite Hwe in Hne.
  - intros ->. split_and!; [apply walk_lt|done|]. exists d. split_and!; try done. intros d' H. by apply Hbef.
Qed.

Lemma table_insert a n v h : table_ok a n -> v <> 0 -> v ∉ nonzeros a -> (h < N)%nat -> nth h a 0 = 0 ->
  (exists d, (d < N)%nat /\ walk (BITVEC_HASH (v - 1)) d = h /\
     forall d', (d' < d)%nat -> nth (walk (BITVEC_HASH (v - 1)) d') a 0 <> 0) ->
  table_ok (<[h := v]> a) (n + 1) /\ (forall w, w ∈ nonzeros (<[h := v]> a) <-> w = v \/ w ∈ nonzeros a).
Proof.
  intros T Hv Hnew Hh Hz (d & Hd & Hw & Hocc). pose proof (tab_len _ _ T) as Hl.
  pose proof (nonzeros_insert a h v ltac:(lia) Hz Hv) as Hperm.
  assert (forall s, nth s a 0 <> 0 -> nth s (<[h := v]> a) 0 <> 0) as Hkeep.
  { intros s Hs. destruct (decide (h = s)) as [->|Hne]; [congruence|]. by rewrite nth_insert_ne. }
  split.
  - constructor.
    + by rewrite length_insert.
    + intros s Hs Hns. destruct (decide (h = s)) as [->|Hne].
      * rewrite nth_insert_eq in * by lia. exists d. split_and!; auto.
      * rewrite nth_insert_ne in * by done. destruct (tab_reach _ _ T s Hs Hns) as (e & He & Hwe & Ho).
        exists e. split_and!; auto.
    + rewrite Hperm. apply NoDup_cons. split; [done|apply T].
    + rewrite Hperm, (tab_count _ _ T). simpl. lia.
  - intros w. rewrite Hperm. apply elem_of_cons.
Qed.

Lemma free_slot_probe a v fuel h : v ∉ nonzeros a -> length a = N -> (h < N)%nat ->
  free_slot fuel a h = snd <$> probe fuel a v h.
Proof.
  intros Hv Hl. revert h. induction fuel as [|fuel IH]; intros h Hh; simpl; [done|].
  destruct (Z.eqb_spec (nth h a 0) 0) as [E|E]; [done|].
  destruct (Z.eqb_spec (nth h a 0) v) as [E'|E'].
  - exfalso. apply Hv, nonzeros_elem. split; [congruence|]. rewrite <- E'. apply list_elem_of_In, nth_In. lia.
  - apply IH. rewrite slot_next_walk by done. apply walk_lt.
Qed.

Lemma table_empty : table_ok (replicate N 0) 0 /\ nonzeros (replicate N 0) = [].
Proof.
  split; [|done]. constructor; try done; [|by constructor].
  intros s Hs H. exfalso. apply H. change (nth s (replicate N 0) 0 = 0). rewrite nth_lookup, lookup_replicate_2 by done. done.
Qed.

Lemma nonzeros_cons x l : nonzeros (x :: l) = if x =? 0 then nonzeros l else x :: nonzeros l.
Proof.
  unfold nonzeros. rewrite filter_cons. destruct (Z.eqb_spec x 0) as [->|H].
  - by rewrite decide_False by tauto.
  - by rewrite decide_True.
Qed.

Lemma rebuild_spec drop l a n : table_ok a n -> n + Z.of_nat (length (nonzeros l)) < Z.of_nat N ->
  NoDup (nonzeros l) -> (forall v, v ∈ nonzeros l -> v ∉ nonzeros a) ->
  exists a' n', foldl (fun acc x =>
      '(a, nSet) ← acc;
      if negb (x =? 0) && negb (x =? drop) then
        h ← free_slot BITVEC_NINT a (BITVEC_HASH (x - 1));
        Some (<[h := x]> a, u32 (nSet + 1))
      else Some (a, nSet)) (Some (a, n)) l = Some (a', n') /\
    table_ok a' n' /\ n' <= n + Z.of_nat (length (nonzeros l)) /\
    (forall v, v ∈ nonzeros a' <-> v ∈ nonzeros a \/ v ∈ nonzeros l /\ v <> drop).
Proof.
  revert a n. induction l as [|x l IH]; intros a n T Hn Hnd Hdis.
  { exists a, n. split_and!; try done; [unfold nonzeros; simpl; lia|]. intros v. unfold nonzeros at 3. rewrite filter_nil, elem_of_nil. tauto. }
  pose proof (tab_count _ _ T) as Hc. rewrite nonzeros_cons in *. cbn [foldl mbind option_bind].
  destruct (Z.eqb_spec x 0) as [->|Hx]; [by apply IH|].
  cbn [negb andb]. apply NoDup_cons in Hnd as [Hxl Hnd]. cbn [length] in *.
  destruct (Z.eqb_spec x drop) as [->|Hxd]; cbn [negb].
  { destruct (IH a n T) as (a' & n' & -> & T' & Hle & Hm); [lia|done|intros; apply Hdis; by right|].
    exists a', n'. split_and!; try done; [lia|]. intros v. rewrite Hm, elem_of_cons.
    split; [intros [H|[H1 H2]]|intros [H|[[->|H1] H2]]]; auto; done. }
  assert (x ∉ nonzeros a) as Hxa by (apply Hdis; left).
  destruct (probe_mem a n x T ltac:(lia) Hx) as (b & h & Hp & Hb & Hfree).
  rewrite (free_slot_probe a x N) by (done || apply T || apply hash_lt). rewrite Hp. cbn [fmap option_fmap option_map snd mbind option_bind].
  destruct b; [exfalso; apply Hxa; by apply Hb|]. destruct (Hfree eq_refl) as (Hh & Hz & Hpath).
  destruct (table_insert a n x h T Hx Hxa Hh Hz Hpath) as [T1 Hm1].
  rewrite wrapu_id by (unfold is_u, BITVEC_NINT in *; lia).
  destruct (IH (<[h:=x]> a) (n + 1) T1) as (a' & n' & -> & T' & Hle & Hm); [lia|done| |].
  - intros v Hv. rewrite Hm1. intros [->|?]; [done|]. eapply Hdis; [by right|done].
  - exists a', n'. split_and!; try done; [lia|]. intros v. rewrite Hm, Hm1, elem_of_cons.
    split; [intros [[->|H]|[H1 H2]]|intros [H|[[->|H1] H2]]]; auto.
Qed.

(** ** Well-formed vectors

    At level [k] the size is at most [3968 * 62^k]; a divided vector of level
    [k+1] has sub-vectors of level [k]. *)

Definition level_size (k : nat) : Z := BITVEC_NBIT * 62 ^ Z.of_nat k.

Fixpoint wf (k : nat) (p : Bitvec) : Prop :=
  match p with
  | Bitmap n a => 0 <= n <= BITVEC_NBIT /\ length a = BITVEC_NELEM /\ Forall is_byte a
  | Hashed n c a => BITVEC_NBIT < n <= level_size k /\ table_ok a c /\ c < Z.of_nat N /\
      (forall v, v ∈ nonzeros a -> 1 <= v <= n)
  | Divided n d subs =>
      match k with
      | O => False
      | S k' => BITVEC_NBIT < n <= level_size k /\ d = (n + 61) / 62 /\ length subs = BITVEC_NPTR /\
          (forall b q, subs !! b = Some (Some q) -> wf k' q /\ sqlite3BitvecSize q = d)
      end
  end.

(** The bit [i] (zero-based). *)
Definition bit (k : nat) (p : Bitvec) (i : Z) : bool := default false (test0 (S k) p i).

Lemma level_zero : level_size 0 = BITVEC_NBIT.
Proof. done. Qed.

Lemma level_succ k : level_size (S k) = 62 * level_size k.
Proof. unfold level_size. rewrite Nat2Z.inj_succ, Z.pow_succ_r by lia. ring. Qed.

Lemma level_ge k : BITVEC_NBIT <= level_size k.
Proof.
  unfold level_size, BITVEC_NBIT. pose proof (Z.pow_pos_nonneg 62 (Z.of_nat k) ltac:(lia) ltac:(lia)). lia.
Qed.

(** The divisor of a large vector. *)
Lemma divisor_bounds n k : BITVEC_NBIT < n <= level_size (S k) ->
  let d := (n + 61) / 62 in 0 < d <= level_size k /\ n <= 62 * d /\ d < n.
Proof. rewrite level_succ. unfold BITVEC_NBIT. cbv zeta. intros H. Z.to_euclidean_division_equations. lia. Qed.

Lemma bin_bounds i n d : 0 <= i < n -> n <= 62 * d -> 0 < d ->
  (Z.to_nat (i / d) < BITVEC_NPTR)%nat /\ 0 <= i mod d < d.
Proof.
  intros Hi Hn Hd. split; [|by apply Z.mod_pos_bound]. unfold BITVEC_NPTR.
  pose proof (Z.div_pos i d). pose proof (Z.div_lt_upper_bound i d 62 Hd). lia.
Qed.

Lemma create_wf k n : 0 <= n <= level_size k -> wf k (sqlite3BitvecCreate n) /\
  sqlite3BitvecSize (sqlite3BitvecCreate n) = n /\ forall i, 0 <= i < n -> bit k (sqlite3BitvecCreate n) i = false.
Proof.
  intros Hn. unfold sqlite3BitvecCreate. destruct (Z.leb_spec n BITVEC_NBIT) as [H|H].
  - split_and!; [|done|].
    + assert (Forall is_byte (replicate BITVEC_NELEM 0)) by (apply Forall_replicate; unfold is_u; lia).
      destruct k; simpl; split_and!; try done; lia.
    + intros i Hi. change (bitmap_test (replicate BITVEC_NELEM 0) i = false).
      unfold bitmap_test. rewrite nth_lookup. destruct (_ !! _) as [x|] eqn:E; [|done]. by apply lookup_replicate in E as [-> _].
  - destruct table_empty as [T E]. split_and!; [|done|].
    + assert (forall v, v ∈ nonzeros (replicate N 0) -> 1 <= v <= n) by (intros v; rewrite E; by intros ?%elem_of_nil).
      destruct k; simpl; split_and!; try done; lia.
    + intros i Hi. unfold bit. cbn [test0]. destruct (probe_mem _ 0 (i + 1) T) as (b & h & Hp & Hb & _); [done|lia|].
      replace (i + 1 - 1) with i in Hp by lia. rewrite Hp. simpl. rewrite E in Hb.
      destruct b; [|done]. pose proof (proj1 Hb eq_refl) as Hin. by apply elem_of_nil in Hin.
Qed.

(** ** Setting a bit *)

Lemma land7 i : 0 <= i -> Z.land i 7 = i mod 8.
Proof. intros. change 7 with (Z.ones 3). by rewrite Z.land_ones. Qed.

Lemma land_pow2 x b : 0 <= b -> negb (Z.land x (Z.shiftl 1 b) =? 0) = Z.testbit x b.
Proof.
  intros Hb. rewrite Z.shiftl_1_l. destruct (Z.testbit x b) eqn:E.
  - apply negb_true_iff, Z.eqb_neq. intros H. apply (f_equal (fun z => Z.testbit z b)) in H.
    by rewrite Z.land_spec, E, Z.pow2_bits_true, Z.bits_0 in H.
  - apply negb_false_iff, Z.eqb_eq, Z.bits_inj'. intros j Hj. rewrite Z.land_spec, Z.bits_0, Z.pow2_bits_eqb by done.
    destruct (Z.eqb_spec b j) as [<-|]; [by rewrite E|apply andb_false_r].
Qed.

Lemma bitmap_testbit a i : 0 <= i -> bitmap_test a i = Z.testbit (nth (Z.to_nat (i / 8)) a 0) (i mod 8).
Proof. intros Hi. unfold bitmap_test. rewrite land7, land_pow2 by (done || (apply Z.mod_pos_bound; lia)). done. Qed.

(** A store that changes one bit of one byte. *)
Lemma bitmap_update a i (f : Z -> Z) (g : bool) : 0 <= i < BITVEC_NBIT -> length a = BITVEC_NELEM ->
  (forall b, 0 <= b -> Z.testbit (f (nth (Z.to_nat (i / 8)) a 0)) b =
     if b =? i mod 8 then g else (b <? 8) && Z.testbit (nth (Z.to_nat (i / 8)) a 0) b) ->
  forall j, 0 <= j -> bitmap_test (<[Z.to_nat (i / 8) := f (nth (Z.to_nat (i / 8)) a 0)]> a) j =
    if j =? i then g else bitmap_test a j.
Proof.
  unfold BITVEC_NBIT, BITVEC_NELEM. intros Hi Hl Hf j Hj. rewrite !bitmap_testbit by done.
  assert (Z.to_nat (i / 8) < length a)%nat by (Z.to_euclidean_division_equations; lia).
  destruct (decide (Z.to_nat (j / 8) = Z.to_nat (i / 8))) as [E|E].
  - rewrite E, nth_insert_eq by done. rewrite Hf by (apply Z.mod_pos_bound; lia).
    assert (j / 8 = i / 8) by (Z.to_euclidean_division_equations; lia).
    replace (j mod 8 =? i mod 8) with (j =? i) by (Z.to_euclidean_division_equations; lia).
    replace (j mod 8 <? 8) with true by (Z.to_euclidean_division_equations; lia). done.
  - rewrite nth_insert_ne by done. destruct (Z.eqb_spec j i); [congruence|done].
Qed.

Lemma or_bit x i b : 0 <= i -> 0 <= b ->
  Z.testbit (u8 (Z.lor x (Z.shiftl 1 (Z.land i 7)))) b = if b =? i mod 8 then true else (b <? 8) && Z.testbit x b.
Proof.
  intros Hi Hb. pose proof (Z.mod_pos_bound i 8 ltac:(lia)).
  rewrite wrapu_land, Z.land_spec, Z.testbit_ones_nonneg, Z.lor_spec, land7, Z.shiftl_1_l, Z.pow2_bits_eqb by lia.
  destruct (Z.eqb_spec b (i mod 8)) as [->|Hne].
  - rewrite Z.eqb_refl, orb_true_r. simpl. lia.
  - replace (i mod 8 =? b) with false by lia. rewrite orb_false_r. apply andb_comm.
Qed.

Lemma clear_bit x i b : is_byte x -> 0 <= i -> 0 <= b ->
  Z.testbit (Z.ldiff x (Z.shiftl 1 (Z.land i 7))) b = if b =? i mod 8 then false else (b <? 8) && Z.testbit x b.
Proof.
  intros Hx Hi Hb. pose proof (Z.mod_pos_bound i 8 ltac:(lia)).
  rewrite Z.ldiff_spec, land7, Z.shiftl_1_l, Z.pow2_bits_eqb by lia.
  destruct (Z.eqb_spec b (i mod 8)) as [->|Hne].
  - rewrite Z.eqb_refl. apply andb_false_r.
  - replace (i mod 8 =? b) with false by lia. rewrite andb_true_r. destruct (Z.ltb_spec b 8); [done|].
    rewrite <- (wrapu_id 8 x Hx), wrapu_land, Z.land_spec, Z.testbit_ones_nonneg by lia.
    replace (b <? 8) with false by lia. apply andb_false_r.
Qed.

Lemma bitmap_byte a k v : Forall is_byte a -> is_byte v -> Forall is_byte (<[k := v]> a).
Proof. intros Ha Hv. by apply Forall_insert. Qed.

Definition is_divided (p : Bitvec) : bool := match p with Divided _ _ _ => true | _ => false end.

(** What setting bit [i] promises at level [k]. *)
Definition set_ok (k mem : nat) (p : Bitvec) (i : Z) (r : option (Bitvec * Z * nat)) : Prop :=
  exists p' rc mem', r = Some (p', rc, mem') /\ wf k p' /\ sqlite3BitvecSize p' = sqlite3BitvecSize p /\
    (is_divided p = true -> is_divided p' = true) /\
    (rc = SQLITE_OK \/ rc = SQLITE_NOMEM) /\ (mem' <= mem)%nat /\ (rc = SQLITE_NOMEM -> mem' = O) /\
    (forall j, 0 <= j < sqlite3BitvecSize p -> bit k p' j = true -> bit k p j = true \/ j = i) /\
    (rc = SQLITE_OK -> forall j, 0 <= j < sqlite3BitvecSize p -> bit k p' j = bit k p j || (j =? i)).

Lemma set_ok_intro k mem p i p' mem' : (mem' <= mem)%nat -> wf k p' -> sqlite3BitvecSize p' = sqlite3BitvecSize p ->
  (is_divided p = true -> is_divided p' = true) ->
  (forall j, 0 <= j < sqlite3BitvecSize p -> bit k p' j = bit k p j || (j =? i)) ->
  set_ok k mem p i (Some (p', SQLITE_OK, mem')).
Proof.
  intros Hm Hw Hs Hd Hb. exists p', SQLITE_OK, mem'. split_and!; try done; [by left|].
  intros j Hj H. rewrite (Hb j Hj) in H. apply orb_true_iff in H as [H|H]; [by left|right; lia].
Qed.

Lemma set_ok_mono k mem mem0 p i r : (mem <= mem0)%nat -> set_ok k mem p i r -> set_ok k mem0 p i r.
Proof.
  intros Hle (p' & rc & mem' & -> & H1 & H2 & H3 & H4 & H5 & H6). exists p', rc, mem'. split_and!; try done; [lia|by apply H6..].
Qed.

Lemma set_ok_nomem k mem p i : wf k p -> set_ok k mem p i (Some (p, SQLITE_NOMEM, O)).
Proof. intros Hw. exists p, SQLITE_NOMEM, O. split_and!; try done; [by right|lia|]. intros j Hj H. by left. Qed.

Lemma set_bitmap k fuel mem n a i : wf k (Bitmap n a) -> 0 <= i < n ->
  set_ok k mem (Bitmap n a) i (set0 (S fuel) mem (Bitmap n a) i).
Proof.
  intros Hw Hi. assert (0 <= n <= BITVEC_NBIT /\ length a = BITVEC_NELEM /\ Forall is_byte a) as (Hn & Hl & Ha) by (by destruct k).
  cbn [set0]. set (x := nth (Z.to_nat (i / 8)) a 0).
  assert (is_byte (u8 (Z.lor x (Z.shiftl 1 (Z.land i 7))))) as Hbyte by (apply wrapu_range; lia).
  apply set_ok_intro; [done| |done|done|].
  - destruct k; simpl; rewrite length_insert; split_and!; try done; try lia; by apply bitmap_byte.
  - intros j Hj. simpl in Hj.
    change (bit k (Bitmap n a) j) with (bitmap_test a j).
    change (bit k _ j) with (bitmap_test (<[Z.to_nat (i / 8) := u8 (Z.lor x (Z.shiftl 1 (Z.land i 7)))]> a) j).
    rewrite (bitmap_update a i (fun x => u8 (Z.lor x (Z.shiftl 1 (Z.land i 7)))) true) by
      (done || lia || (intros b Hb; apply or_bit; lia)).
    destruct (j =? i); [by rewrite orb_true_r|by rewrite orb_false_r].
Qed.

Lemma hashed_bit k n c a i : table_ok a c -> c < Z.of_nat N -> 0 <= i ->
  bit k (Hashed n c a) i = bool_decide (i + 1 ∈ nonzeros a).
Proof.
  intros T Hc Hi. unfold bit. cbn [test0].
  destruct (probe_mem a c (i + 1) T Hc ltac:(lia)) as (b & h & Hp & Hb & _).
  replace (i + 1 - 1) with i in Hp by lia. rewrite Hp. simpl. case_bool_decide; destruct b; naive_solver.
Qed.

Lemma set_end k n c a i h mem : wf k (Hashed n c a) -> 0 <= i < n -> c + 1 < Z.of_nat N -> i + 1 ∉ nonzeros a ->
  (h < N)%nat -> nth h a 0 = 0 ->
  (exists d, (d < N)%nat /\ walk (BITVEC_HASH i) d = h /\
     forall d', (d' < d)%nat -> nth (walk (BITVEC_HASH i) d') a 0 <> 0) ->
  set_ok k mem (Hashed n c a) i (Some (Hashed n (u32 (c + 1)) (<[h := i + 1]> a), SQLITE_OK, mem)).
Proof.
  intros Hw Hi Hc Hnew Hh Hz Hpath.
  assert (BITVEC_NBIT < n <= level_size k /\ table_ok a c /\ c < Z.of_nat N /\
    (forall v, v ∈ nonzeros a -> 1 <= v <= n)) as (Hn & T & _ & Hv) by (by destruct k).
  pose proof (tab_count _ _ T). rewrite wrapu_id by (unfold is_u, BITVEC_NINT in *; lia).
  destruct (table_insert a c (i + 1) h T) as [T' Hm]; try done; [lia|by replace (i + 1 - 1) with i by lia|].
  apply set_ok_intro; [done| |done|done|].
  - assert (forall v, v ∈ nonzeros (<[h:=i + 1]> a) -> 1 <= v <= n) by (intros v [->|Hin]%Hm; [lia|auto]).
    destruct k; simpl; split_and!; try done; lia.
  - intros j Hj. simpl in Hj. rewrite !hashed_bit by (done || lia). apply eq_true_iff_eq.
    rewrite orb_true_iff, !bool_decide_eq_true, Hm, Z.eqb_eq. split; [intros [?|?]; [right; lia|by left]|].
    intros [?| ->]; [by right|by left].
Qed.

Lemma divided_bit k n d subs j : bit (S k) (Divided n d subs) j =
  match subs !! Z.to_nat (j / d) with Some (Some q) => bit k q (j mod d) | _ => false end.
Proof. unfold bit. cbn [test0]. by destruct (subs !! Z.to_nat (j / d)) as [[q|]|]. Qed.

Lemma same_bin i j d : 0 < d -> 0 <= i -> 0 <= j -> Z.to_nat (j / d) = Z.to_nat (i / d) ->
  (j mod d =? i mod d) = (j =? i).
Proof.
  intros Hd Hi Hj E. pose proof (Z.div_pos i d). pose proof (Z.div_pos j d).
  assert (j / d = i / d) as Eq by lia. pose proof (Z.div_mod i d). pose proof (Z.div_mod j d). rewrite Eq in *.
  destruct (Z.eqb_spec j i) as [->|Hne]; [apply Z.eqb_refl|]. apply Z.eqb_neq. lia.
Qed.

(** Replacing the sub-vector of one bin. *)
Lemma divided_update k mem n d subs i q r : wf (S k) (Divided n d subs) -> 0 <= i < n ->
  (subs !! Z.to_nat (i / d) = Some (Some q) \/
   subs !! Z.to_nat (i / d) = Some None /\ wf k q /\ sqlite3BitvecSize q = d /\ forall j, 0 <= j < d -> bit k q j = false) ->
  set_ok k mem q (i mod d) r ->
  set_ok (S k) mem (Divided n d subs) i
    ('(q, rc, mem) ← r; Some (Divided n d (<[Z.to_nat (i / d) := Some q]> subs), rc, mem)).
Proof.
  intros (Hn & -> & Hl & Hsub) Hi Hq (q' & rc & mem' & -> & Hw' & Hs' & _ & Hrc & Hmem & Hout & Hsound & Hexact).
  destruct (divisor_bounds n k Hn) as (Hd & Hnd & _). set (d := (n + 61) / 62) in *.
  destruct (bin_bounds i n d Hi Hnd ltac:(lia)) as [Hbin Hmod].
  assert (sqlite3BitvecSize q = d) as Hqs by (destruct Hq as [Hq|(_ & _ & Hq & _)]; [by apply Hsub in Hq as [_ ?]|done]).
  rewrite Hqs in *.
  assert (forall j, 0 <= j < n -> Z.to_nat (j / d) = Z.to_nat (i / d) ->
    bit (S k) (Divided n d subs) j = bit k q (j mod d)) as Hold.
  { intros j Hj E. rewrite divided_bit, E. destruct Hq as [-> |(-> & _ & _ & Hz)]; [done|].
    symmetry. apply Hz. apply Z.mod_pos_bound. lia. }
  cbn [mbind option_bind]. exists (Divided n d (<[Z.to_nat (i / d):=Some q']> subs)), rc, mem'.
  split; [done|]. split.
  { simpl. rewrite length_insert. split_and!; try done; [lia..|]. intros b c Hb.
    destruct (decide (b = Z.to_nat (i / d))) as [->|Hne].
    - rewrite list_lookup_insert_eq in Hb by (unfold BITVEC_NPTR in *; lia). injection Hb as <-. by split.
    - rewrite list_lookup_insert_ne in Hb by done. by apply Hsub in Hb. }
  split; [done|]. split; [done|]. split; [done|]. split; [done|]. split; [done|].
  assert (forall j, 0 <= j < n -> bit (S k) (Divided n d (<[Z.to_nat (i / d):=Some q']> subs)) j =
    if decide (Z.to_nat (j / d) = Z.to_nat (i / d)) then bit k q' (j mod d) else bit (S k) (Divided n d subs) j) as Hnew.
  { intros j Hj. rewrite !divided_bit. case_decide as E.
    - by rewrite E, list_lookup_insert_eq by (unfold BITVEC_NPTR in *; lia).
    - by rewrite list_lookup_insert_ne by congruence. }
  simpl sqlite3BitvecSize. split.
  - intros j Hj H. rewrite (Hnew j Hj) in H. case_decide as E; [|by left].
    destruct (Hsound (j mod d)) as [H1|H1]; [apply Z.mod_pos_bound; lia|done|left; by rewrite Hold|].
    right. apply Z.eqb_eq. rewrite <- (same_bin i j d) by lia. by apply Z.eqb_eq.
  - intros Hok j Hj. rewrite (Hnew j Hj). case_decide as E.
    + rewrite (Hexact Hok) by (apply Z.mod_pos_bound; lia). rewrite Hold by done. by rewrite (same_bin i j d) by lia.
    + replace (j =? i) with false; [by rewrite orb_false_r|]. symmetry. apply Z.eqb_neq. congruence.
Qed.

(** Re-inserting the values of a full hash table. *)
Lemma set_all k fuel l : (forall mem p i, wf k p -> is_divided p = true -> 0 <= i < sqlite3BitvecSize p ->
    set_ok k mem p i (set0 fuel mem p i)) ->
  forall p rc mem, wf k p -> is_divided p = true -> rc = SQLITE_OK \/ rc = SQLITE_NOMEM -> (rc = SQLITE_NOMEM -> mem = O) ->
  (forall v, v ∈ nonzeros l -> 1 <= v <= sqlite3BitvecSize p) ->
  exists p' rc' mem', foldl (fun acc x =>
      '(p, rc, mem) ← acc;
      if x =? 0 then Some (p, rc, mem)
      else '(p, rc', mem) ← set0 fuel mem p (x - 1); Some (p, Z.lor rc rc', mem)) (Some (p, rc, mem)) l
    = Some (p', rc', mem') /\ wf k p' /\ sqlite3BitvecSize p' = sqlite3BitvecSize p /\
    (rc' = SQLITE_OK \/ rc' = SQLITE_NOMEM) /\ (mem' <= mem)%nat /\ (rc' = SQLITE_NOMEM -> mem' = O) /\
    (rc' = SQLITE_OK -> rc = SQLITE_OK) /\
    (forall j, 0 <= j < sqlite3BitvecSize p -> bit k p' j = true -> bit k p j = true \/ j + 1 ∈ nonzeros l) /\
    (rc' = SQLITE_OK -> forall j, 0 <= j < sqlite3BitvecSize p ->
       bit k p' j = bit k p j || bool_decide (j + 1 ∈ nonzeros l)).
Proof.
  intros Hset. induction l as [|x l IH]; intros p rc mem Hw Hd Hrc Hrm Hv.
  { exists p, rc, mem. split_and!; try done; [by left|]. intros _ j _. rewrite bool_decide_false by apply not_elem_of_nil.
    by rewrite orb_false_r. }
  rewrite nonzeros_cons in *. cbn [foldl mbind option_bind]. destruct (Z.eqb_spec x 0) as [->|Hx]; [by apply IH|].
  pose proof (Hv x ltac:(left)) as Hvx.
  destruct (Hset mem p (x - 1) Hw Hd ltac:(lia)) as (p1 & rc1 & mem1 & -> & Hw1 & Hs1 & Hd1 & Hrc1 & Hmem1 & Hout1 & Hsd1 & Hex1).
  cbn [mbind option_bind].
  destruct (IH p1 (Z.lor rc rc1) mem1 Hw1 (Hd1 Hd)) as (p2 & rc2 & mem2 & -> & Hw2 & Hs2 & Hrc2 & Hmem2 & Hout2 & Hz2 & Hsd2 & Hex2).
  { destruct Hrc as [->| ->], Hrc1 as [->| ->]; auto. }
  { destruct Hrc as [->| ->], Hrc1 as [->| ->]; intros E; try done; auto; specialize (Hrm eq_refl); lia. }
  { intros v Hvl. rewrite Hs1. apply Hv. by right. }
  exists p2, rc2, mem2. rewrite Hs1 in *. split_and!; try done; [lia|..].
  - intros E. specialize (Hz2 E). by apply Z.lor_eq_0_iff in Hz2 as [? _].
  - intros j Hj H. destruct (Hsd2 j Hj H) as [H1|H1]; [|right; by right].
    destruct (Hsd1 j Hj H1) as [?|E]; [by left|right]. replace (j + 1) with x by lia. left.
  - intros E j Hj. rewrite (Hex2 E j Hj). specialize (Hz2 E). apply Z.lor_eq_0_iff in Hz2 as [_ Hz1].
    rewrite (Hex1 Hz1 j Hj), <- orb_assoc. f_equal. apply eq_true_iff_eq.
    rewrite orb_true_iff, !bool_decide_eq_true, elem_of_cons, Z.eqb_eq. split; (intros [?|?]; [left; lia|by right]).
Qed.

Lemma fresh_divided k n : BITVEC_NBIT < n <= level_size (S k) ->
  let d := (n + Z.of_nat BITVEC_NPTR - 1) / Z.of_nat BITVEC_NPTR in
  wf (S k) (Divided n d (replicate BITVEC_NPTR None)) /\
  forall j, bit (S k) (Divided n d (replicate BITVEC_NPTR None)) j = false.
Proof.
  intros Hn d. split.
  - split_and!; [lia|lia| |by rewrite length_replicate|].
    + unfold d, BITVEC_NPTR. f_equal. lia.
    + intros b q Hb. by apply lookup_replicate in Hb as [? _].
  - intros j. rewrite divided_bit. destruct (_ !! _) as [o|] eqn:E; [|done]. by apply lookup_replicate in E as [-> _].
Qed.

Lemma set_divided k fuel : (forall mem p i, wf k p -> 0 <= i < sqlite3BitvecSize p -> set_ok k mem p i (set0 fuel mem p i)) ->
  forall mem p i, wf (S k) p -> is_divided p = true -> 0 <= i < sqlite3BitvecSize p ->
  set_ok (S k) mem p i (set0 (S fuel) mem p i).
Proof.
  intros IH mem [| |n d subs] i Hw Hd Hi; try done. simpl in Hi. pose proof Hw as (Hn & Ed & Hl & Hsub).
  destruct (divisor_bounds n k Hn) as (Hdp & Hnd & _). rewrite <- Ed in *.
  destruct (bin_bounds i n d Hi Hnd ltac:(lia)) as [Hbin Hmod].
  cbn [set0]. destruct (lookup_lt_is_Some_2 subs (Z.to_nat (i / d)) ltac:(lia)) as [[q|] Eq]; rewrite Eq; cbn [mbind option_bind].
  - destruct (Hsub _ _ Eq) as [Hwq Hsq]. apply (divided_update k _ n d subs i q _ Hw Hi); [by left|].
    apply IH; [done|by rewrite Hsq].
  - destruct mem as [|mem]; [by apply set_ok_nomem|]. destruct (create_wf k d) as (Hwc & Hsc & Hbc); [lia|].
    apply (set_ok_mono (S k) mem); [lia|]. apply (divided_update k _ n d subs i (sqlite3BitvecCreate d) _ Hw Hi); [by right|]. apply IH; [done|by rewrite Hsc].
Qed.

Lemma set_hashed k fuel mem n c a i :
  (forall mem p i, wf (S k) p -> is_divided p = true -> 0 <= i < sqlite3BitvecSize p -> set_ok (S k) mem p i (set0 fuel mem p i)) ->
  wf (S k) (Hashed n c a) -> 0 <= i < n -> set_ok (S k) mem (Hashed n c a) i (set0 (S fuel) mem (Hashed n c a) i).
Proof.
  intros IH Hw Hi. pose proof Hw as (Hn & T & Hc & Hv). pose proof (tab_count _ _ T) as Hcnt.
  destruct (probe_mem a c (i + 1) T Hc ltac:(lia)) as (b & h & Hp & Hb & Hfree).
  replace (i + 1 - 1) with i in * by lia. cbn [set0].
  assert (forall h', h' = h -> b = false -> set_ok (S k) mem (Hashed n c a) i
    (if c >=? BITVEC_MXHASH then
       match mem with
       | O => Some (Hashed n c a, SQLITE_NOMEM, O)
       | S mem => r ← set0 fuel mem (Divided n ((n + Z.of_nat BITVEC_NPTR - 1) / Z.of_nat BITVEC_NPTR) (replicate BITVEC_NPTR None)) i;
           foldl (fun acc x => '(p, rc, mem) ← acc;
             if x =? 0 then Some (p, rc, mem)
             else '(p, rc', mem) ← set0 fuel mem p (x - 1); Some (p, Z.lor rc rc', mem)) (Some r) a
       end
     else Some (Hashed n (u32 (c + 1)) (<[h' := i + 1]> a), SQLITE_OK, mem))) as Hre.
  { intros h' -> Eb. destruct (Hfree Eb) as (Hh & Hz & Hpath).
    destruct (Z.geb_spec c BITVEC_MXHASH) as [Hmx|Hmx].
    - destruct mem as [|mem]; [by apply set_ok_nomem|]. destruct (fresh_divided k n Hn) as [Hw0 Hb0].
      set (p0 := Divided n _ _) in *.
      destruct (IH mem p0 i Hw0 eq_refl Hi) as (p1 & rc1 & mem1 & -> & Hw1 & Hs1 & Hd1 & Hrc1 & Hmem1 & Hout1 & Hsd1 & Hex1).
      cbn [mbind option_bind]. change (sqlite3BitvecSize p0) with n in *.
      destruct (set_all (S k) fuel a IH p1 rc1 mem1 Hw1 (Hd1 eq_refl) Hrc1 Hout1) as (p2 & rc2 & mem2 & -> & Hw2 & Hs2 & Hrc2 & Hmem2 & Hout2 & Hz2 & Hsd2 & Hex2).
      { intros v. rewrite Hs1. apply Hv. }
      rewrite Hs1 in *. exists p2, rc2, mem2. split_and!; try done; [lia|..].
      + intros j Hj H. simpl in Hj. rewrite hashed_bit by (done || lia).
        destruct (Hsd2 j Hj H) as [H1|H1]; [|left; by apply bool_decide_eq_true].
        destruct (Hsd1 j Hj H1) as [H2|H2]; [by rewrite Hb0 in H2|by right].
      + intros E j Hj. simpl in Hj. rewrite (Hex2 E j Hj), (Hex1 (Hz2 E) j Hj), Hb0, hashed_bit by (done || lia).
        apply orb_comm.
    - apply set_end; try done; [unfold BITVEC_MXHASH, BITVEC_NINT in *; lia|]. rewrite <- Hb, Eb. done. }
  destruct (Z.eqb_spec (nth (BITVEC_HASH i) a 0) 0) as [E0|E0].
  - assert (probe N a (i + 1) (BITVEC_HASH i) = Some (false, BITVEC_HASH i)) as Hp'.
    { unfold BITVEC_NINT at 1. cbn [probe]. by rewrite E0. }
    rewrite Hp in Hp'. injection Hp' as -> ->. destruct (c <? _) eqn:Ec; [|by apply Hre].
    destruct (Hfree eq_refl) as (Hh & Hz & Hpath). apply set_end; try done; [unfold BITVEC_NINT in *; lia|].
    intros Hin. by apply Hb in Hin.
  - rewrite Hp. cbn [mbind option_bind]. destruct b; [|by apply Hre].
    apply set_ok_intro; try done. intros j Hj. simpl in Hj. rewrite !hashed_bit by (done || lia).
    destruct (Z.eqb_spec j i) as [->|]; [|by rewrite orb_false_r]. rewrite orb_true_r. apply bool_decide_eq_true. by apply Hb.
Qed.

Lemma set_spec k : forall fuel mem p i, (2 * k + 1 <= fuel)%nat -> wf k p -> 0 <= i < sqlite3BitvecSize p ->
  set_ok k mem p i (set0 fuel mem p i).
Proof.
  induction k as [|k IH]; intros fuel mem p i Hf Hw Hi; (destruct fuel as [|fuel]; [lia|]).
  - destruct p as [n a|n c a|n d subs]; [by apply set_bitmap| |done]. destruct Hw as [Hn _]. rewrite level_zero in Hn. lia.
  - destruct fuel as [|fuel]; [lia|]. destruct p as [n a|n c a|n d subs].
    + by apply set_bitmap.
    + apply set_hashed; try done. intros. apply set_divided; try done. intros. apply IH; [lia|done..].
    + apply set_divided; try done. intros. apply IH; [lia|done..].
Qed.

(** ** Clearing a bit *)

Lemma clear_bitmap_bit a i j : 0 <= i < BITVEC_NBIT -> length a = BITVEC_NELEM -> Forall is_byte a -> 0 <= j ->
  bitmap_test (<[Z.to_nat (i / 8) := Z.ldiff (nth (Z.to_nat (i / 8)) a 0) (Z.shiftl 1 (Z.land i 7))]> a) j =
  bitmap_test a j && negb (j =? i).
Proof.
  intros Hi Hl Ha Hj.
  assert (is_byte (nth (Z.to_nat (i / 8)) a 0)) as Hx.
  { apply Forall_nth; [done|]. rewrite Hl. unfold BITVEC_NBIT, BITVEC_NELEM in *. Z.to_euclidean_division_equations. lia. }
  rewrite (bitmap_update a i (fun x => Z.ldiff x (Z.shiftl 1 (Z.land i 7))) false) by
    (done || (intros b Hb; apply clear_bit; lia || done)).
  destruct (j =? i); [by rewrite andb_false_r|by rewrite andb_true_r].
Qed.

Lemma ldiff_byte x y : is_byte x -> 0 <= y -> is_byte (Z.ldiff x y).
Proof.
  intros Hx Hy. assert (Z.ldiff x y = u8 (Z.ldiff x y)) as ->; [|apply wrapu_range; lia].
  rewrite wrapu_land by lia. apply Z.bits_inj'. intros b Hb. rewrite Z.land_spec, !Z.ldiff_spec, Z.testbit_ones_nonneg by lia.
  destruct (Z.ltb_spec b 8); [by rewrite andb_true_r|].
  rewrite <- (wrapu_id 8 x Hx), wrapu_land, Z.land_spec, Z.testbit_ones_nonneg by lia.
  replace (b <? 8) with false by lia. by rewrite !andb_false_r.
Qed.

Lemma clear_spec k : forall fuel p i, (k < fuel)%nat -> wf k p -> 0 <= i < sqlite3BitvecSize p ->
  exists p', clear0 fuel p i = Some p' /\ wf k p' /\ sqlite3BitvecSize p' = sqlite3BitvecSize p /\
    forall j, 0 <= j < sqlite3BitvecSize p -> bit k p' j = bit k p j && negb (j =? i).
Proof.
  induction k as [|k IH]; intros fuel p i Hf Hw Hi; (destruct fuel as [|fuel]; [lia|]);
    destruct p as [n a|n c a|n d subs]; cbn [clear0]; try done.
  2: { destruct Hw as [Hn _]. rewrite level_zero in Hn. lia. }
  1,2: destruct Hw as (Hn & Hl & Ha); simpl in Hi; eexists; (split; [done|]); (split;
    [simpl; rewrite length_insert; split_and!; try done; try lia; apply bitmap_byte;
       [done|apply ldiff_byte; [apply Forall_nth; [done|]; rewrite Hl; unfold BITVEC_NBIT, BITVEC_NELEM in *;
          Z.to_euclidean_division_equations; lia|apply Z.shiftl_nonneg; lia]]|
     split; [done|intros j Hj; simpl in Hj; apply clear_bitmap_bit; done || lia]]).
  - destruct Hw as (Hn & T & Hc & Hv). simpl in Hi. pose proof (tab_count _ _ T) as Hcnt. destruct table_empty as [T0 E0].
    unfold rebuild. destruct (rebuild_spec (i + 1) a (replicate N 0) 0 T0) as (a' & n' & -> & T' & Hle & Hm).
    { lia. } { apply T. } { intros v _. rewrite E0. apply not_elem_of_nil. }
    cbn [mbind option_bind]. eexists. split; [done|]. split.
    { simpl. split_and!; try done; [lia..|]. intros v Hin. apply Hm in Hin as [Hin|[Hin _]]; [|auto].
      rewrite E0 in Hin. by apply elem_of_nil in Hin. }
    split; [done|]. intros j Hj. simpl in Hj. rewrite !hashed_bit by (done || lia). apply eq_true_iff_eq.
    rewrite andb_true_iff, !bool_decide_eq_true, Hm, E0, elem_of_nil, negb_true_iff, Z.eqb_neq.
    split; [intros [[]|[H1 H2]]; split; [done|lia]|intros [H1 H2]; right; split; [done|lia]].
  - pose proof Hw as (Hn & Ed & Hl & Hsub). simpl in Hi. destruct (divisor_bounds n k Hn) as (Hdp & Hnd & _). rewrite <- Ed in *.
    destruct (bin_bounds i n d Hi Hnd ltac:(lia)) as [Hbin Hmod].
    destruct (lookup_lt_is_Some_2 subs (Z.to_nat (i / d)) ltac:(lia)) as [[q|] Eq]; rewrite Eq; cbn [mbind option_bind].
    + destruct (Hsub _ _ Eq) as [Hwq Hsq]. destruct (IH fuel q (i mod d)) as (q' & -> & Hwq' & Hsq' & Hbit);
        [lia|done|by rewrite Hsq|]. cbn [mbind option_bind]. eexists. split; [done|]. split; [|split; [done|]].
      * simpl. rewrite length_insert. split_and!; try done; [lia..|]. intros b c Hb.
        destruct (decide (b = Z.to_nat (i / d))) as [->|Hne].
        -- rewrite list_lookup_insert_eq in Hb by lia. injection Hb as <-. split; [done|congruence].
        -- rewrite list_lookup_insert_ne in Hb by done. by apply Hsub in Hb.
      * intros j Hj. simpl in Hj. rewrite !divided_bit. destruct (decide (Z.to_nat (i / d) = Z.to_nat (j / d))) as [E|E].
        -- rewrite <- E, list_lookup_insert_eq, Eq by lia. rewrite Hbit by (rewrite Hsq; apply Z.mod_pos_bound; lia).
           by rewrite (same_bin i j d) by lia.
        -- rewrite list_lookup_insert_ne by done. replace (j =? i) with false; [by rewrite andb_true_r|].
           symmetry. apply Z.eqb_neq. congruence.
    + eexists. split; [done|]. split; [done|]. split; [done|]. intros j Hj. destruct (Z.eqb_spec j i) as [->|]; [|by rewrite andb_true_r].
      rewrite andb_false_r, divided_bit. by rewrite Eq.
Qed.

(** ** The vector as a set *)

Lemma test0_total k p i : wf k p -> 0 <= i < sqlite3BitvecSize p -> is_Some (test0 (S k) p i).
Proof.
  revert p i. induction k as [|k IH]; intros [n a|n c a|n d subs] i Hw Hi; cbn [test0]; try done.
  1,2: destruct Hw as (Hn & T & Hc & Hv); simpl in Hi;
    destruct (probe_mem a c (i + 1) T Hc ltac:(lia)) as (b & h & Hp & _);
    replace (i + 1 - 1) with i in Hp by lia; rewrite Hp; by eexists.
  pose proof Hw as (Hn & Ed & Hl & Hsub). simpl in Hi. destruct (divisor_bounds n k Hn) as (Hdp & Hnd & _). rewrite <- Ed in *.
  destruct (bin_bounds i n d Hi Hnd ltac:(lia)) as [Hbin Hmod].
  destruct (lookup_lt_is_Some_2 subs (Z.to_nat (i / d)) ltac:(lia)) as [[q|] Eq]; rewrite Eq; [|by eexists].
  destruct (Hsub _ _ Eq) as [Hwq Hsq]. apply IH; [done|by rewrite Hsq].
Qed.

Lemma test0_mono fuel p i b : test0 fuel p i = Some b -> test0 (S fuel) p i = Some b.
Proof.
  revert p i. induction fuel as [|fuel IH]; intros p i H; [done|].
  destruct p as [n a|n c a|n d subs]; try done. cbn [test0] in H |- *.
  destruct (subs !! _) as [[q|]|]; [|done..]. by apply IH.
Qed.

Lemma test0_fuel k fuel p i : wf k p -> 0 <= i < sqlite3BitvecSize p -> (k < fuel)%nat ->
  test0 fuel p i = Some (bit k p i).
Proof.
  intros Hw Hi Hf. unfold bit. destruct (test0_total k p i Hw Hi) as [b Hb]. rewrite Hb. simpl.
  induction Hf as [|fuel Hf IH]; [done|]. by apply test0_mono.
Qed.

(** The vectors the program can hold: 32-bit sizes need at most four levels. *)
Definition bv_ok (p : Bitvec) : Prop := 0 <= sqlite3BitvecSize p < 2 ^ 32 /\ wf 4 p.

Definition member (p : Bitvec) (i : Z) : bool :=
  match sqlite3BitvecTest (Some p) i with Some b => b | None => false end.

Lemma member_bit p i : bv_ok p -> 0 <= i < 2 ^ 32 ->
  sqlite3BitvecTest (Some p) i = Some (member p i) /\
  member p i = if decide (1 <= i <= sqlite3BitvecSize p) then bit 4 p (i - 1) else false.
Proof.
  intros [Hs Hw] Hi. unfold member. simpl. unfold sqlite3BitvecTestNotNull. case_decide as H.
  - rewrite wrapu_id by solve_width. replace (_ >=? _) with false by lia.
    rewrite (test0_fuel 4) by (done || lia || (unfold bitvec_fuel; lia)). done.
  - assert (u32 (i - 1) >= sqlite3BitvecSize p).
    { destruct (Z.eq_dec i 0) as [->|]; [change (u32 (0 - 1)) with (2 ^ 32 - 1); lia|].
      rewrite wrapu_id by solve_width. lia. }
    by replace (_ >=? _) with true by lia.
Qed.

Lemma create_ok n : 0 <= n < 2 ^ 32 -> bv_ok (sqlite3BitvecCreate n) /\
  forall i, 0 <= i < 2 ^ 32 -> member (sqlite3BitvecCreate n) i = false.
Proof.
  intros Hn. destruct (create_wf 4 n) as (Hw & Hs & Hb); [unfold level_size, BITVEC_NBIT; simpl; lia|].
  assert (bv_ok (sqlite3BitvecCreate n)) as Hok by (split; [by rewrite Hs|done]). split; [done|].
  intros i Hi. destruct (member_bit _ i Hok Hi) as [_ ->]. case_decide; [|done]. apply Hb. lia.
Qed.

(** C25. A bit vector implements a set of page numbers through all its changes
    of representation.  A new vector is empty; every test returns; setting a
    bit adds exactly that member when it reports success, which it does unless
    the allocator has run out, and even on failure adds no other member;
    clearing a bit removes exactly that member. *)
Theorem bitvec_implements_set (p : Bitvec) (i : Z) (mem : nat) : bv_ok p -> 1 <= i <= sqlite3BitvecSize p ->
  (forall j, 0 <= j < 2 ^ 32 -> sqlite3BitvecTest (Some p) j = Some (member p j)) /\
  (forall j, 0 <= j < 2 ^ 32 -> member (sqlite3BitvecCreate (sqlite3BitvecSize p)) j = false) /\
  (exists p' rc mem', sqlite3BitvecSet mem (Some p) i = Some (Some p', rc, mem') /\ bv_ok p' /\
     sqlite3BitvecSize p' = sqlite3BitvecSize p /\
     (rc = SQLITE_OK \/ rc = SQLITE_NOMEM /\ mem' = O) /\
     (forall j, 0 <= j < 2 ^ 32 -> member p' j = true -> member p j = true \/ j = i) /\
     (rc = SQLITE_OK -> forall j, 0 <= j < 2 ^ 32 -> member p' j = member p j || (j =? i))) /\
  (exists p', sqlite3BitvecClear (Some p) i = Some (Some p') /\ bv_ok p' /\
     sqlite3BitvecSize p' = sqlite3BitvecSize p /\
     forall j, 0 <= j < 2 ^ 32 -> member p' j = member p j && negb (j =? i)).
Proof.
  intros Hok Hi. pose proof Hok as [Hs Hw]. assert (u32 (i - 1) = i - 1) as Eu by (apply wrapu_id; unfold is_u; lia).
  split; [intros j Hj; by apply member_bit|]. split; [intros j Hj; by apply create_ok|]. split.
  - unfold sqlite3BitvecSet. rewrite Eu. destruct (set_spec 4 bitvec_fuel mem p (i - 1)) as (p' & rc & mem' & -> & Hw' & Hs' & _ & Hrc & _ & Hout & Hsd & Hex);
      [unfold bitvec_fuel; lia|done|lia|].
    assert (bv_ok p') as Hok' by (split; [by rewrite Hs'|done]).
    exists p', rc, mem'. split; [done|]. split; [done|]. split; [done|].
    split; [destruct Hrc as [?| ?]; [by left|right; auto]|]. split.
    + intros j Hj. destruct (member_bit p j Hok Hj) as [_ ->], (member_bit p' j Hok' Hj) as [_ ->]. rewrite Hs'.
      case_decide; [|done]. intros Hb. destruct (Hsd (j - 1) ltac:(lia) Hb); [by left|right; lia].
    + intros E j Hj. destruct (member_bit p j Hok Hj) as [_ ->], (member_bit p' j Hok' Hj) as [_ ->]. rewrite Hs'.
      case_decide; [|by replace (j =? i) with false by lia]. rewrite (Hex E) by lia. f_equal. lia.
  - unfold sqlite3BitvecClear. rewrite Eu. destruct (clear_spec 4 bitvec_fuel p (i - 1)) as (p' & -> & Hw' & Hs' & Hb);
      [unfold bitvec_fuel; lia|done|lia|].
    assert (bv_ok p') as Hok' by (split; [by rewrite Hs'|done]). exists p'. split; [done|]. split; [done|]. split; [done|].
    intros j Hj. destruct (member_bit p j Hok Hj) as [_ ->], (member_bit p' j Hok' Hj) as [_ ->]. rewrite Hs'.
    case_decide; [|done]. rewrite Hb by lia. do 2 f_equal. lia.
Qed.

Lemma bitvec_implements_set_witness : exists p' rc mem',
  sqlite3BitvecSet 3 (Some (sqlite3BitvecCreate 100000)) 77 = Some (Some p', rc, mem') /\ bv_ok p'.
Proof.
  destruct (bitvec_implements_set (sqlite3BitvecCreate 100000) 77 3) as (_ & _ & (p' & rc & mem' & H1 & H2 & _) & _).
  - apply create_ok. lia.
  - unfold sqlite3BitvecCreate. simpl. lia.
  - exists p', rc, mem'. split; [exact H1|exact H2].
Defined.
