(* ===== verification/Tokenize.v ===== *)
(** * The SQL tokenizer (SQLite's tokenize.c and keywordhash.h)

    [sqlite3GetToken] on a zero-terminated text, given as the list of its bytes
    and read as 0 past the end; the keyword lookup by perfect hashing; the
    look-ahead that decides WINDOW, OVER and FILTER; and the loop of
    [sqlite3RunParser] that feeds the tokens to the parser.  The parser itself
    is not modelled: it enters only through the decision to stop. *)

From S2P Require Import Prelude Ctype TokenTables.

Definition ch (z : list Z) (i : nat) : Z := nth i z 0.

(** [for(; P(z[i]); i++){}]: the number of bytes passed; [P] is false on 0. *)
Fixpoint run (P : Z -> bool) (z : list Z) : nat :=
  match z with
  | [] => 0%nat
  | c :: z' => if P c then S (run P z') else 0%nat
  end.

Definition is_not (k c : Z) : bool := negb (c =? k).
Definition in_keyword (c : Z) : bool := table aiClass c <=? CC_KYWD.

(** ** Keywords *)

Definition tabn (t : list Z) (i : nat) : Z := nth i t 0.

Definition keyword_hash (c0 cl : Z) (n : nat) : nat :=
  Z.to_nat (Z.lxor (Z.lxor (UpperToLower c0 * 4) (UpperToLower cl * 3)) (Z.of_nat n * 1) mod 127).

(** [while( j<n && (z[j]&~0x20)==zKW[j] ) j++], from the first byte, then [j>=n]. *)
Fixpoint keyword_match (z zKW : list Z) (n : nat) : bool :=
  match n with
  | O => true
  | S n => (Z.ldiff (hd 0 z) 0x20 =? hd 0 zKW) && keyword_match (tl z) (tl zKW) n
  end.

(** The walk along a collision chain; [i] is one more than the index. *)
Fixpoint keyword_chain (fuel : nat) (z : list Z) (n : nat) (i : Z) : option nat :=
  match fuel with
  | O => None
  | S fuel =>
      if i =? 0 then None
      else
        let k := Z.to_nat (i - 1) in
        if (tabn aKWLen k =? Z.of_nat n) && keyword_match z (drop (Z.to_nat (tabn aKWOffset k)) zKWText) n
        then Some k
        else keyword_chain fuel z n (tabn aKWNext k)
  end.

(** The index of the keyword [z[0..n-1]], if it is one. *)
Definition keyword_index (z : list Z) (n : nat) : option nat :=
  if (2 <=? n)%nat
  then keyword_chain 147 z n (tabn aKWHash (keyword_hash (ch z 0) (ch z (n - 1)) n))
  else None.

(** [keywordCode]: the token type, unchanged if there is no such keyword. *)
Definition keywordCode (z : list Z) (n : nat) (ty : Z) : Z :=
  match keyword_index z n with Some k => tabn aKWCode k | None => ty end.

Definition sqlite3KeywordCode (z : list Z) (n : nat) : Z := keywordCode z n TK_ID.

Definition SQLITE_N_KEYWORD : Z := 147.

Definition sqlite3_keyword_name (i : Z) : option (list Z) :=
  if (i <? 0) || (i >=? SQLITE_N_KEYWORD) then None
  else Some (take (Z.to_nat (tabn aKWLen (Z.to_nat i))) (drop (Z.to_nat (tabn aKWOffset (Z.to_nat i))) zKWText)).

Definition sqlite3_keyword_check (z : list Z) : bool := negb (sqlite3KeywordCode z (length z) =? TK_ID).

(** ** The loops of [sqlite3GetToken] *)

(** [for(i=3, c=z[2]; (c!='*' || z[i]!='/') && (c=z[i])!=0; i++){}]: the bytes
    passed and whether the end of the comment was found. *)
Fixpoint comment_loop (c : Z) (z : list Z) : nat * bool :=
  match z with
  | [] => (0%nat, false)
  | x :: z' =>
      if (c =? 42) && (x =? 47) then (0%nat, true)
      else let (n, b) := comment_loop x z' in (S n, b)
  end.

(** The loop of a quoted token: the bytes passed and the last [c]. *)
Fixpoint quote_loop (delim : Z) (z : list Z) : nat * Z :=
  match z with
  | [] => (0%nat, 0)
  | c :: z' =>
      if c =? delim then
        match z' with
        | c' :: z'' => if c' =? delim then let (n, c) := quote_loop delim z'' in (S (S n), c) else (0%nat, c)
        | [] => (0%nat, c)
        end
      else let (n, c) := quote_loop delim z' in (S n, c)
  end.

(** [for(i=1, c=z[0]; c!=']' && (c=z[i])!=0; i++){}] after the bracket. *)
Fixpoint bracket_loop (c : Z) (z : list Z) : nat * Z :=
  if c =? 93 then (0%nat, c)
  else
    match z with
    | [] => (0%nat, 0)
    | x :: z' => let (n, c) := bracket_loop x z' in (S n, c)
    end.

(** [do{ i++; }while( (c=z[i])!=0 && !sqlite3Isspace(c) && c!=')' )] after a
    parenthesis: the bytes passed and the last [c]. *)
Fixpoint paren_loop (z : list Z) : nat * Z :=
  match z with
  | [] => (0%nat, 0)
  | c :: z' => if sqlite3Isspace c || (c =? 41) then (0%nat, c) else let (n, c) := paren_loop z' in (S n, c)
  end.

(** The loop of a variable: the bytes passed, the count [n] of identifier
    characters and whether the token is illegal. *)
Fixpoint variable_loop (fuel : nat) (z : list Z) (n : nat) : nat * nat * bool :=
  match fuel with
  | O => (0%nat, n, false)
  | S fuel =>
      match z with
      | [] => (0%nat, n, false)
      | c :: z' =>
          if IdChar c then let '(k, n, ill) := variable_loop fuel z' (S n) in (S k, n, ill)
          else if (c =? 40) && (0 <? n)%nat then
            let (k, c') := paren_loop z' in
            if c' =? 41 then (S (S k), n, false) else (S k, n, true)
          else if (c =? 58) && (ch z' 0 =? 58) then
            let '(k, n, ill) := variable_loop fuel (tl z') n in (S (S k), n, ill)
          else (0%nat, n, false)
      end
  end.

(** ** [sqlite3GetToken]: length and type of the token at [z[0]] *)

(** The exponent and the illegal tail of a number whose mantissa ends at [i]. *)
Definition has_exponent (z : list Z) (i : nat) : bool :=
  ((ch z i =? 101) || (ch z i =? 69)) &&
  (sqlite3Isdigit (ch z (i + 1)) || ((ch z (i + 1) =? 43) || (ch z (i + 1) =? 45)) && sqlite3Isdigit (ch z (i + 2))).

Definition number_end (z : list Z) (i : nat) (ty : Z) : nat * Z :=
  let k := run IdChar (drop i z) in ((i + k)%nat, if (0 <? k)%nat then TK_ILLEGAL else ty).

Definition number_tail (z : list Z) (i : nat) (ty : Z) : nat * Z :=
  if has_exponent z i
  then number_end z (i + 2 + run sqlite3Isdigit (drop (i + 2) z)) TK_FLOAT
  else number_end z i ty.

Definition number_token (z : list Z) : nat * Z :=
  if (ch z 0 =? 48) && ((ch z 1 =? 120) || (ch z 1 =? 88)) && sqlite3Isxdigit (ch z 2) then
    ((3 + run sqlite3Isxdigit (drop 3 z))%nat, TK_INTEGER)
  else
    let i := run sqlite3Isdigit z in
    if ch z i =? 46
    then number_tail z (i + 1 + run sqlite3Isdigit (drop (i + 1) z)) TK_FLOAT
    else number_tail z i TK_INTEGER.

(** The common end: the rest of an identifier. *)
Definition id_token (z : list Z) (i : nat) : nat * Z := ((i + run IdChar (drop i z))%nat, TK_ID).

Definition blob_token (z : list Z) : nat * Z :=
  let i := (2 + run sqlite3Isxdigit (drop 2 z))%nat in
  let '(i, ty) :=
    if negb (ch z i =? 39) || Nat.odd i
    then ((i + run (is_not 39) (drop i z))%nat, TK_ILLEGAL) else (i, TK_BLOB) in
  ((if ch z i =? 0 then i else S i), ty).

Definition variable_token (z : list Z) : nat * Z :=
  let '(k, n, ill) := variable_loop (length z) (drop 1 z) 0 in
  ((1 + k)%nat, if (n =? 0)%nat || ill then TK_ILLEGAL else TK_VARIABLE).

Definition keyword_token (z : list Z) : nat * Z :=
  let i := (1 + run in_keyword (drop 1 z))%nat in
  if IdChar (ch z i) then id_token z (i + 1) else (i, keywordCode z i TK_ID).

Definition quote_token (z : list Z) : nat * Z :=
  let (n, c) := quote_loop (ch z 0) (drop 1 z) in
  if c =? 39 then ((1 + n + 1)%nat, TK_STRING)
  else if negb (c =? 0) then ((1 + n + 1)%nat, TK_ID)
  else ((1 + n)%nat, TK_ILLEGAL).

Definition sqlite3GetToken (z : list Z) : nat * Z :=
  let cc := table aiClass (ch z 0) in
  if cc =? CC_SPACE then ((1 + run sqlite3Isspace (drop 1 z))%nat, TK_SPACE)
  else if cc =? CC_MINUS then
    if ch z 1 =? 45 then ((2 + run (is_not 10) (drop 2 z))%nat, TK_SPACE)
    else if ch z 1 =? 62 then ((2 + (if (ch z 2 =? 62)%Z then 1 else 0))%nat, TK_PTR)
    else (1%nat, TK_MINUS)
  else if cc =? CC_LP then (1%nat, TK_LP)
  else if cc =? CC_RP then (1%nat, TK_RP)
  else if cc =? CC_SEMI then (1%nat, TK_SEMI)
  else if cc =? CC_PLUS then (1%nat, TK_PLUS)
  else if cc =? CC_STAR then (1%nat, TK_STAR)
  else if cc =? CC_SLASH then
    if negb (ch z 1 =? 42) || (ch z 2 =? 0) then (1%nat, TK_SLASH)
    else let (n, found) := comment_loop (ch z 2) (drop 3 z) in
         ((3 + n + (if found then 1 else 0))%nat, TK_SPACE)
  else if cc =? CC_PERCENT then (1%nat, TK_REM)
  else if cc =? CC_EQ then ((1 + (if (ch z 1 =? 61)%Z then 1 else 0))%nat, TK_EQ)
  else if cc =? CC_LT then
    if ch z 1 =? 61 then (2%nat, TK_LE) else if ch z 1 =? 62 then (2%nat, TK_NE)
    else if ch z 1 =? 60 then (2%nat, TK_LSHIFT) else (1%nat, TK_LT)
  else if cc =? CC_GT then
    if ch z 1 =? 61 then (2%nat, TK_GE) else if ch z 1 =? 62 then (2%nat, TK_RSHIFT) else (1%nat, TK_GT)
  else if cc =? CC_BANG then if negb (ch z 1 =? 61) then (1%nat, TK_ILLEGAL) else (2%nat, TK_NE)
  else if cc =? CC_PIPE then if negb (ch z 1 =? 124) then (1%nat, TK_BITOR) else (2%nat, TK_CONCAT)
  else if cc =? CC_COMMA then (1%nat, TK_COMMA)
  else if cc =? CC_AND then (1%nat, TK_BITAND)
  else if cc =? CC_TILDA then (1%nat, TK_BITNOT)
  else if cc =? CC_QUOTE then quote_token z
  else if (cc =? CC_DOT) && negb (sqlite3Isdigit (ch z 1)) then (1%nat, TK_DOT)
  else if (cc =? CC_DOT) || (cc =? CC_DIGIT) then number_token z
  else if cc =? CC_QUOTE2 then
    let (n, c) := bracket_loop (ch z 0) (drop 1 z) in ((1 + n)%nat, if c =? 93 then TK_ID else TK_ILLEGAL)
  else if cc =? CC_VARNUM then ((1 + run sqlite3Isdigit (drop 1 z))%nat, TK_VARIABLE)
  else if (cc =? CC_DOLLAR) || (cc =? CC_VARALPHA) then variable_token z
  else if cc =? CC_KYWD0 then keyword_token z
  else if (cc =? CC_X) && (ch z 1 =? 39) then blob_token z
  else if (cc =? CC_X) || (cc =? CC_KYWD) || (cc =? CC_ID) then id_token z 1
  else if cc =? CC_BOM then
    if (ch z 1 =? 0xbb) && (ch z 2 =? 0xbf) then (3%nat, TK_SPACE) else id_token z 1
  else if cc =? CC_NUL then (0%nat, TK_ILLEGAL)
  else (1%nat, TK_ILLEGAL).

(** ** Look-ahead *)

Definition sqlite3ParserFallback (t : Z) : Z := nth (Z.to_nat t) yyFallback 0.

(** [getToken]: the next token that is not space, and the text after it. *)
Fixpoint getToken (fuel : nat) (z : list Z) : option (Z * list Z) :=
  match fuel with
  | O => None
  | S fuel =>
      let (n, t) := sqlite3GetToken z in
      if t =? TK_SPACE then getToken fuel (drop n z)
      else
        Some (if (t =? TK_ID) || (t =? TK_STRING) || (t =? TK_JOIN_KW) || (t =? TK_WINDOW) || (t =? TK_OVER)
                || (sqlite3ParserFallback t =? TK_ID) then TK_ID else t, drop n z)
  end.

Definition analyzeWindowKeyword (z : list Z) : option Z :=
  '(t, z) ← getToken (S (length z)) z;
  if negb (t =? TK_ID) then Some TK_ID
  else '(t, _) ← getToken (S (length z)) z; Some (if negb (t =? TK_AS) then TK_ID else TK_WINDOW).

Definition analyzeOverKeyword (z : list Z) (lastToken : Z) : option Z :=
  if lastToken =? TK_RP then
    '(t, _) ← getToken (S (length z)) z;
    Some (if (t =? TK_LP) || (t =? TK_ID) then TK_OVER else TK_ID)
  else Some TK_ID.

Definition analyzeFilterKeyword (z : list Z) (lastToken : Z) : option Z :=
  if lastToken =? TK_RP then
    '(t, _) ← getToken (S (length z)) z; Some (if t =? TK_LP then TK_FILTER else TK_ID)
  else Some TK_ID.

(** ** Bounds: every token is non-empty and inside the text *)

Lemma ch_lt z i : ch z i <> 0 -> (i < length z)%nat.
Proof. intros H. destruct (Nat.lt_ge_cases i (length z)) as [|Hge]; [done|]. exfalso. apply H. by apply nth_overflow. Qed.

Lemma run_le P z : (run P z <= length z)%nat.
Proof. induction z as [|c z IH]; simpl; [lia|]. case_match; lia. Qed.

Lemma run_drop_le P z k : (run P (drop k z) <= length z - k)%nat.
Proof. pose proof (run_le P (drop k z)) as H. by rewrite length_drop in H. Qed.

Lemma comment_le c z : let (n, b) := comment_loop c z in (n + (if b then 1 else 0) <= length z)%nat.
Proof.
  revert c. induction z as [|x z IH]; intros c; simpl; [lia|].
  destruct ((c =? 42) && (x =? 47)); [lia|]. specialize (IH x). destruct (comment_loop x z). lia.
Qed.

Lemma quote_le d z : (fst (quote_loop d z) + (if (snd (quote_loop d z) =? 0)%Z then 0 else 1) <= length z)%nat.
Proof.
  assert (forall n z, (length z <= n)%nat ->
    (fst (quote_loop d z) + (if (snd (quote_loop d z) =? 0)%Z then 0 else 1) <= length z)%nat) as H; [|by apply (H (length z))].
  clear z. induction n as [|n IH]; intros z Hl; (destruct z as [|c z]; [simpl; lia|]); simpl in Hl; [lia|].
  cbn [quote_loop]. destruct (c =? d).
  - destruct z as [|c' z]; [cbn [fst snd length]; case_match; lia|]. simpl in Hl. destruct (c' =? d).
    + specialize (IH z ltac:(lia)). destruct (quote_loop d z). cbn [fst snd length] in *. lia.
    + cbn [fst snd length]. case_match; lia.
  - specialize (IH z ltac:(lia)). destruct (quote_loop d z). cbn [fst snd length] in *. lia.
Qed.

Lemma bracket_le c z : (fst (bracket_loop c z) <= length z)%nat.
Proof.
  revert c. induction z as [|x z IH]; intros c; simpl; (destruct (c =? 93); [simpl; lia|]); [simpl; lia|].
  specialize (IH x). destruct (bracket_loop x z). simpl in *. lia.
Qed.

Lemma paren_le z : let (n, c) := paren_loop z in (n + (if (c =? 0)%Z then 0 else 1) <= length z)%nat.
Proof.
  induction z as [|x z IH]; simpl; [lia|]. destruct (sqlite3Isspace x || (x =? 41)); [simpl; destruct (x =? 0); lia|].
  destruct (paren_loop z). lia.
Qed.

Lemma variable_le fuel z n : (fst (fst (variable_loop fuel z n)) <= length z)%nat.
Proof.
  revert z n. induction fuel as [|fuel IH]; intros z n; simpl; [lia|]. destruct z as [|c z]; [simpl; lia|].
  destruct (IdChar c).
  { specialize (IH z (S n)). destruct (variable_loop fuel z (S n)) as [[k n'] ill]. simpl in *. lia. }
  destruct ((c =? 40) && (0 <? n)%nat).
  { pose proof (paren_le z) as Hp. destruct (paren_loop z) as [k c']. destruct (Z.eqb_spec c' 41) as [->|]; simpl in *; [lia|].
    case_match; lia. }
  destruct ((c =? 58) && (ch z 0 =? 58)) eqn:E; [|simpl; lia].
  apply andb_true_iff in E as [_ E]. assert (0 < length z)%nat by (apply ch_lt; lia).
  specialize (IH (tl z) n). destruct (variable_loop fuel (tl z) n) as [[k n'] ill]. destruct z; simpl in *; lia.
Qed.

Ltac tok_bounds :=
  repeat match goal with
  | H : context [ch ?z ?i =? ?v] |- _ => destruct (Z.eqb_spec (ch z i) v); simpl in H; try discriminate H
  | |- context [if ch ?z ?i =? ?v then _ else _] => destruct (Z.eqb_spec (ch z i) v)
  | |- context [negb (ch ?z ?i =? ?v)] => destruct (Z.eqb_spec (ch z i) v); cbn [negb orb andb]
  end;
  repeat match goal with
  | H : ch ?z ?i = ?v |- _ => lazymatch goal with
      | _ : (i < length z)%nat |- _ => fail
      | _ => assert (i < length z)%nat by (apply ch_lt; rewrite H; discriminate) end
  | H : ch ?z ?i <> 0 |- _ => lazymatch goal with
      | _ : (i < length z)%nat |- _ => fail
      | _ => assert (i < length z)%nat by (by apply ch_lt) end
  | |- context [run ?P (drop ?k ?z)] => lazymatch goal with
      | _ : (run P (drop k z) <= length z - k)%nat |- _ => fail
      | _ => pose proof (run_drop_le P z k) end
  end; cbn [fst snd]; try lia.

Definition tok_ok (z : list Z) (r : nat * Z) : Prop := (1 <= fst r <= length z)%nat.

Lemma digit_ch_lt z i : sqlite3Isdigit (ch z i) = true -> (i < length z)%nat.
Proof. intros H. apply ch_lt. intros E. by rewrite E in H. Qed.

Lemma number_tail_ok z i ty : (1 <= i <= length z)%nat -> tok_ok z (number_tail z i ty).
Proof.
  intros Hi. unfold number_tail, number_end, tok_ok. destruct (has_exponent z i) eqn:Ex; cbn [fst].
  - assert (i + 1 < length z)%nat.
    { apply andb_true_iff in Ex as [_ Ex]. apply ch_lt. intros E'. by rewrite E' in Ex. }
    pose proof (run_drop_le sqlite3Isdigit z (i + 2)). set (k := (i + 2 + run _ _)%nat) in *.
    pose proof (run_drop_le IdChar z k). lia.
  - pose proof (run_drop_le IdChar z i). lia.
Qed.

Lemma number_ok z : sqlite3Isdigit (ch z 0) = true \/ ch z 0 = 46 -> tok_ok z (number_token z).
Proof.
  intros Hz. unfold number_token.
  assert (0 < length z)%nat as Hl by (destruct Hz as [H|H]; [by apply digit_ch_lt|apply ch_lt; rewrite H; done]).
  destruct (_ && _ && _) eqn:E.
  { apply andb_true_iff in E as [_ E]. assert (2 < length z)%nat by (apply ch_lt; intros E'; by rewrite E' in E).
    pose proof (run_drop_le sqlite3Isxdigit z 3). unfold tok_ok. cbn [fst]. lia. }
  clear E. set (i := run sqlite3Isdigit z). cbv zeta.
  assert ((i <= length z)%nat /\ (ch z i = 46 \/ (1 <= i)%nat)) as [Hi Hi1].
  { split; [apply run_le|]. unfold i. destruct z as [|c z]; [simpl in Hl; lia|]. destruct Hz as [H|H].
    - right. simpl in *. unfold ch in H. simpl in H. rewrite H. lia.
    - left. unfold ch in H. simpl in H. subst c. simpl. done. }
  destruct (Z.eqb_spec (ch z i) 46) as [E|E]; apply number_tail_ok.
  - assert (i < length z)%nat by (apply ch_lt; by rewrite E). pose proof (run_drop_le sqlite3Isdigit z (i + 1)). lia.
  - destruct Hi1; [done|lia].
Qed.

Lemma id_ok z i : (1 <= i <= length z)%nat -> tok_ok z (id_token z i).
Proof. intros H. unfold tok_ok, id_token. pose proof (run_drop_le IdChar z i). cbn [fst]. lia. Qed.

Lemma blob_ok z : (2 <= length z)%nat -> tok_ok z (blob_token z).
Proof.
  intros H. unfold blob_token, tok_ok. pose proof (run_drop_le sqlite3Isxdigit z 2).
  set (i := (2 + run _ _)%nat) in *. assert (1 <= i <= length z)%nat by lia. pose proof (run_drop_le (is_not 39) z i).
  assert (forall j, (1 <= j <= length z)%nat -> (1 <= (if (ch z j =? 0)%Z then j else S j) <= length z)%nat) as Hend.
  { intros j Hj. destruct (Z.eqb_spec (ch z j) 0) as [|Hn]; [lia|]. apply ch_lt in Hn. lia. }
  destruct (negb (ch z i =? 39) || Nat.odd i); cbn [fst]; apply Hend; lia.
Qed.

Lemma variable_ok z : (1 <= length z)%nat -> tok_ok z (variable_token z).
Proof.
  intros H. unfold variable_token, tok_ok. pose proof (variable_le (length z) (drop 1 z) 0) as Hv.
  rewrite length_drop in Hv. destruct (variable_loop _ _ _) as [[k n] ill]. cbn [fst snd] in *. lia.
Qed.

Lemma keyword_ok z : (1 <= length z)%nat -> tok_ok z (keyword_token z).
Proof.
  intros H. unfold keyword_token. pose proof (run_drop_le in_keyword z 1). set (i := (1 + run _ _)%nat) in *.
  assert (1 <= i <= length z)%nat by lia. destruct (IdChar (ch z i)) eqn:E.
  - apply id_ok. assert (i < length z)%nat by (apply ch_lt; intros E'; by rewrite E' in E). lia.
  - unfold tok_ok. cbn [fst]. lia.
Qed.

Lemma quote_ok z : (1 <= length z)%nat -> tok_ok z (quote_token z).
Proof.
  intros H. unfold quote_token, tok_ok. pose proof (quote_le (ch z 0) (drop 1 z)) as Hq. rewrite length_drop in Hq.
  destruct (quote_loop _ _) as [n c]. cbn [fst snd] in Hq.
  destruct (Z.eqb_spec c 39) as [->|]; [simpl in Hq |- *; lia|].
  destruct (Z.eqb_spec c 0); simpl in *; lia.
Qed.

Lemma gettoken_bounds z : cstring z -> z <> [] -> tok_ok z (sqlite3GetToken z).
Proof.
  intros Hz Hne. assert (1 <= length z)%nat as Hl by (destruct z; [done|simpl; lia]).
  assert (0 < ch z 0 < 256) as Hc by (destruct Hz; [done|done]).
  unfold sqlite3GetToken. set (cc := table aiClass (ch z 0)).
  assert (forall k t, (1 <= k <= length z)%nat -> tok_ok z (k, t)) as Hmk by done.
  assert (cc = CC_DIGIT -> sqlite3Isdigit (ch z 0) = true) as Hdig.
  { pose proof (all_bytes_spec (fun b => negb (table aiClass b =? CC_DIGIT) || sqlite3Isdigit b) (ch z 0) eq_refl
      (cstring_byte _ Hc)) as H. intros E. cbv beta in H. fold cc in H. rewrite E in H. done. }
  assert (cc = CC_DOT -> ch z 0 = 46) as Hdot.
  { pose proof (all_bytes_spec (fun b => negb (table aiClass b =? CC_DOT) || (b =? 46)) (ch z 0) eq_refl
      (cstring_byte _ Hc)) as H. intros E. cbv beta in H. fold cc in H. rewrite E in H. simpl in H. lia. }
  assert (cc <> CC_NUL) as Hnul.
  { pose proof (all_bytes_spec (fun b => (b =? 0) || negb (table aiClass b =? CC_NUL)) (ch z 0) eq_refl
      (cstring_byte _ Hc)) as H. cbv beta in H. fold cc in H. intros E. rewrite E in H. simpl in H. lia. }
  clearbody cc.
  repeat match goal with
  | |- tok_ok _ (if cc =? ?k then _ else _) => destruct (Z.eqb_spec cc k) as [?|_]
  end; try (apply Hmk; lia); try congruence.
  all: try (unfold tok_ok; tok_bounds; fail).
  - destruct (negb (ch z 1 =? 42) || (ch z 2 =? 0)) eqn:E; [by apply Hmk|]. apply orb_false_iff in E as [_ E].
    assert (2 < length z)%nat by (apply ch_lt; lia). pose proof (comment_le (ch z 2) (drop 3 z)) as Hx.
    destruct (comment_loop _ _) as [n f]. rewrite length_drop in Hx. apply Hmk. destruct f; lia.
  - by apply quote_ok.
  - destruct ((cc =? CC_DOT) && negb (sqlite3Isdigit (ch z 1))); [by apply Hmk|].
    destruct ((cc =? CC_DOT) || (cc =? CC_DIGIT)) eqn:E.
    { apply number_ok. apply orb_true_iff in E as [E|E]; [right; apply Hdot|left; apply Hdig]; lia. }
    destruct (cc =? CC_QUOTE2).
    { pose proof (bracket_le (ch z 0) (drop 1 z)) as Hx. rewrite length_drop in Hx.
      destruct (bracket_loop _ _) as [n c]. apply Hmk. cbn [fst] in Hx. lia. }
    destruct (cc =? CC_VARNUM); [pose proof (run_drop_le sqlite3Isdigit z 1); apply Hmk; lia|].
    destruct ((cc =? CC_DOLLAR) || (cc =? CC_VARALPHA)); [by apply variable_ok|].
    destruct (cc =? CC_KYWD0); [by apply keyword_ok|].
    destruct ((cc =? CC_X) && (ch z 1 =? 39)) eqn:Ex.
    { apply blob_ok. apply andb_true_iff in Ex as [_ Ex]. assert (1 < length z)%nat by (apply ch_lt; lia). lia. }
    destruct ((cc =? CC_X) || (cc =? CC_KYWD) || (cc =? CC_ID)); [apply id_ok; lia|].
    destruct (cc =? CC_BOM).
    { destruct ((ch z 1 =? 0xbb) && (ch z 2 =? 0xbf)) eqn:Eb; [|apply id_ok; lia].
      apply andb_true_iff in Eb as [_ Eb]. assert (2 < length z)%nat by (apply ch_lt; lia). apply Hmk. lia. }
    destruct (Z.eqb_spec cc CC_NUL); [done|]. by apply Hmk.
Qed.

(** ** The whole text as tokens *)

Fixpoint tokenize (fuel : nat) (z : list Z) : list (Z * list Z) :=
  match fuel, z with
  | S fuel, _ :: _ => let (n, t) := sqlite3GetToken z in (t, take n z) :: tokenize fuel (drop n z)
  | _, _ => []
  end.

Lemma cstring_drop n z : cstring z -> cstring (drop n z).
Proof. apply Forall_drop. Qed.

Lemma tokenize_partition fuel z : cstring z -> (length z <= fuel)%nat ->
  concat (snd <$> tokenize fuel z) = z /\ Forall (fun t => snd t <> []) (tokenize fuel z).
Proof.
  revert z. induction fuel as [|fuel IH]; intros z Hz Hl; destruct z as [|c z]; simpl in Hl; try lia; try done.
  cbn [tokenize]. pose proof (gettoken_bounds (c :: z) Hz ltac:(done)) as Hb. unfold tok_ok in Hb.
  destruct (sqlite3GetToken (c :: z)) as [n t]. cbn [fst] in Hb. cbn [fmap list_fmap snd concat].
  destruct (IH (drop n (c :: z))) as [H1 H2]; [by apply cstring_drop|rewrite length_drop; simpl; lia|].
  split; [by rewrite H1, take_drop|]. constructor; [|done]. simpl. destruct n; [lia|done].
Qed.

(** ** Keywords *)

Definition keyword_text (k : nat) : list Z := take (Z.to_nat (tabn aKWLen k)) (drop (Z.to_nat (tabn aKWOffset k)) zKWText).

Definition keyword_char (c : Z) : Prop := 65 <= c <= 90 \/ 97 <= c <= 122 \/ c = 95.

Definition upper (c : Z) : Z := Z.ldiff c 0x20.

Lemma keyword_match_spec z kw n : length z = n -> (n <= length kw)%nat ->
  keyword_match z kw n = true <-> upper <$> z = take n kw.
Proof.
  intros <-. revert kw. induction z as [|c z IH]; intros [|k kw] Hl; simpl in Hl; try lia; [done..|].
  cbn [keyword_match length hd tl take]. rewrite andb_true_iff, IH, Z.eqb_eq by lia. fold (upper c).
  cbn [fmap list_fmap]. split; [by intros [-> ->]|by intros [= -> ->]].
Qed.

Lemma keyword_tables_ok : forallb (fun k =>
    (Z.to_nat (tabn aKWOffset k) + Z.to_nat (tabn aKWLen k) <=? length zKWText)%nat && (0 <=? tabn aKWNext k) &&
    (tabn aKWNext k <=? 147) && (2 <=? tabn aKWLen k) && negb (tabn aKWCode k =? TK_ID)) (seq 0 147) = true /\
  forallb (fun h => (0 <=? tabn aKWHash h) && (tabn aKWHash h <=? 147)) (seq 0 127) = true.
Proof. vm_compute. done. Qed.

(** What a chain finds has the text looked for. *)
Lemma chain_sound fuel z n i k : length z = n -> 0 <= i <= 147 -> keyword_chain fuel z n i = Some k ->
  (k < 147)%nat /\ upper <$> z = keyword_text k.
Proof.
  intros Hl. revert i. induction fuel as [|fuel IH]; intros i Hi H; [done|]. cbn [keyword_chain] in H.
  destruct (Z.eqb_spec i 0); [done|]. set (j := Z.to_nat (i - 1)) in *. assert (j < 147)%nat as Hj by lia.
  destruct keyword_tables_ok as [Ht _]. rewrite forallb_forall in Ht. specialize (Ht j). rewrite in_seq in Ht.
  specialize (Ht ltac:(lia)). rewrite !andb_true_iff in Ht. destruct Ht as ((((H1 & H2) & H3) & H4) & _).
  destruct (_ && _) eqn:E.
  - injection H as <-. split; [done|]. apply andb_true_iff in E as [E1 E2]. apply Z.eqb_eq in E1.
    apply Nat.leb_le in H1. apply keyword_match_spec in E2; [|done|rewrite length_drop; lia].
    rewrite E2. unfold keyword_text. f_equal. lia.
  - apply IH in H; [done|lia].
Qed.

(** Every keyword is found, in its own chain. *)
Lemma keywords_found : forallb (fun k =>
    match keyword_index (keyword_text k) (length (keyword_text k)) with Some j => (j =? k)%nat | None => false end)
  (seq 0 147) = true.
Proof. vm_compute. done. Qed.

Lemma upper_char c : keyword_char c -> upper (upper c) = upper c /\ UpperToLower (upper c) = UpperToLower c.
Proof.
  intros H. assert (is_byte c) as Hb by (unfold is_u, keyword_char in *; change (2 ^ 8) with 256; lia).
  pose proof (all_bytes_spec (fun c => negb ((65 <=? c) && (c <=? 90) || (97 <=? c) && (c <=? 122) || (c =? 95)) ||
    ((upper (upper c) =? upper c) && (UpperToLower (upper c) =? UpperToLower c))) c eq_refl Hb) as P. cbv beta in P.
  unfold keyword_char in H. replace ((65 <=? c) && (c <=? 90) || (97 <=? c) && (c <=? 122) || (c =? 95)) with true in P by lia.
  cbn [negb orb] in P. lia.
Qed.

Lemma keyword_match_upper z kw n : Forall keyword_char z -> (n <= length z)%nat ->
  keyword_match (upper <$> z) kw n = keyword_match z kw n.
Proof.
  intros H. revert kw n. induction H as [|c z Hc Hz IH]; intros kw [|n] Hl; try done.
  cbn [fmap list_fmap keyword_match hd tl]. fold (upper (upper c)) (upper c). simpl in Hl.
  rewrite (proj1 (upper_char c Hc)). f_equal. apply IH. lia.
Qed.

Lemma keyword_chain_upper fuel z n i : Forall keyword_char z -> (n <= length z)%nat ->
  keyword_chain fuel (upper <$> z) n i = keyword_chain fuel z n i.
Proof.
  intros Hz Hl. revert i. induction fuel as [|fuel IH]; intros i; [done|]. cbn [keyword_chain].
  rewrite keyword_match_upper by done. by rewrite IH.
Qed.

Lemma ch_upper z i : Forall keyword_char z -> (i < length z)%nat -> UpperToLower (ch (upper <$> z) i) = UpperToLower (ch z i).
Proof.
  intros Hz Hi. unfold ch. rewrite nth_indep with (d' := upper 0) by (by rewrite length_fmap).
  change (upper <$> z) with (map upper z). rewrite map_nth. apply upper_char.
  by apply Forall_nth.
Qed.

Lemma keyword_index_upper z : Forall keyword_char z ->
  keyword_index (upper <$> z) (length z) = keyword_index z (length z).
Proof.
  intros Hz. unfold keyword_index. destruct (Nat.leb_spec 2 (length z)) as [Hl|]; [|done].
  rewrite keyword_chain_upper by done. unfold keyword_hash. rewrite !ch_upper by (done || lia). done.
Qed.

Lemma keyword_index_spec z k : Forall keyword_char z ->
  keyword_index z (length z) = Some k <-> (k < 147)%nat /\ upper <$> z = keyword_text k.
Proof.
  intros Hz. split.
  - unfold keyword_index. destruct (2 <=? length z)%nat; [|done]. apply chain_sound; [done|].
    destruct keyword_tables_ok as [_ Ht]. rewrite forallb_forall in Ht.
    set (h := keyword_hash _ _ _). assert (h < 127)%nat.
    { unfold h, keyword_hash. match goal with |- context [?x mod 127] => pose proof (Z.mod_pos_bound x 127) end. lia. }
    specialize (Ht h). rewrite in_seq in Ht. specialize (Ht ltac:(lia)). lia.
  - intros [Hk E]. rewrite <- keyword_index_upper by done.
    replace (length z) with (length (keyword_text k)) by (rewrite <- E; apply length_fmap). rewrite E.
    pose proof keywords_found as Hf. rewrite forallb_forall in Hf. specialize (Hf k). rewrite in_seq in Hf.
    specialize (Hf ltac:(lia)). destruct (keyword_index _ _) as [j|]; [|done]. apply Nat.eqb_eq in Hf as ->. done.
Qed.

(** C26. The perfect-hash lookup is a search of the keyword list: a word of
    letters and underscores has the type of keyword [k] exactly when it is that
    keyword up to case, and is an identifier when it is none of the 147. *)
Theorem keyword_lookup_correct (z : list Z) : Forall keyword_char z ->
  (forall k, keyword_index z (length z) = Some k <->
     (k < 147)%nat /\ Some (upper <$> z) = sqlite3_keyword_name (Z.of_nat k)) /\
  ((forall k, (k < 147)%nat -> Some (upper <$> z) <> sqlite3_keyword_name (Z.of_nat k)) <->
     sqlite3KeywordCode z (length z) = TK_ID).
Proof.
  intros Hz.
  assert (forall k, (k < 147)%nat -> sqlite3_keyword_name (Z.of_nat k) = Some (keyword_text k)) as Hn.
  { intros k Hk. unfold sqlite3_keyword_name, SQLITE_N_KEYWORD. replace (_ || _) with false by lia. by rewrite Nat2Z.id. }
  split.
  - intros k. rewrite keyword_index_spec by done. split; intros [Hk E]; (split; [done|]); rewrite Hn in * by done; congruence.
  - unfold sqlite3KeywordCode, keywordCode. destruct (keyword_index z (length z)) as [k|] eqn:E; split; intros H; try done.
    + apply keyword_index_spec in E as [Hk E]; [|done]. exfalso. apply (H k Hk). by rewrite Hn, E.
    + exfalso. apply keyword_index_spec in E as [Hk _]; [|done]. destruct keyword_tables_ok as [Ht _].
      rewrite forallb_forall in Ht. specialize (Ht k). rewrite in_seq in Ht. specialize (Ht ltac:(lia)).
      rewrite !andb_true_iff, negb_true_iff, Z.eqb_neq in Ht. tauto.
    + intros k Hk. rewrite Hn by done. intros [= E']. assert (keyword_index z (length z) = Some k); [|congruence].
      by apply keyword_index_spec.
Qed.

Lemma keyword_lookup_correct_witness : keyword_index [83; 101; 76; 69; 99; 116] 6 = Some 18%nat.
Proof.
  refine (proj2 (proj1 (keyword_lookup_correct [83; 101; 76; 69; 99; 116] _) 18%nat) _).
  - repeat constructor; unfold keyword_char; lia.
  - split; [lia|reflexivity].
Defined.

(** ** Quoted tokens *)

Lemma quote_loop_double q t rest : q <> 0 -> ~ In 0 t -> hd 0 rest <> q ->
  quote_loop q (double q t ++ q :: rest) = (length (double q t), q).
Proof.
  intros Hq Ht Hr. induction t as [|c t IH]; cbn [double app].
  - cbn [quote_loop]. rewrite Z.eqb_refl. destruct rest as [|c rest]; [done|]. simpl in Hr.
    by rewrite (proj2 (Z.eqb_neq c q) Hr).
  - simpl in Ht. destruct (Z.eqb_spec c q) as [->|Hn]; cbn [app quote_loop].
    + rewrite !Z.eqb_refl, IH by tauto. done.
    + rewrite (proj2 (Z.eqb_neq c q) Hn), IH by tauto. done.
Qed.

(** A quoted literal is one token, and removing its quotes gives the text. *)
Lemma quoted_token q t rest : q = 34 \/ q = 39 \/ q = 96 -> cstring t -> hd 0 rest <> q ->
  sqlite3GetToken ((q :: double q t ++ [q]) ++ rest) = (length (q :: double q t ++ [q]), if q =? 39 then TK_STRING else TK_ID) /\
  sqlite3Dequote (q :: double q t ++ [q]) = Some t.
Proof.
  intros Hq Ht Hr. split.
  - assert (sqlite3GetToken ((q :: double q t ++ [q]) ++ rest) = quote_token ((q :: double q t ++ [q]) ++ rest)) as ->.
    { destruct Hq as [->|[->| ->]]; done. }
    unfold quote_token. cbn [app drop ch nth]. rewrite drop_0, <- app_assoc. cbn [app].
    rewrite quote_loop_double; [|destruct Hq as [->|[->| ->]]; done| |done].
    + cbn [length]. rewrite length_app. cbn [length].
      destruct Hq as [->|[->| ->]]; simpl; f_equal; lia.
    + intros H0. unfold cstring in Ht. rewrite Forall_forall in Ht. apply list_elem_of_In in H0. specialize (Ht _ H0). simpl in Ht. lia.
  - unfold sqlite3Dequote. assert (sqlite3Isquote q = true) as -> by (destruct Hq as [->|[->| ->]]; done).
    replace (q =? 91) with false by lia. apply dequote_double. simpl. lia.
Qed.

(** C27. Tokenizing splits the text: every token is non-empty and inside the
    text, and the tokens put together are the text.  A quoted literal is one
    token, a string for single quotes and an identifier for the other two, and
    removing its quotes gives back the text that was quoted. *)
Theorem tokens_partition_text (z t rest : list Z) (q : Z) : cstring z ->
  q = 34 \/ q = 39 \/ q = 96 -> cstring t -> hd 0 rest <> q ->
  (z <> [] -> (1 <= fst (sqlite3GetToken z) <= length z)%nat) /\
  concat (snd <$> tokenize (length z) z) = z /\ Forall (fun t => snd t <> []) (tokenize (length z) z) /\
  (let lit := q :: double q t ++ [q] in
   sqlite3GetToken (lit ++ rest) = (length lit, if q =? 39 then TK_STRING else TK_ID) /\
   sqlite3Dequote lit = Some t).
Proof.
  intros Hz Hq Ht Hr. split; [by apply gettoken_bounds|].
  destruct (tokenize_partition (length z) z Hz ltac:(lia)) as [H1 H2]. split; [done|]. split; [done|].
  by apply quoted_token.
Qed.

Lemma tokens_partition_text_witness :
  sqlite3GetToken ((39 :: double 39 [105; 39; 115] ++ [39]) ++ [44]) = (6%nat, TK_STRING).
Proof.
  refine (proj1 (proj2 (proj2 (proj2 (tokens_partition_text [97] [105; 39; 115] [44] 39 _ _ _ _))))).
  - repeat constructor; lia.
  - lia.
  - repeat constructor; lia.
  - simpl. lia.
Defined.

(** ** Feeding the parser *)

Section RunParser.
(** The generated parser, through its verdict on the tokens seen so far, and the
    interrupt flag. *)
Context (parser_ok : list (Z * list Z) -> bool) (interrupted : list (Z * list Z) -> bool).

Inductive outcome : Type :=
| Finished                    (* the parser has seen the end *)
| TooBig                      (* SQLITE_TOOBIG *)
| Interrupted                 (* SQLITE_INTERRUPT *)
| Unrecognized (text : list Z)
| ParserStopped.              (* the parser set an error or is done *)

(** What [sqlite3RunParser] does with a token that is not space: [inl] ends the
    loop, [inr] is the type and length to feed the parser with. *)
Definition token_to_feed (z : list Z) (n : nat) (tokenType lastTokenParsed : Z) : option (outcome + (Z * nat)) :=
  if tokenType >=? TK_WINDOW then
    if ch z 0 =? 0 then
      if lastTokenParsed =? TK_SEMI then Some (inr (0, O))
      else if lastTokenParsed =? 0 then Some (inl Finished)
      else Some (inr (TK_SEMI, O))
    else if tokenType =? TK_WINDOW then t ← analyzeWindowKeyword (drop 6 z); Some (inr (t, n))
    else if tokenType =? TK_OVER then t ← analyzeOverKeyword (drop 4 z) lastTokenParsed; Some (inr (t, n))
    else if tokenType =? TK_FILTER then t ← analyzeFilterKeyword (drop 6 z) lastTokenParsed; Some (inr (t, n))
    else Some (inl (Unrecognized (take n z)))
  else Some (inr (tokenType, n)).

(** The loop; [fed] are the tokens passed to the parser so far. *)
Fixpoint feed (fuel : nat) (z : list Z) (lastTokenParsed mxSqlLen : Z) (fed : list (Z * list Z))
    : option (list (Z * list Z) * outcome) :=
  match fuel with
  | O => None
  | S fuel =>
      let (n, tokenType) := sqlite3GetToken z in
      let mxSqlLen := mxSqlLen - Z.of_nat n in
      if mxSqlLen <? 0 then Some (fed, TooBig)
      else if (tokenType >=? TK_WINDOW) && interrupted fed then Some (fed, Interrupted)
      else if tokenType =? TK_SPACE then feed fuel (drop n z) lastTokenParsed mxSqlLen fed
      else
        r ← token_to_feed z n tokenType lastTokenParsed;
        match r with
        | inl o => Some (fed, o)
        | inr (ty, n) =>
            let fed := fed ++ [(ty, take n z)] in
            if negb (parser_ok fed) then Some (fed, ParserStopped)
            else feed fuel (drop n z) ty mxSqlLen fed
        end
  end.

(** [mxSqlLen] is [SQLITE_LIMIT_SQL_LENGTH]. *)
Definition sqlite3RunParser (zSql : list Z) (mxSqlLen : Z) : option (list (Z * list Z) * outcome) :=
  feed (3 * length zSql + 4) zSql (-1) mxSqlLen [].

(** *** The loop ends, and the parser sees the whole text *)

Lemma getToken_total fuel z : cstring z -> (length z < fuel)%nat ->
  exists t z', getToken fuel z = Some (t, z') /\ cstring z' /\ (length z' <= length z)%nat.
Proof.
  revert z. induction fuel as [|fuel IH]; intros z Hz Hl; [lia|]. cbn [getToken].
  destruct (sqlite3GetToken z) as [n t] eqn:E. destruct (Z.eqb_spec t TK_SPACE) as [->|].
  - assert (z <> []) as Hne by (intros ->; vm_compute in E; discriminate E).
    pose proof (gettoken_bounds z Hz Hne) as Hb. rewrite E in Hb. unfold tok_ok in Hb. cbn [fst] in Hb.
    destruct (IH (drop n z)) as (t & z' & H1 & H2 & H3); [by apply cstring_drop|rewrite length_drop; lia|].
    exists t, z'. rewrite length_drop in H3. split_and!; try done. lia.
  - eexists _, _. split; [done|]. split; [by apply cstring_drop|rewrite length_drop; lia].
Qed.

Lemma window_total z : cstring z -> is_Some (analyzeWindowKeyword z).
Proof.
  intros Hz. unfold analyzeWindowKeyword. destruct (getToken_total (S (length z)) z Hz) as (t & z' & -> & Hz' & _); [lia|].
  cbn [mbind option_bind]. destruct (negb (t =? TK_ID)); [by eexists|].
  destruct (getToken_total (S (length z')) z' Hz') as (t' & z'' & -> & _); [lia|]. by eexists.
Qed.

Lemma over_total z l : cstring z -> is_Some (analyzeOverKeyword z l) /\ is_Some (analyzeFilterKeyword z l).
Proof.
  intros Hz. unfold analyzeOverKeyword, analyzeFilterKeyword.
  destruct (getToken_total (S (length z)) z Hz) as (t & z' & -> & _); [lia|]. destruct (l =? TK_RP); split; by eexists.
Qed.

Lemma token_to_feed_total z n ty l : cstring z -> is_Some (token_to_feed z n ty l).
Proof.
  intros Hz. unfold token_to_feed.
  destruct (window_total (drop 6 z) (cstring_drop _ _ Hz)) as [w ->].
  destruct (over_total (drop 4 z) l (cstring_drop _ _ Hz)) as [[o ->] _].
  destruct (over_total (drop 6 z) l (cstring_drop _ _ Hz)) as [_ [f ->]].
  repeat case_match; by eexists.
Qed.

Definition stage (last : Z) : nat := if last =? 0 then 1%nat else if last =? TK_SEMI then 2%nat else 3%nat.

(** A token passed on is the one read, except for the two at the end. *)
Lemma token_to_feed_spec z n ty l r : token_to_feed z n ty l = Some (inr r) ->
  z <> [] /\ snd r = n \/ z = [] /\ snd r = O /\ (l = TK_SEMI /\ fst r = 0 \/ l <> TK_SEMI /\ l <> 0 /\ fst r = TK_SEMI) \/
  z = [] /\ snd r = n /\ ty < TK_WINDOW \/ ch z 0 = 0 /\ z <> [].
Proof.
  unfold token_to_feed. destruct z as [|c z].
  - intros H. right. destruct (Z.geb_spec ty TK_WINDOW).
    + left. cbn [ch nth] in H. simpl in H. destruct (Z.eqb_spec l TK_SEMI).
      { injection H as <-. split_and!; [done|done|by left]. }
      destruct (Z.eqb_spec l 0); [done|]. injection H as <-. split_and!; [done|done|by right].
    + right. left. injection H as <-. simpl. split_and!; [done|done|lia].
  - intros H. destruct (Z.eqb_spec (ch (c :: z) 0) 0); [by right; right; right|]. left. split; [done|].
    destruct (ty >=? TK_WINDOW); [|by injection H as <-]. repeat case_match; try done;
      repeat match goal with H : (_ ≫= _) = Some _ |- _ => apply bind_Some in H as (? & _ & [= <-]) end; done.
Qed.

Lemma gettoken_nil : sqlite3GetToken [] = (0%nat, TK_ILLEGAL).
Proof. reflexivity. Qed.

Lemma feed_total fuel z last mx fed : cstring z -> (3 * length z + stage last < fuel)%nat ->
  is_Some (feed fuel z last mx fed).
Proof.
  revert z last mx fed. induction fuel as [|fuel IH]; intros z last mx fed Hz Hf; [lia|]. cbn [feed].
  destruct (sqlite3GetToken z) as [n ty] eqn:E.
  assert (z <> [] -> (1 <= n <= length z)%nat) as Hn.
  { intros Hne. pose proof (gettoken_bounds z Hz Hne) as Hb. by rewrite E in Hb. }
  destruct (_ <? 0); [by eexists|]. destruct (_ && _); [by eexists|].
  destruct (Z.eqb_spec ty TK_SPACE) as [->|Hs].
  { assert (z <> []) as Hne by (intros ->; rewrite gettoken_nil in E; discriminate E).
    specialize (Hn Hne). apply IH; [by apply cstring_drop|rewrite length_drop; lia]. }
  destruct (token_to_feed_total z n ty last Hz) as [r Er]. rewrite Er. simpl.
  destruct r as [o|[ty' n']]; [by eexists|]. destruct (negb _); [by eexists|].
  apply token_to_feed_spec in Er. apply IH; [by apply cstring_drop|]. rewrite length_drop.
  destruct Er as [[Hne E']|[(-> & E' & Hst)|[(-> & E' & Hlt)|[H0 Hne]]]]; simpl in *.
  - subst n'. specialize (Hn Hne). unfold stage in *. repeat case_match; lia.
  - subst n'. unfold stage in *. destruct Hst as [[-> ->]|(H1 & H2 & ->)]; simpl in *; [lia|].
    destruct (Z.eqb_spec last 0); [done|]. destruct (Z.eqb_spec last TK_SEMI); [done|]. lia.
  - rewrite gettoken_nil in E. injection E as _ <-. by vm_compute in Hlt.
  - exfalso. destruct Hz; [done|]. cbn [ch nth] in H0. unfold ch in H0. simpl in H0. lia.
Qed.

Lemma chain_bound fuel z n i k : 0 <= i <= 147 -> keyword_chain fuel z n i = Some k -> (k < 147)%nat.
Proof.
  revert i. induction fuel as [|fuel IH]; intros i Hi H; [done|]. cbn [keyword_chain] in H.
  destruct (Z.eqb_spec i 0); [done|]. destruct (_ && _); [injection H as <-; lia|]. apply IH in H; [done|].
  destruct keyword_tables_ok as [Ht _]. rewrite forallb_forall in Ht. specialize (Ht (Z.to_nat (i - 1))).
  rewrite in_seq in Ht. specialize (Ht ltac:(lia)). rewrite !andb_true_iff in Ht. lia.
Qed.

Lemma keyword_code_nonzero z n ty : ty <> 0 -> keywordCode z n ty <> 0.
Proof.
  intros Hty. unfold keywordCode. destruct (keyword_index z n) as [k|] eqn:E; [|done].
  unfold keyword_index in E. destruct (2 <=? n)%nat; [|done]. apply chain_bound in E.
  - assert (forallb (fun k => negb (tabn aKWCode k =? 0)) (seq 0 147) = true) as Hf by (vm_compute; done).
    rewrite forallb_forall in Hf. specialize (Hf k). rewrite in_seq in Hf. specialize (Hf ltac:(lia)). lia.
  - destruct keyword_tables_ok as [_ Ht]. rewrite forallb_forall in Ht. set (h := keyword_hash _ _ _).
    assert (h < 127)%nat.
    { unfold h, keyword_hash. match goal with |- context [?x mod 127] => pose proof (Z.mod_pos_bound x 127) end. lia. }
    specialize (Ht h). rewrite in_seq in Ht. specialize (Ht ltac:(lia)). lia.
Qed.

Lemma gettoken_type z : snd (sqlite3GetToken z) <> 0.
Proof.
  unfold sqlite3GetToken, quote_token, number_token, number_tail, number_end, variable_token, keyword_token, blob_token, id_token.
  repeat match goal with
  | |- snd (if ?b then _ else _) <> 0 => destruct b
  | |- snd (let (_, _) := (if ?b then _ else _) in _) <> 0 => destruct b
  | |- snd (let (_, _) := ?x in _) <> 0 => destruct x
  | |- snd (_, keywordCode _ _ _) <> 0 => apply keyword_code_nonzero
  | |- snd (_, if ?b then _ else _) <> 0 => destruct b
  end; try discriminate.
Qed.

Lemma token_to_feed_type z n ty l ty' n' : ty <> 0 -> token_to_feed z n ty l = Some (inr (ty', n')) ->
  ty' = 0 -> z = [] /\ l = TK_SEMI \/ ch z 0 = 0 /\ l = TK_SEMI.
Proof.
  intros Hty H E. unfold token_to_feed in H.
  destruct (ty >=? TK_WINDOW); [|injection H as -> _; done].
  destruct (Z.eqb_spec (ch z 0) 0) as [E0|_].
  - destruct (Z.eqb_spec l TK_SEMI) as [|]; [by right|]. destruct (l =? 0); [done|]. injection H as <- _. done.
  - unfold analyzeWindowKeyword, analyzeOverKeyword, analyzeFilterKeyword in H.
    repeat (case_match; try done);
    repeat match goal with
      | H : (_ ≫= _) = Some _ |- _ => apply bind_Some in H as (? & ? & ?)
      | H : (let '(_, _) := ?x in _) = Some _ |- _ => destruct x
      | H : (if ?b then _ else _) = Some _ |- _ => destruct b
      | H : Some _ = Some _ |- _ => injection H as ?
      end; subst; try done; repeat case_match; subst; done.
Qed.

(** The tokens of the text the parser is meant to see. *)
Definition significant (z : list Z) : list (list Z) :=
  snd <$> filter (fun t => fst t <> TK_SPACE) (tokenize (length z) z).

Lemma tokenize_fuel f z : cstring z -> (length z <= f)%nat -> tokenize f z = tokenize (length z) z.
Proof.
  assert (forall n f g z, cstring z -> (length z <= n)%nat -> (length z <= f)%nat -> (length z <= g)%nat -> tokenize f z = tokenize g z) as H.
  { clear f z. induction n as [|n IH]; intros f g z Hz Hn Hf Hg; (destruct z as [|c z]; [by destruct f, g|]); [simpl in Hn; lia|].
    destruct f as [|f], g as [|g]; simpl in Hf, Hg; try lia. cbn [tokenize].
    pose proof (gettoken_bounds (c :: z) Hz ltac:(done)) as Hb. unfold tok_ok in Hb.
    destruct (sqlite3GetToken (c :: z)) as [k t]. cbn [fst] in Hb. f_equal.
    simpl in Hn, Hb. apply IH; rewrite ?length_drop; cbn [length]; try lia. by apply cstring_drop. }
  intros Hz Hl. by apply (H (length z)).
Qed.

Lemma significant_step z n ty : cstring z -> z <> [] -> sqlite3GetToken z = (n, ty) ->
  significant z = (if ty =? TK_SPACE then [] else [take n z]) ++ significant (drop n z).
Proof.
  intros Hz Hne E. pose proof (gettoken_bounds z Hz Hne) as Hb. rewrite E in Hb. unfold tok_ok in Hb. cbn [fst] in Hb.
  unfold significant. destruct z as [|c z]; [done|]. cbn [length tokenize]. rewrite E.
  rewrite (tokenize_fuel (length z)) by (try apply cstring_drop; try done; rewrite length_drop; simpl in *; lia).
  rewrite filter_cons. cbn [fst]. destruct (Z.eqb_spec ty TK_SPACE) as [->|Hn].
  - by rewrite decide_False by tauto.
  - by rewrite decide_True.
Qed.

Lemma feed_finished fuel z last mx fed fed' : cstring z ->
  (last = TK_SEMI -> exists l x, fed = l ++ [(TK_SEMI, x)]) ->
  (last = 0 -> z = [] /\ exists l x, fed = l ++ [(TK_SEMI, x); (0, [])]) ->
  feed fuel z last mx fed = Some (fed', Finished) ->
  filter (.≠ []) (snd <$> fed') = filter (.≠ []) (snd <$> fed) ++ significant z /\
  exists l x, fed' = l ++ [(TK_SEMI, x); (0, [])].
Proof.
  revert z last mx fed. induction fuel as [|fuel IH]; intros z last mx fed Hz Hsemi Hzero H; [done|]. cbn [feed] in H.
  destruct (sqlite3GetToken z) as [n ty] eqn:E.
  destruct (_ <? 0); [done|]. destruct (_ && interrupted fed); [done|].
  destruct (Z.eqb_spec ty TK_SPACE) as [->|Hs].
  { assert (z <> []) as Hne by (intros ->; rewrite gettoken_nil in E; discriminate E).
    rewrite (significant_step z n TK_SPACE Hz Hne E). simpl. eapply IH; [by apply cstring_drop|exact Hsemi| |exact H].
    intros E0. destruct (Hzero E0) as [? _]. done. }
  apply bind_Some in H as (r & Er & H). destruct r as [o|[ty' n']].
  { injection H as -> ->. unfold token_to_feed in Er.
    destruct (ty >=? TK_WINDOW); [|done].
    assert (z = [] /\ last = 0) as [-> ->].
    { destruct (Z.eqb_spec (ch z 0) 0) as [E0|_].
      - destruct (last =? TK_SEMI); [done|]. destruct (Z.eqb_spec last 0) as [->|]; [|done]. by destruct (Hzero eq_refl).
      - repeat case_match; try done; apply bind_Some in Er as (? & _ & ?); done. }
    destruct (Hzero eq_refl) as [_ Hend]. split; [|done]. unfold significant. simpl. by rewrite app_nil_r. }
  destruct (negb _); [done|].
  assert (ch z 0 = 0 -> z = []) as Hch by (destruct Hz; [done|]; unfold ch; simpl; lia).
  assert (Hty : ty <> 0) by (pose proof (gettoken_type z) as Ht; by rewrite E in Ht).
  pose proof (token_to_feed_type _ _ _ _ _ _ Hty Er) as Ht0. apply token_to_feed_spec in Er. cbn [fst snd] in Er.
  apply IH in H; [|by apply cstring_drop| |].
  - destruct H as [H Hend]. split; [|done]. rewrite H, fmap_app, filter_app, <- app_assoc. f_equal. cbn [fmap list_fmap snd].
    destruct Er as [[Hne ->]|[(-> & -> & _)|[(-> & -> & Hlt)|[H0 Hne]]]].
    + rewrite (significant_step z n ty Hz Hne E). destruct (Z.eqb_spec ty TK_SPACE); [done|]. f_equal.
      pose proof (gettoken_bounds z Hz Hne) as Hb. rewrite E in Hb. unfold tok_ok in Hb. cbn [fst] in Hb.
      rewrite filter_cons, decide_True; [done|]. destruct z, n; simpl in *; try lia; done.
    + done.
    + rewrite gettoken_nil in E. injection E as _ <-. by vm_compute in Hlt.
    + exfalso. auto.
  - intros ->. by exists fed, (take n' z).
  - intros ->. assert (z = [] /\ last = TK_SEMI) as [-> ->] by (destruct (Ht0 eq_refl) as [?|[? ?]]; auto).
    split; [by rewrite drop_nil|]. destruct (Hsemi eq_refl) as (l & x & ->). exists l, x. rewrite <- app_assoc. simpl. by rewrite take_nil.
Qed.

End RunParser.

