(* ===== verification/Complete.v ===== *)
(** * Is this SQL text complete? (SQLite's complete.c)

    [sqlite3_complete] scans a text into eight kinds of tokens and runs a state
    machine with eight states, which must see [";END;"] before a CREATE TRIGGER
    statement is complete.  The scanner keeps the remaining text in place of the
    pointer; the transition table is the source's. *)

From S2P Require Import Prelude Ctype.

Definition tkSEMI : Z := 0.
Definition tkWS : Z := 1.
Definition tkOTHER : Z := 2.
Definition tkEXPLAIN : Z := 3.
Definition tkCREATE : Z := 4.
Definition tkTEMP : Z := 5.
Definition tkTRIGGER : Z := 6.
Definition tkEND : Z := 7.

Definition trans : list (list Z) :=
  [[1; 0; 2; 3; 4; 2; 2; 2];
   [1; 1; 2; 3; 4; 2; 2; 2];
   [1; 2; 2; 2; 2; 2; 2; 2];
   [1; 3; 3; 2; 4; 2; 2; 2];
   [1; 4; 2; 2; 2; 4; 5; 2];
   [6; 5; 5; 5; 5; 5; 5; 5];
   [6; 6; 5; 5; 5; 5; 5; 7];
   [1; 7; 5; 5; 5; 5; 5; 5]].

Definition next_state (state token : Z) : Z := nth (Z.to_nat token) (nth (Z.to_nat state) trans []) 0.

(** [while( *zSql && *zSql!=c ) zSql++]: the text from the byte found. *)
Fixpoint skip_to (c : Z) (z : list Z) : list Z :=
  match z with
  | [] => []
  | x :: z' => if x =? c then z else skip_to c z'
  end.

(** [while( zSql[0] && (zSql[0]!='*' || zSql[1]!='/') ) zSql++]. *)
Fixpoint skip_comment (z : list Z) : list Z :=
  match z with
  | [] => []
  | x :: z' => if (x =? 42) && (hd 0 z' =? 47) then z else skip_comment z'
  end.

(** The identifier at the front. *)
Fixpoint id_run (z : list Z) : nat :=
  match z with
  | [] => 0%nat
  | c :: z' => if IdChar c then S (id_run z') else 0%nat
  end.

Definition kw_create : list Z := [99; 114; 101; 97; 116; 101].
Definition kw_trigger : list Z := [116; 114; 105; 103; 103; 101; 114].
Definition kw_temp : list Z := [116; 101; 109; 112].
Definition kw_temporary : list Z := [116; 101; 109; 112; 111; 114; 97; 114; 121].
Definition kw_end : list Z := [101; 110; 100].
Definition kw_explain : list Z := [101; 120; 112; 108; 97; 105; 110].

Definition is_kw (z : list Z) (nId : nat) (kw : list Z) : bool :=
  (nId =? length kw)%nat && (strnicmp_loop (length kw) z kw =? 0).

(** The switch on the first letter of an identifier. *)
Definition id_token_kind (z : list Z) (nId : nat) : Z :=
  let c := hd 0 z in
  if (c =? 99) || (c =? 67) then if is_kw z nId kw_create then tkCREATE else tkOTHER
  else if (c =? 116) || (c =? 84) then
    if is_kw z nId kw_trigger then tkTRIGGER
    else if is_kw z nId kw_temp then tkTEMP
    else if is_kw z nId kw_temporary then tkTEMP
    else tkOTHER
  else if (c =? 101) || (c =? 69) then
    if is_kw z nId kw_end then tkEND
    else if is_kw z nId kw_explain then tkEXPLAIN
    else tkOTHER
  else tkOTHER.

(** One turn of the loop: [inl] is an early return value, as a function of the
    state; [inr] is the token and the text after it. *)
Definition scan (z : list Z) : (Z -> Z) + (Z * list Z) :=
  let c := hd 0 z in
  if c =? 59 then inr (tkSEMI, tl z)
  else if (c =? 32) || (c =? 13) || (c =? 9) || (c =? 10) || (c =? 12) then inr (tkWS, tl z)
  else if c =? 47 then
    if negb (hd 0 (tl z) =? 42) then inr (tkOTHER, tl z)
    else
      match skip_comment (drop 2 z) with
      | [] => inl (fun _ => 0)
      | z' => inr (tkWS, drop 2 z')
      end
  else if c =? 45 then
    if negb (hd 0 (tl z) =? 45) then inr (tkOTHER, tl z)
    else
      match skip_to 10 z with
      | [] => inl (fun state => if state =? 1 then 1 else 0)
      | z' => inr (tkWS, tl z')
      end
  else if (c =? 91) || (c =? 96) || (c =? 34) || (c =? 39) then
    match skip_to (if c =? 91 then 93 else c) (tl z) with
    | [] => inl (fun _ => 0)
    | z' => inr (tkOTHER, tl z')
    end
  else if IdChar c then
    let nId := id_run z in inr (id_token_kind z nId, drop nId z)
  else inr (tkOTHER, tl z).

Fixpoint complete_loop (fuel : nat) (z : list Z) (state : Z) : option Z :=
  match z with
  | [] => Some (if state =? 1 then 1 else 0)
  | _ =>
      match fuel with
      | O => None
      | S fuel =>
          match scan z with
          | inl ret => Some (ret state)
          | inr (token, z') => complete_loop fuel z' (next_state state token)
          end
      end
  end.

Definition sqlite3_complete (zSql : list Z) : option Z := complete_loop (length zSql) zSql 0.

(** ** The tokens of a text *)

(** [None]: the text ends inside a comment or a quotation. *)
Fixpoint ctokens (fuel : nat) (z : list Z) : option (list Z) :=
  match z, fuel with
  | [], _ => Some []
  | _, O => None
  | _, S fuel =>
      match scan z with
      | inl ret => if ret 1 =? 1 then Some [] else None
      | inr (token, z') => ts ← ctokens fuel z'; Some (token :: ts)
      end
  end.

Lemma length_skip_to c z : (length (skip_to c z) <= length z)%nat.
Proof. induction z as [|x z IH]; simpl; [lia|]. case_match; simpl; lia. Qed.

Lemma length_skip_comment z : (length (skip_comment z) <= length z)%nat.
Proof. induction z as [|x z IH]; simpl; [lia|]. case_match; simpl; lia. Qed.

Lemma id_run_pos z : z <> [] -> IdChar (hd 0 z) = true -> (1 <= id_run z)%nat.
Proof. destruct z as [|c z]; [done|]. simpl. intros _ ->. lia. Qed.

Lemma scan_progress z t z' : z <> [] -> scan z = inr (t, z') -> (length z' < length z)%nat /\ 0 <= t <= 7.
Proof.
  intros Hne. destruct z as [|c z]; [done|]. unfold scan. cbn [hd tl].
  pose proof (length_skip_comment (drop 2 (c :: z))) as L1. pose proof (length_skip_to 10 (c :: z)) as L2.
  pose proof (fun q => length_skip_to q z) as L3. rewrite length_drop in L1. cbn [length] in *.
  assert (forall n, 0 <= id_token_kind (c :: z) n <= 7) as Hk.
  { intros n. unfold id_token_kind. repeat case_match; unfold tkCREATE, tkOTHER, tkTRIGGER, tkTEMP, tkEND, tkEXPLAIN; lia. }
  repeat match goal with
  | |- (if ?b then _ else _) = _ -> _ => let E := fresh "E" in destruct b eqn:E
  | |- match skip_comment ?x with _ => _ end = _ -> _ => destruct (skip_comment x) eqn:?
  | |- match skip_to ?a ?x with _ => _ end = _ -> _ => let L := fresh in pose proof (length_skip_to a x) as L; destruct (skip_to a x) eqn:?
  end; intros Heq; try done; injection Heq as <- <-; (split; [|try apply Hk; unfold tkSEMI, tkWS, tkOTHER; lia]);
    rewrite ?length_drop; cbn [length] in *; try lia.
  all: try (match goal with |- context [length (drop _ ?l)] => destruct l end; simpl in *; lia).
  - pose proof (id_run_pos (c :: z) ltac:(done) ltac:(done)). simpl in *. lia.
Qed.

(** The table sends states to states, and whitespace changes nothing. *)
Lemma next_state_range s t : 0 <= s <= 7 -> 0 <= t <= 7 -> 0 <= next_state s t <= 7.
Proof.
  intros Hs Ht.
  assert (forallb (fun s => forallb (fun t => let n := next_state (Z.of_nat s) (Z.of_nat t) in (0 <=? n) && (n <=? 7))
            (seq 0 8)) (seq 0 8) = true) as Hf by reflexivity.
  rewrite forallb_forall in Hf. specialize (Hf (Z.to_nat s)). rewrite in_seq in Hf. specialize (Hf ltac:(lia)).
  rewrite forallb_forall in Hf. specialize (Hf (Z.to_nat t)). rewrite in_seq in Hf. specialize (Hf ltac:(lia)).
  cbv zeta in Hf. rewrite !Z2Nat.id in Hf by lia. lia.
Qed.

Lemma scan_return z ret : scan z = inl ret -> ret = (fun _ => 0) \/ ret = (fun state => if state =? 1 then 1 else 0).
Proof.
  unfold scan. repeat match goal with
  | |- (if ?b then _ else _) = _ -> _ => destruct b
  | |- match ?l with _ => _ end = _ -> _ => destruct l
  end; intros Heq; try done; injection Heq as <-; auto.
Qed.

(** The scanner is the machine run over the tokens. *)
Lemma complete_tokens fuel z state : (length z <= fuel)%nat -> 0 <= state <= 7 ->
  complete_loop fuel z state =
  Some (match ctokens fuel z with
        | Some ts => if foldl next_state state ts =? 1 then 1 else 0
        | None => 0
        end).
Proof.
  revert z state. induction fuel as [|fuel IH]; intros z state Hl Hs; (destruct z as [|c z]; [done|]); [simpl in Hl; lia|].
  cbn [complete_loop ctokens]. destruct (scan (c :: z)) as [ret|[t z']] eqn:E.
  - destruct (scan_return _ _ E) as [-> | ->]; [reflexivity|]. reflexivity.
  - destruct (scan_progress (c :: z) _ _ ltac:(done) E) as [Hp Ht].
    rewrite IH by (try apply next_state_range; simpl in *; lia). by destruct (ctokens fuel z').
Qed.

Lemma ctokens_range fuel z ts : ctokens fuel z = Some ts -> Forall (fun t => 0 <= t <= 7) ts.
Proof.
  revert z ts. induction fuel as [|fuel IH]; intros z ts; destruct z as [|c z]; cbn [ctokens]; try naive_solver.
  destruct (scan (c :: z)) as [ret|[t z']] eqn:E; [case_match; naive_solver|].
  destruct (ctokens fuel z') as [ts'|] eqn:E2; [|done]. intros [= <-].
  constructor; [|by eapply IH]. by destruct (scan_progress (c :: z) _ _ ltac:(done) E).
Qed.

(** ** The statements of a token list *)

(** The tokens after the first semicolon. *)
Fixpoint after_semi (ts : list Z) : option (list Z) :=
  match ts with
  | [] => None
  | t :: ts => if t =? tkSEMI then Some ts else after_semi ts
  end.

(** The tokens after the first [; END ;]. *)
Fixpoint after_end (ts : list Z) : option (list Z) :=
  match ts with
  | [] => None
  | t :: ts' =>
      match ts' with
      | t2 :: t3 :: rest => if (t =? tkSEMI) && (t2 =? tkEND) && (t3 =? tkSEMI) then Some rest else after_end ts'
      | _ => None
      end
  end.

Fixpoint drop_tok (t : Z) (ts : list Z) : list Z :=
  match ts with
  | t' :: ts' => if t' =? t then drop_tok t ts' else ts
  | [] => []
  end.

(** [CREATE TEMP* TRIGGER], possibly after [EXPLAIN OTHER*]. *)
Definition strip_create (ts : list Z) : option (list Z) :=
  match ts with
  | t :: ts =>
      if t =? tkCREATE then
        match drop_tok tkTEMP ts with
        | t' :: ts' => if t' =? tkTRIGGER then Some ts' else None
        | [] => None
        end
      else None
  | [] => None
  end.

Definition trigger_body (ts : list Z) : option (list Z) :=
  match ts with
  | t :: ts' => if t =? tkEXPLAIN then strip_create (drop_tok tkOTHER ts') else strip_create ts
  | [] => None
  end.

(** What follows the first statement: a trigger definition runs to the first
    [; END ;], any other statement to its first semicolon. *)
Definition after_statement (ts : list Z) : option (list Z) :=
  match trigger_body ts with
  | Some body => after_end body
  | None => after_semi ts
  end.

Inductive statements : list Z -> Prop :=
  | statements_nil : statements []
  | statements_cons ts rest : after_statement ts = Some rest -> statements rest -> statements ts.

(** ** The machine follows the statements *)

Definition significant (ts : list Z) : list Z := filter (fun t => t <> tkWS) ts.

Definition token_ok (t : Z) : Prop := 0 <= t <= 7 /\ t <> tkWS.

Lemma token_cases t : token_ok t ->
  t = tkSEMI \/ t = tkOTHER \/ t = tkEXPLAIN \/ t = tkCREATE \/ t = tkTEMP \/ t = tkTRIGGER \/ t = tkEND.
Proof. unfold token_ok, tkSEMI, tkWS, tkOTHER, tkEXPLAIN, tkCREATE, tkTEMP, tkTRIGGER, tkEND. lia. Qed.

(** Each of the seven tokens in turn; the table is then evaluated. *)
Ltac by_token H := destruct (token_cases _ H) as [-> | [-> | [-> | [-> | [-> | [-> | ->]]]]]].

Lemma next_state_ws s : 0 <= s <= 7 -> next_state s tkWS = s.
Proof.
  intros Hs. assert (s = 0 \/ s = 1 \/ s = 2 \/ s = 3 \/ s = 4 \/ s = 5 \/ s = 6 \/ s = 7) as Hc by lia.
  by destruct Hc as [-> | [-> | [-> | [-> | [-> | [-> | [-> | ->]]]]]]].
Qed.

Lemma run_significant s ts : 0 <= s <= 7 -> Forall (fun t => 0 <= t <= 7) ts ->
  foldl next_state s ts = foldl next_state s (significant ts) /\ Forall token_ok (significant ts).
Proof.
  intros Hs H. revert s Hs. induction H as [|t ts Ht H IH]; intros s Hs; [by split; [|constructor]|].
  unfold significant. rewrite filter_cons. cbn [foldl]. case_decide as Hd.
  - destruct (IH _ (next_state_range s t Hs Ht)) as [E F]. by split; [|constructor].
  - assert (t = tkWS) as -> by (unfold tkWS in *; lia). rewrite next_state_ws by done. by apply IH.
Qed.

(** In the middle of a plain statement: run to the first semicolon. *)
Lemma run_normal ts : Forall token_ok ts ->
  foldl next_state 2 ts = match after_semi ts with Some rest => foldl next_state 1 rest | None => 2 end.
Proof. induction 1 as [|t ts Ht H IH]; [done|]. cbn [foldl after_semi]. by_token Ht; done. Qed.

Lemma after_end_skip t ts : t <> tkSEMI -> after_end (t :: ts) = after_end ts.
Proof.
  intros Ht. apply Z.eqb_neq in Ht. destruct ts as [|t2 [|t3 ts]]; [done|done|].
  cbn [after_end]. by rewrite Ht.
Qed.

Lemma after_end_restart t ts : t <> tkEND -> after_end (tkSEMI :: t :: ts) = after_end (t :: ts).
Proof.
  intros Ht. apply Z.eqb_neq in Ht. destruct ts as [|t2 ts]; [done|].
  cbn [after_end]. by rewrite Ht.
Qed.

Lemma after_end_fail t ts : t <> tkSEMI -> after_end (tkSEMI :: tkEND :: t :: ts) = after_end ts.
Proof.
  intros Ht. assert (Hb := Ht). apply Z.eqb_neq in Hb.
  transitivity (after_end (tkEND :: t :: ts)); [|by rewrite !after_end_skip].
  cbn [after_end]. by rewrite Hb.
Qed.

(** Inside a trigger: run to the first [; END ;], remembering how much of it was seen. *)
Lemma run_trigger ts : Forall token_ok ts ->
  let accepts ts := exists rest, after_end ts = Some rest /\ foldl next_state 1 rest = 1 in
  (foldl next_state 5 ts = 1 <-> accepts ts) /\
  (foldl next_state 6 ts = 1 <-> accepts (tkSEMI :: ts)) /\
  (foldl next_state 7 ts = 1 <-> accepts (tkSEMI :: tkEND :: ts)).
Proof.
  cbv zeta. induction 1 as [|t ts Ht H [IH5 [IH6 IH7]]]; [by split_and!; (split; [|intros (? & ? & _)])|].
  cbn [foldl].
  destruct (decide (t = tkSEMI)) as [-> | Hs].
  - rewrite after_end_restart by done. change (next_state 5 tkSEMI) with 6. change (next_state 6 tkSEMI) with 6.
    change (next_state 7 tkSEMI) with 1. change (after_end (tkSEMI :: tkEND :: tkSEMI :: ts)) with (Some ts). naive_solver.
  - assert (next_state 5 t = 5 /\ next_state 7 t = 5) as [-> ->] by (by_token Ht; done).
    rewrite after_end_fail, (after_end_skip t) by done.
    destruct (decide (t = tkEND)) as [-> | He]; [done|].
    rewrite after_end_restart, after_end_skip by done.
    assert (next_state 6 t = 5) as -> by (by_token Ht; done). done.
Qed.

(** A CREATE has been seen: the header of a trigger, or a plain statement. *)
Lemma run_create ts : Forall token_ok ts ->
  foldl next_state 4 ts = 1 <->
  match strip_create (tkCREATE :: ts) with
  | Some body => foldl next_state 5 body = 1
  | None => foldl next_state 2 ts = 1
  end.
Proof.
  change (strip_create (tkCREATE :: ts)) with (match drop_tok tkTEMP ts with
    | t' :: ts' => if t' =? tkTRIGGER then Some ts' else None | [] => None end).
  induction 1 as [|t ts Ht H IH]; [done|]. cbn [foldl drop_tok]. by_token Ht; done.
Qed.

(** An EXPLAIN has been seen. *)
Lemma run_explain ts : Forall token_ok ts ->
  foldl next_state 3 ts = 1 <->
  match strip_create (drop_tok tkOTHER ts) with
  | Some body => foldl next_state 5 body = 1
  | None => foldl next_state 2 ts = 1
  end.
Proof.
  induction 1 as [|t ts Ht H IH]; [done|]. cbn [foldl drop_tok]. by_token Ht; try done. by apply run_create.
Qed.

Lemma drop_tok_ok t ts : Forall token_ok ts -> Forall token_ok (drop_tok t ts).
Proof. induction 1 as [|t' ts Ht H IH]; simpl; [done|]. case_match; by try constructor. Qed.

Lemma strip_create_ok ts body : Forall token_ok ts -> strip_create ts = Some body -> Forall token_ok body.
Proof.
  unfold strip_create. intros [|t ts' Ht H]; [done|]. case_match; [|done].
  pose proof (drop_tok_ok tkTEMP _ H) as Hd. destruct Hd; [done|]. case_match; naive_solver.
Qed.

Lemma trigger_body_ok ts body : Forall token_ok ts -> trigger_body ts = Some body -> Forall token_ok body.
Proof.
  unfold trigger_body. destruct ts as [|t ts]; [done|]. intros H. inversion_clear H.
  case_match; intros E; eapply strip_create_ok; try exact E; [by apply drop_tok_ok|by constructor].
Qed.

(** From the start of a statement: what follows it decides. *)
Lemma run_statement s t ts : s = 0 \/ s = 1 -> Forall token_ok (t :: ts) ->
  foldl next_state s (t :: ts) = 1 <-> exists rest, after_statement (t :: ts) = Some rest /\ foldl next_state 1 rest = 1.
Proof.
  intros Hs H. unfold after_statement.
  trans (match trigger_body (t :: ts) with
         | Some body => foldl next_state 5 body = 1 | None => foldl next_state 2 (t :: ts) = 1 end).
  - inversion H as [|? ? Ht Hts]; subst. cbn [foldl].
    by_token Ht; destruct Hs as [-> | ->]; try done; first [by apply run_explain | by apply run_create].
  - destruct (trigger_body (t :: ts)) as [body|] eqn:E.
    + by apply run_trigger, (trigger_body_ok _ _ H).
    + rewrite run_normal by done. destruct (after_semi (t :: ts)); naive_solver.
Qed.

Lemma after_semi_suffix ts rest : after_semi ts = Some rest -> exists pre, pre <> [] /\ ts = pre ++ rest.
Proof.
  induction ts as [|t ts IH]; simpl; [done|]. case_match; [intros [= <-]; by exists [t]|].
  intros (pre & ? & ->)%IH. by exists (t :: pre).
Qed.

Lemma after_end_suffix ts rest : after_end ts = Some rest -> exists pre, pre <> [] /\ ts = pre ++ rest.
Proof.
  induction ts as [|t ts IH]; [done|]. destruct ts as [|t2 [|t3 ts]]; [done|done|].
  change (after_end (t :: t2 :: t3 :: ts)) with
    (if (t =? tkSEMI) && (t2 =? tkEND) && (t3 =? tkSEMI) then Some ts else after_end (t2 :: t3 :: ts)).
  destruct (_ && _); [intros [= <-]; by exists [t; t2; t3]|].
  intros (pre & ? & E)%IH. exists (t :: pre). by rewrite E.
Qed.

Lemma drop_tok_suffix t ts : exists pre, ts = pre ++ drop_tok t ts.
Proof.
  induction ts as [|t' ts [pre IH]]; simpl; [by exists []|]. case_match; [exists (t' :: pre); simpl; congruence|by exists []].
Qed.

Lemma trigger_body_suffix ts body : trigger_body ts = Some body -> exists pre, ts = pre ++ body.
Proof.
  assert (forall l b, strip_create l = Some b -> exists pre, l = pre ++ b) as Hc.
  { intros [|t l] b; simpl; [done|]. case_match; [|done]. destruct (drop_tok_suffix tkTEMP l) as [pre E].
    destruct (drop_tok tkTEMP l) as [|t' l']; [done|]. case_match; [|done]. intros [= <-].
    exists (t :: pre ++ [t']). simpl. rewrite <- app_assoc. simpl. by rewrite <- E. }
  destruct ts as [|t ts]; [done|]. unfold trigger_body. case_match; [|apply Hc].
  intros (pre & E)%Hc. destruct (drop_tok_suffix tkOTHER ts) as [pre' E'].
  exists (t :: pre' ++ pre). simpl. by rewrite <- app_assoc, <- E, <- E'.
Qed.

Lemma after_statement_suffix ts rest : after_statement ts = Some rest -> exists pre, pre <> [] /\ ts = pre ++ rest.
Proof.
  unfold after_statement. destruct (trigger_body ts) as [body|] eqn:E; [|apply after_semi_suffix].
  intros (p & ? & ->)%after_end_suffix. destruct (trigger_body_suffix _ _ E) as [q ->].
  exists (q ++ p). rewrite app_assoc. split; [by destruct q, p|done].
Qed.

Lemma run_statements ts : Forall token_ok ts -> foldl next_state 1 ts = 1 <-> statements ts.
Proof.
  remember (length ts) as n eqn:Hn. revert ts Hn. induction (lt_wf n) as [n _ IH]. intros ts -> H.
  destruct ts as [|t ts]; [split; [constructor|done]|].
  rewrite run_statement by auto. split.
  - intros (rest & E & Hr). econstructor; [exact E|].
    destruct (after_statement_suffix _ _ E) as (pre & Hp & Eq). rewrite Eq in H. apply Forall_app in H as [_ H].
    eapply IH; [|done..|done]. rewrite Eq, length_app. destruct pre; simpl; [done|lia].
  - intros Hst. inversion Hst as [|? rest E Hr]; subst. exists rest. split; [done|].
    destruct (after_statement_suffix _ _ E) as (pre & Hp & Eq). rewrite Eq in H. apply Forall_app in H as [_ H].
    eapply IH; [|done..|done]. rewrite Eq, length_app. destruct pre; simpl; [done|lia].
Qed.


(** A trigger is complete only at its [; END ;]. *)
Example complete_trigger :
  sqlite3_complete [99; 114; 101; 97; 116; 101; 32; 116; 114; 105; 103; 103; 101; 114; 32; 120; 59] = Some 0 /\
  sqlite3_complete [99; 114; 101; 97; 116; 101; 32; 116; 114; 105; 103; 103; 101; 114; 32; 120; 59; 69; 78; 68; 59; 32] = Some 1.
Proof. split; reflexivity. Qed.
