(* ===== verification/VdbeTxn.v ===== *)
(** * Transactions and savepoints of a connection (SQLite's vdbe.c, vdbeaux.c, pager.c)

    How one connection runs BEGIN, COMMIT, ROLLBACK, SAVEPOINT, RELEASE, ROLLBACK
    TO and writing statements: the opcodes [OP_AutoCommit], [OP_Savepoint] and
    [OP_Transaction], the end of a statement ([sqlite3VdbeHalt]) and the
    savepoints of the pager, which are opened only when something is written.
    The content of the database is a value of an arbitrary type [D]; one database
    file, no virtual tables.  What the operating system and the allocator answer
    is the argument [env]; after a failed rollback of a savepoint or a failed
    commit the content is arbitrary ([e_junk]).  Change counters, error texts and
    the schema cache are left out. *)

From S2P Require Import Prelude Ctype.

Definition SQLITE_OK : Z := 0.
Definition SQLITE_ERROR : Z := 1.
Definition SQLITE_BUSY : Z := 5.
Definition SQLITE_NOMEM : Z := 7.
Definition SQLITE_INTERRUPT : Z := 9.
Definition SQLITE_IOERR : Z := 10.
Definition SQLITE_CORRUPT : Z := 11.
Definition SQLITE_FULL : Z := 13.
Definition SQLITE_CONSTRAINT : Z := 19.
Definition SQLITE_CONSTRAINT_FOREIGNKEY : Z := 787.

Inductive savepoint_op : Type := SAVEPOINT_BEGIN | SAVEPOINT_RELEASE | SAVEPOINT_ROLLBACK.
Inductive on_error : Type := OE_None | OE_Rollback | OE_Abort | OE_Fail | OE_Ignore | OE_Replace.
Inductive trans_state : Type := TRANS_NONE | TRANS_READ | TRANS_WRITE.

#[global] Instance savepoint_op_dec : EqDecision savepoint_op. Proof. solve_decision. Defined.
#[global] Instance on_error_dec : EqDecision on_error. Proof. solve_decision. Defined.
#[global] Instance trans_state_dec : EqDecision trans_state. Proof. solve_decision. Defined.

Section Txn.
Context {D : Type}.

(** ** Data *)

(** The transaction state of the B-tree, the committed and the current content,
    and the open savepoints of the pager, each with the content to go back to. *)
Record Btree : Type := mk_btree {
  inTrans : trans_state;
  disk : D;
  cur : D;
  aSavepoint : list D
}.

Record Savepoint : Type := mk_savepoint {
  zName : list Z;
  sp_nDeferredCons : Z;
  sp_nDeferredImmCons : Z
}.

Record sqlite3 : Type := mk_db {
  autoCommit : bool;
  nVdbeActive : Z;
  nVdbeRead : Z;
  nVdbeWrite : Z;
  nDeferredCons : Z;
  nDeferredImmCons : Z;
  nStatement : Z;
  nSavepoint : Z;
  isTransactionSavepoint : bool;
  pSavepoint : list Savepoint;
  CorruptRdOnly : bool;
  pBt : Btree
}.

(** [started] is [pc >= 0], [running] is [iVdbeMagic == VDBE_MAGIC_RUN]. *)
Record Vdbe : Type := mk_vdbe {
  rc : Z;
  started : bool;
  running : bool;
  bIsReader : bool;
  readOnly : bool;
  errorAction : on_error;
  usesStmtJournal : bool;
  iStatement : Z;
  nStmtDefCons : Z;
  nStmtDefImmCons : Z;
  nFkConstraint : Z
}.

(** Whether an allocation fails while the statement runs, and the results of
    starting the B-tree transaction, of opening pager savepoints (with how many
    were opened before the failure), of [sqlite3BtreeSavepoint] in
    [OP_Savepoint] and in [vdbeCloseStatement], and of the commit. *)
Record env : Type := mk_env {
  e_oom : bool;
  e_begin : Z;
  e_open : Z;
  e_opened : nat;
  e_stmt_open : Z;
  e_savepoint : Z;
  e_close : Z;
  e_commit : Z;
  e_junk : D
}.

Definition set_autoCommit (b : bool) (db : sqlite3) : sqlite3 :=
  mk_db b (nVdbeActive db) (nVdbeRead db) (nVdbeWrite db) (nDeferredCons db) (nDeferredImmCons db) (nStatement db)
    (nSavepoint db) (isTransactionSavepoint db) (pSavepoint db) (CorruptRdOnly db) (pBt db).
Definition set_counts (a r w : Z) (db : sqlite3) : sqlite3 :=
  mk_db (autoCommit db) a r w (nDeferredCons db) (nDeferredImmCons db) (nStatement db)
    (nSavepoint db) (isTransactionSavepoint db) (pSavepoint db) (CorruptRdOnly db) (pBt db).
Definition set_deferred (c i : Z) (db : sqlite3) : sqlite3 :=
  mk_db (autoCommit db) (nVdbeActive db) (nVdbeRead db) (nVdbeWrite db) c i (nStatement db)
    (nSavepoint db) (isTransactionSavepoint db) (pSavepoint db) (CorruptRdOnly db) (pBt db).
Definition set_nStatement (n : Z) (db : sqlite3) : sqlite3 :=
  mk_db (autoCommit db) (nVdbeActive db) (nVdbeRead db) (nVdbeWrite db) (nDeferredCons db) (nDeferredImmCons db) n
    (nSavepoint db) (isTransactionSavepoint db) (pSavepoint db) (CorruptRdOnly db) (pBt db).
Definition set_savepoints (n : Z) (isT : bool) (l : list Savepoint) (db : sqlite3) : sqlite3 :=
  mk_db (autoCommit db) (nVdbeActive db) (nVdbeRead db) (nVdbeWrite db) (nDeferredCons db) (nDeferredImmCons db)
    (nStatement db) n isT l (CorruptRdOnly db) (pBt db).
Definition set_corrupt (b : bool) (db : sqlite3) : sqlite3 :=
  mk_db (autoCommit db) (nVdbeActive db) (nVdbeRead db) (nVdbeWrite db) (nDeferredCons db) (nDeferredImmCons db)
    (nStatement db) (nSavepoint db) (isTransactionSavepoint db) (pSavepoint db) b (pBt db).
Definition set_bt (bt : Btree) (db : sqlite3) : sqlite3 :=
  mk_db (autoCommit db) (nVdbeActive db) (nVdbeRead db) (nVdbeWrite db) (nDeferredCons db) (nDeferredImmCons db)
    (nStatement db) (nSavepoint db) (isTransactionSavepoint db) (pSavepoint db) (CorruptRdOnly db) bt.

Definition set_rc (r : Z) (p : Vdbe) : Vdbe :=
  mk_vdbe r (started p) (running p) (bIsReader p) (readOnly p) (errorAction p) (usesStmtJournal p) (iStatement p)
    (nStmtDefCons p) (nStmtDefImmCons p) (nFkConstraint p).
Definition set_error (r : Z) (a : on_error) (p : Vdbe) : Vdbe :=
  mk_vdbe r (started p) (running p) (bIsReader p) (readOnly p) a (usesStmtJournal p) (iStatement p)
    (nStmtDefCons p) (nStmtDefImmCons p) (nFkConstraint p).
Definition set_stmt (i c d : Z) (p : Vdbe) : Vdbe :=
  mk_vdbe (rc p) (started p) (running p) (bIsReader p) (readOnly p) (errorAction p) (usesStmtJournal p) i c d
    (nFkConstraint p).
Definition set_fk (n : Z) (p : Vdbe) : Vdbe :=
  mk_vdbe (rc p) (started p) (running p) (bIsReader p) (readOnly p) (errorAction p) (usesStmtJournal p) (iStatement p)
    (nStmtDefCons p) (nStmtDefImmCons p) n.
Definition set_halted (p : Vdbe) : Vdbe :=
  mk_vdbe (rc p) (started p) false (bIsReader p) (readOnly p) (errorAction p) (usesStmtJournal p) (iStatement p)
    (nStmtDefCons p) (nStmtDefImmCons p) (nFkConstraint p).

(** ** Pager and B-tree *)

Definition set_cur (d : D) (bt : Btree) : Btree := mk_btree (inTrans bt) (disk bt) d (aSavepoint bt).

Definition sqlite3PagerOpenSavepoint (r : Z) (opened : nat) (n : Z) (bt : Btree) : Btree * Z :=
  let nCurrent := Z.of_nat (length (aSavepoint bt)) in
  if nCurrent <? n then
    let want := Z.to_nat (n - nCurrent) in
    let k := if r =? SQLITE_OK then want else (opened `min` want)%nat in
    (mk_btree (inTrans bt) (disk bt) (cur bt) (aSavepoint bt ++ replicate k (cur bt)), r)
  else (bt, SQLITE_OK).

Definition sqlite3PagerSavepoint (op : savepoint_op) (iSavepoint : Z) (bt : Btree) : Btree :=
  if iSavepoint <? Z.of_nat (length (aSavepoint bt)) then
    let release := bool_decide (op = SAVEPOINT_RELEASE) in
    let nNew := Z.to_nat (iSavepoint + (if release then 0 else 1)) in
    let c := if release then cur bt
             else if (nNew =? 0)%nat then disk bt else nth (nNew - 1) (aSavepoint bt) (disk bt) in
    mk_btree (inTrans bt) (disk bt) c (take nNew (aSavepoint bt))
  else bt.

Definition sqlite3BtreeSavepoint (r : Z) (junk : D) (op : savepoint_op) (iSavepoint : Z) (bt : Btree) : Btree * Z :=
  if bool_decide (inTrans bt = TRANS_WRITE) then
    if r =? SQLITE_OK then (sqlite3PagerSavepoint op iSavepoint bt, SQLITE_OK) else (set_cur junk bt, r)
  else (bt, SQLITE_OK).

(** Readers of other statements keep the read transaction. *)
Definition btreeEndTransaction (nRead : Z) (d : D) (bt : Btree) : Btree :=
  mk_btree (if negb (bool_decide (inTrans bt = TRANS_NONE)) && (1 <? nRead) then TRANS_READ else TRANS_NONE) d d [].

Definition sqlite3BtreeRollback (nRead : Z) (bt : Btree) : Btree := btreeEndTransaction nRead (disk bt) bt.

Definition sqlite3BtreeBeginTrans (e : env) (nSavepoint : Z) (bt : Btree) : Btree * Z :=
  if bool_decide (inTrans bt = TRANS_WRITE) || (e_begin e =? SQLITE_OK) then
    sqlite3PagerOpenSavepoint (e_open e) (e_opened e) nSavepoint (mk_btree TRANS_WRITE (disk bt) (cur bt) (aSavepoint bt))
  else (bt, e_begin e).

(** ** The connection *)

Definition sqlite3RollbackAll (db : sqlite3) : sqlite3 :=
  set_corrupt false (set_deferred 0 0 (set_bt (sqlite3BtreeRollback (nVdbeRead db) (pBt db)) db)).

Definition sqlite3CloseSavepoints (db : sqlite3) : sqlite3 := set_nStatement 0 (set_savepoints 0 false [] db).

Definition sqlite3VdbeCheckFk (db : sqlite3) (p : Vdbe) (deferred : bool) : Vdbe * Z :=
  if (deferred && (0 <? nDeferredCons db + nDeferredImmCons db)) || (negb deferred && (0 <? nFkConstraint p))
  then (set_error SQLITE_CONSTRAINT_FOREIGNKEY OE_Abort p, SQLITE_ERROR)
  else (p, SQLITE_OK).

(** [vdbeCommit] of one file: without a write transaction there is nothing that
    could fail. *)
Definition vdbeCommit (e : env) (db : sqlite3) : sqlite3 * Z :=
  if negb (bool_decide (inTrans (pBt db) = TRANS_WRITE)) || (e_commit e =? SQLITE_OK) then
    (set_bt (btreeEndTransaction (nVdbeRead db) (cur (pBt db)) (pBt db)) db, SQLITE_OK)
  else if e_commit e =? SQLITE_BUSY then (db, SQLITE_BUSY)
  else (set_bt (set_cur (e_junk e) (pBt db)) db, e_commit e).

Definition sqlite3VdbeCloseStatement (e : env) (db : sqlite3) (p : Vdbe) (eOp : savepoint_op) : sqlite3 * Vdbe * Z :=
  if negb (nStatement db =? 0) && negb (iStatement p =? 0) then
    let iSavepoint := iStatement p - 1 in
    let rollback := bool_decide (eOp = SAVEPOINT_ROLLBACK) in
    let '(bt, r) := if rollback then sqlite3BtreeSavepoint (e_close e) (e_junk e) SAVEPOINT_ROLLBACK iSavepoint (pBt db)
                    else (pBt db, SQLITE_OK) in
    let '(bt, r) := if r =? SQLITE_OK
                    then sqlite3BtreeSavepoint (e_close e) (e_junk e) SAVEPOINT_RELEASE iSavepoint bt else (bt, r) in
    let db := set_nStatement (nStatement db - 1) (set_bt bt db) in
    let db := if rollback then set_deferred (nStmtDefCons p) (nStmtDefImmCons p) db else db in
    (db, set_stmt 0 (nStmtDefCons p) (nStmtDefImmCons p) p, r)
  else (db, p, SQLITE_OK).

(** Roll back everything and return to autocommit mode. *)
Definition abort_txn (db : sqlite3) : sqlite3 := set_autoCommit true (sqlite3CloseSavepoints (sqlite3RollbackAll db)).

Definition is_special (r : Z) : bool :=
  let mrc := Z.land r 255 in
  (mrc =? SQLITE_NOMEM) || (mrc =? SQLITE_IOERR) || (mrc =? SQLITE_INTERRUPT) || (mrc =? SQLITE_FULL).

(** The part of [sqlite3VdbeHalt] for statements that read the database.  The
    last component is an early return. *)
Definition halt_special (db : sqlite3) (p : Vdbe) : sqlite3 * option savepoint_op :=
  let mrc := Z.land (rc p) 255 in
  if is_special (rc p) && (negb (readOnly p) || negb (mrc =? SQLITE_INTERRUPT)) then
    if ((mrc =? SQLITE_NOMEM) || (mrc =? SQLITE_FULL)) && usesStmtJournal p then (db, Some SAVEPOINT_ROLLBACK)
    else (abort_txn db, None)
  else (db, None).

Definition succeeds (p : Vdbe) (special : bool) : bool :=
  (rc p =? SQLITE_OK) || (bool_decide (errorAction p = OE_Fail) && negb special).

Definition halt_commit (e : env) (db : sqlite3) (p : Vdbe) (special : bool) : sqlite3 * Vdbe * option Z :=
  if succeeds p special then
    let '(p, r) := sqlite3VdbeCheckFk db p true in
    if negb (r =? SQLITE_OK) && readOnly p then (db, p, Some SQLITE_ERROR)
    else
      let '(db, r) := if negb (r =? SQLITE_OK) then (db, SQLITE_CONSTRAINT_FOREIGNKEY)
                      else if CorruptRdOnly db then (set_corrupt false db, SQLITE_CORRUPT)
                      else vdbeCommit e db in
      if (r =? SQLITE_BUSY) && readOnly p then (db, p, Some SQLITE_BUSY)
      else if negb (r =? SQLITE_OK) then (set_nStatement 0 (sqlite3RollbackAll db), set_rc r p, None)
      else (set_nStatement 0 (set_deferred 0 0 db), p, None)
  else (set_nStatement 0 (sqlite3RollbackAll db), p, None).

Definition halt_statement (e : env) (db : sqlite3) (p : Vdbe) (eOp : savepoint_op) : sqlite3 * Vdbe :=
  let '(db, p, r) := sqlite3VdbeCloseStatement e db p eOp in
  if negb (r =? SQLITE_OK) then
    let p := if (rc p =? SQLITE_OK) || (Z.land (rc p) 255 =? SQLITE_CONSTRAINT) then set_rc r p else p in
    (abort_txn db, p)
  else (db, p).

Definition halt_reader (e : env) (db : sqlite3) (p : Vdbe) : sqlite3 * Vdbe * option Z :=
  let special := is_special (rc p) in
  let '(db, eStatementOp) := halt_special db p in
  let p := if succeeds p special then fst (sqlite3VdbeCheckFk db p false) else p in
  if autoCommit db && (nVdbeWrite db =? (if readOnly p then 0 else 1)) then
    let '(db, p, early) := halt_commit e db p special in
    match early, eStatementOp with
    | Some r, _ => (db, p, Some r)
    | None, Some eOp => let '(db, p) := halt_statement e db p eOp in (db, p, None)
    | None, None => (db, p, None)
    end
  else
    let '(db, eStatementOp) :=
      match eStatementOp with
      | Some eOp => (db, Some eOp)
      | None =>
          if (rc p =? SQLITE_OK) || bool_decide (errorAction p = OE_Fail) then (db, Some SAVEPOINT_RELEASE)
          else if bool_decide (errorAction p = OE_Abort) then (db, Some SAVEPOINT_ROLLBACK)
          else (abort_txn db, None)
      end in
    match eStatementOp with
    | Some eOp => let '(db, p) := halt_statement e db p eOp in (db, p, None)
    | None => (db, p, None)
    end.

Definition sqlite3VdbeHalt (e : env) (db : sqlite3) (p : Vdbe) : sqlite3 * Vdbe * Z :=
  if negb (running p) then (db, p, SQLITE_OK)
  else
    let p := if e_oom e then set_rc SQLITE_NOMEM p else p in
    let '(db, p, early) := if started p && bIsReader p then halt_reader e db p else (db, p, None) in
    match early with
    | Some r => (db, p, r)
    | None =>
        let db := if started p
                  then set_counts (nVdbeActive db - 1) (nVdbeRead db - (if bIsReader p then 1 else 0))
                         (nVdbeWrite db - (if readOnly p then 0 else 1)) db
                  else db in
        let p := set_halted p in
        let p := if e_oom e then set_rc SQLITE_NOMEM p else p in
        (db, p, if rc p =? SQLITE_BUSY then SQLITE_BUSY else SQLITE_OK)
    end.

Definition abort_due_to_error (e : env) (db : sqlite3) (p : Vdbe) (r : Z) : sqlite3 * Vdbe :=
  let r := if e_oom e then SQLITE_NOMEM else r in
  let '(db, p, _) := sqlite3VdbeHalt e db (set_rc r p) in
  (if (r =? SQLITE_CORRUPT) && negb (autoCommit db) then set_corrupt true db else db, p).

(** [OP_Halt] with a result code and a conflict action. *)
Definition OP_Halt (e : env) (db : sqlite3) (p : Vdbe) (p1 : Z) (p2 : on_error) : sqlite3 * Vdbe :=
  let '(db, p, r) := sqlite3VdbeHalt e db (set_error p1 p2 p) in
  (db, if r =? SQLITE_BUSY then set_rc SQLITE_BUSY p else p).

(** ** The opcodes *)

Definition OP_AutoCommit (e : env) (db : sqlite3) (p : Vdbe) (desiredAutoCommit iRollback : bool) : sqlite3 * Vdbe :=
  if negb (eqb desiredAutoCommit (autoCommit db)) then
    if negb iRollback && desiredAutoCommit && (0 <? nVdbeWrite db) then abort_due_to_error e db p SQLITE_BUSY
    else
      let '(p, r) := if iRollback then (p, SQLITE_OK) else sqlite3VdbeCheckFk db p true in
      if negb (r =? SQLITE_OK) then (db, p)
      else
        let db := if iRollback then set_autoCommit true (sqlite3RollbackAll db) else set_autoCommit desiredAutoCommit db in
        let '(db, p, h) := sqlite3VdbeHalt e db p in
        if h =? SQLITE_BUSY then (set_autoCommit (negb desiredAutoCommit) db, set_rc SQLITE_BUSY p)
        else (sqlite3CloseSavepoints db, p)
  else abort_due_to_error e db p SQLITE_ERROR.

(** The position of the named savepoint, the most recent first. *)
Fixpoint find_savepoint (name : list Z) (l : list Savepoint) (i : nat) : option nat :=
  match l with
  | [] => None
  | s :: l => if sqlite3StrICmp (zName s) name =? 0 then Some i else find_savepoint name l (S i)
  end.

Definition savepoint_begin (e : env) (db : sqlite3) (p : Vdbe) (name : list Z) : sqlite3 * Vdbe :=
  if 0 <? nVdbeWrite db then abort_due_to_error e db p SQLITE_BUSY
  else
    let db :=
      if e_oom e then db
      else
        let new := mk_savepoint name (nDeferredCons db) (nDeferredImmCons db) in
        if autoCommit db then set_savepoints (nSavepoint db) true (new :: pSavepoint db) (set_autoCommit false db)
        else set_savepoints (nSavepoint db + 1) (isTransactionSavepoint db) (new :: pSavepoint db) db in
    OP_Halt e db p SQLITE_OK OE_None.

(** The end of RELEASE and ROLLBACK TO: [k] is the position of the savepoint. *)
Definition savepoint_finish (e : env) (db : sqlite3) (p : Vdbe) (op : savepoint_op) (k : nat) (isTransaction : bool)
    : sqlite3 * Vdbe :=
  let db := set_savepoints (nSavepoint db - Z.of_nat k) (isTransactionSavepoint db) (drop k (pSavepoint db)) db in
  let db :=
    if bool_decide (op = SAVEPOINT_RELEASE) then
      set_savepoints (if isTransaction then nSavepoint db else nSavepoint db - 1) (isTransactionSavepoint db)
        (tl (pSavepoint db)) db
    else
      match pSavepoint db with
      | s :: _ => set_deferred (sp_nDeferredCons s) (sp_nDeferredImmCons s) db
      | [] => db
      end in
  OP_Halt e db p SQLITE_OK OE_None.

Definition savepoint_end (e : env) (db : sqlite3) (p : Vdbe) (op : savepoint_op) (name : list Z) : sqlite3 * Vdbe :=
  match find_savepoint name (pSavepoint db) 0 with
  | None => abort_due_to_error e db p SQLITE_ERROR
  | Some k =>
      let release := bool_decide (op = SAVEPOINT_RELEASE) in
      if (0 <? nVdbeWrite db) && release then abort_due_to_error e db p SQLITE_BUSY
      else
        let isTransaction := (S k =? length (pSavepoint db))%nat && isTransactionSavepoint db in
        if isTransaction && release then
          let '(p, r) := sqlite3VdbeCheckFk db p true in
          if negb (r =? SQLITE_OK) then (db, p)
          else
            let '(db, p, h) := sqlite3VdbeHalt e (set_autoCommit true db) p in
            if h =? SQLITE_BUSY then (set_autoCommit false db, set_rc SQLITE_BUSY p)
            else if negb (rc p =? SQLITE_OK) then abort_due_to_error e (set_autoCommit false db) p (rc p)
            else
              savepoint_finish e (set_savepoints (nSavepoint db) false (pSavepoint db) db) p op k isTransaction
        else
          let '(bt, r) := sqlite3BtreeSavepoint (e_savepoint e) (e_junk e) op (nSavepoint db - Z.of_nat k - 1) (pBt db) in
          let db := set_bt bt db in
          if negb (r =? SQLITE_OK) then abort_due_to_error e db p r
          else savepoint_finish e db p op k isTransaction
  end.

Definition OP_Savepoint (e : env) (db : sqlite3) (p : Vdbe) (op : savepoint_op) (name : list Z) : sqlite3 * Vdbe :=
  match op with
  | SAVEPOINT_BEGIN => savepoint_begin e db p name
  | _ => savepoint_end e db p op name
  end.

(** [OP_Transaction] of a writing statement.  The last component tells how it
    goes on: to the next instruction, to [vdbe_return] or to [abort_due_to_error]. *)
Inductive next : Type := Continue | Return | Abort_due_to (r : Z).

Definition OP_Transaction (e : env) (db : sqlite3) (p : Vdbe) : sqlite3 * Vdbe * next :=
  if CorruptRdOnly db then (db, p, Abort_due_to SQLITE_CORRUPT)
  else
    let '(bt, r) := sqlite3BtreeBeginTrans e (nSavepoint db) (pBt db) in
    let db := set_bt bt db in
    if negb (r =? SQLITE_OK) then
      if Z.land r 255 =? SQLITE_BUSY then (db, set_rc r p, Return) else (db, p, Abort_due_to r)
    else if usesStmtJournal p && (negb (autoCommit db) || (1 <? nVdbeRead db)) then
      let db := if iStatement p =? 0 then set_nStatement (nStatement db + 1) db else db in
      let i := if iStatement p =? 0 then nSavepoint db + nStatement db else iStatement p in
      let '(bt, r) := sqlite3PagerOpenSavepoint (e_stmt_open e) 0 i (pBt db) in
      let p := set_stmt i (nDeferredCons db) (nDeferredImmCons db) p in
      (set_bt bt db, p, if r =? SQLITE_OK then Continue else Abort_due_to r)
    else (db, p, Continue).

(** ** Statements, from [sqlite3_step] to [sqlite3_finalize] *)

(** [sqlite3VdbeRewind], then the beginning of [sqlite3Step]. *)
Definition new_vdbe (ro journal : bool) : Vdbe := mk_vdbe SQLITE_OK true true true ro OE_Abort journal 0 0 0 0.

Definition start_step (db : sqlite3) (p : Vdbe) : sqlite3 :=
  set_counts (nVdbeActive db + 1) (nVdbeRead db + 1) (nVdbeWrite db + (if readOnly p then 0 else 1)) db.

(** [sqlite3VdbeReset] halts what still runs; the result is the code of the VM. *)
Definition sqlite3VdbeReset (e : env) (dp : sqlite3 * Vdbe) : sqlite3 * Z :=
  let '(db, p, _) := sqlite3VdbeHalt e (fst dp) (snd dp) in (db, rc p).

(** How the body of a writing statement ends, with what it did to the content
    and to the constraint counters. *)
Inductive body_end : Type :=
| Halts (r : Z) (a : on_error)    (* OP_Halt *)
| Fails (r : Z).                  (* abort_due_to_error *)

Record body : Type := mk_body {
  b_journal : bool;
  b_cur : D;
  b_deferred : Z;
  b_fk : Z;
  b_end : body_end
}.

Inductive command : Type :=
| BEGIN
| COMMIT
| ROLLBACK
| SAVEPOINT (name : list Z)
| RELEASE (name : list Z)
| ROLLBACK_TO (name : list Z)
| WRITE (b : body).

Definition run_body (e : env) (db : sqlite3) (p : Vdbe) (b : body) : sqlite3 * Vdbe :=
  let '(db, p, n) := OP_Transaction e db p in
  match n with
  | Return => (db, p)
  | Abort_due_to r => abort_due_to_error e db p r
  | Continue =>
      let db := set_deferred (nDeferredCons db + b_deferred b) (nDeferredImmCons db) (set_bt (set_cur (b_cur b) (pBt db)) db) in
      let p := set_fk (b_fk b) p in
      match b_end b with
      | Halts r a => OP_Halt e db p r a
      | Fails r => abort_due_to_error e db p r
      end
  end.

Definition exec (e : env) (db : sqlite3) (c : command) : sqlite3 * Z :=
  match c with
  | WRITE b =>
      let p := new_vdbe false (b_journal b) in
      sqlite3VdbeReset e (run_body e (start_step db p) p b)
  | _ =>
      let p := new_vdbe true false in
      let db := start_step db p in
      sqlite3VdbeReset e
        match c with
        | BEGIN => OP_AutoCommit e db p false false
        | COMMIT => OP_AutoCommit e db p true false
        | ROLLBACK => OP_AutoCommit e db p true true
        | SAVEPOINT n => OP_Savepoint e db p SAVEPOINT_BEGIN n
        | RELEASE n => OP_Savepoint e db p SAVEPOINT_RELEASE n
        | ROLLBACK_TO n => OP_Savepoint e db p SAVEPOINT_ROLLBACK n
        | WRITE _ => (db, p)
        end
  end.

End Txn.
