(* ===== verification/TxnRefine.v ===== *)
(** * Transactions and savepoints refine a stack of snapshots

    An abstract state (committed content, current content, named snapshots), what
    each command does to it when it succeeds ([a_exec]) and what can be left when it
    fails ([failed]), and the proof that the virtual machine of VdbeTxn.v
    implements it: the abstraction function [abs], the invariant [wf] between
    statements and [in_stmt] in the middle of one. *)

From S2P Require Import Prelude Ctype VdbeTxn.

Section TxnRefine.
Context {D : Type}.

#[local] Abbreviation sqlite3 := (@VdbeTxn.sqlite3 D).
#[local] Abbreviation Btree := (@VdbeTxn.Btree D).
#[local] Abbreviation env := (@VdbeTxn.env D).
#[local] Abbreviation body := (@VdbeTxn.body D).
#[local] Abbreviation command := (@VdbeTxn.command D).
Implicit Types (db X : sqlite3) (bt : Btree) (e : env).

(** ** What the commands mean

    The abstract state: the committed and the current content, whether a
    transaction is open and whether a savepoint opened it, the counters of
    unresolved deferred constraints, and the savepoints, the most recent first,
    each with the content and counters to return to. *)
Record astate : Type := mk_a {
  a_disk : D;
  a_cur : D;
  a_txn : bool;
  a_sp_txn : bool;
  a_deferred : Z * Z;
  a_saves : list (list Z * D * (Z * Z))
}.

Definition a_commit (a : astate) : astate := mk_a (a_cur a) (a_cur a) false false (0, 0) [].
Definition a_rollback (a : astate) : astate := mk_a (a_disk a) (a_disk a) false false (0, 0) [].

Fixpoint a_find (name : list Z) (l : list (list Z * D * (Z * Z))) : option (list (list Z * D * (Z * Z))) :=
  match l with
  | [] => None
  | s :: l' => if sqlite3StrICmp (fst (fst s)) name =? 0 then Some l else a_find name l'
  end.

(** The state after a command that succeeds; [None]: it cannot succeed. *)
Definition a_exec (a : astate) (c : command) : option astate :=
  match c with
  | BEGIN => if a_txn a then None else Some (mk_a (a_disk a) (a_cur a) true false (a_deferred a) (a_saves a))
  | COMMIT => if a_txn a && (fst (a_deferred a) + snd (a_deferred a) <=? 0) then Some (a_commit a) else None
  | ROLLBACK => if a_txn a then Some (a_rollback a) else None
  | SAVEPOINT n =>
      Some (mk_a (a_disk a) (a_cur a) true (if a_txn a then a_sp_txn a else true) (a_deferred a)
              ((n, a_cur a, a_deferred a) :: a_saves a))
  | RELEASE n =>
      match a_find n (a_saves a) with
      | Some (_ :: rest) =>
          if a_sp_txn a && bool_decide (rest = []) then
            if fst (a_deferred a) + snd (a_deferred a) <=? 0 then Some (a_commit a) else None
          else Some (mk_a (a_disk a) (a_cur a) (a_txn a) (a_sp_txn a) (a_deferred a) rest)
      | _ => None
      end
  | ROLLBACK_TO n =>
      match a_find n (a_saves a) with
      | Some ((nm, d, df) :: rest) =>
          Some (mk_a (a_disk a) d (a_txn a) (a_sp_txn a) df ((nm, d, df) :: rest))
      | _ => None
      end
  | WRITE b =>
      let df := (fst (a_deferred a) + b_deferred b, snd (a_deferred a)) in
      if a_txn a then Some (mk_a (a_disk a) (b_cur b) true (a_sp_txn a) df (a_saves a))
      else if fst df + snd df <=? 0 then Some (mk_a (b_cur b) (b_cur b) false false (0, 0) []) else None
  end.

(** The abstract state of a connection.  The content a savepoint returns to: the
    committed content for the savepoint that opened the transaction, what the
    pager saved, or, if the pager has not opened it, the current content. *)
Definition snapshot (bt : Btree) (i : Z) : D :=
  if i <? 0 then disk bt else nth (Z.to_nat i) (aSavepoint bt) (cur bt).

Fixpoint saves_of (bt : Btree) (i : Z) (l : list Savepoint) : list (list Z * D * (Z * Z)) :=
  match l with
  | [] => []
  | s :: l => (zName s, snapshot bt i, (sp_nDeferredCons s, sp_nDeferredImmCons s)) :: saves_of bt (i - 1) l
  end.

Definition abs (db : sqlite3) : astate :=
  mk_a (disk (pBt db)) (cur (pBt db)) (negb (autoCommit db)) (isTransactionSavepoint db)
    (nDeferredCons db, nDeferredImmCons db) (saves_of (pBt db) (nSavepoint db - 1) (pSavepoint db)).

(** Between statements. *)
Record wf (db : sqlite3) : Prop := {
  wf_write : nVdbeWrite db = 0;
  wf_read : 0 <= nVdbeRead db;
  wf_stmt : nStatement db = 0;
  wf_count : nSavepoint db + (if isTransactionSavepoint db then 1 else 0) = Z.of_nat (length (pSavepoint db));
  wf_open : isTransactionSavepoint db = true -> pSavepoint db <> [];
  wf_auto : autoCommit db = true -> pSavepoint db = [] /\ nDeferredCons db = 0 /\ nDeferredImmCons db = 0 /\
              cur (pBt db) = disk (pBt db) /\ inTrans (pBt db) <> TRANS_WRITE;
  wf_clean : inTrans (pBt db) <> TRANS_WRITE -> cur (pBt db) = disk (pBt db) /\ aSavepoint (pBt db) = [];
  wf_pager : Z.of_nat (length (aSavepoint (pBt db))) <= nSavepoint db
}.

(** *** Records *)

Ltac crush_db := repeat match goal with db : sqlite3 |- _ => destruct db end;
  repeat match goal with bt : Btree |- _ => destruct bt end; cbn in *.

(** The statement is no longer counted. *)
Definition settle (ro : bool) (db : sqlite3) : sqlite3 :=
  set_counts (nVdbeActive db - 1) (nVdbeRead db - 1) (nVdbeWrite db - (if ro then 0 else 1)) db.

Lemma rollback_abort db : set_nStatement 0 (sqlite3RollbackAll (abort_txn db)) = abort_txn db.
Proof.
  destruct db as [a n1 n2 n3 d1 d2 s n i l c [t dk cr sp]]. cbn. unfold abort_txn, sqlite3CloseSavepoints, sqlite3RollbackAll,
    sqlite3BtreeRollback, btreeEndTransaction. cbn. f_equal. f_equal.
  repeat case_bool_decide; destruct (1 <? n2); cbn in *; try done; subst; try done.
Qed.

(** The VM of a statement that only reads, with its result code. *)
Definition reader (r : Z) (a : on_error) (c1 c2 : Z) : Vdbe := mk_vdbe r true true true true a false 0 c1 c2 0.

(** The errors after which the whole transaction is rolled back. *)
Definition fatal (r : Z) : bool := is_special r && negb (Z.land r 255 =? SQLITE_INTERRUPT).

(** A read-only statement ends with such an error. *)
Lemma halt_reader_fatal e db r a c1 c2 : nVdbeWrite db = 0 -> a <> OE_Fail -> fatal r = true ->
  halt_reader e db (reader r a c1 c2) = (abort_txn db, reader r a c1 c2, None).
Proof.
  intros Hw Hf Hr. unfold fatal in *. unfold halt_reader, halt_special. cbn [rc reader readOnly usesStmtJournal negb orb].
  assert (r <> SQLITE_OK) as Hn by (intros ->; done). apply Z.eqb_neq in Hn.
  rewrite Hr, andb_false_r. unfold succeeds. cbn [rc reader errorAction].
  rewrite Hn, bool_decide_false by done. cbn [orb andb].
  change (autoCommit (abort_txn db)) with true. change (nVdbeWrite (abort_txn db)) with (nVdbeWrite db). rewrite Hw.
  cbn [andb Z.eqb readOnly reader]. unfold halt_commit, succeeds. cbn [rc reader errorAction].
  rewrite Hn, bool_decide_false by done. cbn [orb andb]. by rewrite rollback_abort.
Qed.

(** A read-only statement ends inside a transaction. *)
Lemma halt_reader_txn e db r a c1 c2 : autoCommit db = false -> nVdbeWrite db = 0 -> a <> OE_Fail ->
  r = SQLITE_OK \/ a = OE_Abort \/ fatal r = true ->
  halt_reader e db (reader r a c1 c2) = (if fatal r then abort_txn db else db, reader r a c1 c2, None).
Proof.
  intros Ha Hw Hf Hr. destruct (fatal r) eqn:E; [by apply halt_reader_fatal|].
  unfold fatal in E. unfold halt_reader, halt_special. cbn [rc reader readOnly usesStmtJournal negb orb].
  rewrite E, Ha. cbn [andb].
  assert (fst (sqlite3VdbeCheckFk db (reader r a c1 c2) false) = reader r a c1 c2) as -> by done.
  assert ((if succeeds (reader r a c1 c2) (is_special r) then reader r a c1 c2 else reader r a c1 c2) = reader r a c1 c2) as ->
    by (by destruct (succeeds _ _)).
  assert (forall eOp, halt_statement e db (reader r a c1 c2) eOp = (db, reader r a c1 c2)) as Hst.
  { intros eOp. unfold halt_statement, sqlite3VdbeCloseStatement. cbn [iStatement reader]. by rewrite andb_false_r. }
  cbn [rc errorAction reader]. destruct (Z.eqb_spec r SQLITE_OK) as [->|Hn]; cbn [orb].
  - by rewrite Hst.
  - destruct Hr as [?|[-> |?]]; [done| |done]. rewrite bool_decide_false by done. rewrite bool_decide_true by done. by rewrite Hst.
Qed.

(** The VM after it has ended. *)
Definition ended (r : Z) (a : on_error) (c1 c2 : Z) : Vdbe := mk_vdbe r true false true true a false 0 c1 c2 0.

Definition txn_after (r : Z) (db : sqlite3) : sqlite3 := if fatal r then abort_txn db else db.

Definition with_oom (e : env) (r : Z) : Z := if e_oom e then SQLITE_NOMEM else r.

Lemma halt_ro_txn e db r a c1 c2 : autoCommit db = false -> nVdbeWrite db = 0 -> a <> OE_Fail ->
  r = SQLITE_OK \/ a = OE_Abort ->
  sqlite3VdbeHalt e db (reader r a c1 c2) =
  (settle true (txn_after (with_oom e r) db), ended (with_oom e r) a c1 c2,
   if with_oom e r =? SQLITE_BUSY then SQLITE_BUSY else SQLITE_OK).
Proof.
  intros Ha Hw Hf Hr. unfold sqlite3VdbeHalt, with_oom. cbn [running reader negb].
  change (if e_oom e then set_rc SQLITE_NOMEM (reader r a c1 c2) else reader r a c1 c2) with
    (if e_oom e then reader SQLITE_NOMEM a c1 c2 else reader r a c1 c2).
  destruct (e_oom e); cbn [started bIsReader reader andb]; rewrite halt_reader_txn; tauto || done || by (right; right).
Qed.

(** A read-only statement ends and the connection is in autocommit mode: what
    it did is committed. *)
Definition committed (db : sqlite3) : sqlite3 :=
  set_nStatement 0 (set_deferred 0 0 (set_bt (btreeEndTransaction (nVdbeRead db) (cur (pBt db)) (pBt db)) db)).

Definition rolled_back (db : sqlite3) : sqlite3 := set_nStatement 0 (sqlite3RollbackAll db).

Definition writing (db : sqlite3) : bool := bool_decide (inTrans (pBt db) = TRANS_WRITE).

Lemma halt_ro_auto e db c1 c2 : autoCommit db = true -> nVdbeWrite db = 0 ->
  nDeferredCons db + nDeferredImmCons db <= 0 ->
  sqlite3VdbeHalt e db (reader SQLITE_OK OE_Abort c1 c2) =
  if e_oom e then (settle true (abort_txn db), ended SQLITE_NOMEM OE_Abort c1 c2, SQLITE_OK)
  else if CorruptRdOnly db then (settle true (rolled_back db), ended SQLITE_CORRUPT OE_Abort c1 c2, SQLITE_OK)
  else if negb (writing db) || (e_commit e =? SQLITE_OK) then (settle true (committed db), ended SQLITE_OK OE_Abort c1 c2, SQLITE_OK)
  else if e_commit e =? SQLITE_BUSY then (db, reader SQLITE_OK OE_Abort c1 c2, SQLITE_BUSY)
  else (settle true (rolled_back db), ended (e_commit e) OE_Abort c1 c2, SQLITE_OK).
Proof.
  intros Ha Hw Hd. unfold sqlite3VdbeHalt. cbn [running reader negb].
  destruct (e_oom e).
  - change (set_rc SQLITE_NOMEM (reader SQLITE_OK OE_Abort c1 c2)) with (reader SQLITE_NOMEM OE_Abort c1 c2).
    cbn [started bIsReader reader andb]. by rewrite halt_reader_fatal.
  - cbn [started bIsReader reader andb]. unfold halt_reader.
    change (halt_special db (reader SQLITE_OK OE_Abort c1 c2)) with (db, @None savepoint_op). cbv iota beta zeta.
    change (if succeeds (reader SQLITE_OK OE_Abort c1 c2) (is_special (rc (reader SQLITE_OK OE_Abort c1 c2)))
            then fst (sqlite3VdbeCheckFk db (reader SQLITE_OK OE_Abort c1 c2) false)
            else reader SQLITE_OK OE_Abort c1 c2) with (reader SQLITE_OK OE_Abort c1 c2).
    rewrite Ha, Hw. cbn [andb readOnly reader Z.eqb]. unfold halt_commit.
    change (succeeds (reader SQLITE_OK OE_Abort c1 c2) (is_special (rc (reader SQLITE_OK OE_Abort c1 c2)))) with true.
    unfold sqlite3VdbeCheckFk. cbn [andb orb negb nFkConstraint reader].
    replace (0 <? nDeferredCons db + nDeferredImmCons db) with false by lia. cbn [orb Z.ltb Z.compare].
    change (negb (SQLITE_OK =? SQLITE_OK)) with false. cbn [andb].
    destruct (CorruptRdOnly db) eqn:Ec; [done|]. unfold vdbeCommit, writing.
    destruct (negb _ || _) eqn:Eo; [done|]. apply orb_false_elim in Eo as [_ Eo].
    destruct (Z.eqb_spec (e_commit e) SQLITE_BUSY) as [Eb|Eb]; [done|].
    replace (e_commit e =? SQLITE_BUSY) with false by (symmetry; by apply Z.eqb_neq). cbn. rewrite Eo. cbn.
    by replace (e_commit e =? SQLITE_BUSY) with false by (symmetry; by apply Z.eqb_neq).
Qed.

(** *** The commands *)

Ltac step_ok := cbv iota beta; change (negb (SQLITE_OK =? SQLITE_OK)) with false;
  change (SQLITE_OK =? SQLITE_BUSY) with false; cbv iota beta.

Definition emptied (a a' : astate) : Prop :=
  a_disk a' = a_disk a /\ a_cur a' = a_disk a /\ a_txn a' = true /\ a_deferred a' = (0, 0) /\
  Forall (fun s => snd (fst s) = a_disk a) (a_saves a').

(** The state after a command that fails: as before; the whole transaction
    rolled back; after RELEASE of the savepoint that opened the transaction, the
    transaction still open with its content rolled back; for a statement that
    fails with OR FAIL, the changes it made are kept. *)
Inductive failed (c : command) (a a' : astate) : Prop :=
| failed_unchanged : a' = a -> failed c a a'
| failed_rolled_back : a' = a_rollback a -> failed c a a'
| failed_emptied name : c = RELEASE name -> emptied a a' -> failed c a a'
| failed_partial b r : c = WRITE b -> b_end b = Halts r OE_Fail -> a_exec a (WRITE b) = Some a' -> failed c a a'.

Definition good_result (c : command) (db : sqlite3) (res : sqlite3 * Z) : Prop :=
  wf (fst res) /\ nVdbeActive (fst res) = nVdbeActive db /\ nVdbeRead (fst res) = nVdbeRead db /\
  (snd res = SQLITE_OK -> a_exec (abs db) c = Some (abs (fst res))) /\
  (snd res <> SQLITE_OK -> failed c (abs db) (abs (fst res))).

Lemma settle_start db p : settle (readOnly p) (start_step db p) = db.
Proof. destruct db. unfold settle, start_step, set_counts. cbn. f_equal; lia. Qed.

Lemma result_unchanged c db r : wf db -> r <> SQLITE_OK -> good_result c db (db, r).
Proof. intros W Hr. split; [done|]. cbn. split_and!; try done. intros _. by apply failed_unchanged. Qed.

(** The statement was counted in [db1], nothing committed was lost. *)
Definition counted (ro : bool) (db db1 : sqlite3) : Prop :=
  nVdbeActive db1 = nVdbeActive db + 1 /\ nVdbeRead db1 = nVdbeRead db + 1 /\
  nVdbeWrite db1 = (if ro then 0 else 1) /\ disk (pBt db1) = disk (pBt db).

Lemma abort_wf ro db db1 : wf db -> counted ro db db1 -> wf (settle ro (abort_txn db1)).
Proof.
  intros W (Ha & Hr & Hw & Hd). destruct W. unfold settle, abort_txn, sqlite3CloseSavepoints, sqlite3RollbackAll.
  split; cbn; try done; try lia; try (destruct ro; lia).
  intros _. split_and!; try done. by destruct (_ && _).
Qed.

Lemma result_aborted c ro db db1 r : wf db -> counted ro db db1 -> r <> SQLITE_OK ->
  good_result c db (settle ro (abort_txn db1), r).
Proof.
  intros W Hc Hr. split; [by eapply abort_wf|]. destruct Hc as (Ha & Hrd & Hw & Hd).
  cbn. split_and!; [lia|lia|done|]. intros _. apply failed_rolled_back. unfold abs, a_rollback. cbn. by rewrite Hd.
Qed.

Lemma with_oom_idem e r : with_oom e (with_oom e r) = with_oom e r.
Proof. unfold with_oom. by destruct (e_oom e). Qed.

Lemma with_oom_nz e r : r <> SQLITE_OK -> with_oom e r <> SQLITE_OK.
Proof. unfold with_oom. by destruct (e_oom e). Qed.

Lemma reset_ended e db r a c1 c2 : sqlite3VdbeReset e (db, ended r a c1 c2) = (db, r).
Proof. done. Qed.

(** A read-only statement fails inside a transaction. *)
Lemma wf_corrupt b db : wf db -> wf (set_corrupt b db).
Proof. intros []. by split. Qed.

Lemma abort_ro_txn c e db r p1 : wf db -> autoCommit db = false -> r <> SQLITE_OK -> p1 = new_vdbe true false ->
  good_result c db (sqlite3VdbeReset e (abort_due_to_error e (start_step db p1) p1 r)).
Proof.
  intros W Ha Hr ->. unfold abort_due_to_error. fold (with_oom e r).
  change (set_rc (with_oom e r) (new_vdbe true false)) with (reader (with_oom e r) OE_Abort 0 0).
  rewrite halt_ro_txn by (try done; try (right; done); cbn; pose proof (wf_write _ W); lia).
  rewrite with_oom_idem, reset_ended. unfold txn_after. pose proof (with_oom_nz e r Hr) as Hr'.
  destruct (fatal _).
  - rewrite andb_false_r. apply result_aborted; try done. repeat split; cbn; try done. pose proof (wf_write _ W). lia.
  - change (settle true) with (settle (readOnly (new_vdbe true false))). rewrite settle_start.
    assert (forall b, good_result c db (set_corrupt b db, with_oom e r)) as Hb.
    { intros b. destruct (result_unchanged c db _ W Hr') as (W' & ? & ? & ? & H). split; [by apply wf_corrupt|done]. }
    destruct (_ && _); [apply Hb|by apply result_unchanged].
Qed.

Lemma counted_start db p : wf db -> counted (readOnly p) db (start_step db p).
Proof. intros W. pose proof (wf_write _ W). repeat split; cbn; lia. Qed.

Lemma halt_ro_oom e db r a c1 c2 : e_oom e = true -> nVdbeWrite db = 0 -> a <> OE_Fail ->
  sqlite3VdbeHalt e db (reader r a c1 c2) = (settle true (abort_txn db), ended SQLITE_NOMEM a c1 c2, SQLITE_OK).
Proof.
  intros Ho Hw Hf. unfold sqlite3VdbeHalt. cbn [running reader negb]. rewrite Ho.
  change (set_rc SQLITE_NOMEM (reader r a c1 c2)) with (reader SQLITE_NOMEM a c1 c2).
  cbn [started bIsReader reader andb]. by rewrite halt_reader_fatal.
Qed.

(** A read-only statement fails in autocommit mode. *)
Lemma halt_ro_auto_err e db r c1 c2 : autoCommit db = true -> nVdbeWrite db = 0 -> r <> SQLITE_OK -> e_oom e = false ->
  sqlite3VdbeHalt e db (reader r OE_Abort c1 c2) =
  (settle true (if fatal r then abort_txn db else rolled_back db), ended r OE_Abort c1 c2,
   if r =? SQLITE_BUSY then SQLITE_BUSY else SQLITE_OK).
Proof.
  intros Ha Hw Hr Ho. unfold sqlite3VdbeHalt. cbn [running reader negb]. rewrite Ho.
  cbn [started bIsReader reader andb]. destruct (fatal r) eqn:E; [by rewrite halt_reader_fatal|].
  unfold halt_reader, halt_special. cbn [rc readOnly usesStmtJournal reader negb orb]. unfold fatal in E. rewrite E, Ha, Hw.
  apply Z.eqb_neq in Hr. unfold succeeds. cbn [rc reader errorAction]. rewrite Hr, bool_decide_false by done.
  cbn [orb andb readOnly reader Z.eqb]. unfold halt_commit, succeeds. cbn [rc reader errorAction].
  rewrite Hr, bool_decide_false by done. done.
Qed.

Lemma wf_auto_flags db : wf db -> autoCommit db = true -> isTransactionSavepoint db = false /\ nSavepoint db = 0.
Proof.
  intros [] Ha. destruct (wf_auto0 Ha) as (E & _). rewrite E in *. destruct (isTransactionSavepoint db); [|cbn in *; lia].
  exfalso. by apply wf_open0.
Qed.

Lemma result_rolled_auto c db r p1 b : wf db -> autoCommit db = true -> r <> SQLITE_OK -> readOnly p1 = true ->
  good_result c db (settle true (set_corrupt b (rolled_back (start_step db p1))), r).
Proof.
  intros W Ha Hr Hp. destruct (wf_auto_flags _ W Ha) as [Hi Hn]. pose proof (wf_write _ W) as Hw.
  pose proof (wf_read _ W) as Hrd. destruct (wf_auto _ W Ha) as (Hl & Hd1 & Hd2 & Hc & Ht).
  split; [|cbn; split_and!; [lia|lia|done|]].
  - split; cbn; rewrite ?Hi, ?Hn, ?Hl, ?Hp; try done; try lia; try (intros _; split_and!; try done; by destruct (_ && _)).
  - intros _. apply failed_unchanged. unfold abs. cbn. by rewrite Ha, Hi, Hl, Hd1, Hd2, Hc.
Qed.

Lemma abort_ro_auto c e db r p1 : wf db -> autoCommit db = true -> r <> SQLITE_OK -> p1 = new_vdbe true false ->
  good_result c db (sqlite3VdbeReset e (abort_due_to_error e (start_step db p1) p1 r)).
Proof.
  intros W Ha Hr ->. unfold abort_due_to_error. fold (with_oom e r). pose proof (wf_write _ W) as Hw.
  change (set_rc (with_oom e r) (new_vdbe true false)) with (reader (with_oom e r) OE_Abort 0 0).
  pose proof (counted_start db (new_vdbe true false) W) as Hc. unfold with_oom. destruct (e_oom e) eqn:Ho.
  - rewrite halt_ro_oom by (try done; cbn; lia). rewrite reset_ended. by apply result_aborted.
  - rewrite halt_ro_auto_err by (try done; cbn; lia). rewrite reset_ended.
    destruct (fatal r); [by rewrite andb_false_r; apply result_aborted|].
    replace (autoCommit (settle true (rolled_back (start_step db (new_vdbe true false))))) with true by done.
    rewrite andb_false_r. by apply (result_rolled_auto _ _ _ _ false).
Qed.

Lemma abort_ro c e db r p1 : wf db -> r <> SQLITE_OK -> p1 = new_vdbe true false ->
  good_result c db (sqlite3VdbeReset e (abort_due_to_error e (start_step db p1) p1 r)).
Proof. intros W. destruct (autoCommit db) eqn:Ha; [by apply abort_ro_auto|by apply abort_ro_txn]. Qed.

Lemma reset_txn c e db r p1 : wf db -> autoCommit db = false -> r <> SQLITE_OK -> p1 = new_vdbe true false ->
  good_result c db (sqlite3VdbeReset e (start_step db p1, reader r OE_Abort 0 0)).
Proof.
  intros W Ha Hr ->. unfold sqlite3VdbeReset. cbn [fst snd]. pose proof (wf_write _ W) as Hw.
  rewrite halt_ro_txn by (try done; try (right; done); cbn; lia). cbn [rc ended]. unfold txn_after.
  pose proof (with_oom_nz e r Hr) as Hr'. pose proof (counted_start db (new_vdbe true false) W) as Hc.
  destruct (fatal _); [by apply result_aborted|].
  change (settle true) with (settle (readOnly (new_vdbe true false))). rewrite settle_start. by apply result_unchanged.
Qed.

Lemma check_fk_ok db p : nDeferredCons db + nDeferredImmCons db <= 0 -> sqlite3VdbeCheckFk db p true = (p, SQLITE_OK).
Proof. intros H. unfold sqlite3VdbeCheckFk. cbn. by replace (0 <? nDeferredCons db + nDeferredImmCons db) with false by lia. Qed.

Lemma close_abort ro db : sqlite3CloseSavepoints (settle ro (abort_txn db)) = settle ro (abort_txn db).
Proof. done. Qed.

Lemma begin_ok e db : wf db -> good_result BEGIN db (exec e db BEGIN).
Proof.
  intros W. unfold exec, OP_AutoCommit. set (p1 := new_vdbe true false). pose proof (wf_write _ W) as Hw.
  pose proof (counted_start db p1 W) as Hc.
  change (autoCommit (start_step db p1)) with (autoCommit db). destruct (autoCommit db) eqn:Ha; [|by apply abort_ro].
  destruct (wf_auto _ W Ha) as (Hl & Hd1 & Hd2 & Hcur & Ht). destruct (wf_auto_flags _ W Ha) as [Hi Hn].
  cbn [negb eqb andb]. rewrite check_fk_ok by (cbn; lia). step_ok.
  change p1 with (reader SQLITE_OK OE_Abort 0 0).
  rewrite halt_ro_txn by (try done; try (left; done); cbn; lia).
  assert ((with_oom e SQLITE_OK =? SQLITE_BUSY) = false) as -> by (unfold with_oom; by destruct (e_oom e)).
  step_ok. rewrite reset_ended. unfold with_oom, txn_after.
  destruct (e_oom e).
  - change (fatal SQLITE_NOMEM) with true. cbv iota.
    rewrite close_abort. apply result_aborted; [done|exact Hc|done].
  - change (fatal SQLITE_OK) with false. cbv iota. split; [|cbn; split_and!; [lia|lia| |done]].
    + destruct W. split; cbn; try done; try lia.
    + intros _. unfold abs. cbn. rewrite Ha, Hl. done.
Qed.

(** What is left after a successful commit or rollback. *)
Lemma wf_closed db db1 : wf db -> counted true db db1 -> autoCommit db1 = true ->
  wf (sqlite3CloseSavepoints (settle true (committed db1))).
Proof.
  intros W (Ha & Hr & Hw & Hd) Hauto. pose proof (wf_read _ W). split; cbn; try done; try lia.
  intros _. split_and!; try done. by destruct (_ && _).
Qed.

Lemma commit_ok e db : wf db -> good_result COMMIT db (exec e db COMMIT).
Proof.
  intros W. unfold exec, OP_AutoCommit. set (p1 := new_vdbe true false). pose proof (wf_write _ W) as Hw.
  pose proof (counted_start db p1 W) as Hc.
  change (autoCommit (start_step db p1)) with (autoCommit db). destruct (autoCommit db) eqn:Ha; [by apply abort_ro|].
  cbn [negb eqb andb]. replace (0 <? nVdbeWrite (start_step db p1)) with false by (cbn; lia). cbv iota.
  destruct (Z.le_gt_cases (nDeferredCons db + nDeferredImmCons db) 0) as [Hle|Hgt].
  2:{ unfold sqlite3VdbeCheckFk. cbn [andb negb orb].
      replace (0 <? nDeferredCons (start_step db p1) + nDeferredImmCons (start_step db p1)) with true by (cbn; lia).
      cbn [orb]. change (negb (SQLITE_ERROR =? SQLITE_OK)) with true. cbv iota. by apply reset_txn. }
  rewrite check_fk_ok by (cbn; lia). step_ok. change p1 with (reader SQLITE_OK OE_Abort 0 0) at 2.
  set (db2 := set_autoCommit true (start_step db p1)).
  assert (Hc2 : counted true db db2) by exact Hc.
  assert (forall r, r <> SQLITE_OK -> good_result COMMIT db (sqlite3CloseSavepoints (settle true (rolled_back db2)), r)) as Hrb
    by (intros r Hr; exact (result_aborted COMMIT true db db2 r W Hc2 Hr)).
  rewrite halt_ro_auto by (cbn; lia || done).
  destruct (e_oom e) eqn:Ho; [step_ok; by apply (result_aborted COMMIT true db db2)|].
  destruct (CorruptRdOnly db2); [step_ok; by apply Hrb|].
  destruct (negb (writing db2) || _) eqn:Ew.
  - step_ok. rewrite reset_ended. split; [by eapply wf_closed|]. cbn. split_and!; [lia|lia| |done].
    intros _. rewrite Ha. by replace (nDeferredCons db + nDeferredImmCons db <=? 0) with true by lia.
  - apply orb_false_elim in Ew as [_ Ew]. destruct (e_commit e =? SQLITE_BUSY) eqn:Eb.
    + change (SQLITE_BUSY =? SQLITE_BUSY) with true. cbv iota.
      replace (set_autoCommit false db2) with (start_step db p1) by (unfold db2; destruct db; cbn in Ha |- *; by rewrite Ha).
      by apply (reset_txn COMMIT e db SQLITE_BUSY).
    + step_ok. rewrite reset_ended. apply Hrb. by apply Z.eqb_neq.
Qed.

Lemma rollback_ok e db : wf db -> good_result ROLLBACK db (exec e db ROLLBACK).
Proof.
  intros W. unfold exec, OP_AutoCommit. set (p1 := new_vdbe true false). pose proof (wf_write _ W) as Hw.
  pose proof (counted_start db p1 W) as Hc.
  change (autoCommit (start_step db p1)) with (autoCommit db). destruct (autoCommit db) eqn:Ha; [by apply abort_ro|].
  cbn [negb eqb andb]. step_ok. change p1 with (reader SQLITE_OK OE_Abort 0 0) at 2.
  set (db2 := set_autoCommit true (sqlite3RollbackAll (start_step db p1))).
  assert (Hc2 : counted true db db2) by exact Hc.
  rewrite halt_ro_auto by (cbn; lia || done).
  destruct (e_oom e) eqn:Ho; [step_ok; by apply (result_aborted ROLLBACK true db db2)|].
  change (CorruptRdOnly db2) with false. cbv iota.
  assert (writing db2 = false) as ->
    by (unfold writing; apply bool_decide_false; cbn; by destruct (_ && _)).
  cbn [negb orb]. step_ok. rewrite reset_ended. split; [by eapply wf_closed|]. cbn. split_and!; [lia|lia| |done].
  intros _. by rewrite Ha.
Qed.

(** Inside a transaction every end of ROLLBACK rolls back. *)
Lemma rollback_always e db : wf db -> autoCommit db = false -> abs (fst (exec e db ROLLBACK)) = a_rollback (abs db).
Proof.
  intros W Ha. unfold exec, OP_AutoCommit. set (p1 := new_vdbe true false). pose proof (wf_write _ W) as Hw.
  change (autoCommit (start_step db p1)) with (autoCommit db). rewrite Ha.
  cbn [negb eqb andb]. step_ok. change p1 with (reader SQLITE_OK OE_Abort 0 0) at 2.
  rewrite halt_ro_auto by (cbn; lia || done). destruct (e_oom e); [step_ok; by rewrite reset_ended|].
  match goal with |- context [CorruptRdOnly ?d] => change (CorruptRdOnly d) with false end. cbv iota.
  match goal with |- context [writing ?d] => assert (writing d = false) as -> end;
    [unfold writing; apply bool_decide_false; cbn; by destruct (_ && _)|].
  cbn [negb orb]. step_ok. by rewrite reset_ended.
Qed.

(** A read-only statement ends well, in a transaction. *)
Lemma op_halt_txn e db : autoCommit db = false -> nVdbeWrite db = 0 -> e_oom e = false ->
  sqlite3VdbeReset e (OP_Halt e db (reader SQLITE_OK OE_Abort 0 0) SQLITE_OK OE_None) = (settle true db, SQLITE_OK).
Proof.
  intros Ha Hw Ho. unfold OP_Halt. change (set_error SQLITE_OK OE_None (reader SQLITE_OK OE_Abort 0 0)) with (reader SQLITE_OK OE_None 0 0).
  rewrite halt_ro_txn by (done || by left). unfold with_oom, txn_after. rewrite Ho. done.
Qed.

Lemma op_halt_oom e db : nVdbeWrite db = 0 -> e_oom e = true ->
  sqlite3VdbeReset e (OP_Halt e db (reader SQLITE_OK OE_Abort 0 0) SQLITE_OK OE_None) = (settle true (abort_txn db), SQLITE_NOMEM).
Proof.
  intros Hw Ho. unfold OP_Halt. change (set_error SQLITE_OK OE_None (reader SQLITE_OK OE_Abort 0 0)) with (reader SQLITE_OK OE_None 0 0).
  by rewrite halt_ro_oom.
Qed.

Lemma savepoint_ok e db n : wf db -> good_result (SAVEPOINT n) db (exec e db (SAVEPOINT n)).
Proof.
  intros W. unfold exec, OP_Savepoint, savepoint_begin. set (p1 := new_vdbe true false). pose proof (wf_write _ W) as Hw.
  pose proof (counted_start db p1 W) as Hc.
  replace (0 <? nVdbeWrite (start_step db p1)) with false by (cbn; lia). cbv iota.
  change p1 with (reader SQLITE_OK OE_Abort 0 0) at 7. destruct (e_oom e) eqn:Ho.
  { rewrite op_halt_oom by (done || cbn; lia). by apply (result_aborted (SAVEPOINT n) true db (start_step db p1)). }
  change (autoCommit (start_step db p1)) with (autoCommit db). destruct (autoCommit db) eqn:Ha.
  - destruct (wf_auto _ W Ha) as (Hl & Hd1 & Hd2 & Hcur & Ht). destruct (wf_auto_flags _ W Ha) as [Hi Hn].
    rewrite op_halt_txn by (done || cbn; lia). split; [|cbn; split_and!; [lia|lia| |done]].
    + destruct W. split; cbn; rewrite ?Hl, ?Hn; try done; try lia.
    + intros _. unfold abs. cbn. rewrite Ha, Hi, Hl, Hn. cbn. by rewrite Hcur.
  - rewrite op_halt_txn by (done || cbn; lia). split; [|cbn; split_and!; [lia|lia| |done]].
    + destruct W. split; cbn; try done; try lia.
    + intros _. unfold abs. cbn. rewrite Ha. cbn. do 2 f_equal.
      replace (nSavepoint db + 1 - 1) with (nSavepoint db) by lia. unfold snapshot. pose proof (wf_pager _ W).
      replace (nSavepoint db <? 0) with false by lia. by rewrite nth_overflow by lia.
Qed.

(** The named savepoint is the same in both worlds. *)
Lemma find_saves name bt l i j k : find_savepoint name l j = Some k ->
  (j <= k < j + length l)%nat /\
  a_find name (saves_of bt i l) = Some (saves_of bt (i - Z.of_nat (k - j)) (drop (k - j) l)).
Proof.
  revert i j. induction l as [|s l IH]; intros i j; [done|]. cbn [find_savepoint saves_of a_find fst].
  destruct (_ =? 0) eqn:E.
  - intros [= <-]. cbn [length]. rewrite Nat.sub_diag. split; [lia|]. cbn [drop Z.of_nat]. by rewrite Z.sub_0_r.
  - intros H. destruct (IH (i - 1) (S j) H) as [Hk ->]. cbn [length]. split; [lia|].
    replace (k - j)%nat with (S (k - S j)) by lia. cbn [drop]. do 2 f_equal. lia.
Qed.

Lemma find_saves_none name bt l i j : find_savepoint name l j = None -> a_find name (saves_of bt i l) = None.
Proof.
  revert i j. induction l as [|s l IH]; intros i j; [done|]. cbn [find_savepoint saves_of a_find fst].
  destruct (_ =? 0); [done|]. apply IH.
Qed.

(** Savepoints below an index see only the pager savepoints up to it. *)
Lemma saves_of_agree bt bt' i l : disk bt = disk bt' ->
  (forall j, 0 <= j <= i -> snapshot bt j = snapshot bt' j) -> saves_of bt i l = saves_of bt' i l.
Proof.
  intros Hd. revert i. induction l as [|s l IH]; intros i H; [done|]. cbn. f_equal.
  - do 2 f_equal. destruct (Z.lt_ge_cases i 0); [unfold snapshot; by replace (i <? 0) with true by lia|apply H; lia].
  - apply IH. intros j Hj. apply H. lia.
Qed.

(** The documented failures of [sqlite3PagerSavepoint]: out of memory and I/O
    errors. *)
Definition env_ok (e : env) : Prop := e_savepoint e <> SQLITE_OK -> fatal (e_savepoint e) = true.

Definition clean (bt : Btree) : Prop := inTrans bt <> TRANS_WRITE -> cur bt = disk bt /\ aSavepoint bt = [].

Lemma pager_release i bt : 0 <= i -> let bt' := sqlite3PagerSavepoint SAVEPOINT_RELEASE i bt in
  inTrans bt' = inTrans bt /\ disk bt' = disk bt /\ cur bt' = cur bt /\ Z.of_nat (length (aSavepoint bt')) <= i /\
  forall j, 0 <= j < i -> snapshot bt' j = snapshot bt j.
Proof.
  intros Hi. unfold sqlite3PagerSavepoint. rewrite bool_decide_true by done. destruct (Z.ltb_spec i (Z.of_nat (length (aSavepoint bt)))) as [Hl|Hl].
  - cbn. rewrite Z.add_0_r, length_take. split_and!; try done; [lia|]. intros j Hj. unfold snapshot. cbn.
    replace (j <? 0) with false by lia. rewrite !nth_lookup, lookup_take_lt by lia. done.
  - cbn. split_and!; try done.
Qed.

Lemma pager_rollback i bt : -1 <= i -> let bt' := sqlite3PagerSavepoint SAVEPOINT_ROLLBACK i bt in
  inTrans bt' = inTrans bt /\ disk bt' = disk bt /\ cur bt' = snapshot bt i /\ Z.of_nat (length (aSavepoint bt')) <= i + 1 /\
  forall j, 0 <= j <= i -> snapshot bt' j = snapshot bt j.
Proof.
  intros Hi. unfold sqlite3PagerSavepoint. rewrite bool_decide_false by done. destruct (Z.ltb_spec i (Z.of_nat (length (aSavepoint bt)))) as [Hl|Hl].
  - cbn. rewrite length_take. split_and!; try done; [|lia|].
    + unfold snapshot. destruct (Z.eq_dec i (-1)) as [->|Hn]; [done|].
      replace (i <? 0) with false by lia. destruct (Z.to_nat (i + 1)) as [|m] eqn:Em; [lia|]. cbn.
      rewrite Nat.sub_0_r. replace (Z.to_nat i) with m by lia. apply nth_indep. lia.
    + intros j Hj. unfold snapshot. cbn. replace (j <? 0) with false by lia.
      rewrite !nth_lookup, lookup_take_lt by lia. destruct (lookup_lt_is_Some_2 (aSavepoint bt) (Z.to_nat j)) as [x ->]; [lia|done].
  - cbn. split_and!; try done; [|lia]. unfold snapshot. replace (i <? 0) with false by lia. by rewrite nth_overflow by lia.
Qed.

(** [sqlite3BtreeSavepoint] when it succeeds. *)
Lemma btree_release r junk i bt bt' : 0 <= i -> clean bt ->
  sqlite3BtreeSavepoint r junk SAVEPOINT_RELEASE i bt = (bt', SQLITE_OK) ->
  clean bt' /\ inTrans bt' = inTrans bt /\ disk bt' = disk bt /\ cur bt' = cur bt /\ Z.of_nat (length (aSavepoint bt')) <= i /\
  forall j, 0 <= j < i -> snapshot bt' j = snapshot bt j.
Proof.
  intros Hi Hc. unfold sqlite3BtreeSavepoint. case_bool_decide as Ht.
  - destruct (_ =? _) eqn:E; [|intros [= <- ->]; done]. intros [= <-].
    destruct (pager_release i bt Hi) as (Ht' & H). split; [intros Hn; congruence|by split].
  - intros [= <-]. destruct (Hc Ht) as [Hcur Hs]. split_and!; try done. rewrite Hs. cbn. lia.
Qed.

Lemma btree_rollback r junk i bt bt' : -1 <= i -> clean bt ->
  sqlite3BtreeSavepoint r junk SAVEPOINT_ROLLBACK i bt = (bt', SQLITE_OK) ->
  clean bt' /\ inTrans bt' = inTrans bt /\ disk bt' = disk bt /\ cur bt' = snapshot bt i /\ Z.of_nat (length (aSavepoint bt')) <= i + 1 /\
  forall j, 0 <= j <= i -> snapshot bt' j = snapshot bt j.
Proof.
  intros Hi Hc. unfold sqlite3BtreeSavepoint. case_bool_decide as Ht.
  - destruct (_ =? _) eqn:E; [|intros [= <- ->]; done]. intros [= <-].
    destruct (pager_rollback i bt Hi) as (Ht' & H). split; [intros Hn; congruence|by split].
  - intros [= <-]. destruct (Hc Ht) as [Hcur Hs]. split_and!; try done; [|rewrite Hs; cbn; lia].
    unfold snapshot. rewrite Hs. destruct (i <? 0); [done|]. by destruct (Z.to_nat i).
Qed.

Lemma btree_savepoint_disk r junk op i bt : disk (fst (sqlite3BtreeSavepoint r junk op i bt)) = disk bt /\
  (snd (sqlite3BtreeSavepoint r junk op i bt) <> SQLITE_OK -> snd (sqlite3BtreeSavepoint r junk op i bt) = r).
Proof.
  unfold sqlite3BtreeSavepoint, sqlite3PagerSavepoint. repeat case_match; done.
Qed.

(** A read-only statement fails with an error that rolls everything back. *)
Lemma abort_fatal c e db db1 r : wf db -> counted true db db1 -> fatal r = true ->
  good_result c db (sqlite3VdbeReset e (abort_due_to_error e db1 (reader SQLITE_OK OE_Abort 0 0) r)).
Proof.
  intros W Hc Hr. assert (r <> SQLITE_OK) as Hn by (intros ->; done). unfold abort_due_to_error. fold (with_oom e r).
  change (set_rc (with_oom e r) (reader SQLITE_OK OE_Abort 0 0)) with (reader (with_oom e r) OE_Abort 0 0).
  assert (sqlite3VdbeHalt e db1 (reader (with_oom e r) OE_Abort 0 0) =
    (settle true (abort_txn db1), ended (with_oom e r) OE_Abort 0 0, if with_oom e r =? SQLITE_BUSY then SQLITE_BUSY else SQLITE_OK)) as ->.
  { unfold with_oom. destruct (e_oom e) eqn:Ho; [apply halt_ro_oom; by try apply Hc|].
    unfold sqlite3VdbeHalt. cbn [running reader negb]. rewrite Ho. cbn [started bIsReader reader andb].
    rewrite halt_reader_fatal by (try apply Hc; done). done. }
  rewrite andb_false_r, reset_ended. apply result_aborted; [done|done|by apply with_oom_nz].
Qed.

Lemma wf_clean' db : wf db -> clean (pBt db).
Proof. by intros []. Qed.

(** The pager has dealt with the savepoint at position [k]: what remains is
    bookkeeping. *)
Lemma finish_release e db bt k s : wf db -> autoCommit db = false -> e_oom e = false ->
  drop k (pSavepoint db) = s :: drop (S k) (pSavepoint db) -> (S k <= length (pSavepoint db))%nat ->
  (isTransactionSavepoint db = true -> drop (S k) (pSavepoint db) <> []) ->
  clean bt -> inTrans bt = inTrans (pBt db) -> disk bt = disk (pBt db) -> cur bt = cur (pBt db) ->
  Z.of_nat (length (aSavepoint bt)) <= nSavepoint db - Z.of_nat k - 1 ->
  (forall j, 0 <= j < nSavepoint db - Z.of_nat k - 1 -> snapshot bt j = snapshot (pBt db) j) ->
  let '(db', r) := sqlite3VdbeReset e (savepoint_finish e (set_bt bt (start_step db (new_vdbe true false)))
                     (reader SQLITE_OK OE_Abort 0 0) SAVEPOINT_RELEASE k false) in
  wf db' /\ nVdbeActive db' = nVdbeActive db /\ nVdbeRead db' = nVdbeRead db /\ r = SQLITE_OK /\
  abs db' = mk_a (disk (pBt db)) (cur (pBt db)) true (isTransactionSavepoint db) (nDeferredCons db, nDeferredImmCons db)
              (saves_of (pBt db) (nSavepoint db - 1 - Z.of_nat k - 1) (drop (S k) (pSavepoint db))).
Proof.
  intros W Ha Ho Hd Hk Hne Hc Ht Hdk Hcur Hlen Hsn. pose proof (wf_write _ W) as Hw. unfold savepoint_finish.
  rewrite bool_decide_true by done. cbv zeta. rewrite op_halt_txn by (done || cbn; lia).
  change (pSavepoint (set_bt bt (start_step db (new_vdbe true false)))) with (pSavepoint db).
  cbn [pSavepoint set_savepoints]. rewrite Hd. cbn [tl]. split; [|cbn; split_and!; try lia; try done].
  - destruct W. split; cbn; try done; try lia; rewrite ?length_drop; try by rewrite ?Ha.
    lia.
  - unfold abs. cbn. rewrite Hdk, Hcur, Ha. f_equal.
    replace (nSavepoint db - Z.of_nat k - 1 - 1) with (nSavepoint db - 1 - Z.of_nat k - 1) by lia.
    apply saves_of_agree; [done|]. intros j Hj. apply Hsn. lia.
Qed.

Lemma finish_rollback e db bt k s b : wf db -> autoCommit db = false -> e_oom e = false ->
  drop k (pSavepoint db) = s :: drop (S k) (pSavepoint db) -> (S k <= length (pSavepoint db))%nat ->
  clean bt -> inTrans bt = inTrans (pBt db) -> disk bt = disk (pBt db) ->
  cur bt = snapshot (pBt db) (nSavepoint db - Z.of_nat k - 1) ->
  Z.of_nat (length (aSavepoint bt)) <= nSavepoint db - Z.of_nat k ->
  (forall j, 0 <= j <= nSavepoint db - Z.of_nat k - 1 -> snapshot bt j = snapshot (pBt db) j) ->
  let '(db', r) := sqlite3VdbeReset e (savepoint_finish e (set_bt bt (start_step db (new_vdbe true false)))
                     (reader SQLITE_OK OE_Abort 0 0) SAVEPOINT_ROLLBACK k b) in
  wf db' /\ nVdbeActive db' = nVdbeActive db /\ nVdbeRead db' = nVdbeRead db /\ r = SQLITE_OK /\
  abs db' = mk_a (disk (pBt db)) (cur bt) true (isTransactionSavepoint db) (sp_nDeferredCons s, sp_nDeferredImmCons s)
              (saves_of (pBt db) (nSavepoint db - 1 - Z.of_nat k) (drop k (pSavepoint db))).
Proof.
  intros W Ha Ho Hd Hk Hc Ht Hdk Hcur Hlen Hsn. pose proof (wf_write _ W) as Hw. unfold savepoint_finish.
  rewrite bool_decide_false by done. cbv zeta.
  change (pSavepoint (set_bt bt (start_step db (new_vdbe true false)))) with (pSavepoint db).
  cbn [pSavepoint set_savepoints]. rewrite Hd.
  rewrite op_halt_txn by (done || cbn; lia). split; [|cbn; split_and!; try lia; try done].
  - destruct W. assert (S (length (drop (S k) (pSavepoint db))) = (length (pSavepoint db) - k)%nat) as El
      by (rewrite <- length_drop, Hd; done).
    split; cbn; try done; try lia; try by rewrite ?Ha.
  - unfold abs. cbn. rewrite Hdk, Ha. f_equal.
    replace (nSavepoint db - Z.of_nat k - 1) with (nSavepoint db - 1 - Z.of_nat k) in * by lia.
    apply (saves_of_agree _ _ _ (s :: drop (S k) (pSavepoint db))); [done|]. intros j Hj. apply Hsn. lia.
Qed.

Lemma finish_oom c e db bt op k b : wf db -> disk bt = disk (pBt db) -> e_oom e = true ->
  good_result c db (sqlite3VdbeReset e (savepoint_finish e (set_bt bt (start_step db (new_vdbe true false)))
                      (reader SQLITE_OK OE_Abort 0 0) op k b)).
Proof.
  intros W Hd Ho. pose proof (wf_write _ W) as Hw. unfold savepoint_finish. cbv zeta.
  match goal with |- good_result _ _ (sqlite3VdbeReset _ (OP_Halt _ ?x _ _ _)) => set (db1 := x) end.
  assert (counted true db db1) as Hc.
  { unfold db1. repeat case_match; repeat split; cbn; try done; lia. }
  rewrite op_halt_oom by (done || apply Hc). by apply result_aborted.
Qed.

(** RELEASE of the savepoint that opened the transaction, when it fails. *)
Lemma result_emptied n db db1 r b : wf db -> counted true db db1 -> r <> SQLITE_OK ->
  nStatement db1 = 0 -> pSavepoint db1 = pSavepoint db -> nSavepoint db1 = nSavepoint db ->
  isTransactionSavepoint db1 = isTransactionSavepoint db ->
  good_result (RELEASE n) db (set_corrupt b (set_autoCommit false (settle true (rolled_back db1))), r).
Proof.
  intros W (Ha & Hrd & Hw & Hd) Hr Hst Hl Hn Hi. split; [|cbn; split_and!; [lia|lia|done|]].
  - destruct W. split; cbn; rewrite ?Hl, ?Hn, ?Hi; try done; try lia.
  - intros _. apply failed_emptied with n; [done|]. unfold emptied, abs. cbn. rewrite Hd. split_and!; try done.
    generalize (nSavepoint db1 - 1). clear Hl. induction (pSavepoint db1) as [|s l IH]; intros i; cbn; constructor; [|apply IH].
    cbn. unfold snapshot. cbn. destruct (i <? 0); [done|]. by destruct (Z.to_nat i).
Qed.

Lemma result_emptied_oom n db db1 r : wf db -> counted true db db1 -> r <> SQLITE_OK ->
  good_result (RELEASE n) db (set_autoCommit false (settle true (abort_txn db1)), r).
Proof.
  intros W Hc Hr. pose proof (abort_wf true db db1 W Hc) as W1. destruct Hc as (Ha & Hrd & Hw & Hd).
  split; [|cbn; split_and!; [lia|lia|done|]].
  - destruct W1. by split.
  - intros _. apply failed_emptied with n; [done|]. unfold emptied, abs. cbn. rewrite Hd. by split_and!.
Qed.

(** After the statement has ended, an error is only recorded. *)
Lemma abort_ended e db r : e_oom e = false ->
  sqlite3VdbeReset e (abort_due_to_error e db (ended r OE_Abort 0 0) r) =
  (if (r =? SQLITE_CORRUPT) && negb (autoCommit db) then set_corrupt true db else db, r).
Proof. intros Ho. unfold abort_due_to_error. rewrite Ho. done. Qed.

Lemma op_halt_ended e db r a c1 c2 :
  sqlite3VdbeReset e (OP_Halt e db (ended r a c1 c2) SQLITE_OK OE_None) = (db, SQLITE_OK).
Proof. done. Qed.

Lemma release_txn e db n k : wf db -> autoCommit db = false -> find_savepoint n (pSavepoint db) 0 = Some k ->
  S k = length (pSavepoint db) -> isTransactionSavepoint db = true ->
  good_result (RELEASE n) db (exec e db (RELEASE n)).
Proof.
  intros W Ha Hf Hk Hi. unfold exec, OP_Savepoint, savepoint_end. set (p1 := new_vdbe true false).
  pose proof (wf_write _ W) as Hw. pose proof (counted_start db p1 W) as Hc. pose proof (wf_count _ W) as Hn. rewrite Hi in Hn.
  change (pSavepoint (start_step db p1)) with (pSavepoint db). rewrite Hf.
  change (isTransactionSavepoint (start_step db p1)) with (isTransactionSavepoint db).
  replace (0 <? nVdbeWrite (start_step db p1)) with false by (cbn; lia). rewrite Hi, Hk, Nat.eqb_refl.
  rewrite bool_decide_true by done. cbn [andb].
  destruct (Z.le_gt_cases (nDeferredCons db + nDeferredImmCons db) 0) as [Hle|Hgt].
  2:{ unfold sqlite3VdbeCheckFk. cbn [andb negb orb].
      replace (0 <? nDeferredCons (start_step db p1) + nDeferredImmCons (start_step db p1)) with true by (cbn; lia).
      cbn [orb]. change (negb (SQLITE_ERROR =? SQLITE_OK)) with true. cbv iota. by apply reset_txn. }
  rewrite check_fk_ok by (cbn; lia). step_ok. change p1 with (reader SQLITE_OK OE_Abort 0 0) at 2.
  set (db2 := set_autoCommit true (start_step db p1)). assert (Hc2 : counted true db db2) by exact Hc.
  rewrite halt_ro_auto by (cbn; lia || done).
  destruct (e_oom e) eqn:Ho.
  { step_ok. cbn [rc ended]. change (negb (SQLITE_NOMEM =? SQLITE_OK)) with true. cbv iota.
    unfold abort_due_to_error. rewrite Ho. by apply result_emptied_oom. }
  destruct (CorruptRdOnly db2).
  { step_ok. cbn [rc ended]. change (negb (SQLITE_CORRUPT =? SQLITE_OK)) with true. cbv iota.
    rewrite abort_ended by done. apply (result_emptied n db db2); try done. by apply W. }
  destruct (negb (writing db2) || _) eqn:Ew.
  - step_ok. cbn [rc ended]. step_ok. unfold savepoint_finish. rewrite bool_decide_true by done. cbv zeta.
    match goal with |- good_result _ _ (sqlite3VdbeReset _ (OP_Halt _ ?x _ _ _)) =>
      replace x with (sqlite3CloseSavepoints (settle true (committed db2))) end.
    + rewrite op_halt_ended. split; [by eapply wf_closed|]. cbn. split_and!; [lia|lia| |done]. intros _.
      destruct (find_saves n (pBt db) (pSavepoint db) (nSavepoint db - 1) 0 k Hf) as [_ ->].
      rewrite Nat.sub_0_r. destruct (drop k (pSavepoint db)) as [|s rest] eqn:Ed;
        [apply (f_equal length) in Ed; rewrite length_drop in Ed; cbn in Ed; lia|].
      assert (rest = []) as -> by (apply (f_equal length) in Ed; rewrite length_drop in Ed; cbn in Ed; destruct rest; [done|cbn in Ed; lia]).
      cbn. rewrite Hi. by replace (nDeferredCons db + nDeferredImmCons db <=? 0) with true by lia.
    + unfold sqlite3CloseSavepoints, settle, committed, set_savepoints, set_nStatement, set_counts. cbn. f_equal; [lia|].
      destruct (drop k (pSavepoint db)) as [|s [|]] eqn:Ed; try done;
        apply (f_equal length) in Ed; rewrite length_drop in Ed; cbn in Ed; lia.
  - apply orb_false_elim in Ew as [_ Ew]. destruct (e_commit e =? SQLITE_BUSY) eqn:Eb.
    + change (SQLITE_BUSY =? SQLITE_BUSY) with true. cbv iota.
      replace (set_autoCommit false db2) with (start_step db p1) by (unfold db2; destruct db; cbn in Ha |- *; by rewrite Ha).
      by apply (reset_txn (RELEASE n) e db SQLITE_BUSY).
    + step_ok. cbn [rc ended]. rewrite Ew. cbn [negb]. rewrite abort_ended by done. apply Z.eqb_neq in Ew.
      destruct (_ && _); [apply (result_emptied n db db2)|apply (result_emptied n db db2 _ false)]; try done; by apply W.
Qed.

Lemma drop_nth {A} k (l : list A) : (S k <= length l)%nat -> exists s, drop k l = s :: drop (S k) l.
Proof.
  intros H. destruct (lookup_lt_is_Some_2 l k) as [s Hs]; [lia|]. exists s. by apply drop_S.
Qed.

Lemma find_in_txn db n k : wf db -> find_savepoint n (pSavepoint db) 0 = Some k -> autoCommit db = false.
Proof.
  intros W Hf. destruct (autoCommit db) eqn:Ha; [|done]. destruct (wf_auto _ W Ha) as (E & _). by rewrite E in Hf.
Qed.

Lemma release_ok e db n : wf db -> env_ok e -> good_result (RELEASE n) db (exec e db (RELEASE n)).
Proof.
  intros W He. destruct (find_savepoint n (pSavepoint db) 0) as [k|] eqn:Hf.
  2:{ unfold exec, OP_Savepoint, savepoint_end. cbn [pSavepoint start_step set_counts]. rewrite Hf. by apply abort_ro. }
  pose proof (find_in_txn db n k W Hf) as Ha.
  destruct (find_saves n (pBt db) (pSavepoint db) (nSavepoint db - 1) 0 k Hf) as [Hk Hfind]. rewrite Nat.sub_0_r in Hfind.
  destruct ((S k =? length (pSavepoint db))%nat && isTransactionSavepoint db) eqn:Et.
  { apply andb_prop in Et as [Ek Ei]. apply Nat.eqb_eq in Ek. by eapply release_txn. }
  destruct (drop_nth k (pSavepoint db)) as [s Hd]; [lia|]. rewrite Hd in Hfind.
  assert (isTransactionSavepoint db = true -> drop (S k) (pSavepoint db) <> []) as Hne.
  { intros Hi Hdr. rewrite Hi, andb_true_r in Et. apply Nat.eqb_neq in Et. apply (f_equal length) in Hdr.
    rewrite length_drop in Hdr. cbn in Hdr. lia. }
  pose proof (wf_write _ W) as Hw. pose proof (wf_count _ W) as Hn.
  assert (0 <= nSavepoint db - Z.of_nat k - 1) as Hi0.
  { destruct (isTransactionSavepoint db); [|lia]. rewrite andb_true_r in Et. apply Nat.eqb_neq in Et. lia. }
  unfold exec, OP_Savepoint, savepoint_end. set (p1 := new_vdbe true false).
  change (pSavepoint (start_step db p1)) with (pSavepoint db). rewrite Hf. cbv zeta.
  change (isTransactionSavepoint (start_step db p1)) with (isTransactionSavepoint db). rewrite Et.
  replace (0 <? nVdbeWrite (start_step db p1)) with false by (cbn; lia). rewrite bool_decide_true by done. cbn [andb].
  change (pBt (start_step db p1)) with (pBt db). change (nSavepoint (start_step db p1)) with (nSavepoint db).
  pose proof (btree_savepoint_disk (e_savepoint e) (e_junk e) SAVEPOINT_RELEASE (nSavepoint db - Z.of_nat k - 1) (pBt db)) as [Hdk Hrc].
  destruct (sqlite3BtreeSavepoint _ _ _ _ _) as [bt r] eqn:Eb. cbn [fst snd] in Hdk, Hrc.
  change p1 with (reader SQLITE_OK OE_Abort 0 0) at 2 4. destruct (Z.eqb_spec r SQLITE_OK) as [->|Hr].
  - cbn [negb]. destruct (e_oom e) eqn:Ho; [by apply finish_oom|].
    destruct (btree_release _ _ _ _ _ Hi0 (wf_clean' _ W) Eb) as (Hcl & Ht & _ & Hcur & Hlen & Hsn).
    pose proof (finish_release e db bt k s W Ha Ho Hd ltac:(lia) Hne Hcl Ht Hdk Hcur Hlen Hsn) as Hfin. fold p1 in Hfin.
    destruct (sqlite3VdbeReset _ _) as [db' r']. destruct Hfin as (W' & H1 & H2 & -> & Habs).
    split; [done|]. cbn [fst snd]. split_and!; try done. intros _. rewrite Habs. cbn [a_exec abs a_saves]. rewrite Hfind.
    cbn [saves_of]. unfold abs. cbn [a_sp_txn a_txn a_disk a_cur a_deferred]. rewrite Ha. destruct (isTransactionSavepoint db); [|done].
    rewrite bool_decide_false; [done|]. destruct (drop (S k) (pSavepoint db)); [by destruct Hne|done].
  - cbn [negb]. apply abort_fatal; [done|repeat split; cbn; try done; lia|]. rewrite Hrc in Hr |- * by done. by apply He.
Qed.

Lemma rollback_to_ok e db n : wf db -> env_ok e -> good_result (ROLLBACK_TO n) db (exec e db (ROLLBACK_TO n)).
Proof.
  intros W He. destruct (find_savepoint n (pSavepoint db) 0) as [k|] eqn:Hf.
  2:{ unfold exec, OP_Savepoint, savepoint_end. cbn [pSavepoint start_step set_counts]. rewrite Hf. by apply abort_ro. }
  pose proof (find_in_txn db n k W Hf) as Ha.
  destruct (find_saves n (pBt db) (pSavepoint db) (nSavepoint db - 1) 0 k Hf) as [Hk Hfind]. rewrite Nat.sub_0_r in Hfind.
  destruct (drop_nth k (pSavepoint db)) as [s Hd]; [lia|].
  pose proof (wf_write _ W) as Hw. pose proof (wf_count _ W) as Hn.
  assert (-1 <= nSavepoint db - Z.of_nat k - 1) as Hi0 by (destruct (isTransactionSavepoint db); lia).
  unfold exec, OP_Savepoint, savepoint_end. set (p1 := new_vdbe true false).
  change (pSavepoint (start_step db p1)) with (pSavepoint db). rewrite Hf. cbv zeta.
  rewrite bool_decide_false by done. rewrite !andb_false_r. cbv iota.
  change (pBt (start_step db p1)) with (pBt db). change (nSavepoint (start_step db p1)) with (nSavepoint db).
  pose proof (btree_savepoint_disk (e_savepoint e) (e_junk e) SAVEPOINT_ROLLBACK (nSavepoint db - Z.of_nat k - 1) (pBt db)) as [Hdk Hrc].
  destruct (sqlite3BtreeSavepoint _ _ _ _ _) as [bt r] eqn:Eb. cbn [fst snd] in Hdk, Hrc.
  change p1 with (reader SQLITE_OK OE_Abort 0 0) at 2 4. destruct (Z.eqb_spec r SQLITE_OK) as [->|Hr].
  - cbn [negb]. destruct (e_oom e) eqn:Ho; [by apply finish_oom|].
    destruct (btree_rollback _ _ _ _ _ Hi0 (wf_clean' _ W) Eb) as (Hcl & Ht & _ & Hcur & Hlen & Hsn).
    match goal with |- context [savepoint_finish _ _ _ _ _ ?b] =>
      pose proof (finish_rollback e db bt k s b W Ha Ho Hd ltac:(lia) Hcl Ht Hdk Hcur ltac:(lia) Hsn) as Hfin end. fold p1 in Hfin.
    destruct (sqlite3VdbeReset _ _) as [db' r']. destruct Hfin as (W' & H1 & H2 & -> & Habs).
    split; [done|]. cbn [fst snd]. split_and!; try done. intros _. rewrite Habs. cbn [a_exec abs a_saves]. rewrite Hfind, Hd.
    cbn [saves_of]. unfold abs. cbn [a_sp_txn a_txn a_disk]. rewrite Ha, Hcur. do 2 f_equal; f_equal; lia.
  - cbn [negb]. apply abort_fatal; [done|repeat split; cbn; try done; lia|]. rewrite Hrc in Hr |- * by done. by apply He.
Qed.

(** *** Writing statements *)

Definition writer (r : Z) (a : on_error) (j : bool) (i c1 c2 fk : Z) : Vdbe := mk_vdbe r true true true false a j i c1 c2 fk.

(** How a writing statement ends: everything is rolled back, the statement is
    rolled back, or its changes are kept. *)
Inductive halted (e : env) (db : sqlite3) (p : Vdbe) (db' : sqlite3) (p' : Vdbe) : Prop :=
| halted_abort : db' = abort_txn db -> p' = p -> rc p <> SQLITE_OK -> halted e db p db' p'
| halted_undo p1 : halt_statement e db p1 SAVEPOINT_ROLLBACK = (db', p') -> rc p1 <> SQLITE_OK ->
    p1 = p \/ p1 = set_error SQLITE_CONSTRAINT_FOREIGNKEY OE_Abort p ->
    usesStmtJournal p = true \/ (is_special (rc p) = false /\ ((errorAction p = OE_Abort /\ rc p <> SQLITE_OK) \/ 0 < nFkConstraint p)) ->
    halted e db p db' p'
| halted_keep : halt_statement e db p SAVEPOINT_RELEASE = (db', p') ->
    rc p = SQLITE_OK \/ (errorAction p = OE_Fail /\ rc p <> SQLITE_OK) -> ~ 0 < nFkConstraint p -> halted e db p db' p'.

Lemma special_nz r : is_special r = true -> r <> SQLITE_OK.
Proof. by intros H ->. Qed.

Lemma halt_writer_txn e db r a j i c1 c2 fk : autoCommit db = false -> nVdbeWrite db = 1 ->
  exists db' p', halt_reader e db (writer r a j i c1 c2 fk) = (db', p', None) /\ halted e db (writer r a j i c1 c2 fk) db' p'.
Proof.
  intros Ha Hw. unfold halt_reader. set (p := writer r a j i c1 c2 fk). unfold halt_special. cbn [rc readOnly p writer negb orb usesStmtJournal].
  rewrite andb_true_r. destruct (is_special r) eqn:Es.
  - pose proof (special_nz _ Es) as Hn. assert (succeeds p true = false) as ->.
    { unfold succeeds. cbn [rc p writer negb]. apply Z.eqb_neq in Hn. by rewrite Hn, andb_false_r. }
    destruct (((_ =? SQLITE_NOMEM) || (_ =? SQLITE_FULL)) && j) eqn:Ej; cbv iota beta.
    + rewrite Ha. cbn [andb]. destruct (halt_statement e db p SAVEPOINT_ROLLBACK) as [db' p'] eqn:Eh.
      exists db', p'. split; [done|]. apply (halted_undo e db p db' p' p Eh Hn); [by left|]. left. by apply andb_prop in Ej as [_ Ej].
    + change (autoCommit (abort_txn db)) with true. change (nVdbeWrite (abort_txn db)) with (nVdbeWrite db). rewrite Hw.
      cbn [andb Z.eqb readOnly p writer Pos.eqb]. unfold halt_commit.
      assert (succeeds p true = false) as ->.
      { unfold succeeds. cbn [rc p writer negb]. apply Z.eqb_neq in Hn. by rewrite Hn, andb_false_r. }
      rewrite rollback_abort. exists (abort_txn db), p. split; [done|]. by apply halted_abort.
  - cbv iota beta. cbn [andb]. rewrite Ha. cbn [andb].
    destruct (succeeds p false && (0 <? fk)) eqn:Ef.
    + apply andb_prop in Ef as [Esu Efk]. rewrite Esu. unfold sqlite3VdbeCheckFk. cbn [andb orb negb nFkConstraint p writer].
      rewrite Efk. cbn [fst rc errorAction set_error]. change (SQLITE_CONSTRAINT_FOREIGNKEY =? SQLITE_OK) with false.
      rewrite bool_decide_false by done. rewrite bool_decide_true by done. cbn [orb].
      destruct (halt_statement e db (set_error SQLITE_CONSTRAINT_FOREIGNKEY OE_Abort p) SAVEPOINT_ROLLBACK) as [db' p'] eqn:Eh.
      exists db', p'. split; [done|]. apply (halted_undo e db p db' p' _ Eh); [done|by right|]. right. split; [done|]. right. cbn. lia.
    + assert ((if succeeds p false then fst (sqlite3VdbeCheckFk db p false) else p) = p) as ->.
      { destruct (succeeds p false); [|done]. unfold sqlite3VdbeCheckFk. cbn [andb orb negb nFkConstraint p writer] in *. by rewrite Ef. }
      unfold succeeds in Ef. cbn [rc errorAction p writer negb] in *. rewrite andb_true_r in Ef.
      destruct ((r =? SQLITE_OK) || bool_decide (a = OE_Fail)) eqn:Ek.
      * destruct (halt_statement e db p SAVEPOINT_RELEASE) as [db' p'] eqn:Eh. exists db', p'. split; [done|].
        apply halted_keep; [done| |cbn; cbn [andb] in Ef; lia].
        destruct (Z.eqb_spec r SQLITE_OK) as [->|Hn]; [by left|]. right. split; [|done]. cbn [orb] in Ek. by apply bool_decide_eq_true in Ek.
      * apply orb_false_elim in Ek as [En Efl]. apply Z.eqb_neq in En. clear Ef Efl.
        destruct (bool_decide (a = OE_Abort)) eqn:Eab; [apply bool_decide_eq_true in Eab|].
        -- destruct (halt_statement e db p SAVEPOINT_ROLLBACK) as [db' p'] eqn:Eh. exists db', p'. split; [done|].
           apply (halted_undo e db p db' p' p Eh En); [by left|]. right. split; [done|]. left. split; [by subst|done].
        -- exists (abort_txn db), p. split; [done|]. by apply halted_abort.
Qed.

(** In autocommit mode: rolled back with an error, or committed. *)
Inductive halted_auto (db : sqlite3) (p : Vdbe) (db' : sqlite3) (p' : Vdbe) : Prop :=
| auto_abort : db' = abort_txn db \/ db' = rolled_back db -> rc p' <> SQLITE_OK -> halted_auto db p db' p'
| auto_commit : db' = committed db -> p' = p -> rc p = SQLITE_OK \/ (errorAction p = OE_Fail /\ rc p <> SQLITE_OK) ->
    nDeferredCons db + nDeferredImmCons db <= 0 -> halted_auto db p db' p'.

Lemma commit_writer e db p : readOnly p = false -> rc p = SQLITE_OK \/ errorAction p = OE_Fail ->
  exists db' p', halt_commit e db p false = (db', p', None) /\ halted_auto db p db' p'.
Proof.
  intros Hro Hs. unfold halt_commit.
  assert (succeeds p false = true) as ->.
  { unfold succeeds. destruct Hs as [-> | ->]; [done|]. rewrite bool_decide_true by done. apply orb_true_r. }
  unfold sqlite3VdbeCheckFk. cbn [andb negb]. rewrite orb_false_r.
  destruct (Z.ltb_spec 0 (nDeferredCons db + nDeferredImmCons db)) as [Hd|Hd].
  - change (negb (SQLITE_ERROR =? SQLITE_OK)) with true. cbn [readOnly set_error]. rewrite Hro. cbn [andb].
    eexists _, _. split; [done|]. apply auto_abort; [by right|done].
  - step_ok. cbn [andb]. destruct (CorruptRdOnly db) eqn:Ec.
    { change (SQLITE_CORRUPT =? SQLITE_BUSY) with false. change (negb (SQLITE_CORRUPT =? SQLITE_OK)) with true. cbn [andb].
      eexists _, _. split; [done|]. apply auto_abort; [by right|done]. }
    unfold vdbeCommit. destruct (negb _ || _) eqn:Eo.
    { step_ok. cbn [andb]. eexists _, _. split; [done|]. apply auto_commit; try done.
      destruct (Z.eq_dec (rc p) SQLITE_OK); [by left|]. right. split; [|done]. naive_solver. }
    apply orb_false_elim in Eo as [_ Eo]. assert (e_commit e <> SQLITE_OK) as Hn by (by apply Z.eqb_neq).
    destruct (Z.eqb_spec (e_commit e) SQLITE_BUSY) as [Eb|Eb].
    + rewrite Hro. change (SQLITE_BUSY =? SQLITE_OK) with false. rewrite andb_false_r. cbn [negb].
      eexists _, _. split; [done|]. apply auto_abort; [by right|done].
    + rewrite Hro, andb_false_r, Eo. cbn [negb]. eexists _, _. split; [done|]. apply auto_abort; [by right|done].
Qed.

Lemma fail_writer e db p special : rc p <> SQLITE_OK -> special = true \/ errorAction p <> OE_Fail ->
  halt_commit e db p special = (rolled_back db, p, None).
Proof.
  intros Hr Hs. unfold halt_commit. assert (succeeds p special = false) as ->; [|done].
  unfold succeeds. apply Z.eqb_neq in Hr. rewrite Hr. cbn [orb]. destruct Hs as [-> |Hf]; [apply andb_false_r|].
  by rewrite bool_decide_false.
Qed.

Lemma halt_statement_none e db p eOp : nStatement db = 0 -> halt_statement e db p eOp = (db, p).
Proof. intros H. unfold halt_statement, sqlite3VdbeCloseStatement. by rewrite H. Qed.

Lemma halt_writer_auto e db r a j i c1 c2 fk : autoCommit db = true -> nVdbeWrite db = 1 ->
  exists db' p', halt_reader e db (writer r a j i c1 c2 fk) = (db', p', None) /\
    halted_auto db (writer r a j i c1 c2 fk) db' p'.
Proof.
  intros Ha Hw. unfold halt_reader. set (p := writer r a j i c1 c2 fk). unfold halt_special. cbn [rc readOnly p writer negb orb usesStmtJournal].
  rewrite andb_true_r. destruct (is_special r) eqn:Es.
  - pose proof (special_nz _ Es) as Hn. assert (succeeds p true = false) as ->.
    { unfold succeeds. cbn [rc p writer negb]. apply Z.eqb_neq in Hn. by rewrite Hn, andb_false_r. }
    destruct (((_ =? SQLITE_NOMEM) || (_ =? SQLITE_FULL)) && j) eqn:Ej; cbv iota beta.
    + rewrite Ha, Hw. cbn [andb Z.eqb readOnly p writer Pos.eqb]. fold p. rewrite fail_writer by auto. rewrite halt_statement_none by done.
      eexists _, _. split; [done|]. apply auto_abort; [by right|done].
    + change (autoCommit (abort_txn db)) with true. change (nVdbeWrite (abort_txn db)) with (nVdbeWrite db). rewrite Hw.
      cbn [andb Z.eqb readOnly p writer Pos.eqb]. fold p. rewrite fail_writer by auto. unfold rolled_back. rewrite rollback_abort.
      eexists _, _. split; [done|]. apply auto_abort; [by left|done].
  - cbv iota beta. cbn [andb]. rewrite Ha, Hw. cbn [andb Z.eqb readOnly p writer Pos.eqb]. fold p.
    destruct (succeeds p false) eqn:Esu.
    + unfold sqlite3VdbeCheckFk. cbn [andb orb negb nFkConstraint p writer]. destruct (0 <? fk); cbn [fst].
      * cbn [readOnly set_error]. change (1 =? (if readOnly p then 0 else 1)) with true. cbn [andb].
        rewrite fail_writer by (done || by right). eexists _, _. split; [done|]. apply auto_abort; [by right|done].
      * destruct (commit_writer e db p) as (db' & p' & -> & H); [done| |].
        { unfold succeeds in Esu. apply orb_true_iff in Esu as [E|E]; [left; by apply Z.eqb_eq|right].
          apply andb_prop in E as [E _]. by apply bool_decide_eq_true in E. }
        exists db', p'. by split.
    + unfold succeeds in Esu. apply orb_false_elim in Esu as [En Ef]. apply Z.eqb_neq in En.
      rewrite fail_writer; [|done|].
      * eexists _, _. split; [done|]. apply auto_abort; [by right|done].
      * right. intros Efl. rewrite bool_decide_true in Ef by done. done.
Qed.

(** The end of a statement does not change what kind of statement it is. *)
Definition kind (p : Vdbe) : bool * bool * bool * bool := (started p, running p, bIsReader p, readOnly p).

Lemma check_fk_kind db p d : kind (fst (sqlite3VdbeCheckFk db p d)) = kind p.
Proof. unfold sqlite3VdbeCheckFk. by destruct (_ || _). Qed.

Lemma halt_statement_kind e db p eOp : kind (snd (halt_statement e db p eOp)) = kind p.
Proof.
  unfold halt_statement, sqlite3VdbeCloseStatement. destruct (_ && _).
  - destruct (if bool_decide (eOp = SAVEPOINT_ROLLBACK) then _ else _) as [bt r].
    destruct (if r =? SQLITE_OK then _ else _) as [bt' r']. destruct (negb _); [|done]. by destruct (_ || _).
  - done.
Qed.

Lemma halt_commit_kind e db p s : kind (snd (fst (halt_commit e db p s))) = kind p.
Proof.
  unfold halt_commit. destruct (succeeds p s); [|done]. pose proof (check_fk_kind db p true) as Hk.
  destruct (sqlite3VdbeCheckFk db p true) as [p' r]. cbn [fst] in Hk. destruct (_ && _); [done|].
  destruct (if negb (r =? SQLITE_OK) then _ else _) as [db' r']. destruct (_ && _); [done|]. by destruct (negb _).
Qed.

Lemma halt_reader_kind e db p : kind (snd (fst (halt_reader e db p))) = kind p.
Proof.
  unfold halt_reader. destruct (halt_special db p) as [db1 op].
  set (p1 := if succeeds p _ then _ else p).
  assert (kind p1 = kind p) as Hk by (unfold p1; destruct (succeeds p _); [apply check_fk_kind|done]). clearbody p1.
  destruct (_ && _).
  - pose proof (halt_commit_kind e db1 p1 (is_special (rc p))) as Hc. destruct (halt_commit _ _ _ _) as [[db2 p2] early].
    cbn [fst snd] in Hc. destruct early; [by rewrite <- Hk|]. destruct op as [op|]; [|by rewrite <- Hk].
    pose proof (halt_statement_kind e db2 p2 op) as Hs. destruct (halt_statement _ _ _ _). cbn in *. congruence.
  - destruct (match op with Some _ => _ | None => _ end) as [db2 [op2|]]; [|by rewrite <- Hk].
    pose proof (halt_statement_kind e db2 p1 op2) as Hs. destruct (halt_statement _ _ _ _). cbn in *. congruence.
Qed.

(** The end of a writing statement, from the end of its transaction part. *)
Lemma halt_writer e db r a j i c1 c2 fk db' p' :
  halt_reader e db (writer (with_oom e r) a j i c1 c2 fk) = (db', p', None) -> (e_oom e = true -> rc p' <> SQLITE_OK) ->
  exists p'' h, sqlite3VdbeHalt e db (writer r a j i c1 c2 fk) = (settle false db', p'', h) /\ running p'' = false /\
    (h = SQLITE_BUSY -> rc p'' = SQLITE_BUSY) /\ (rc p'' = SQLITE_OK <-> rc p' = SQLITE_OK).
Proof.
  intros H Ho. pose proof (halt_reader_kind e db (writer (with_oom e r) a j i c1 c2 fk)) as Hk. rewrite H in Hk. cbn in Hk.
  injection Hk as Hs Hr Hb Hro. unfold sqlite3VdbeHalt. cbn [running writer negb].
  assert ((if e_oom e then set_rc SQLITE_NOMEM (writer r a j i c1 c2 fk) else writer r a j i c1 c2 fk) =
          writer (with_oom e r) a j i c1 c2 fk) as -> by (unfold with_oom; by destruct (e_oom e)).
  cbn [started bIsReader writer andb]. rewrite H, Hs, Hb, Hro. eexists _, _. split; [done|].
  destruct (e_oom e); cbn [running set_halted set_rc rc]; (split; [done|]); split; try done.
  - split; [done|]. intros E. by destruct (Ho eq_refl).
  - destruct (Z.eqb_spec (rc p') SQLITE_BUSY); done.
Qed.

(** *** The statement transaction *)

(** The state [db2] in the middle of a statement that began in [db]. *)
Record in_stmt (db db2 : sqlite3) (p : Vdbe) : Prop := {
  is_counted : counted false db db2;
  is_auto : autoCommit db2 = autoCommit db;
  is_names : pSavepoint db2 = pSavepoint db;
  is_n : nSavepoint db2 = nSavepoint db;
  is_txn : isTransactionSavepoint db2 = isTransactionSavepoint db;
  is_clean : clean (pBt db2);
  is_stmt : (nStatement db2 = 0 /\ iStatement p = 0) \/
            (nStatement db2 = 1 /\ iStatement p = nSavepoint db + 1 /\ inTrans (pBt db2) = TRANS_WRITE /\
             nStmtDefCons p = nDeferredCons db /\ nStmtDefImmCons p = nDeferredImmCons db /\
             snapshot (pBt db2) (nSavepoint db) = cur (pBt db));
  is_len : Z.of_nat (length (aSavepoint (pBt db2))) <= nSavepoint db + nStatement db2;
  is_snap : forall j, 0 <= j < nSavepoint db -> snapshot (pBt db2) j = snapshot (pBt db) j
}.

(** No statement transaction is open any more. *)
Lemma stmt_view db X p : wf db -> autoCommit db = false -> in_stmt db X p -> nStatement X = 0 ->
  wf (settle false X) /\ nVdbeActive (settle false X) = nVdbeActive db /\ nVdbeRead (settle false X) = nVdbeRead db /\
  abs (settle false X) = mk_a (disk (pBt db)) (cur (pBt X)) true (isTransactionSavepoint db)
                           (nDeferredCons X, nDeferredImmCons X) (a_saves (abs db)).
Proof.
  intros W Ha [(C1 & C2 & C3 & C4) A N1 N2 N3 Cl St Len Sn] Hn. rewrite Hn in Len.
  split; [|cbn; split_and!; try lia].
  - destruct W. split; cbn; rewrite ?N1, ?N2, ?N3, ?A; try done; try lia.
  - unfold abs. cbn. rewrite A, Ha, N1, N2, N3, C4. f_equal. apply saves_of_agree; [done|]. intros j Hj. apply Sn. lia.
Qed.

(** The statement is closed: everything is rolled back, or the statement is
    rolled back or kept. *)
Lemma stmt_close e db db2 p eOp db' p' : wf db -> in_stmt db db2 p -> eOp <> SAVEPOINT_BEGIN ->
  halt_statement e db2 p eOp = (db', p') ->
  (exists d, db' = abort_txn d /\ counted false db d /\ rc p' <> SQLITE_OK) \/
  (in_stmt db db' p' /\ nStatement db' = 0 /\ rc p' = rc p /\
   (if bool_decide (eOp = SAVEPOINT_ROLLBACK) && (nStatement db2 =? 1)
    then cur (pBt db') = cur (pBt db) /\ nDeferredCons db' = nDeferredCons db /\ nDeferredImmCons db' = nDeferredImmCons db
    else cur (pBt db') = cur (pBt db2) /\ nDeferredCons db' = nDeferredCons db2 /\ nDeferredImmCons db' = nDeferredImmCons db2)).
Proof.
  intros W I Hop H. pose proof I as [C A N1 N2 N3 Cl St Len Sn]. destruct St as [[S1 S2]|(S1 & S2 & S3 & S4 & S5 & S6)].
  { rewrite halt_statement_none in H by done. injection H as <- <-. right. rewrite S1, andb_false_r. done. }
  assert (0 <= nSavepoint db) as Hn0 by (pose proof (wf_pager _ W); lia).
  unfold halt_statement, sqlite3VdbeCloseStatement in H. rewrite S1, S2 in H.
  replace (negb (1 =? 0) && negb (nSavepoint db + 1 =? 0)) with true in H by lia.
  replace (nSavepoint db + 1 - 1) with (nSavepoint db) in H by lia.
  unfold sqlite3BtreeSavepoint in H. rewrite (bool_decide_true (inTrans (pBt db2) = TRANS_WRITE)) in H by done.
  destruct C as (C1 & C2 & C3 & C4).
  destruct (Z.eqb_spec (e_close e) SQLITE_OK) as [Ec|Ec].
  - right. destruct (pager_rollback (nSavepoint db) (pBt db2)) as (R1 & R2 & R3 & R4 & R5); [lia|].
    destruct (bool_decide (eOp = SAVEPOINT_ROLLBACK)) eqn:Eop.
    + change (SQLITE_OK =? SQLITE_OK) with true in H. cbv iota beta in H. rewrite bool_decide_true in H by congruence.
      cbv iota beta in H. change (negb (SQLITE_OK =? SQLITE_OK)) with false in H. cbv iota beta in H. injection H as <- <-.
      destruct (pager_release (nSavepoint db) (sqlite3PagerSavepoint SAVEPOINT_ROLLBACK (nSavepoint db) (pBt db2))) as (Q1 & Q2 & Q3 & Q4 & Q5); [lia|].
      rewrite S1. cbn [andb Z.eqb Pos.eqb]. split; [|by cbn; rewrite Q3, R3, S6].
      split; cbn; try done; try lia; try by left.
      * repeat split; cbn; try done. congruence.
      * intros Hn. cbn in *. congruence.
      * intros j Hj. rewrite Q5 by lia. rewrite R5 by lia. by apply Sn.
    + change (SQLITE_OK =? SQLITE_OK) with true in H. cbv iota beta in H. rewrite bool_decide_true in H by done.
      cbv iota beta in H. change (negb (SQLITE_OK =? SQLITE_OK)) with false in H. cbv iota beta in H. injection H as <- <-.
      destruct (pager_release (nSavepoint db) (pBt db2)) as (Q1 & Q2 & Q3 & Q4 & Q5); [lia|].
      cbn [andb]. split; [|by cbn].
      split; cbn; try done; try lia; try by left.
      * repeat split; cbn; try done. congruence.
      * intros Hn. cbn in *. congruence.
      * intros j Hj. rewrite Q5 by lia. by apply Sn.
  - left. pose proof Ec as Ec'. apply Z.eqb_neq in Ec'. destruct (bool_decide (eOp = SAVEPOINT_ROLLBACK)) eqn:Eop.
    + rewrite Ec' in H. cbv iota beta in H. rewrite Ec' in H. cbn [negb] in H. injection H as <- <-.
      eexists. split; [done|]. split; [by repeat split|]. cbn. by destruct (_ || _) eqn:E; [|apply orb_false_elim in E as [E _]; apply Z.eqb_neq in E].
    + change (SQLITE_OK =? SQLITE_OK) with true in H. cbv iota beta in H. rewrite bool_decide_true in H by done.
      cbv iota beta in H. rewrite Ec' in H. cbn [negb] in H. injection H as <- <-.
      eexists. split; [done|]. split; [by repeat split|]. cbn. by destruct (_ || _) eqn:E; [|apply orb_false_elim in E as [E _]; apply Z.eqb_neq in E].
Qed.

Lemma good_corrupt c db X r b : good_result c db (X, r) -> good_result c db (set_corrupt b X, r).
Proof. intros (W & H). split; [by apply wf_corrupt|done]. Qed.

Lemma in_stmt_error db db2 p r a : in_stmt db db2 p -> in_stmt db db2 (set_error r a p).
Proof. by intros []. Qed.

Lemma rolled_auto c db db2 p r : wf db -> autoCommit db = true -> in_stmt db db2 p -> r <> SQLITE_OK ->
  good_result c db (settle false (rolled_back db2), r).
Proof.
  intros W Ha [(C1 & C2 & C3 & C4) A N1 N2 N3 Cl St Len Sn] Hr. destruct (wf_auto_flags _ W Ha) as [Hi Hn].
  pose proof (wf_read _ W) as Hrd. destruct (wf_auto _ W Ha) as (Hl & Hd1 & Hd2 & Hc & Ht).
  split; [|cbn; split_and!; [lia|lia|done|]].
  - split; cbn; rewrite ?N1, ?N2, ?N3, ?Hi, ?Hn, ?Hl; try done; try lia. intros _. split_and!; try done. by destruct (_ && _).
  - intros _. apply failed_unchanged. unfold abs. cbn. by rewrite A, N1, N3, C4, Ha, Hi, Hl, Hd1, Hd2, Hc.
Qed.

Lemma committed_auto db db2 p : wf db -> autoCommit db = true -> in_stmt db db2 p ->
  wf (settle false (committed db2)) /\ nVdbeActive (settle false (committed db2)) = nVdbeActive db /\
  nVdbeRead (settle false (committed db2)) = nVdbeRead db /\
  abs (settle false (committed db2)) = mk_a (cur (pBt db2)) (cur (pBt db2)) false false (0, 0) [].
Proof.
  intros W Ha [(C1 & C2 & C3 & C4) A N1 N2 N3 Cl St Len Sn]. destruct (wf_auto_flags _ W Ha) as [Hi Hn].
  pose proof (wf_read _ W) as Hrd. destruct (wf_auto _ W Ha) as (Hl & Hd1 & Hd2 & Hc & Ht).
  split; [|cbn; split_and!; try lia].
  - split; cbn; rewrite ?N1, ?N2, ?N3, ?Hi, ?Hn, ?Hl; try done; try lia. intros _. split_and!; try done. by destruct (_ && _).
  - unfold abs. cbn. by rewrite A, N1, N3, Ha, Hi, Hl.
Qed.

(** What the body did, when it is kept and when it is undone. *)
Definition kept (db db2 : sqlite3) (b : body) : Prop :=
  cur (pBt db2) = b_cur b /\ nDeferredCons db2 = nDeferredCons db + b_deferred b /\ nDeferredImmCons db2 = nDeferredImmCons db.
Definition unmoved (db db2 : sqlite3) : Prop :=
  cur (pBt db2) = cur (pBt db) /\ nDeferredCons db2 = nDeferredCons db /\ nDeferredImmCons db2 = nDeferredImmCons db.

Lemma end_stmt_auto e db db2 r a j i c1 c2 fk b : let p := writer r a j i c1 c2 fk in
  wf db -> autoCommit db = true -> in_stmt db db2 p ->
  (r = SQLITE_OK \/ a = OE_Fail -> kept db db2 b /\ (r <> SQLITE_OK -> exists r0, b_end b = Halts r0 OE_Fail)) ->
  exists db' p', halt_reader e db2 p = (db', p', None) /\ (r <> SQLITE_OK -> rc p' <> SQLITE_OK) /\
    forall r', (r' = SQLITE_OK <-> rc p' = SQLITE_OK) -> good_result (WRITE b) db (settle false db', r').
Proof.
  intros p W Ha I Hk. pose proof (is_auto _ _ _ I) as A. pose proof (is_counted _ _ _ I) as C.
  destruct (wf_auto _ W Ha) as (Hl & Hd1 & Hd2 & Hc & Ht).
  destruct (halt_writer_auto e db2 r a j i c1 c2 fk) as (db' & p' & Hh & Hcase); [by rewrite A|by destruct C as (_ & _ & ? & _)|].
  exists db', p'. split; [done|]. destruct Hcase as [Hab Hr|Hcm -> Hr Hsum].
  - split; [done|]. intros r' Hr'. destruct Hab as [-> | ->]; [eapply result_aborted; try done; tauto|].
    eapply rolled_auto; try done. tauto.
  - split; [done|]. intros r' Hr'. subst db'. destruct (committed_auto db db2 p W Ha I) as (W' & H1 & H2 & H3).
    assert (r = SQLITE_OK \/ a = OE_Fail) as Hor by (cbn in Hr; tauto). destruct (Hk Hor) as ((K1 & K2 & K3) & K4).
    assert (a_exec (abs db) (WRITE b) = Some (abs (settle false (committed db2)))) as Hx.
    { rewrite H3. cbn. rewrite Ha, K1. cbn. by replace (nDeferredCons db + b_deferred b + nDeferredImmCons db <=? 0) with true by lia. }
    split; [done|]. cbn [fst snd]. split_and!; try done. intros Hn.
    assert (r <> SQLITE_OK) as Hn' by (intros ->; by apply Hn, Hr').
    destruct (K4 Hn') as [r0 Hr0]. by eapply failed_partial.
Qed.

Lemma end_stmt_txn e db db2 r a j i c1 c2 fk b : let p := writer r a j i c1 c2 fk in
  wf db -> autoCommit db = false -> in_stmt db db2 p ->
  (r = SQLITE_OK \/ a = OE_Fail -> kept db db2 b /\ (r <> SQLITE_OK -> exists r0, b_end b = Halts r0 OE_Fail)) ->
  (nStatement db2 = 0 -> j = true \/ (is_special r = false /\ ((a = OE_Abort /\ r <> SQLITE_OK) \/ 0 < fk)) -> unmoved db db2) ->
  exists db' p', halt_reader e db2 p = (db', p', None) /\ (r <> SQLITE_OK -> rc p' <> SQLITE_OK) /\
    forall r', (r' = SQLITE_OK <-> rc p' = SQLITE_OK) -> good_result (WRITE b) db (settle false db', r').
Proof.
  intros p W Ha I Hk Hu. pose proof (is_auto _ _ _ I) as A. pose proof (is_counted _ _ _ I) as C.
  destruct (halt_writer_txn e db2 r a j i c1 c2 fk) as (db' & p' & Hh & Hcase); [by rewrite A|by destruct C as (_ & _ & ? & _)|].
  exists db', p'. split; [done|]. destruct Hcase as [-> -> Hr|p1 He Hr Hp1 Hwhy|He Hr Hfk].
  - split; [done|]. intros r' Hr'. eapply result_aborted; try done; tauto.
  - assert (in_stmt db db2 p1) as I1 by (destruct Hp1 as [-> | ->]; [done|by apply in_stmt_error]).
    destruct (stmt_close e db db2 p1 SAVEPOINT_ROLLBACK db' p' W I1 ltac:(done) He) as [(d & -> & Cd & Hr')|(I' & Hn & Hrc & Hcont)].
    { split; [done|]. intros r' E. eapply result_aborted; try done; tauto. }
    rewrite Hrc. split; [done|]. intros r' Hr'. destruct (stmt_view db db' p' W Ha I' Hn) as (W' & H1 & H2 & H3).
    split; [done|]. cbn [fst snd]. split_and!; try done; [tauto|]. intros _. apply failed_unchanged. rewrite H3.
    assert (unmoved db db') as (U1 & U2 & U3).
    { rewrite bool_decide_true in Hcont by done. cbn [andb] in Hcont. destruct (Z.eqb_spec (nStatement db2) 1) as [E|E]; [done|].
      destruct (is_stmt _ _ _ I) as [[S1 _]|[S1 _]]; [|done]. destruct (Hu S1) as (U1 & U2 & U3); [done|].
      destruct Hcont as (V1 & V2 & V3). unfold unmoved. by rewrite V1, V2, V3. }
    unfold abs. cbn. by rewrite U1, U2, U3, Ha.
  - destruct (stmt_close e db db2 p SAVEPOINT_RELEASE db' p' W I ltac:(done) He) as [(d & -> & Cd & Hr')|(I' & Hn & Hrc & V1 & V2 & V3)].
    { split; [done|]. intros r' E. eapply result_aborted; try done; tauto. }
    rewrite Hrc. split; [done|]. intros r' Hr'. destruct (stmt_view db db' p' W Ha I' Hn) as (W' & H1 & H2 & H3).
    assert (r = SQLITE_OK \/ a = OE_Fail) as Hor by (cbn in Hr; tauto). destruct (Hk Hor) as ((K1 & K2 & K3) & K4).
    assert (a_exec (abs db) (WRITE b) = Some (abs (settle false db'))) as Hx.
    { rewrite H3. cbn. by rewrite Ha, V1, V2, V3, K1, K2, K3. }
    split; [done|]. cbn [fst snd]. split_and!; try done. intros Hn'.
    assert (r <> SQLITE_OK) as Hn'' by (intros ->; by apply Hn', Hr').
    destruct (K4 Hn'') as [r0 Hr0]. by eapply failed_partial.
Qed.

(** A writing statement halts. *)
Lemma finish_writer e db db2 r a j i c1 c2 fk b : let p := writer r a j i c1 c2 fk in let r' := with_oom e r in
  wf db -> in_stmt db db2 p ->
  (r' = SQLITE_OK \/ a = OE_Fail -> kept db db2 b /\ (r' <> SQLITE_OK -> exists r0, b_end b = Halts r0 OE_Fail)) ->
  (nStatement db2 = 0 -> autoCommit db = false ->
   j = true \/ (is_special r' = false /\ ((a = OE_Abort /\ r' <> SQLITE_OK) \/ 0 < fk)) -> unmoved db db2) ->
  exists db' p'' h, sqlite3VdbeHalt e db2 p = (db', p'', h) /\ running p'' = false /\ (h = SQLITE_BUSY -> rc p'' = SQLITE_BUSY) /\
    (r' <> SQLITE_OK -> rc p'' <> SQLITE_OK) /\ good_result (WRITE b) db (db', rc p'').
Proof.
  intros p r' W I Hk Hu. assert (in_stmt db db2 (writer r' a j i c1 c2 fk)) as I' by (by destruct I; split).
  assert (exists db' p', halt_reader e db2 (writer r' a j i c1 c2 fk) = (db', p', None) /\ (r' <> SQLITE_OK -> rc p' <> SQLITE_OK) /\
    forall r', (r' = SQLITE_OK <-> rc p' = SQLITE_OK) -> good_result (WRITE b) db (settle false db', r')) as (db' & p' & Hh & Hn & Hg).
  { destruct (autoCommit db) eqn:Ha; [by apply end_stmt_auto|]. apply end_stmt_txn; auto. }
  destruct (halt_writer e db2 r a j i c1 c2 fk db' p' Hh) as (p'' & h & Hv & Hrun & Hb & Hrc).
  { intros Ho. apply Hn. unfold r', with_oom. by rewrite Ho. }
  exists (settle false db'), p'', h. split_and!; try done; [|by apply Hg]. rewrite Hrc. done.
Qed.

Lemma reset_halted e db p : running p = false -> sqlite3VdbeReset e (db, p) = (db, rc p).
Proof. intros H. unfold sqlite3VdbeReset, sqlite3VdbeHalt. cbn [fst snd]. by rewrite H. Qed.

(** The statement fails before its body has run, or its changes must be undone. *)
Lemma abort_writer e db db2 j i c1 c2 fk b r : wf db -> in_stmt db db2 (writer SQLITE_OK OE_Abort j i c1 c2 fk) ->
  r <> SQLITE_OK -> (nStatement db2 = 0 -> autoCommit db = false -> j = true \/ is_special (with_oom e r) = false -> unmoved db db2) ->
  good_result (WRITE b) db (sqlite3VdbeReset e (abort_due_to_error e db2 (writer SQLITE_OK OE_Abort j i c1 c2 fk) r)).
Proof.
  intros W I Hr Hu. unfold abort_due_to_error. fold (with_oom e r). pose proof (with_oom_nz e r Hr) as Hr'.
  change (set_rc (with_oom e r) (writer SQLITE_OK OE_Abort j i c1 c2 fk)) with (writer (with_oom e r) OE_Abort j i c1 c2 fk).
  destruct (finish_writer e db db2 (with_oom e r) OE_Abort j i c1 c2 fk b) as (db' & p'' & h & -> & Hrun & Hb & Hn & Hg).
  - done.
  - by destruct I; split.
  - rewrite with_oom_idem. intros [?|?]; done.
  - rewrite with_oom_idem. intros Hs Ha [Hj|[Hsp _]]; apply Hu; auto.
  - destruct (_ && _); rewrite reset_halted by done; [by apply good_corrupt|done].
Qed.

(** The view of the content does not change when the pager opens savepoints. *)
Definition same_view (bt bt' : Btree) : Prop :=
  disk bt' = disk bt /\ cur bt' = cur bt /\ forall j, snapshot bt' j = snapshot bt j.

Lemma nth_app_replicate {A} (l : list A) k j d : nth j (l ++ replicate k d) d = nth j l d.
Proof.
  destruct (Nat.lt_ge_cases j (length l)) as [H|H]; [by rewrite app_nth1|]. rewrite app_nth2, (nth_overflow l) by lia.
  destruct (Nat.lt_ge_cases (j - length l) k) as [H'|H']; [|by rewrite nth_overflow by (rewrite length_replicate; lia)].
  rewrite (nth_lookup (replicate k d)), lookup_replicate_2 by lia. done.
Qed.

Lemma open_savepoint_view r k n bt bt' r' : sqlite3PagerOpenSavepoint r k n bt = (bt', r') ->
  same_view bt bt' /\ inTrans bt' = inTrans bt /\
  Z.of_nat (length (aSavepoint bt')) <= Z.max n (Z.of_nat (length (aSavepoint bt))) /\
  (r' = SQLITE_OK -> n <= Z.of_nat (length (aSavepoint bt'))) /\
  (r' <> SQLITE_OK -> k = 0%nat -> aSavepoint bt' = aSavepoint bt).
Proof.
  unfold sqlite3PagerOpenSavepoint. destruct (Z.ltb_spec (Z.of_nat (length (aSavepoint bt))) n) as [Hl|Hl].
  - intros [= <- <-]. cbn. split; [split_and!; try done|].
    + intros j. unfold snapshot. cbn. destruct (j <? 0); [done|]. apply nth_app_replicate.
    + rewrite length_app, length_replicate. destruct (Z.eqb_spec r SQLITE_OK) as [->|Hr].
      * split_and!; try done; lia.
      * split_and!; try done; [lia|]. intros _ ->. cbn. by rewrite app_nil_r.
  - intros [= <- <-]. split_and!; try done; lia.
Qed.

Lemma begin_view e n bt bt' r : clean bt -> Z.of_nat (length (aSavepoint bt)) <= n -> sqlite3BtreeBeginTrans e n bt = (bt', r) ->
  same_view bt bt' /\ clean bt' /\ Z.of_nat (length (aSavepoint bt')) <= n /\
  (r = SQLITE_OK -> inTrans bt' = TRANS_WRITE /\ Z.of_nat (length (aSavepoint bt')) = n).
Proof.
  intros Hc Hl. unfold sqlite3BtreeBeginTrans. destruct (_ || _) eqn:E.
  - intros H. apply open_savepoint_view in H as ((V1 & V2 & V3) & Ht & Hlen & Hn & _). cbn in *.
    split; [by split_and!|]. split; [intros Hx; congruence|]. split; [lia|]. intros ->. split; [done|]. specialize (Hn eq_refl). lia.
  - intros [= <- <-]. split_and!; try done. intros E0. apply orb_false_elim in E as [_ E]. rewrite E0 in E. done.
Qed.

Lemma in_stmt_start db p : wf db -> readOnly p = false -> iStatement p = 0 -> in_stmt db (start_step db p) p.
Proof.
  intros W Hp Hi. pose proof (counted_start db p W) as C. rewrite Hp in C. destruct W. split; cbn; try done; try lia; by left.
Qed.

(** Another content of the same view. *)
Lemma in_stmt_view db db2 p bt : in_stmt db db2 p -> same_view (pBt db2) bt -> clean bt -> nStatement db2 = 0 ->
  Z.of_nat (length (aSavepoint bt)) <= nSavepoint db -> in_stmt db (set_bt bt db2) p.
Proof.
  intros [(C1 & C2 & C3 & C4) A N1 N2 N3 Cl St Len Sn] (V1 & V2 & V3) Hcl Hn Hlen. split; cbn; try done; try lia.
  - repeat split; cbn; try done. congruence.
  - intros j Hj. rewrite V3. by apply Sn.
Qed.

Definition after_transaction (e : env) (db db2 : sqlite3) (p2 : Vdbe) (j : bool) (n : next) : Prop :=
  unmoved db db2 /\ in_stmt db db2 p2 /\
  match n with
  | Continue => (exists i c1 c2, p2 = writer SQLITE_OK OE_Abort j i c1 c2 0) /\ inTrans (pBt db2) = TRANS_WRITE /\
      (nStatement db2 = 0 -> autoCommit db = false -> j = false) /\
      Z.of_nat (length (aSavepoint (pBt db2))) = nSavepoint db + nStatement db2
  | Return => exists r i c1 c2, r <> SQLITE_OK /\ p2 = writer r OE_Abort j i c1 c2 0
  | Abort_due_to r => r <> SQLITE_OK /\ exists i c1 c2, p2 = writer SQLITE_OK OE_Abort j i c1 c2 0
  end.

Lemma transaction_ok e db j : wf db -> let p := writer SQLITE_OK OE_Abort j 0 0 0 0 in
  let '(db2, p2, n) := OP_Transaction e (start_step db p) p in after_transaction e db db2 p2 j n.
Proof.
  intros W p. pose proof (in_stmt_start db p W eq_refl eq_refl) as I. unfold OP_Transaction.
  destruct (CorruptRdOnly (start_step db p)); [split_and!; try done; by eexists _, _, _|].
  change (pBt (start_step db p)) with (pBt db). change (nSavepoint (start_step db p)) with (nSavepoint db).
  destruct (sqlite3BtreeBeginTrans e (nSavepoint db) (pBt db)) as [bt r] eqn:Eb.
  destruct (begin_view _ _ _ _ _ (wf_clean' _ W) (wf_pager _ W) Eb) as ((V1 & V2 & V3) & Hcl & Hlen & Hok). cbv zeta.
  assert (in_stmt db (set_bt bt (start_step db p)) p) as I2 by (apply in_stmt_view; try done; apply W).
  destruct (Z.eqb_spec r SQLITE_OK) as [->|Hr]; cbn [negb].
  2:{ destruct (_ =? SQLITE_BUSY).
      - split; [done|]. split; [by destruct I2; split|]. by eexists r, _, _, _.
      - split; [done|]. split; [done|]. split; [done|]. by eexists _, _, _. }
  destruct (Hok eq_refl) as [Ht Hl]. clear Hok. cbn [usesStmtJournal p writer].
  destruct (j && _) eqn:Ej.
  2:{ split; [done|]. split; [done|]. split; [by eexists _, _, _|]. split; [done|]. split; [|cbn; pose proof (wf_stmt _ W); lia].
      intros _ Ha. cbn in Ej. rewrite Ha in Ej. by rewrite andb_true_r in Ej. }
  cbn [iStatement p writer Z.eqb]. cbn [nStatement set_nStatement set_bt start_step set_counts nSavepoint pBt].
  rewrite (wf_stmt _ W). change (0 + 1) with 1.
  destruct (sqlite3PagerOpenSavepoint _ 0 _ _) as [bt2 r2] eqn:Eo.
  apply open_savepoint_view in Eo as ((U1 & U2 & U3) & Ht2 & Hl2 & Hok2 & Hbad).
  assert (unmoved db (set_bt bt2 (set_nStatement 1 (set_bt bt (start_step db p))))) as Hun by (unfold unmoved; cbn; by rewrite U2, V2).
  assert (in_stmt db (set_bt bt2 (set_nStatement 1 (set_bt bt (start_step db p))))
    (set_stmt (nSavepoint db + 1) (nDeferredCons db) (nDeferredImmCons db) p)) as I3.
  { destruct I2 as [(C1 & C2 & C3 & C4) A N1 N2 N3 Cl St Len Sn]. cbn in *. split; cbn; try done; try lia.
    - repeat split; cbn; try done. congruence.
    - intros Hx. congruence.
    - right. split_and!; try done; [congruence|]. rewrite U3. unfold snapshot. pose proof (wf_pager _ W).
      replace (nSavepoint db <? 0) with false by lia. rewrite nth_overflow by lia. done.
    - intros k Hk. rewrite U3. by apply Sn. }
  split; [done|]. split; [done|]. destruct (Z.eqb_spec r2 SQLITE_OK) as [->|Hr2].
  - split; [by eexists _, _, _|]. split; [cbn; congruence|]. split; [by cbn|]. cbn. specialize (Hok2 eq_refl). lia.
  - split; [done|]. by eexists _, _, _.
Qed.

(** The promises of the code generator: an error is reported with its code, and
    a statement without a statement journal has changed nothing when it fails
    and its changes are to be undone. *)
Definition body_ok (db : sqlite3) (b : body) : Prop :=
  (forall r, b_end b = Fails r -> r <> SQLITE_OK) /\
  (b_journal b = false ->
   0 < b_fk b \/ (exists r, b_end b = Fails r) \/ (exists r, r <> SQLITE_OK /\ b_end b = Halts r OE_Abort) ->
   b_cur b = cur (pBt db) /\ b_deferred b = 0).

Definition command_ok (db : sqlite3) (c : command) : Prop := match c with WRITE b => body_ok db b | _ => True end.

(** The body has run. *)
Lemma in_stmt_body db db2 p d k fk : 0 <= nSavepoint db -> in_stmt db db2 p -> inTrans (pBt db2) = TRANS_WRITE ->
  Z.of_nat (length (aSavepoint (pBt db2))) = nSavepoint db + nStatement db2 ->
  in_stmt db (set_deferred k (nDeferredImmCons db2) (set_bt (set_cur d (pBt db2)) db2)) (set_fk fk p).
Proof.
  intros Hn0 [(C1 & C2 & C3 & C4) A N1 N2 N3 Cl St Len Sn] Ht Hl.
  assert (forall j, 0 <= j < nSavepoint db + nStatement db2 -> snapshot (set_cur d (pBt db2)) j = snapshot (pBt db2) j) as Hs.
  { intros j Hj. unfold snapshot. cbn. destruct (j <? 0); [done|]. apply nth_indep. lia. }
  split; cbn; try done.
  - destruct St as [?|(S1 & S2 & S3 & S4 & S5 & S6)]; [by left|]. right. split_and!; try done. rewrite Hs by lia. done.
  - intros j Hj. rewrite Hs; [by apply Sn|]. destruct St as [[? _]|[? _]]; lia.
Qed.

Lemma write_ok e db b : wf db -> body_ok db b -> good_result (WRITE b) db (exec e db (WRITE b)).
Proof.
  intros W [Hf Hj]. unfold exec, run_body. change (new_vdbe false (b_journal b)) with (writer SQLITE_OK OE_Abort (b_journal b) 0 0 0 0).
  pose proof (transaction_ok e db (b_journal b) W) as Ht. cbv zeta in Ht.
  destruct (OP_Transaction _ _ _) as [[db2 p2] n]. destruct Ht as (Hun & I & Hn). destruct n as [| |r].
  - destruct Hn as ((i & c1 & c2 & ->) & Hw & Hnj & Hl). pose proof Hun as (U1 & U2 & U3).
    assert (0 <= nSavepoint db) as Hn0 by (pose proof (wf_pager _ W); lia).
    set (db3 := set_deferred _ _ _). change (set_fk (b_fk b) _) with (writer SQLITE_OK OE_Abort (b_journal b) i c1 c2 (b_fk b)).
    assert (in_stmt db db3 (writer SQLITE_OK OE_Abort (b_journal b) i c1 c2 (b_fk b))) as I3
      by exact (in_stmt_body db db2 _ (b_cur b) _ (b_fk b) Hn0 I Hw Hl).
    assert (kept db db3 b) as Hkept by (unfold kept; cbn; by rewrite U2, U3).
    destruct (b_end b) as [r a|r] eqn:Eend.
    + unfold OP_Halt. change (set_error r a _) with (writer r a (b_journal b) i c1 c2 (b_fk b)).
      destruct (finish_writer e db db3 r a (b_journal b) i c1 c2 (b_fk b) b) as (db' & p'' & h & -> & Hrun & Hb & Hnz & Hg).
      * done.
      * by destruct I3; split.
      * intros Hor. split; [done|]. intros Hnr. destruct Hor as [?| ->]; [done|]. by exists r.
      * intros Hs Ha Hwhy. specialize (Hnj Hs Ha). destruct Hwhy as [?|(Hsp & Hwhy)]; [congruence|].
        assert (e_oom e = false) as Ho by (destruct (e_oom e) eqn:Ho; [unfold with_oom in Hsp; rewrite Ho in Hsp; done|done]).
        unfold with_oom in Hwhy. rewrite Ho in Hwhy.
        destruct Hj as [J1 J2]; [done|destruct Hwhy as [[-> ?]|?]; [right; right; by exists r|by left]|].
        unfold unmoved. cbn. rewrite U2, U3, J1, J2. split_and!; try done. lia.
      * destruct (Z.eqb_spec h SQLITE_BUSY) as [Eh|Eh]; rewrite reset_halted by done; cbn [rc set_rc]; [|done].
        rewrite <- (Hb Eh). done.
    + apply abort_writer; [done|done|by apply Hf|]. intros Hs Ha Hwhy. specialize (Hnj Hs Ha).
      destruct Hj as [J1 J2]; [done|right; left; by exists r|]. unfold unmoved. cbn. rewrite U2, U3, J1, J2. split_and!; try done. lia.
  - destruct Hn as (r & i & c1 & c2 & Hr & ->). unfold sqlite3VdbeReset. cbn [fst snd].
    destruct (finish_writer e db db2 r OE_Abort (b_journal b) i c1 c2 0 b) as (db' & p'' & h & -> & Hrun & Hb & Hnz & Hg); try done.
    intros [?|?]; [|done]. by destruct (with_oom_nz e r Hr).
  - destruct Hn as (Hr & i & c1 & c2 & ->). by apply abort_writer.
Qed.

Lemma exec_good e db c : wf db -> env_ok e -> command_ok db c -> good_result c db (exec e db c).
Proof.
  intros W He Hc. destruct c; [by apply begin_ok|by apply commit_ok|by apply rollback_ok|by apply savepoint_ok|
    by apply release_ok|by apply rollback_to_ok|by apply write_ok].
Qed.

(** *** Commands succeed when nothing fails *)

Definition env_good (e : env) : Prop :=
  e_oom e = false /\ e_begin e = SQLITE_OK /\ e_open e = SQLITE_OK /\ e_stmt_open e = SQLITE_OK /\
  e_savepoint e = SQLITE_OK /\ e_close e = SQLITE_OK /\ e_commit e = SQLITE_OK.

Lemma begin_succeeds e db : wf db -> env_good e -> a_txn (abs db) = false -> snd (exec e db BEGIN) = SQLITE_OK.
Proof.
  intros W (Ho & _) Ha. cbn in Ha. apply negb_false_iff in Ha. pose proof (wf_write _ W) as Hw.
  destruct (wf_auto _ W Ha) as (Hl & Hd1 & Hd2 & Hcur & Ht).
  unfold exec, OP_AutoCommit. set (p1 := new_vdbe true false). change (autoCommit (start_step db p1)) with (autoCommit db). rewrite Ha.
  cbn [negb eqb andb]. rewrite check_fk_ok by (cbn; lia). step_ok. change p1 with (reader SQLITE_OK OE_Abort 0 0) at 2.
  rewrite halt_ro_txn by (try done; try (left; done); cbn; lia). unfold with_oom. by rewrite Ho.
Qed.

Lemma commit_succeeds e db : wf db -> env_good e -> CorruptRdOnly db = false -> is_Some (a_exec (abs db) COMMIT) ->
  snd (exec e db COMMIT) = SQLITE_OK.
Proof.
  intros W (Ho & _ & _ & _ & _ & _ & Hc) Hcr Hs. pose proof (wf_write _ W) as Hw. cbn in Hs.
  destruct (autoCommit db) eqn:Ha; [by destruct Hs|]. cbn in Hs.
  destruct (Z.leb_spec (nDeferredCons db + nDeferredImmCons db) 0) as [Hle|]; [|by destruct Hs].
  unfold exec, OP_AutoCommit. set (p1 := new_vdbe true false). change (autoCommit (start_step db p1)) with (autoCommit db). rewrite Ha.
  cbn [negb eqb andb]. replace (0 <? nVdbeWrite (start_step db p1)) with false by (cbn; lia). cbv iota.
  rewrite check_fk_ok by (cbn; lia). step_ok. change p1 with (reader SQLITE_OK OE_Abort 0 0) at 2.
  rewrite halt_ro_auto by (cbn; lia || done). rewrite Ho. cbn [CorruptRdOnly set_autoCommit start_step set_counts]. rewrite Hcr, Hc, orb_true_r. done.
Qed.

Lemma rollback_succeeds e db : wf db -> env_good e -> a_txn (abs db) = true -> snd (exec e db ROLLBACK) = SQLITE_OK.
Proof.
  intros W (Ho & _ & _ & _ & _ & _ & Hc) Ha. pose proof (wf_write _ W) as Hw. cbn in Ha. apply negb_true_iff in Ha.
  unfold exec, OP_AutoCommit. set (p1 := new_vdbe true false). change (autoCommit (start_step db p1)) with (autoCommit db). rewrite Ha.
  cbn [negb eqb andb]. step_ok. change p1 with (reader SQLITE_OK OE_Abort 0 0) at 2.
  rewrite halt_ro_auto by (cbn; lia || done). rewrite Ho. cbn [CorruptRdOnly set_autoCommit sqlite3RollbackAll set_corrupt].
  by rewrite Hc, orb_true_r.
Qed.

Lemma savepoint_succeeds e db n : wf db -> env_good e -> snd (exec e db (SAVEPOINT n)) = SQLITE_OK.
Proof.
  intros W (Ho & _). pose proof (wf_write _ W) as Hw. unfold exec, OP_Savepoint, savepoint_begin. set (p1 := new_vdbe true false).
  replace (0 <? nVdbeWrite (start_step db p1)) with false by (cbn; lia). cbv iota. rewrite Ho.
  change (autoCommit (start_step db p1)) with (autoCommit db). change p1 with (reader SQLITE_OK OE_Abort 0 0) at 6.
  destruct (autoCommit db) eqn:Ha; by rewrite op_halt_txn by (done || cbn; lia).
Qed.

Lemma btree_savepoint_good junk op i bt : snd (sqlite3BtreeSavepoint SQLITE_OK junk op i bt) = SQLITE_OK.
Proof. unfold sqlite3BtreeSavepoint. by case_bool_decide. Qed.

Lemma release_succeeds e db n : wf db -> env_good e -> CorruptRdOnly db = false -> is_Some (a_exec (abs db) (RELEASE n)) ->
  snd (exec e db (RELEASE n)) = SQLITE_OK.
Proof.
  intros W (Ho & _ & _ & _ & Hsp & _ & Hc) Hcr Hs. pose proof (wf_write _ W) as Hw. pose proof (wf_count _ W) as Hn. cbn in Hs.
  destruct (find_savepoint n (pSavepoint db) 0) as [k|] eqn:Hf.
  2:{ rewrite (find_saves_none _ _ _ _ _ Hf) in Hs. by destruct Hs. }
  pose proof (find_in_txn db n k W Hf) as Ha.
  destruct (find_saves n (pBt db) (pSavepoint db) (nSavepoint db - 1) 0 k Hf) as [Hk Hfind]. rewrite Nat.sub_0_r in Hfind.
  destruct (drop_nth k (pSavepoint db)) as [s Hd]; [lia|]. rewrite Hfind, Hd in Hs. cbn [saves_of] in Hs.
  unfold exec, OP_Savepoint, savepoint_end. set (p1 := new_vdbe true false).
  change (pSavepoint (start_step db p1)) with (pSavepoint db). rewrite Hf. cbv zeta.
  change (isTransactionSavepoint (start_step db p1)) with (isTransactionSavepoint db).
  replace (0 <? nVdbeWrite (start_step db p1)) with false by (cbn; lia). rewrite bool_decide_true by done. cbn [andb].
  rewrite andb_true_r. destruct ((S k =? length (pSavepoint db))%nat && isTransactionSavepoint db) eqn:Et.
  - apply andb_prop in Et as [Ek Ei]. apply Nat.eqb_eq in Ek. rewrite Ei in Hs.
    assert (drop (S k) (pSavepoint db) = []) as Hnil by (apply drop_ge; lia). rewrite Hnil in Hs. cbn in Hs.
    destruct (Z.leb_spec (nDeferredCons db + nDeferredImmCons db) 0) as [Hle|]; [|by destruct Hs].
    rewrite check_fk_ok by (cbn; lia). step_ok. change p1 with (reader SQLITE_OK OE_Abort 0 0) at 2.
    rewrite halt_ro_auto by (cbn; lia || done). rewrite Ho. cbn [CorruptRdOnly set_autoCommit start_step set_counts].
    rewrite Hcr, Hc, orb_true_r. step_ok. cbn [rc ended]. step_ok. unfold savepoint_finish. cbv zeta. by rewrite op_halt_ended.
  - change (pBt (start_step db p1)) with (pBt db). change (nSavepoint (start_step db p1)) with (nSavepoint db). rewrite Hsp.
    pose proof (btree_savepoint_good (e_junk e) SAVEPOINT_RELEASE (nSavepoint db - Z.of_nat k - 1) (pBt db)) as Hg.
    destruct (sqlite3BtreeSavepoint _ _ _ _ _) as [bt r] eqn:Eb. cbn in Hg. subst r. step_ok.
    unfold savepoint_finish. cbv zeta. change p1 with (reader SQLITE_OK OE_Abort 0 0) at 2.
    rewrite bool_decide_true by done. by rewrite op_halt_txn by (done || cbn; lia).
Qed.

Lemma rollback_to_succeeds e db n : wf db -> env_good e -> is_Some (a_exec (abs db) (ROLLBACK_TO n)) ->
  snd (exec e db (ROLLBACK_TO n)) = SQLITE_OK.
Proof.
  intros W (Ho & _ & _ & _ & Hsp & _) Hs. pose proof (wf_write _ W) as Hw. cbn in Hs.
  destruct (find_savepoint n (pSavepoint db) 0) as [k|] eqn:Hf.
  2:{ rewrite (find_saves_none _ _ _ _ _ Hf) in Hs. by destruct Hs. }
  pose proof (find_in_txn db n k W Hf) as Ha. clear Hs.
  destruct (find_saves n (pBt db) (pSavepoint db) (nSavepoint db - 1) 0 k Hf) as [Hk Hfind]. rewrite Nat.sub_0_r in Hfind.
  destruct (drop_nth k (pSavepoint db)) as [s Hd]; [lia|].
  unfold exec, OP_Savepoint, savepoint_end. set (p1 := new_vdbe true false).
  change (pSavepoint (start_step db p1)) with (pSavepoint db). rewrite Hf. cbv zeta.
  rewrite bool_decide_false by done. rewrite !andb_false_r. cbv iota.
  change (pBt (start_step db p1)) with (pBt db). change (nSavepoint (start_step db p1)) with (nSavepoint db). rewrite Hsp.
  pose proof (btree_savepoint_good (e_junk e) SAVEPOINT_ROLLBACK (nSavepoint db - Z.of_nat k - 1) (pBt db)) as Hg.
  destruct (sqlite3BtreeSavepoint _ _ _ _ _) as [bt r] eqn:Eb. cbn in Hg. subst r. step_ok.
  unfold savepoint_finish. cbv zeta. change p1 with (reader SQLITE_OK OE_Abort 0 0) at 2.
  rewrite bool_decide_false by done. cbn [pSavepoint set_savepoints set_bt start_step set_counts]. rewrite Hd.
  by rewrite op_halt_txn by (done || cbn; lia).
Qed.

Lemma open_savepoint_good k n bt : snd (sqlite3PagerOpenSavepoint SQLITE_OK k n bt) = SQLITE_OK.
Proof. unfold sqlite3PagerOpenSavepoint. by destruct (_ <? _). Qed.

Lemma transaction_succeeds e db p : env_good e -> CorruptRdOnly db = false -> snd (OP_Transaction e db p) = Continue.
Proof.
  intros (_ & Hb & Hop & Hso & _) Hcr. unfold OP_Transaction. rewrite Hcr. unfold sqlite3BtreeBeginTrans. rewrite Hb, Hop, orb_true_r.
  pose proof (open_savepoint_good (e_opened e) (nSavepoint db) (mk_btree TRANS_WRITE (disk (pBt db)) (cur (pBt db)) (aSavepoint (pBt db)))) as Hg.
  destruct (sqlite3PagerOpenSavepoint _ _ _ _) as [bt r]. cbn in Hg. subst r. step_ok. destruct (_ && _); [|done].
  rewrite Hso. match goal with |- context [sqlite3PagerOpenSavepoint ?r ?k ?n ?bt] =>
    pose proof (open_savepoint_good k n bt) as Hg; destruct (sqlite3PagerOpenSavepoint r k n bt) as [bt2 r2] end.
  cbn in Hg. by subst r2.
Qed.

Lemma halt_statement_good e db p eOp : e_close e = SQLITE_OK -> rc (snd (halt_statement e db p eOp)) = rc p.
Proof.
  intros He. unfold halt_statement, sqlite3VdbeCloseStatement. rewrite He. destruct (_ && _); [|done].
  assert (snd (if bool_decide (eOp = SAVEPOINT_ROLLBACK)
    then sqlite3BtreeSavepoint SQLITE_OK (e_junk e) SAVEPOINT_ROLLBACK (iStatement p - 1) (pBt db) else (pBt db, SQLITE_OK)) = SQLITE_OK) as H1
    by (case_bool_decide; [apply btree_savepoint_good|done]).
  destruct (if bool_decide (eOp = SAVEPOINT_ROLLBACK) then _ else _) as [bt r]. cbn in H1. subst r. change (SQLITE_OK =? SQLITE_OK) with true. cbv iota.
  pose proof (btree_savepoint_good (e_junk e) SAVEPOINT_RELEASE (iStatement p - 1) bt) as H2.
  destruct (sqlite3BtreeSavepoint _ _ _ _ _) as [bt2 r2]. cbn in H2. by subst r2.
Qed.

Lemma writer_succeeds e db a j i c1 c2 fk : env_good e -> CorruptRdOnly db = false -> fk <= 0 -> nVdbeWrite db = 1 ->
  (autoCommit db = true -> nDeferredCons db + nDeferredImmCons db <= 0) ->
  exists db' p', halt_reader e db (writer SQLITE_OK a j i c1 c2 fk) = (db', p', None) /\ rc p' = SQLITE_OK.
Proof.
  intros (Ho & _ & _ & _ & _ & He & Hc) Hcr Hfk Hw Hd. unfold halt_reader.
  change (halt_special db (writer SQLITE_OK a j i c1 c2 fk)) with (db, @None savepoint_op). cbv iota beta zeta.
  set (p := writer SQLITE_OK a j i c1 c2 fk).
  assert (forall s, succeeds p s = true) as Hs by done. rewrite Hs.
  assert (fst (sqlite3VdbeCheckFk db p false) = p) as ->.
  { unfold sqlite3VdbeCheckFk. cbn [andb orb negb nFkConstraint p writer]. by replace (0 <? fk) with false by lia. }
  destruct (autoCommit db) eqn:Ha.
  - rewrite Hw. change (1 =? (if readOnly p then 0 else 1)) with true. cbn [andb]. unfold halt_commit. rewrite Hs.
    rewrite check_fk_ok by auto. step_ok. cbn [andb]. rewrite Hcr. unfold vdbeCommit. rewrite Hc, orb_true_r. step_ok. cbn [andb].
    by eexists _, _.
  - cbn [andb]. change (rc p =? SQLITE_OK) with true. cbn [orb].
    pose proof (halt_statement_good e db p SAVEPOINT_RELEASE He) as Hr. destruct (halt_statement _ _ _ _) as [db' p'].
    by eexists _, _.
Qed.

(** A statement whose body succeeds. *)
Definition body_succeeds (b : body) : Prop := (exists a, b_end b = Halts SQLITE_OK a) /\ b_fk b <= 0.

Lemma write_succeeds e db b : wf db -> env_good e -> CorruptRdOnly db = false -> body_succeeds b ->
  is_Some (a_exec (abs db) (WRITE b)) -> snd (exec e db (WRITE b)) = SQLITE_OK.
Proof.
  intros W He Hcr [[a Hend] Hfk] Hs. pose proof He as (Ho & _). unfold exec, run_body.
  change (new_vdbe false (b_journal b)) with (writer SQLITE_OK OE_Abort (b_journal b) 0 0 0 0).
  pose proof (transaction_ok e db (b_journal b) W) as Ht. cbv zeta in Ht.
  pose proof (transaction_succeeds e (start_step db (writer SQLITE_OK OE_Abort (b_journal b) 0 0 0 0))
                (writer SQLITE_OK OE_Abort (b_journal b) 0 0 0 0) He Hcr) as Hn.
  assert (CorruptRdOnly (fst (fst (OP_Transaction e (start_step db (writer SQLITE_OK OE_Abort (b_journal b) 0 0 0 0))
                (writer SQLITE_OK OE_Abort (b_journal b) 0 0 0 0)))) = false) as Hcr2.
  { unfold OP_Transaction. repeat (case_match; try done). }
  destruct (OP_Transaction _ _ _) as [[db2 p2] n]. cbn [fst snd] in Hn, Hcr2. subst n.
  destruct Ht as ((U1 & U2 & U3) & I & (i & c1 & c2 & ->) & Hw & Hnj & Hl). rewrite Hend. set (db3 := set_deferred _ _ _).
  unfold OP_Halt. change (set_error SQLITE_OK a _) with (writer SQLITE_OK a (b_journal b) i c1 c2 (b_fk b)).
  destruct (writer_succeeds e db3 a (b_journal b) i c1 c2 (b_fk b)) as (db' & p' & Hh & Hr); try done.
  - by destruct (is_counted _ _ _ I) as (_ & _ & ? & _).
  - intros Ha. change (autoCommit db3) with (autoCommit db2) in Ha. rewrite (is_auto _ _ _ I) in Ha. cbn.
    rewrite U2, U3. cbn in Hs. rewrite Ha in Hs. cbn in Hs. destruct (Z.leb_spec (nDeferredCons db + b_deferred b + nDeferredImmCons db) 0) as [H|H]; [lia|by destruct Hs].
  - assert (Hh' : halt_reader e db3 (writer (with_oom e SQLITE_OK) a (b_journal b) i c1 c2 (b_fk b)) = (db', p', None)) by (unfold with_oom; by rewrite Ho).
    destruct (halt_writer e db3 SQLITE_OK a (b_journal b) i c1 c2 (b_fk b) db' p' Hh') as (p'' & h & -> & Hrun & Hb & Hrc); [by rewrite Ho|].
    destruct (Z.eqb_spec h SQLITE_BUSY) as [E|E]; rewrite reset_halted by done; cbn [snd rc set_rc].
    + apply Hb in E. apply Hrc in Hr. congruence.
    + by apply Hrc.
Qed.

(** Nothing fails and the content is not marked corrupt. *)
Definition must_succeed (e : env) (db : sqlite3) (c : command) : Prop :=
  env_good e /\ CorruptRdOnly db = false /\ match c with WRITE b => body_succeeds b | _ => True end.

Lemma exec_succeeds e db c : wf db -> must_succeed e db c -> is_Some (a_exec (abs db) c) -> snd (exec e db c) = SQLITE_OK.
Proof.
  intros W (He & Hcr & Hb) Hs. destruct c.
  - apply begin_succeeds; try done. cbn in Hs. destruct (negb (autoCommit db)) eqn:E; [by destruct Hs|done].
  - by apply commit_succeeds.
  - apply rollback_succeeds; try done. cbn in Hs. destruct (negb (autoCommit db)) eqn:E; [done|by destruct Hs].
  - by apply savepoint_succeeds.
  - by apply release_succeeds.
  - by apply rollback_to_succeeds.
  - by apply write_succeeds.
Qed.


End TxnRefine.

(** A connection with one reader, in a transaction, with the content 7 written
    over the committed 5 and a savepoint [a] opened in between. *)
Definition demo_db : @sqlite3 Z :=
  mk_db false 1 1 0 0 0 0 1 false [mk_savepoint [97] 0 0] false (mk_btree TRANS_WRITE 5 7 [6]).
Definition demo_env : @env Z := mk_env false 0 0 0 0 0 0 0 99.

