(* ===== verification/Transaction.v ===== *)
(** * Transactions of the attached database (sqlite_transaction.cpp, sqlite_transaction_manager.cpp)

    [SQLiteTransaction], [SQLiteTransactionManager] and the in-memory database of
    [SQLiteCatalog], over the interface [Connection] of what a SQLite connection
    promises.  The connection of TxnRefine.v implements the interface.  Exceptions
    are values of the sum [outcome]; what SQLite and the operating system answer
    are arguments of the operations. *)

From S2P Require Import Prelude VdbeTxn TxnRefine.

(** ** The connection as its client sees it *)

Inductive control : Type := Begin | Commit | Rollback.

Record view (D : Type) : Type := mk_view { v_disk : D; v_cur : D; v_txn : bool }.
Arguments mk_view {D} _ _ _.
Arguments v_disk {D} _.
Arguments v_cur {D} _.
Arguments v_txn {D} _.

Definition v_rollback {D} (v : view D) : view D := mk_view (v_disk v) (v_disk v) false.

(** [c_exec]: [SQLiteDB::Execute] of a control statement, true when it does not
    throw; [c_user]: what a statement other than transaction control can do. *)
Class Connection (conn D ans : Type) : Type := {
  c_ok : conn -> Prop;
  c_view : conn -> view D;
  c_exec : control -> ans -> conn -> conn * bool;
  c_user : conn -> conn -> Prop;
  c_exec_ok : forall s a c, c_ok c -> c_ok (fst (c_exec s a c));
  c_user_ok : forall c c', c_ok c -> c_user c c' -> c_ok c';
  c_idle : forall c, c_ok c -> v_txn (c_view c) = false -> v_cur (c_view c) = v_disk (c_view c);
  c_begin : forall a c, c_ok c -> v_txn (c_view c) = false ->
    c_view (fst (c_exec Begin a c)) = mk_view (v_disk (c_view c)) (v_cur (c_view c)) (snd (c_exec Begin a c));
  c_commit : forall a c, c_ok c -> snd (c_exec Commit a c) = true ->
    v_txn (c_view c) = true /\
    c_view (fst (c_exec Commit a c)) = mk_view (v_cur (c_view c)) (v_cur (c_view c)) false;
  c_commit_fail : forall a c, c_ok c -> snd (c_exec Commit a c) = false ->
    c_view (fst (c_exec Commit a c)) = c_view c \/ c_view (fst (c_exec Commit a c)) = v_rollback (c_view c);
  c_rollback : forall a c, c_ok c -> c_view (fst (c_exec Rollback a c)) = v_rollback (c_view c);
  c_rollback_idle : forall a c, c_ok c -> v_txn (c_view c) = false -> snd (c_exec Rollback a c) = false;
  c_user_disk : forall c c', c_ok c -> c_user c c' -> v_txn (c_view c) = true -> v_disk (c_view c') = v_disk (c_view c)
}.

(** ** The connection of the engine *)

Section Engine.
Context {D : Type}.
#[local] Abbreviation sqlite3 := (@VdbeTxn.sqlite3 D).
#[local] Abbreviation env := (@VdbeTxn.env D).

Definition control_command (s : control) : @command D :=
  match s with Begin => BEGIN | Commit => COMMIT | Rollback => ROLLBACK end.

Definition engine_view (db : sqlite3) : view D := mk_view (a_disk (abs db)) (a_cur (abs db)) (a_txn (abs db)).

Definition engine_exec (s : control) (e : env) (db : sqlite3) : sqlite3 * bool :=
  let '(db, r) := exec e db (control_command s) in (db, r =? SQLITE_OK).

Definition engine_user (db db' : sqlite3) : Prop :=
  exists e b, env_ok e /\ body_ok db b /\ db' = fst (exec e db (WRITE b)).

Lemma engine_good s e db : wf db -> good_result (control_command s) db (exec e db (control_command s)).
Proof. destruct s; [apply begin_ok|apply commit_ok|apply rollback_ok]. Qed.

Lemma engine_failed c (db db' : sqlite3) : (match c with BEGIN | COMMIT | ROLLBACK => True | _ => False end) ->
  failed c (abs db) (abs db') -> abs db' = abs db \/ abs db' = a_rollback (abs db).
Proof. intros Hc [H|H|n E _|b r E _ _]; [by left|by right|by rewrite E in Hc|by rewrite E in Hc]. Qed.

Lemma engine_rollback e db : wf db -> engine_view (fst (exec e db ROLLBACK)) = v_rollback (engine_view db).
Proof.
  intros W. destruct (rollback_ok e db W) as (_ & _ & _ & Hok & Hbad). destruct (autoCommit db) eqn:Ha.
  - assert (engine_view db = v_rollback (engine_view db)) as Hv.
    { unfold engine_view, v_rollback. cbn. destruct (wf_auto _ W Ha) as (_ & _ & _ & -> & _). by rewrite Ha. }
    destruct (Z.eq_dec (snd (exec e db ROLLBACK)) SQLITE_OK) as [E|E].
    + specialize (Hok E). cbn in Hok. by rewrite Ha in Hok.
    + destruct (engine_failed ROLLBACK db _ I (Hbad E)) as [H|H]; unfold engine_view; rewrite H; [exact Hv|done].
  - unfold engine_view. by rewrite rollback_always.
Qed.

#[export] Program Instance engine_connection : Connection sqlite3 D env := {
  c_ok := wf; c_view := engine_view; c_exec := engine_exec; c_user := engine_user }.
Next Obligation. intros s e db W. unfold engine_exec. destruct (engine_good s e db W) as (H & _). by destruct (exec _ _ _). Qed.
Next Obligation. intros db db' W (e & b & He & Hb & ->). by destruct (write_ok e db b W Hb) as (H & _). Qed.
Next Obligation. intros db W Ht. cbn in *. apply negb_false_iff in Ht. by destruct (wf_auto _ W Ht) as (_ & _ & _ & -> & _). Qed.
Next Obligation.
  intros e db W Ht. cbn in Ht. unfold engine_exec. cbn [control_command]. destruct (begin_ok e db W) as (_ & _ & _ & Hok & Hbad).
  destruct (exec e db BEGIN) as [db' r]. cbn [fst snd] in *. unfold engine_view. destruct (Z.eqb_spec r SQLITE_OK) as [E|E].
  - specialize (Hok E). cbn [a_exec] in Hok. destruct (a_txn (abs db)); [done|]. apply (inj Some) in Hok. by rewrite <- Hok.
  - apply negb_false_iff in Ht. destruct (engine_failed BEGIN db db' I (Hbad E)) as [-> | ->]; cbn; rewrite ?Ht; [done|].
    by destruct (wf_auto _ W Ht) as (_ & _ & _ & -> & _).
Qed.
Next Obligation.
  intros e db W. unfold engine_exec. cbn [control_command]. destruct (commit_ok e db W) as (_ & _ & _ & Hok & _).
  destruct (exec e db COMMIT) as [db' r]. cbn [fst snd] in *. intros E. apply Z.eqb_eq in E. specialize (Hok E). cbn [a_exec] in Hok.
  unfold engine_view. cbn [v_txn]. destruct (a_txn (abs db)); [|done]. cbn [andb] in Hok. destruct (_ <=? _); [|done]. apply (inj Some) in Hok. by rewrite <- Hok.
Qed.
Next Obligation.
  intros e db W. unfold engine_exec. cbn [control_command]. destruct (commit_ok e db W) as (_ & _ & _ & _ & Hbad).
  destruct (exec e db COMMIT) as [db' r]. cbn [fst snd] in *. intros E. apply Z.eqb_neq in E. unfold engine_view.
  destruct (engine_failed COMMIT db db' I (Hbad E)) as [-> | ->]; [by left|by right].
Qed.
Next Obligation.
  intros e db W. unfold engine_exec. cbn [control_command]. pose proof (engine_rollback e db W) as H. by destruct (exec e db ROLLBACK).
Qed.
Next Obligation.
  intros e db W Ht. unfold engine_exec. cbn [control_command]. destruct (rollback_ok e db W) as (_ & _ & _ & Hok & _).
  destruct (exec e db ROLLBACK) as [db' r]. cbn [fst snd] in *. apply Z.eqb_neq. intros E. specialize (Hok E). cbn in Ht, Hok. by rewrite Ht in Hok.
Qed.
Next Obligation.
  intros db db' W (e & b & He & Hb & ->) Ht. cbn in Ht. destruct (write_ok e db b W Hb) as (_ & _ & _ & Hok & Hbad).
  unfold engine_view. cbn [v_disk]. destruct (Z.eq_dec (snd (exec e db (WRITE b))) SQLITE_OK) as [E|E].
  - specialize (Hok E). cbn [a_exec a_txn abs] in Hok. rewrite Ht in Hok. apply (inj Some) in Hok. by rewrite <- Hok.
  - destruct (Hbad E) as [H|H|n Hn _|b' r _ _ H]; [by rewrite H|by rewrite H|done|].
    cbn [a_exec a_txn abs] in H. rewrite Ht in H. apply (inj Some) in H. by rewrite <- H.
Qed.

End Engine.

(** ** The objects *)

(** Where the attached database is. *)
Inductive location : Type := InMemory | LocalFile | RemoteFile.

#[export] Instance location_eq_dec : EqDecision location.
Proof. solve_decision. Defined.

(** A call returns or throws.  [Terminate]: a destructor throws.  [Undefined]: the
    argument refers to a transaction that does not exist any more. *)
Inductive outcome (A : Type) : Type :=
| Returns (a : A)
| Throws
| Terminate
| Undefined.
Arguments Returns {A} _.
Arguments Throws {A}.
Arguments Terminate {A}.
Arguments Undefined {A}.

Section Manager.
Context {conn D ans : Type} `{C : !Connection conn D ans}.

(** [db] points at the connection of the catalog or at [owned_db]. *)
Inductive db_pointer : Type := Null | CatalogDB | OwnedDB.

Record SQLiteTransaction : Type := mk_txn {
  t_db : db_pointer;
  owned_db : option conn;
  initialized : bool;
  started : bool
}.

(** The catalog with its manager.  [closed] has the connections that were closed,
    the latest first. *)
Record SQLiteCatalog : Type := mk_catalog {
  w_location : location;
  in_memory_db : conn;
  active_in_memory : bool;
  transactions : gmap nat SQLiteTransaction;
  closed : list conn
}.

Definition set_memory (c : conn) (w : SQLiteCatalog) : SQLiteCatalog :=
  mk_catalog (w_location w) c (active_in_memory w) (transactions w) (closed w).
Definition set_active (b : bool) (w : SQLiteCatalog) : SQLiteCatalog :=
  mk_catalog (w_location w) (in_memory_db w) b (transactions w) (closed w).
Definition set_transactions (m : gmap nat SQLiteTransaction) (w : SQLiteCatalog) : SQLiteCatalog :=
  mk_catalog (w_location w) (in_memory_db w) (active_in_memory w) m (closed w).
Definition close (c : option conn) (w : SQLiteCatalog) : SQLiteCatalog :=
  mk_catalog (w_location w) (in_memory_db w) (active_in_memory w) (transactions w)
    (match c with Some c => c :: closed w | None => closed w end).

Definition GetInMemoryDatabase (w : SQLiteCatalog) : SQLiteCatalog * outcome unit :=
  match w_location w with
  | InMemory => if active_in_memory w then (w, Throws) else (set_active true w, Returns tt)
  | _ => (w, Throws)
  end.

Definition ReleaseInMemoryDatabase (w : SQLiteCatalog) : SQLiteCatalog * outcome unit :=
  match w_location w with
  | InMemory => if active_in_memory w then (set_active false w, Returns tt) else (w, Throws)
  | _ => (w, Returns tt)
  end.

(** The destructor of [SQLiteTransaction], then that of its [owned_db]. *)
Definition destroy (t : SQLiteTransaction) (w : SQLiteCatalog) : SQLiteCatalog * outcome unit :=
  match ReleaseInMemoryDatabase w with
  | (w, Returns _) => (close (owned_db t) w, Returns tt)
  | (w, _) => (w, Terminate)
  end.

(** The constructor; [open] is what [SQLiteDB::Open] returns, [None] if it throws. *)
Definition new_transaction (open : option conn) (w : SQLiteCatalog) : SQLiteCatalog * outcome SQLiteTransaction :=
  match w_location w with
  | InMemory =>
      match GetInMemoryDatabase w with
      | (w, Returns _) => (w, Returns (mk_txn CatalogDB None true false))
      | (w, _) => (w, Throws)
      end
  | LocalFile =>
      match open with
      | Some c => (w, Returns (mk_txn OwnedDB (Some c) true false))
      | None => (w, Throws)
      end
  | RemoteFile => (w, Returns (mk_txn Null None false false))
  end.

(** The connection a transaction works on, and writing back what happened to it. *)
Definition connection (t : SQLiteTransaction) (w : SQLiteCatalog) : option conn :=
  match t_db t with Null => None | CatalogDB => Some (in_memory_db w) | OwnedDB => owned_db t end.

Definition put_connection (c : conn) (t : SQLiteTransaction) (w : SQLiteCatalog) : SQLiteCatalog * SQLiteTransaction :=
  match t_db t with
  | Null => (w, t)
  | CatalogDB => (set_memory c w, t)
  | OwnedDB => (w, mk_txn (t_db t) (Some c) (initialized t) (started t))
  end.

(** [db->Execute(...)] of a control statement. *)
Definition execute (s : control) (a : ans) (t : SQLiteTransaction) (w : SQLiteCatalog)
    : SQLiteCatalog * SQLiteTransaction * bool :=
  match connection t w with
  | Some c => let '(c, ok) := c_exec s a c in (put_connection c t w, ok)
  | None => (w, t, true)
  end.

Definition Start (a : ans) (t : SQLiteTransaction) (w : SQLiteCatalog) : SQLiteCatalog * SQLiteTransaction * bool :=
  if initialized t && negb (started t) then
    let '(w, t, ok) := execute Begin a t w in
    (w, if ok then mk_txn (t_db t) (owned_db t) (initialized t) true else t, ok)
  else (w, t, true).

Definition Commit_txn (a : ans) (t : SQLiteTransaction) (w : SQLiteCatalog) : SQLiteCatalog * SQLiteTransaction * bool :=
  if started t then execute Commit a t w else (w, t, true).

Definition Rollback_txn (a : ans) (t : SQLiteTransaction) (w : SQLiteCatalog) : SQLiteCatalog * SQLiteTransaction * bool :=
  if started t then execute Rollback a t w else (w, t, true).

(** [GetDB]: the fast path, or opening the connection and BEGIN; the new
    connection is closed when BEGIN throws.  [ctx] is false when the client
    context has expired. *)
Definition GetDB (ctx : bool) (open : option conn) (a : ans) (t : SQLiteTransaction) (w : SQLiteCatalog)
    : SQLiteCatalog * SQLiteTransaction * outcome db_pointer :=
  if initialized t then (w, t, Returns (t_db t))
  else if negb ctx then (w, t, Throws)
  else
    match open with
    | None => (w, t, Throws)
    | Some new_db =>
        let '(new_db, ok) := c_exec Begin a new_db in
        if ok then (w, mk_txn OwnedDB (Some new_db) true true, Returns OwnedDB)
        else (close (Some new_db) w, t, Throws)
    end.

(** ** The manager *)

Definition StartTransaction (open : option conn) (a : ans) (w : SQLiteCatalog) : SQLiteCatalog * outcome nat :=
  match new_transaction open w with
  | (w, Returns t) =>
      let '(w, t, ok) := Start a t w in
      if ok then
        let id := fresh (dom (transactions w)) in
        (set_transactions (<[id := t]> (transactions w)) w, Returns id)
      else
        match destroy t w with
        | (w, Returns _) => (w, Throws)
        | (w, _) => (w, Terminate)
        end
  | (w, _) => (w, Throws)
  end.

Definition ExtractAndCloseAfterUnlock (id : nat) (w : SQLiteCatalog) : SQLiteCatalog * outcome unit :=
  match transactions w !! id with
  | None => (w, Returns tt)
  | Some t => destroy t (set_transactions (delete id (transactions w)) w)
  end.

(** The result is whether an error is returned.  [a1] and [a2] are for the COMMIT
    and for the ROLLBACK after it failed, whose own error is dropped. *)
Definition CommitTransaction (id : nat) (a1 a2 : ans) (w : SQLiteCatalog) : SQLiteCatalog * outcome bool :=
  match transactions w !! id with
  | None => (w, Undefined)
  | Some t =>
      let '(w, t, ok) := Commit_txn a1 t w in
      let '(w, t) := if ok then (w, t) else fst (Rollback_txn a2 t w) in
      let w := set_transactions (<[id := t]> (transactions w)) w in
      match ExtractAndCloseAfterUnlock id w with
      | (w, Returns _) => (w, Returns (negb ok))
      | (w, _) => (w, Terminate)
      end
  end.

Definition RollbackTransaction (id : nat) (a : ans) (w : SQLiteCatalog) : SQLiteCatalog * outcome unit :=
  match transactions w !! id with
  | None => (w, Undefined)
  | Some t =>
      let '(w, t, ok) := Rollback_txn a t w in
      let w := set_transactions (<[id := t]> (transactions w)) w in
      if ok then ExtractAndCloseAfterUnlock id w else (w, Throws)
  end.

(** ** Reachable states *)

(** What [SQLiteDB::Open] gives: a connection without a transaction. *)
Definition fresh_connection (open : option conn) : Prop :=
  match open with Some c => c_ok c /\ v_txn (c_view c) = false | None => True end.

(** A statement of the transaction asks for the connection first. *)
Inductive step (w : SQLiteCatalog) : SQLiteCatalog -> Prop :=
| step_start open a : fresh_connection open -> step w (fst (StartTransaction open a w))
| step_commit id a1 a2 : is_Some (transactions w !! id) -> step w (fst (CommitTransaction id a1 a2 w))
| step_rollback id a : is_Some (transactions w !! id) -> step w (fst (RollbackTransaction id a w))
| step_statement id t ctx open a w1 t1 p c c' w2 t2 : transactions w !! id = Some t -> fresh_connection open ->
    GetDB ctx open a t w = (w1, t1, Returns p) -> connection t1 w1 = Some c -> c_user c c' ->
    put_connection c' t1 w1 = (w2, t2) -> step w (set_transactions (<[id := t2]> (transactions w2)) w2)
| step_no_connection id t ctx open a w1 t1 : transactions w !! id = Some t -> fresh_connection open ->
    GetDB ctx open a t w = (w1, t1, Throws) -> step w (set_transactions (<[id := t1]> (transactions w1)) w1).

Definition initial (loc : location) (c : conn) : SQLiteCatalog := mk_catalog loc c false ∅ [].

Inductive reachable (loc : location) (c : conn) : SQLiteCatalog -> Prop :=
| reachable_initial : fresh_connection (Some c) -> reachable loc c (initial loc c)
| reachable_step w w' : reachable loc c w -> step w w' -> reachable loc c w'.

(** ** The invariant *)

Definition begun (t : SQLiteTransaction) : Prop := exists c, c_ok c /\ t = mk_txn OwnedDB (Some c) true true.

Definition txn_ok (loc : location) (t : SQLiteTransaction) : Prop :=
  match loc with
  | InMemory => t = mk_txn CatalogDB None true true
  | LocalFile => begun t
  | RemoteFile => t = mk_txn Null None false false \/ begun t
  end.

Definition idle (c : conn) : Prop := c_ok c /\ v_txn (c_view c) = false.

Record ok (w : SQLiteCatalog) : Prop := {
  ok_memory : c_ok (in_memory_db w);
  ok_idle : active_in_memory w = false -> v_txn (c_view (in_memory_db w)) = false;
  ok_txns : map_Forall (fun _ => txn_ok (w_location w)) (transactions w);
  ok_single : w_location w = InMemory ->
    if active_in_memory w then exists id t, transactions w = {[id := t]} else transactions w = ∅;
  ok_inactive : w_location w <> InMemory -> active_in_memory w = false;
  ok_closed : Forall idle (closed w)
}.

Lemma exec_idle s a c : s <> Begin -> c_ok c -> (s = Commit -> snd (c_exec s a c) = true) -> idle (fst (c_exec s a c)).
Proof.
  intros Hs Hc H. split; [by apply c_exec_ok|]. destruct s; [done| |by rewrite c_rollback].
  by destruct (c_commit a c Hc (H eq_refl)) as [_ ->].
Qed.

Lemma commit_then_rollback a1 a2 c : c_ok c -> snd (c_exec Commit a1 c) = false ->
  c_view (fst (c_exec Rollback a2 (fst (c_exec Commit a1 c)))) = v_rollback (c_view c).
Proof.
  intros Hc H. rewrite c_rollback by by apply c_exec_ok. by destruct (c_commit_fail a1 c Hc H) as [-> | ->].
Qed.

(** What is left of the connection of a transaction that ended. *)
Definition left_as (c : conn) (w w' : SQLiteCatalog) : Prop :=
  match w_location w with
  | InMemory => in_memory_db w' = c /\ closed w' = closed w /\ active_in_memory w' = false
  | _ => in_memory_db w' = in_memory_db w /\ closed w' = c :: closed w
  end.

(** The connection and the object after [c] became [c']. *)
Lemma put_ok w id c c' t : ok w -> transactions w !! id = Some t -> connection t w = Some c -> c_ok c' ->
  let '(w', t') := put_connection c' t w in
  ok (set_transactions (<[id := t']> (transactions w')) w') /\ connection t' w' = Some c' /\ transactions w' = transactions w /\
  txn_ok (w_location w) t' /\ started t' = started t /\ w_location w' = w_location w /\ closed w' = closed w /\
  (w_location w <> InMemory -> in_memory_db w' = in_memory_db w) /\ forall c2, put_connection c2 t' w' = put_connection c2 t w.
Proof.
  intros W Ht Hc Hi. destruct w as [loc m act tm cl]. destruct W as [W1 W2 W3 W4 W5 W6].
  cbn [w_location transactions active_in_memory in_memory_db closed] in *. pose proof (W3 _ _ Ht) as Hok. cbn in Hok. destruct loc.
  - cbn in Hok. subst t. specialize (W4 eq_refl). destruct act; [|by rewrite W4 in Ht].
    destruct W4 as (id' & t' & ->). apply lookup_singleton_Some in Ht as [-> ->].
    cbn. split_and!; try done. rewrite insert_singleton_eq. split; cbn; try done; by eauto.
  - destruct Hok as (c0 & Hc0 & ->). cbn. split_and!; try done; [|by exists c'].
    split; cbn; try done. apply map_Forall_insert_2; [by exists c'|done].
  - destruct Hok as [->|(c0 & Hc0 & ->)]; [done|]. cbn. split_and!; try done; [|by right; exists c'].
    split; cbn; try done. apply map_Forall_insert_2; [by right; exists c'|done].
Qed.

(** A transaction object is destroyed. *)
Lemma extract_ok w id t : ok w -> transactions w !! id = Some t -> (forall c, connection t w = Some c -> idle c) ->
  exists w', ExtractAndCloseAfterUnlock id w = (w', Returns tt) /\ ok w' /\ transactions w' = delete id (transactions w) /\
    match connection t w with Some c => left_as c w w' | None => closed w' = closed w end.
Proof.
  intros W Ht Hi. destruct w as [loc m act tm cl]. destruct W as [W1 W2 W3 W4 W5 W6].
  cbn [w_location transactions active_in_memory in_memory_db closed] in *. pose proof (W3 _ _ Ht) as Hok.
  unfold ExtractAndCloseAfterUnlock. cbn [transactions]. rewrite Ht. cbn in Hok. destruct loc.
  - cbn in Hok. subst t. specialize (W4 eq_refl). destruct act; [|by rewrite W4 in Ht].
    destruct W4 as (id' & t' & ->). apply lookup_singleton_Some in Ht as [-> ->]. destruct (Hi m eq_refl).
    cbn. eexists. split; [done|]. rewrite delete_singleton_eq. by split.
  - rewrite W5 in * by done. destruct Hok as (c0 & Hc0 & ->). cbn. eexists. split; [done|]. split; [|done].
    split; cbn; try done; [by apply map_Forall_delete|by constructor; [apply Hi|]].
  - rewrite W5 in * by done. destruct Hok as [->|(c0 & Hc0 & ->)]; cbn; eexists; split; try done; (split; [|done]);
      split; cbn; try done; try (by apply map_Forall_delete). by constructor; [apply Hi|].
Qed.

Lemma started_connection w id t : ok w -> transactions w !! id = Some t ->
  if started t then exists c, connection t w = Some c /\ c_ok c else connection t w = None /\ w_location w = RemoteFile.
Proof.
  intros W Ht. pose proof (ok_txns _ W _ _ Ht) as H. unfold txn_ok in H. pose proof (ok_memory _ W).
  destruct (w_location w); [subst t; by eexists|destruct H as (c & ? & ->); by eexists|].
  destruct H as [->|(c & ? & ->)]; [done|by eexists].
Qed.

Lemma reinsert w id t : transactions w !! id = Some t -> set_transactions (<[id := t]> (transactions w)) w = w.
Proof. intros H. rewrite insert_id by done. by destruct w. Qed.

(** The connection became [c'] and the transaction ends. *)
Lemma end_ok w id c c' t : ok w -> transactions w !! id = Some t -> connection t w = Some c -> idle c' ->
  let '(w', t') := put_connection c' t w in
  exists w'', ExtractAndCloseAfterUnlock id (set_transactions (<[id := t']> (transactions w')) w') = (w'', Returns tt) /\
    ok w'' /\ transactions w'' = delete id (transactions w) /\ left_as c' w w''.
Proof.
  intros W Ht Hc Hi. pose proof (put_ok w id c c' t W Ht Hc (proj1 Hi)) as H. destruct (put_connection c' t w) as [w' t'] eqn:E.
  destruct H as (W' & Hc' & Htm & _ & _ & Hl & Hcl & Hm & _).
  destruct (extract_ok _ id t' W') as (w'' & -> & W'' & Htm'' & Hleft).
  - cbn. apply lookup_insert_eq.
  - intros c2. unfold connection in *. cbn. rewrite Hc'. by intros [= <-].
  - exists w''. split; [done|]. split; [done|]. cbn in Htm''. rewrite delete_insert_eq, Htm in Htm''. split; [done|].
    change (connection t' (set_transactions (<[id:=t']> (transactions w')) w')) with (connection t' w') in Hleft. rewrite Hc' in Hleft.
    unfold left_as in *. cbn in Hleft. rewrite Hl, Hcl in Hleft. destruct (w_location w); [done| |]; by rewrite <- Hm.
Qed.
(** The connection at the end of [CommitTransaction], and whether an error is returned. *)
Definition commit_effect (err : bool) (c c' : conn) : Prop :=
  if err then c_view c' = v_rollback (c_view c)
  else v_txn (c_view c) = true /\ c_view c' = mk_view (v_cur (c_view c)) (v_cur (c_view c)) false.

Lemma commit_spec w id t a1 a2 : ok w -> transactions w !! id = Some t ->
  exists w' err, CommitTransaction id a1 a2 w = (w', Returns err) /\ ok w' /\ transactions w' = delete id (transactions w) /\
    match connection t w with
    | Some c => exists c', left_as c' w w' /\ commit_effect err c c'
    | None => err = false /\ closed w' = closed w
    end.
Proof.
  intros W Ht. unfold CommitTransaction, Commit_txn. rewrite Ht. pose proof (started_connection w id t W Ht) as Hst.
  destruct (started t) eqn:Est.
  - destruct Hst as (c & Hc & Hok). rewrite Hc. unfold execute. rewrite Hc.
    pose proof (exec_idle Commit a1 c ltac:(done) Hok) as Hidle. pose proof (c_commit a1 c Hok) as Hcom.
    pose proof (commit_then_rollback a1 a2 c Hok) as Hrb. pose proof (c_exec_ok Commit a1 c Hok) as Hc1ok.
    destruct (c_exec Commit a1 c) as [c1 okc]. cbn [fst snd] in *. destruct okc; cbv iota.
    + pose proof (end_ok w id c c1 t W Ht Hc (Hidle (fun _ => eq_refl))) as He. destruct (put_connection c1 t w) as [w1 t1].
      destruct He as (w' & -> & W' & Htm & Hl). exists w', false. split_and!; try done. exists c1. split; [done|]. by apply Hcom.
    + pose proof (put_ok w id c c1 t W Ht Hc Hc1ok) as Hp. destruct (put_connection c1 t w) as [w1 t1].
      destruct Hp as (W1 & Hc1 & Htm1 & _ & Hst1 & Hl1 & _ & _ & Hpp). unfold Rollback_txn, execute. rewrite Hst1, Est, Hc1.
      pose proof (exec_idle Rollback a2 c1 ltac:(done) Hc1ok ltac:(done)) as Hi2. specialize (Hrb eq_refl).
      destruct (c_exec Rollback a2 c1) as [c2 ok2]. cbn [fst] in *. rewrite Hpp.
      pose proof (end_ok w id c c2 t W Ht Hc Hi2) as He. destruct (put_connection c2 t w) as [w2 t2].
      destruct He as (w' & -> & W' & Htm & Hl). exists w', true. split_and!; try done. exists c2. by split.
  - destruct Hst as (Hc & Hl). cbv iota. rewrite reinsert by done. rewrite Hc.
    destruct (extract_ok w id t W Ht) as (w' & -> & W' & Htm & Hcl); [by rewrite Hc|]. rewrite Hc in Hcl.
    exists w', false. by split_and!.
Qed.

Lemma rollback_spec w id t a : ok w -> transactions w !! id = Some t ->
  exists w' r, RollbackTransaction id a w = (w', r) /\ ok w' /\
    match connection t w with
    | Some c =>
        exists c', c_view c' = v_rollback (c_view c) /\ idle c' /\ c' = fst (c_exec Rollback a c) /\
        if snd (c_exec Rollback a c)
        then r = Returns tt /\ transactions w' = delete id (transactions w) /\ left_as c' w w'
        else r = Throws /\ active_in_memory w' = active_in_memory w /\ w_location w' = w_location w /\
             exists t', transactions w' = <[id := t']> (transactions w) /\ connection t' w' = Some c'
    | None => r = Returns tt /\ transactions w' = delete id (transactions w) /\ closed w' = closed w
    end.
Proof.
  intros W Ht. unfold RollbackTransaction, Rollback_txn. rewrite Ht. pose proof (started_connection w id t W Ht) as Hst.
  destruct (started t) eqn:Est.
  - destruct Hst as (c & Hc & Hok). rewrite Hc. unfold execute. rewrite Hc.
    pose proof (exec_idle Rollback a c ltac:(done) Hok ltac:(done)) as Hi. pose proof (c_rollback a c Hok) as Hrb.
    destruct (c_exec Rollback a c) as [c' okr]. cbn [fst snd] in *. destruct okr.
    + pose proof (end_ok w id c c' t W Ht Hc Hi) as He. destruct (put_connection c' t w) as [w1 t1].
      destruct He as (w' & -> & W' & Htm & Hl). exists w', (Returns tt). split_and!; try done. exists c'. by split_and!.
    + pose proof (put_ok w id c c' t W Ht Hc (proj1 Hi)) as Hp.
      assert (active_in_memory (fst (put_connection c' t w)) = active_in_memory w) as Hact
        by (unfold put_connection; by destruct (t_db t)).
      destruct (put_connection c' t w) as [w1 t1].
      destruct Hp as (W1 & Hc1 & Htm1 & _ & _ & Hl1 & _). eexists _, Throws. split; [done|]. split; [done|].
      exists c'. split_and!; try done. exists t1. by rewrite <- Htm1.
  - destruct Hst as (Hc & Hl). cbv iota. rewrite reinsert by done. rewrite Hc.
    destruct (extract_ok w id t W Ht) as (w' & -> & W' & Htm & Hcl); [by rewrite Hc|]. rewrite Hc in Hcl.
    exists w', (Returns tt). by split_and!.
Qed.

(** [StartTransaction] fails on an in-memory database in use. *)
Lemma start_busy w open a : w_location w = InMemory -> active_in_memory w = true -> StartTransaction open a w = (w, Throws).
Proof. intros Hl Ha. unfold StartTransaction, new_transaction, GetInMemoryDatabase. by rewrite Hl, Ha. Qed.

Lemma start_spec w open a : ok w -> fresh_connection open ->
  ok (fst (StartTransaction open a w)) /\
  match snd (StartTransaction open a w) with
  | Returns id => exists t, transactions w !! id = None /\ transactions (fst (StartTransaction open a w)) = <[id := t]> (transactions w)
  | Throws => transactions (fst (StartTransaction open a w)) = transactions w
  | _ => False
  end.
Proof.
  intros W Hf. destruct (decide (w_location w = InMemory /\ active_in_memory w = true)) as [[Hl Ha]|Hn]; [by rewrite start_busy|].
  destruct w as [loc m act tm cl]. destruct W as [W1 W2 W3 W4 W5 W6].
  cbn [w_location transactions active_in_memory in_memory_db closed] in *.
  assert (tm !! fresh (dom tm) = None) as Hfr by (apply not_elem_of_dom, is_fresh).
  unfold StartTransaction, new_transaction, GetInMemoryDatabase, destroy, ReleaseInMemoryDatabase. destruct loc; cbn.
  - destruct act; [by destruct Hn|]. specialize (W4 eq_refl). subst tm. cbn.
    pose proof (c_begin a m W1 (W2 eq_refl)) as Hb. pose proof (c_exec_ok Begin a m W1) as Hmok.
    unfold Start, execute. cbn. destruct (c_exec Begin a m) as [m' okb]. cbn in *. destruct okb; cbn.
    + split; [|by eauto]. split; cbn; try done; [by apply map_Forall_insert_2|by eauto].
    + split; [|done]. split; cbn; try done. by rewrite Hb.
  - rewrite W5 in * by done. destruct open as [c|]; [|by split]. destruct Hf as [Hcok Hci].
    pose proof (c_begin a c Hcok Hci) as Hb. pose proof (c_exec_ok Begin a c Hcok) as Hmok.
    unfold Start, execute. cbn. destruct (c_exec Begin a c) as [c' okb]. cbn in *. destruct okb; cbn.
    + split; [|by eauto]. split; cbn; try done. apply map_Forall_insert_2; [by exists c'|done].
    + split; [|done]. split; cbn; try done. constructor; [|done]. split; [done|]. by rewrite Hb.
  - rewrite W5 in * by done. split; [|by eauto]. split; cbn; try done. apply map_Forall_insert_2; [by left|done].
Qed.

Lemma getdb_spec w id t ctx open a : ok w -> transactions w !! id = Some t -> fresh_connection open ->
  let '(w', t', r) := GetDB ctx open a t w in
  ok (set_transactions (<[id := t']> (transactions w')) w') /\ connection t' (set_transactions (<[id := t']> (transactions w')) w') = connection t' w' /\
  match r with
  | Returns p => p = t_db t' /\ exists c, connection t' w' = Some c /\ c_ok c
  | Throws => t' = t /\ transactions w' = transactions w
  | _ => False
  end.
Proof.
  intros W Ht Hf. pose proof (started_connection w id t W Ht) as Hst. pose proof (ok_txns _ W _ _ Ht) as Hok. unfold GetDB, txn_ok in *.
  assert (initialized t = started t) as Hini.
  { destruct (w_location w); [by subst t|by destruct Hok as (c & _ & ->)|by destruct Hok as [->|(c & _ & ->)]]. }
  rewrite Hini. destruct (started t) eqn:Est; [by rewrite reinsert|]. destruct Hst as (Hc & Hl).
  destruct ctx; cbn [negb]; [|by rewrite reinsert]. destruct open as [c|]; [|by rewrite reinsert].
  destruct Hf as [Hcok Hci]. pose proof (c_begin a c Hcok Hci) as Hb. pose proof (c_exec_ok Begin a c Hcok) as Hmok.
  destruct W as [W1 W2 W3 W4 W5 W6]. rewrite Hl in *.
  destruct (c_exec Begin a c) as [c' okb]. cbn in *. destruct okb; cbn.
  - split_and!; try done; [|by eauto]. split; cbn; rewrite ?Hl; try done. apply map_Forall_insert_2; [right; by exists c'|done].
  - rewrite insert_id by done. split_and!; try done. split; cbn; rewrite ?Hl; try done. constructor; [|done].
    split; [done|]. by rewrite Hb.
Qed.
Lemma step_preserves w w' : ok w -> step w w' -> ok w'.
Proof.
  intros W H. destruct H as [open a Hf|id a1 a2 [t Ht]|id a [t Ht]|id t ctx open a w1 t1 p c c' w2 t2 Ht Hf Hg Hc Hu Hp|id t ctx open a w1 t1 Ht Hf Hg].
  - by apply start_spec.
  - by destruct (commit_spec w id t a1 a2 W Ht) as (w' & err & -> & W' & _).
  - by destruct (rollback_spec w id t a W Ht) as (w' & r & -> & W' & _).
  - pose proof (getdb_spec w id t ctx open a W Ht Hf) as H. rewrite Hg in H. destruct H as (W1 & Hc1 & _ & c0 & Hc0 & Hcok).
    rewrite Hc in Hc0. injection Hc0 as <-. rewrite Hc in Hc1.
    pose proof (put_ok _ id c c' t1 W1 (lookup_insert_eq _ _ _) Hc1 (c_user_ok c c' Hcok Hu)) as H.
    assert (forall m, set_transactions (<[id := t2]> m) w2 =
      let '(w', t') := put_connection c' t1 (set_transactions m w1) in set_transactions (<[id := t']> (transactions w')) w') as Heq.
    { intros m. unfold put_connection in *. destruct w1. cbn in *. destruct (t_db t1); simplify_eq/=; done. }
    assert (transactions w2 = transactions w1) as Htm by (unfold put_connection in Hp; destruct (t_db t1); by simplify_eq/=).
    rewrite Htm, <- (insert_insert_eq (transactions w1) id t2 t1), Heq.
    revert H. destruct (put_connection c' t1 (set_transactions _ _)) as [w' t']. by intros (H & _).
  - pose proof (getdb_spec w id t ctx open a W Ht Hf) as H. rewrite Hg in H. by destruct H.
Qed.

Lemma reachable_ok loc c w : reachable loc c w -> ok w.
Proof.
  induction 1 as [[Hc Hi]|w w' _ IH Hs]; [|by eapply step_preserves]. by split; cbn.
Qed.

(** C9. In every reachable state of an attached database the invariant [ok] holds:
    a shared in-memory connection is marked active exactly while one transaction
    uses it and has no SQLite transaction otherwise; every transaction has begun,
    but for a remote one that was never used; no connection was closed inside a
    transaction.  Hence starting, committing and rolling back never let an
    exception out of a destructor, committing always returns, and a transaction
    is registered under a new identity. *)
Theorem manager_invariant loc c w : reachable loc c w ->
  ok w /\
  (forall open a, fresh_connection open ->
    match snd (StartTransaction open a w) with Returns id => transactions w !! id = None | Throws => True | _ => False end) /\
  (forall id a1 a2, is_Some (transactions w !! id) ->
    exists err, snd (CommitTransaction id a1 a2 w) = Returns err) /\
  (forall id a, is_Some (transactions w !! id) ->
    snd (RollbackTransaction id a w) = Returns tt \/ snd (RollbackTransaction id a w) = Throws).
Proof.
  intros H. pose proof (reachable_ok _ _ _ H) as W. split; [done|]. split_and!.
  - intros open a Hf. destruct (start_spec w open a W Hf) as [_ Hs]. destruct (snd _); naive_solver.
  - intros id a1 a2 [t Ht]. destruct (commit_spec w id t a1 a2 W Ht) as (w' & err & -> & _). by exists err.
  - intros id a [t Ht]. destruct (rollback_spec w id t a W Ht) as (w' & r & -> & _ & Hr). cbn.
    destruct (connection t w); [destruct Hr as (c' & _ & _ & _ & Hr); destruct (snd _)|]; destruct Hr as [-> _]; tauto.
Qed.

(** C10. [CommitTransaction] is atomic.  It forgets the transaction in every case.
    If it returns no error, what the transaction saw is now the committed content;
    if it returns an error, the committed content is what it was and nothing of
    the transaction is left, also when COMMIT itself left the transaction open.  A
    remote transaction that never connected commits without doing anything. *)
Theorem commit_atomic loc c0 w id t a1 a2 : reachable loc c0 w -> transactions w !! id = Some t ->
  exists w' err, CommitTransaction id a1 a2 w = (w', Returns err) /\ transactions w' = delete id (transactions w) /\
    match connection t w with
    | Some c => exists c', left_as c' w w' /\ commit_effect err c c'
    | None => err = false /\ closed w' = closed w
    end.
Proof.
  intros H Ht. destruct (commit_spec w id t a1 a2 (reachable_ok _ _ _ H) Ht) as (w' & err & E & _ & Htm & Hc). eauto 10.
Qed.

(** If SQLite has rolled the transaction of an in-memory database back by
    itself, [RollbackTransaction] throws, the transaction stays registered and the
    database stays marked active: no transaction can be started any more, and
    every further attempt to roll back throws as well. *)
Theorem rollback_error_keeps_transaction c0 w id t a : reachable InMemory c0 w -> w_location w = InMemory ->
  transactions w !! id = Some t -> v_txn (c_view (in_memory_db w)) = false ->
  let w' := fst (RollbackTransaction id a w) in
  snd (RollbackTransaction id a w) = Throws /\ is_Some (transactions w' !! id) /\
  (forall open a', StartTransaction open a' w' = (w', Throws)) /\
  (forall a', snd (RollbackTransaction id a' w') = Throws).
Proof.
  intros H Hl Ht Hv. pose proof (reachable_ok _ _ _ H) as W. pose proof (ok_txns _ W _ _ Ht) as Hok. rewrite Hl in Hok. cbn in Hok.
  assert (connection t w = Some (in_memory_db w)) as Hc by by subst t.
  pose proof (c_rollback_idle a _ (ok_memory _ W) Hv) as Hr.
  destruct (rollback_spec w id t a W Ht) as (w' & r & -> & W' & Hs). rewrite Hc, Hr in Hs. cbn [fst snd].
  destruct Hs as (c' & Hv' & Hi & Hc' & -> & Ha & Hl' & t' & Htm & Hct).
  assert (transactions w' !! id = Some t') as Ht' by (rewrite Htm; apply lookup_insert_eq).
  pose proof (ok_single _ W Hl) as Hsg. assert (active_in_memory w = true) as Hact.
  { destruct (active_in_memory w); [done|]. by rewrite Hsg in Ht. }
  split_and!; [done|by eexists|by intros; apply start_busy; congruence|].
  intros a'. destruct (rollback_spec w' id t' a' W' Ht') as (w2 & r2 & -> & _ & Hs). rewrite Hct in Hs.
  destruct Hs as (c2 & _ & _ & _ & Hs). rewrite (c_rollback_idle a' c' (proj1 Hi) (proj2 Hi)) in Hs. by destruct Hs.
Qed.

End Manager.

(** ** An in-memory database and its connection *)

Definition fresh_db : @sqlite3 Z := mk_db true 0 0 0 0 0 0 0 false [] false (mk_btree TRANS_NONE 5 5 []).

Lemma fresh_db_ok : fresh_connection (Some fresh_db).
Proof. split; [split; cbn; try done; try lia|done]. Qed.

(** An INSERT without a statement journal that finds no room: SQLite rolls the
    transaction back. *)
Definition full_insert : @body Z := mk_body false 5 0 0 (Fails SQLITE_FULL).

Definition in_use : @SQLiteCatalog sqlite3 := fst (StartTransaction None demo_env (initial InMemory fresh_db)).
Definition memory_txn : @SQLiteTransaction (@sqlite3 Z) := mk_txn CatalogDB None true true.
Definition rolled_back_in_use : @SQLiteCatalog sqlite3 :=
  let w := set_memory (fst (exec demo_env (in_memory_db in_use) (WRITE full_insert))) in_use in
  set_transactions (<[0%nat := memory_txn]> (transactions w)) w.

Lemma in_use_reachable : reachable InMemory fresh_db in_use.
Proof. eapply reachable_step; [by apply reachable_initial, fresh_db_ok|]. by apply step_start. Qed.

Lemma rolled_back_reachable : reachable InMemory fresh_db rolled_back_in_use.
Proof.
  eapply reachable_step; [apply in_use_reachable|].
  refine (step_statement in_use 0%nat memory_txn true None demo_env in_use memory_txn CatalogDB (in_memory_db in_use)
    (fst (exec demo_env (in_memory_db in_use) (WRITE full_insert))) _ memory_txn _ I _ _ _ _); try reflexivity.
  exists demo_env, full_insert. split_and!; [| |reflexivity].
  - intros H. by destruct H.
  - split; [by intros r [= <-]|done].
Qed.

Lemma manager_invariant_witness : reachable InMemory fresh_db in_use /\ active_in_memory in_use = true /\ ok in_use.
Proof. split_and!; [apply in_use_reachable|reflexivity|apply (manager_invariant InMemory fresh_db in_use in_use_reachable)]. Defined.

Lemma commit_atomic_witness : exists w' err, CommitTransaction 0%nat demo_env demo_env in_use = (w', Returns err) /\
  transactions w' = delete 0%nat (transactions in_use).
Proof.
  destruct (commit_atomic InMemory fresh_db in_use 0%nat memory_txn demo_env demo_env in_use_reachable eq_refl)
    as (w' & err & E & H & _). eauto.
Defined.

Lemma rollback_error_witness :
  snd (RollbackTransaction 0%nat demo_env rolled_back_in_use) = Throws /\
  StartTransaction None demo_env (fst (RollbackTransaction 0%nat demo_env rolled_back_in_use)) =
    (fst (RollbackTransaction 0%nat demo_env rolled_back_in_use), Throws).
Proof.
  destruct (rollback_error_keeps_transaction fresh_db rolled_back_in_use 0%nat memory_txn demo_env
    rolled_back_reachable eq_refl eq_refl eq_refl) as (H1 & _ & H2 & _). split; [exact H1|apply H2].
Defined.
