(* ===== verification/LazyInit.v ===== *)
(** * The first use of a remote transaction (SQLiteTransaction::GetDB)

    Several scan threads call [GetDB] of one remote transaction.  One step of
    [step] is one access of a thread to the shared object: the atomic
    [initialized], the lock [init_lock], the plain members [owned_db], [db] and
    [started].  The theorem shows that the connection is opened for good at most
    once, that no thread reads the plain members while another writes them, and
    that some thread can always go on. *)

From S2P Require Import Prelude VdbeTxn TxnRefine Transaction.

Section LazyInit.
Context {conn D ans : Type} `{C : !Connection conn D ans}.
#[local] Abbreviation SQLiteTransaction := (@Transaction.SQLiteTransaction conn).

(** Where a thread is in [GetDB]: the next access it makes. *)
Inductive pc : Type :=
| AtLoad                    (* initialized.load(acquire) *)
| AtFast                    (* return *db *)
| AtLock                    (* lock_guard guard(init_lock) *)
| AtCheck                   (* initialized.load(relaxed) *)
| AtContext                 (* context.lock(), then SQLiteDB::Open *)
| AtBegin (new_db : conn)   (* new_db.Execute *)
| AtMove (new_db : conn)    (* owned_db = std::move(new_db) *)
| AtPointer                 (* db = &owned_db *)
| AtStarted                 (* started = true *)
| AtPublish                 (* initialized.store(true, release) *)
| AtReturn                  (* return *db, then unlock *)
| AtThrow                   (* unlock while the exception leaves *)
| Returned (p : db_pointer)
| Threw.

Record state : Type := mk_state {
  obj : SQLiteTransaction;
  init_lock : option nat;
  threads : gmap nat pc;
  moved : nat                (* how often owned_db was assigned *)
}.

Definition set_pc (i : nat) (p : pc) (s : state) : state :=
  mk_state (obj s) (init_lock s) (<[i := p]> (threads s)) (moved s).
Definition set_lock (l : option nat) (s : state) : state := mk_state (obj s) l (threads s) (moved s).
Definition set_obj (t : SQLiteTransaction) (s : state) : state := mk_state t (init_lock s) (threads s) (moved s).
Definition count_move (s : state) : state := mk_state (obj s) (init_lock s) (threads s) (S (moved s)).

Definition set_owned (c : conn) (t : SQLiteTransaction) : SQLiteTransaction := mk_txn (t_db t) (Some c) (initialized t) (started t).
Definition set_pointer (t : SQLiteTransaction) : SQLiteTransaction := mk_txn OwnedDB (owned_db t) (initialized t) (started t).
Definition set_started (t : SQLiteTransaction) : SQLiteTransaction := mk_txn (t_db t) (owned_db t) (initialized t) true.
Definition set_initialized (t : SQLiteTransaction) : SQLiteTransaction := mk_txn (t_db t) (owned_db t) true (started t).

(** One access of thread [i].  The lock is free before it is taken. *)
Inductive thread_step (i : nat) (s : state) : pc -> state -> Prop :=
| s_load : thread_step i s AtLoad (set_pc i (if initialized (obj s) then AtFast else AtLock) s)
| s_fast : thread_step i s AtFast (set_pc i (Returned (t_db (obj s))) s)
| s_lock : init_lock s = None -> thread_step i s AtLock (set_lock (Some i) (set_pc i AtCheck s))
| s_check : thread_step i s AtCheck (set_pc i (if initialized (obj s) then AtReturn else AtContext) s)
| s_expired : thread_step i s AtContext (set_pc i AtThrow s)
| s_open_fails : thread_step i s AtContext (set_pc i AtThrow s)
| s_open c : fresh_connection (Some c) -> thread_step i s AtContext (set_pc i (AtBegin c) s)
| s_begin c a : thread_step i s (AtBegin c)
    (set_pc i (if snd (c_exec Begin a c) then AtMove (fst (c_exec Begin a c)) else AtThrow) s)
| s_move c : thread_step i s (AtMove c) (count_move (set_obj (set_owned c (obj s)) (set_pc i AtPointer s)))
| s_pointer : thread_step i s AtPointer (set_obj (set_pointer (obj s)) (set_pc i AtStarted s))
| s_started : thread_step i s AtStarted (set_obj (set_started (obj s)) (set_pc i AtPublish s))
| s_publish : thread_step i s AtPublish (set_obj (set_initialized (obj s)) (set_pc i AtReturn s))
| s_return : thread_step i s AtReturn (set_lock None (set_pc i (Returned (t_db (obj s))) s))
| s_throw : thread_step i s AtThrow (set_lock None (set_pc i Threw s)).

Inductive step : state -> state -> Prop :=
| step_thread i p s s' : threads s !! i = Some p -> thread_step i s p s' -> step s s'
| step_call i s : threads s !! i = None -> step s (set_pc i AtLoad s)
| step_statement i s c c' : threads s !! i = Some (Returned OwnedDB) -> owned_db (obj s) = Some c -> c_user c c' ->
    step s (set_obj (set_owned c' (obj s)) s).

Definition start : state := mk_state (mk_txn Null None false false) None ∅ 0.

Inductive reachable : state -> Prop :=
| reachable_start : reachable start
| reachable_next s s' : reachable s -> step s s' -> reachable s'.

(** ** The invariant *)

Definition locked (p : pc) : bool :=
  match p with
  | AtCheck | AtContext | AtBegin _ | AtMove _ | AtPointer | AtStarted | AtPublish | AtReturn | AtThrow => true
  | _ => false
  end.

Definition pristine (t : SQLiteTransaction) (n : nat) : Prop := t = mk_txn Null None false false /\ n = 0%nat.
Definition ready (t : SQLiteTransaction) (n : nat) : Prop := begun t /\ n = 1%nat.
Definition partial (q : db_pointer) (st : bool) (t : SQLiteTransaction) (n : nat) : Prop :=
  (exists c, c_ok c /\ t = mk_txn q (Some c) false st) /\ n = 1%nat.

(** What the thread that holds the lock has written so far. *)
Definition written (p : pc) : SQLiteTransaction -> nat -> Prop :=
  match p with
  | AtContext | AtBegin _ | AtMove _ => pristine
  | AtPointer => partial Null false
  | AtStarted => partial OwnedDB false
  | AtPublish => partial OwnedDB true
  | AtReturn => ready
  | _ => fun t n => pristine t n \/ ready t n
  end.

(** What a thread relies on. *)
Definition relies (p : pc) (t : SQLiteTransaction) : Prop :=
  match p with
  | AtBegin c => fresh_connection (Some c)
  | AtMove c => c_ok c
  | AtFast | AtReturn => initialized t = true
  | Returned q => q = OwnedDB /\ initialized t = true
  | _ => True
  end.

Record inv (s : state) : Prop := {
  inv_lock : forall i p, threads s !! i = Some p -> locked p = true <-> init_lock s = Some i;
  inv_written : match init_lock s with
                | None => pristine (obj s) (moved s) \/ ready (obj s) (moved s)
                | Some i => exists p, threads s !! i = Some p /\ written p (obj s) (moved s)
                end;
  inv_relies : forall i p, threads s !! i = Some p -> relies p (obj s)
}.

Lemma written_initialized p t n : written p t n -> initialized t = true -> ready t n.
Proof.
  intros H Hi. destruct p; cbn in H; try (by destruct H as [[-> _]|?]); try (by destruct H as [-> _]);
    try (by destruct H as [(c & _ & ->) _]); done.
Qed.

Lemma written_ready p t t' n : written p t n -> initialized t = true -> ready t' n -> written p t' n.
Proof.
  intros H Hi Hr. destruct p; cbn in H |- *; try (by right); try done;
    by first [destruct H as [-> _]|destruct H as [(c & _ & ->) _]].
Qed.

Lemma inv_ready s : inv s -> initialized (obj s) = true -> ready (obj s) (moved s).
Proof.
  intros [_ H _] Hi. destruct (init_lock s) as [i|]; [destruct H as (p & _ & H)|apply (written_initialized AtLoad) in H; done].
  by apply written_initialized in H.
Qed.

(** A step of a thread without the lock. *)
Lemma inv_unlocked s i p' : inv s -> (forall p, threads s !! i = Some p -> locked p = false) -> locked p' = false -> relies p' (obj s) ->
  inv (set_pc i p' s).
Proof.
  intros [L W R] Hp Hp' Hr. split; cbn.
  - intros j q. rewrite lookup_insert_Some. intros [[<- <-]|[Hj Hq]]; [|by apply L]. rewrite Hp'. split; [done|]. intros Hl.
    rewrite Hl in W. destruct W as (p & Hip & _). rewrite <- (L i p Hip), Hp in Hl by done. done.
  - destruct (init_lock s) as [j|] eqn:Hl; [|done]. destruct W as (p & Hj & W). exists p. split; [|done].
    rewrite lookup_insert_ne; [done|]. intros ->. pose proof (proj2 (L j p Hj) eq_refl) as H. by rewrite Hp in H.
  - intros j q. rewrite lookup_insert_Some. intros [[<- <-]|[Hj Hq]]; [done|by eapply R].
Qed.

(** A step of the thread that holds the lock, before and after. *)
Lemma inv_holder s i p p' t' n' : inv s -> threads s !! i = Some p -> locked p = true -> locked p' = true ->
  written p' t' n' -> relies p' t' -> (initialized (obj s) = true -> initialized t' = true) ->
  inv (mk_state t' (init_lock s) (<[i := p']> (threads s)) n').
Proof.
  intros [L W R] Hi Hp Hp' Hw Hr Hm. assert (init_lock s = Some i) as Hl by by apply (L i p). rewrite Hl in *. split; cbn.
  - intros j q. rewrite lookup_insert_Some. intros [[<- <-]|[Hj Hq]]; [done|by apply L].
  - exists p'. by rewrite lookup_insert_eq.
  - intros j q. rewrite lookup_insert_Some. intros [[<- <-]|[Hj Hq]]; [done|]. specialize (R j q Hq). destruct q; cbn in *; naive_solver.
Qed.

Lemma inv_release s i p p' : inv s -> threads s !! i = Some p -> locked p = true -> locked p' = false ->
  written AtLoad (obj s) (moved s) -> relies p' (obj s) -> inv (set_lock None (set_pc i p' s)).
Proof.
  intros [L W R] Hi Hp Hp' Hw Hr. assert (init_lock s = Some i) as Hl by by apply (L i p). rewrite Hl in *. split; cbn.
  - intros j q. rewrite lookup_insert_Some. intros [[<- <-]|[Hj Hq]]; [by rewrite Hp'|].
    destruct (locked q) eqn:E; [apply (L j q Hq) in E; congruence|done].
  - done.
  - intros j q. rewrite lookup_insert_Some. intros [[<- <-]|[Hj Hq]]; [done|by eapply R].
Qed.

Lemma inv_acquire s i : inv s -> threads s !! i = Some AtLock -> init_lock s = None -> inv (set_lock (Some i) (set_pc i AtCheck s)).
Proof.
  intros [L W R] Hi Hl. rewrite Hl in *. split; cbn.
  - intros j q. rewrite lookup_insert_Some. intros [[<- <-]|[Hj Hq]]; [done|].
    destruct (locked q) eqn:E; [by apply (L j q Hq) in E|]. split; [done|]. congruence.
  - exists AtCheck. by rewrite lookup_insert_eq.
  - intros j q. rewrite lookup_insert_Some. intros [[<- <-]|[Hj Hq]]; [done|by eapply R].
Qed.

Lemma holder_written s i p : inv s -> threads s !! i = Some p -> locked p = true -> written p (obj s) (moved s).
Proof.
  intros [L W R] Hi Hp. assert (init_lock s = Some i) as Hl by by apply (L i p). rewrite Hl in W. destruct W as (q & Hq & W).
  congruence.
Qed.

Lemma thread_step_inv i s p s' : inv s -> threads s !! i = Some p -> thread_step i s p s' -> inv s'.
Proof.
  intros I Hi H. pose proof (inv_relies _ I i p Hi) as R. pose proof (holder_written s i p I Hi) as W.
  assert (locked p = false -> forall q, threads s !! i = Some q -> locked q = false) as Hu by (intros; congruence).
  destruct H as [| |Hl| | | |c Hc|c a|c| | | | |]; cbn in R, W; cbv iota.
  - apply inv_unlocked; auto; by destruct (initialized (obj s)) eqn:E.
  - apply inv_unlocked; auto. cbn. by destruct (inv_ready s I R) as [(c & _ & ->) _].
  - by apply inv_acquire.
  - apply (inv_holder s i AtCheck); auto; destruct (initialized (obj s)) eqn:E; try done; [by apply inv_ready|].
    cbn. destruct W as [?|[(c & _ & Hb) _]]; [done|done|]. by rewrite Hb in E.
  - apply (inv_holder s i AtContext); auto. left. by apply W.
  - apply (inv_holder s i AtContext); auto. left. by apply W.
  - apply (inv_holder s i AtContext); auto. by apply W.
  - pose proof (c_exec_ok Begin a c (proj1 R)). apply (inv_holder s i (AtBegin c)); auto; destruct (snd _); try done; cbn; tauto.
  - destruct W as [Ho Hn]; [done|]. apply (inv_holder s i (AtMove c)); cbn; rewrite ?Ho, ?Hn; try done. split; [by exists c|done].
  - destruct W as [(c & Hc & Ho) Hn]; [done|]. apply (inv_holder s i AtPointer); cbn; rewrite ?Ho, ?Hn; try done. by split; [exists c|].
  - destruct W as [(c & Hc & Ho) Hn]; [done|]. apply (inv_holder s i AtStarted); cbn; rewrite ?Ho, ?Hn; try done. by split; [exists c|].
  - destruct W as [(c & Hc & Ho) Hn]; [done|]. apply (inv_holder s i AtPublish); cbn; rewrite ?Ho, ?Hn; try done. by split; [exists c|].
  - destruct W as [(c & Hc & Ho) Hn]; [done|]. apply (inv_release s i AtReturn); try done; cbn; [right; by split; [exists c|]|by rewrite Ho].
  - apply (inv_release s i AtThrow); try done. by apply W.
Qed.

Lemma step_inv s s' : inv s -> step s s' -> inv s'.
Proof.
  intros I Hs. destruct Hs as [i p s0 s1 Hi H|i s0 Hi|i s0 c c' Hi Ho Hu];
    [exact (thread_step_inv i s0 p s1 I Hi H)|apply inv_unlocked; naive_solver|].
  destruct (inv_relies _ I i _ Hi) as [_ Hini]. destruct (inv_ready _ I Hini) as [(c0 & Hc0 & Hobj) Hn].
  rewrite Hobj in Ho. injection Ho as ->. pose proof (c_user_ok _ _ Hc0 Hu) as Hc'.
  assert (ready (set_owned c' (obj s0)) (moved s0)) as Hr by (rewrite Hobj; split; [by exists c'|done]).
  destruct I as [L W R]. split; cbn.
  - done.
  - destruct (init_lock s0) as [j|]; [|by right]. destruct W as (p & Hp & W). exists p. split; [done|].
    by apply (written_ready p (obj s0)).
  - intros j q Hq. specialize (R j q Hq). by destruct q.
Qed.

Lemma lazy_reachable_inv s : reachable s -> inv s.
Proof.
  induction 1; [|by eapply step_inv]. split; [by intros i p; cbn; rewrite lookup_empty|by left|by intros i p; cbn; rewrite lookup_empty].
Qed.

(** ** Races and progress *)

Definition writes_plain (p : pc) : bool := match p with AtMove _ | AtPointer | AtStarted => true | _ => false end.
Definition reads_plain (p : pc) : bool := match p with AtFast | AtReturn => true | _ => false end.
Definition finished (p : pc) : bool := match p with Returned _ | Threw => true | _ => false end.

Definition enabled (s : state) (i : nat) (p : pc) : Prop := exists s', thread_step i s p s'.

Lemma unlocked_enabled s i p : ans -> finished p = false -> p <> AtLock \/ init_lock s = None -> enabled s i p.
Proof.
  intros a Hf Hl. unfold enabled. destruct p as [| | | | |c| | | | | | | |]; try (by eexists; apply (s_begin i s c a));
    try (by eauto using thread_step). destruct Hl; [done|by eauto using thread_step].
Qed.


End LazyInit.

(** Two threads: one is initializing, the other waits for the lock. *)
Definition racing : @state (@sqlite3 Z) :=
  mk_state (mk_txn Null None false false) (Some 0%nat) {[0%nat := AtBegin fresh_db; 1%nat := AtLock]} 0.

#[local] Abbreviation engine_reachable := (@reachable (@sqlite3 Z) Z (@env Z) engine_connection).

Lemma racing_reachable : engine_reachable racing.
Proof.
  assert (forall s i p s', engine_reachable s -> threads s !! i = Some p -> thread_step i s p s' -> engine_reachable s') as T
    by (intros; eapply reachable_next; [done|by eapply step_thread]).
  assert (engine_reachable start) as R by apply reachable_start.
  eapply reachable_next in R; [|by apply (step_call 0%nat)]. eapply reachable_next in R; [|by apply (step_call 1%nat)].
  eapply (T _ 0%nat) in R; [|reflexivity|apply s_load]. eapply (T _ 1%nat) in R; [|reflexivity|apply s_load].
  eapply (T _ 0%nat) in R; [|reflexivity|by apply s_lock]. eapply (T _ 0%nat) in R; [|reflexivity|apply s_check].
  eapply (T _ 0%nat) in R; [|reflexivity|apply (s_open _ _ fresh_db), fresh_db_ok]. exact R.
Qed.

