(* ===== verification/Scan.v ===== *)
(** * The parallel table scan (sqlite_scanner.cpp, SQLiteDB::GetRowIdInfo)

    The threads of a scan share the position of the next slice of row ids; each
    claims a slice, runs the statement over it and hands out chunks.  The table is
    the list of its row ids and rows in the order SQLite returns them; [cond] is
    the condition in the statement and [keep] the filters that are evaluated in
    DuckDB (FilterPushdown.v computes both).  [vsize] stands for DuckDB's
    STANDARD_VECTOR_SIZE. *)

From S2P Require Import Prelude.
From stdpp Require Import relations.
#[local] Open Scope Z_scope.

(** ** Lists *)

Lemma filter_split {A} (P Q : A -> Prop) `{forall x, Decision (P x)} `{forall x, Decision (Q x)} (l : list A) :
  filter P l ≡ₚ filter (fun x => P x /\ Q x) l ++ filter (fun x => P x /\ ~ Q x) l.
Proof.
  induction l as [|x l IH]; [done|]. rewrite !filter_cons. destruct (decide (P x)), (decide (Q x)); repeat case_decide; try tauto.
  - cbn. by constructor.
  - rewrite <- Permutation_middle. by constructor.
Qed.

Lemma concat_insert {A B} (f : A -> list B) ls i x x' : ls !! i = Some x ->
  concat (f <$> <[i := x']> ls) ++ f x ≡ₚ concat (f <$> ls) ++ f x'.
Proof.
  intros H. rewrite <- (take_drop_middle ls i x H) at 2. rewrite insert_take_drop by by eapply lookup_lt_Some.
  rewrite !fmap_app, !fmap_cons, !concat_app. cbn. rewrite <- !app_assoc. apply Permutation_app_head.
  rewrite (Permutation_app_comm (f x')), (Permutation_app_comm (f x)), <- !app_assoc. apply Permutation_app_head, Permutation_app_comm.
Qed.

Lemma sum_insert {A} (f : A -> nat) ls i x x' : ls !! i = Some x ->
  (sum_list_with f (<[i := x']> ls) + f x = sum_list_with f ls + f x')%nat.
Proof.
  intros H. rewrite <- (take_drop_middle ls i x H) at 2. rewrite insert_take_drop by by eapply lookup_lt_Some.
  rewrite !sum_list_with_app. cbn. lia.
Qed.

Section Scan.
Context {R : Type}.
Variables (table : list (Z * R)) (cond keep : R -> bool) (vsize : nat).

(** ** Binding *)

Definition MAX_ROWS : Z := 20000000000000.

(** MIN and MAX of the row ids, read with [sqlite3_column_int64]: 0 for NULL. *)
Definition min_value (l : list Z) : Z := match l with [] => 0 | x :: l => foldr Z.min x l end.
Definition max_value (l : list Z) : Z := match l with [] => 0 | x :: l => foldr Z.max x l end.

(** [has_rowid]: the table has a row id that a name addresses, so that the query
    can be prepared. *)
Definition GetRowIdInfo (has_rowid : bool) : option (Z * Z) :=
  if negb has_rowid then None
  else
    let min_val := min_value (fst <$> table) in
    let max_val := max_value (fst <$> table) in
    if (min_val <? 0) || (max_val <=? min_val) then None
    else if MAX_ROWS <=? max_val - min_val then None
    else Some (min_val, max_val).

Record SqliteBindData : Type := mk_bind {
  row_id_info : option (Z * Z);
  rows_per_group : option Z
}.

(** [use_global_db]: the scan uses the connection of the transaction. *)
Definition bind (has_rowid use_global_db : bool) : SqliteBindData :=
  match GetRowIdInfo has_rowid with
  | None => mk_bind None None
  | Some info => mk_bind (Some info) (if use_global_db then None else Some 122880)
  end.

(** ** Scanning *)

Record SqliteGlobalState : Type := mk_global { position : Z; g_rows_per_group : Z }.

(** [stmt]: the rows the open statement still returns; [returned]: [SqliteScan]
    returned no rows to this thread. *)
Record SqliteLocalState : Type := mk_local { stmt : list R; done : bool; scan_count : Z; returned : bool }.

Definition max_rowid (bd : SqliteBindData) : Z := match row_id_info bd with Some (_, m) => m | None => 0 end.
Definition min_rowid (bd : SqliteBindData) : Z := match row_id_info bd with Some (m, _) => m | None => 0 end.

Definition SqliteInitGlobalState (bd : SqliteBindData) : SqliteGlobalState :=
  match rows_per_group bd with
  | None => mk_global 0 0
  | Some n => mk_global (if 0 <? min_rowid bd then min_rowid bd - 1 else 0) n
  end.

(** A claimed slice: everything, or an interval of row ids. *)
Inductive slice : Type := Everything | Between (rowid_min rowid_max : Z).

Inductive claim : Type :=
| NoSlice
| Claimed (sl : slice) (g : SqliteGlobalState)
| InternalException.

Definition SqliteClaimNextSlice (bd : SqliteBindData) (l : SqliteLocalState) (g : SqliteGlobalState) : claim :=
  match rows_per_group bd with
  | None =>
      if 0 <? position g then NoSlice
      else Claimed Everything (mk_global (u64 (-1)) (g_rows_per_group g))
  | Some _ =>
      let max_row_id := max_rowid bd in
      if max_row_id <? position g then NoSlice
      else
        let n := g_rows_per_group g in
        let n := if (scan_count l =? 0) && (n <? max_row_id) then u64 (n * 2) else n in
        if n =? 0 then InternalException
        else
          let rowid_min := position g in
          let rowid_max := Z.min max_row_id (u64 (u64 (rowid_min + n) - 1)) in
          Claimed (Between rowid_min rowid_max) (mk_global (u64 (rowid_max + 1)) n)
  end.

(** The rows of the statement: [WHERE rowid BETWEEN ? AND ? AND cond], the bounds
    bound as signed integers. *)
Definition in_slice (sl : slice) (x : Z * R) : Prop :=
  match sl with Everything => True | Between lo hi => i64 lo <= fst x <= i64 hi end.

#[export] Instance in_slice_dec sl x : Decision (in_slice sl x).
Proof. destruct sl; cbn; apply _. Defined.

Definition slice_rows (sl : slice) : list R := snd <$> filter (fun x => cond (snd x) = true /\ in_slice sl x) table.

(** [SqliteParallelStateNext]: claims a slice and starts the statement. *)
Definition SqliteParallelStateNext (bd : SqliteBindData) (l : SqliteLocalState) (g : SqliteGlobalState)
    : option (SqliteLocalState * SqliteGlobalState * bool) :=
  match SqliteClaimNextSlice bd l g with
  | NoSlice => Some (l, g, false)
  | Claimed sl g => Some (mk_local (slice_rows sl) false 0 (returned l), g, true)
  | InternalException => None
  end.

(** The inner loop of [SqliteScan]: a chunk of at most [n] rows. *)
Fixpoint fill (n : nat) (l : SqliteLocalState) : list R * SqliteLocalState :=
  match n with
  | O => ([], l)
  | S n =>
      match stmt l with
      | [] => ([], mk_local [] true (scan_count l) (returned l))
      | r :: rs => let '(out, l) := fill n (mk_local rs (done l) (scan_count l + 1) (returned l)) in (r :: out, l)
      end
  end.

Definition SqliteApplyFilters (rows : list R) : list R := filter (fun r => keep r = true) rows.

(** ** Threads *)

Record state : Type := mk_state {
  global : SqliteGlobalState;
  locals : list SqliteLocalState;
  emitted : list R
}.

(** One iteration of the loop of [SqliteScan] in a thread: with a finished
    statement it claims a slice, or returns; with an open one it makes a chunk. *)
Inductive step (bd : SqliteBindData) (s : state) : state -> Prop :=
| step_claim i l l' g' : locals s !! i = Some l -> done l = true -> returned l = false ->
    SqliteParallelStateNext bd l (global s) = Some (l', g', true) ->
    step bd s (mk_state g' (<[i := l']> (locals s)) (emitted s))
| step_return i l l' g' : locals s !! i = Some l -> done l = true -> returned l = false ->
    SqliteParallelStateNext bd l (global s) = Some (l', g', false) ->
    step bd s (mk_state g' (<[i := mk_local (stmt l') (done l') (scan_count l') true]> (locals s)) (emitted s))
| step_chunk i l out l' : locals s !! i = Some l -> done l = false -> fill vsize l = (out, l') ->
    step bd s (mk_state (global s) (<[i := l']> (locals s)) (emitted s ++ SqliteApplyFilters out)).

(** A thread starts with its first claim ([SqliteInitLocalState]). *)
Definition start_local : SqliteLocalState := mk_local [] true 1 false.
Definition start (bd : SqliteBindData) (threads : nat) : state :=
  mk_state (SqliteInitGlobalState bd) (replicate threads start_local) [].

(** ** The slices *)

Definition first_position (bd : SqliteBindData) : Z := if 0 <? min_rowid bd then min_rowid bd - 1 else 0.

(** What the binding guarantees. *)
Definition bind_ok (bd : SqliteBindData) : Prop :=
  match rows_per_group bd with
  | None => True
  | Some n => n = 122880 /\ 0 <= min_rowid bd <= max_rowid bd /\ max_rowid bd < 2 ^ 63 /\ max_rowid bd - min_rowid bd < MAX_ROWS /\
      forall x, x ∈ table -> first_position bd <= fst x <= max_rowid bd
  end.

Definition global_ok (bd : SqliteBindData) (g : SqliteGlobalState) : Prop :=
  match rows_per_group bd with
  | None => position g = 0 \/ position g = 2 ^ 64 - 1
  | Some n => first_position bd <= position g <= max_rowid bd + 1 /\ 0 < g_rows_per_group g /\
      (position g <= max_rowid bd -> g_rows_per_group g <= position g - first_position bd + n)
  end.

Definition unclaimed (bd : SqliteBindData) (g : SqliteGlobalState) : list R :=
  match rows_per_group bd with
  | None => if 0 <? position g then [] else slice_rows Everything
  | Some _ => snd <$> filter (fun x => cond (snd x) = true /\ position g <= fst x) table
  end.

Definition span (bd : SqliteBindData) (g : SqliteGlobalState) : nat :=
  match rows_per_group bd with
  | None => if 0 <? position g then 0 else 1
  | Some _ => Z.to_nat (max_rowid bd + 1 - position g)
  end.

Lemma foldr_min_le x (l : list Z) : foldr Z.min x l <= x /\ forall y, y ∈ l -> foldr Z.min x l <= y.
Proof.
  induction l as [|z l [IH1 IH2]]; cbn; [split; [lia|by intros y ?%elem_of_nil]|].
  split; [lia|]. intros y [->|Hy]%elem_of_cons; [lia|]. specialize (IH2 y Hy). lia.
Qed.

Lemma foldr_max_ge x (l : list Z) : x <= foldr Z.max x l /\ forall y, y ∈ l -> y <= foldr Z.max x l.
Proof.
  induction l as [|z l [IH1 IH2]]; cbn; [split; [lia|by intros y ?%elem_of_nil]|].
  split; [lia|]. intros y [->|Hy]%elem_of_cons; [lia|]. specialize (IH2 y Hy). lia.
Qed.

Lemma min_max_value (l : list Z) y : y ∈ l -> min_value l <= y <= max_value l.
Proof.
  destruct l as [|x l]; [by intros ?%elem_of_nil|]. cbn. destruct (foldr_min_le x l), (foldr_max_ge x l).
  intros [->|Hy]%elem_of_cons; [done|]. auto.
Qed.

Lemma foldr_max_in x (l : list Z) : foldr Z.max x l ∈ x :: l.
Proof.
  induction l as [|z l IH]; cbn; [by left|]. destruct (Z.max_spec z (foldr Z.max x l)) as [[_ ->]|[_ ->]]; set_solver.
Qed.

Lemma bind_is_ok has_rowid use_global_db : Forall (fun x => is_s 64 (fst x)) table -> bind_ok (bind has_rowid use_global_db).
Proof.
  intros Hs. unfold bind, bind_ok, GetRowIdInfo. destruct has_rowid; cbn; [|done].
  destruct (_ || _) eqn:E1; [done|]. destruct (MAX_ROWS <=? _) eqn:E2; [done|]. destruct use_global_db; [done|].
  cbn. unfold first_position. cbn. split_and!; try lia.
  - destruct table as [|[x r] t] eqn:E; [cbn in *; lia|]. assert (max_value (fst <$> ((x, r) :: t)) ∈ fst <$> ((x, r) :: t)) as H
      by apply foldr_max_in. apply list_elem_of_fmap in H as ([y r'] & -> & H). rewrite Forall_forall in Hs. specialize (Hs _ H).
    unfold is_s in Hs. cbn in *. lia.
  - intros x Hx. pose proof (min_max_value (fst <$> table) (fst x) (list_elem_of_fmap_2 _ _ _ Hx)). destruct (0 <? _) eqn:?; lia.
Qed.

Lemma unclaimed_split lo hi : 0 <= lo <= hi -> hi < 2 ^ 63 ->
  (snd <$> filter (fun x => cond (snd x) = true /\ lo <= fst x) table) ≡ₚ
  slice_rows (Between lo hi) ++ (snd <$> filter (fun x => cond (snd x) = true /\ hi + 1 <= fst x) table).
Proof.
  intros Hlo Hhi. rewrite (filter_split _ (fun x : Z * R => fst x <= hi)), fmap_app. unfold slice_rows.
  rewrite (list_filter_iff (fun x => cond (snd x) = true /\ in_slice (Between lo hi) x)
    (fun x : Z * R => (cond (snd x) = true /\ lo <= fst x) /\ fst x <= hi))
    by (intros x; unfold in_slice; rewrite !wraps_id by solve_width; lia).
  by rewrite (list_filter_iff (fun x : Z * R => (cond (snd x) = true /\ lo <= fst x) /\ ~ fst x <= hi)
    (fun x => cond (snd x) = true /\ hi + 1 <= fst x)) by (intros; lia).
Qed.

(** A claim takes a slice off the rows that are left, without overflow. *)
Lemma claim_ok bd l g : bind_ok bd -> global_ok bd g ->
  match SqliteClaimNextSlice bd l g with
  | NoSlice => unclaimed bd g = []
  | Claimed sl g' => global_ok bd g' /\ unclaimed bd g ≡ₚ slice_rows sl ++ unclaimed bd g' /\ (span bd g' < span bd g)%nat
  | InternalException => False
  end.
Proof.
  unfold bind_ok, global_ok, unclaimed, span, SqliteClaimNextSlice. destruct (rows_per_group bd) as [n|].
  - intros (-> & Hmin & Hmax & Hr & Ht) (Hp & Hn & Hb). destruct (Z.ltb_spec (max_rowid bd) (position g)) as [Hlt|Hge].
    + destruct (filter _ table) as [|x t] eqn:E; [done|]. assert (x ∈ x :: t) as Hx by by left. rewrite <- E in Hx.
      apply list_elem_of_filter in Hx as [[_ H] Hx]. specialize (Ht x Hx). lia.
    + specialize (Hb Hge). unfold MAX_ROWS, first_position in *.
      assert (0 <= position g /\ g_rows_per_group g <= 20000000122881) as [Hp0 Hn1] by (destruct (0 <? min_rowid bd) eqn:?; lia).
      set (n := if (scan_count l =? 0) && _ then u64 _ else _). assert (0 < n <= 2 * g_rows_per_group g) as Hn2.
      { unfold n. destruct (_ && _); [|lia]. rewrite wrapu_id; unfold is_u; lia. }
      destruct (Z.eqb_spec n 0); [lia|]. rewrite !(wrapu_id 64 (position g + n)), (wrapu_id 64 (position g + n - 1)) by solve_width.
      rewrite wrapu_id by solve_width. cbn [position g_rows_per_group]. split; [|split; [|lia]].
      * split_and!; lia.
      * by apply unclaimed_split; lia.
  - intros _ Hg. destruct (Z.ltb_spec 0 (position g)); [done|]. cbn [position]. change (0 <? u64 (-1)) with true. cbv iota.
    split; [by right|]. rewrite app_nil_r. split; [done|lia].
Qed.

Lemma fill_ok n l : forall out l', fill n l = (out, l') ->
  out ++ stmt l' = stmt l /\ returned l' = returned l /\
  (done l' = true -> done l = true \/ stmt l' = []) /\
  (0 < n -> done l' = true \/ 0 < length out)%nat.
Proof.
  revert l. induction n as [|n IH]; intros l out l'; cbn; [by intros [= <- <-]; split_and!; auto; lia|].
  destruct (stmt l) as [|r rs] eqn:E; [by intros [= <- <-]; split_and!; auto|].
  destruct (fill n _) as [out1 l1] eqn:Ef. intros [= <- <-]. destruct (IH _ _ _ Ef) as (H1 & H2 & H3 & _). cbn in *.
  split_and!; [by rewrite H1|done|done|]. intros _. right. lia.
Qed.

(** ** The invariant and the measure *)

Definition result : list R := snd <$> filter (fun x : Z * R => cond (snd x) = true /\ keep (snd x) = true) table.

Definition local_ok (bd : SqliteBindData) (g : SqliteGlobalState) (l : SqliteLocalState) : Prop :=
  (done l = true -> stmt l = []) /\ (returned l = true -> done l = true /\ unclaimed bd g = []).

Record inv (bd : SqliteBindData) (s : state) : Prop := {
  inv_global : global_ok bd (global s);
  inv_locals : Forall (local_ok bd (global s)) (locals s);
  inv_rows : emitted s ++ SqliteApplyFilters (concat (stmt <$> locals s)) ++ SqliteApplyFilters (unclaimed bd (global s)) ≡ₚ result
}.

(** Rows to be read, slices to be claimed, open statements and calls. *)
Definition weight (l : SqliteLocalState) : nat :=
  (length (stmt l) + (if done l then 0 else 1) + (if returned l then 0 else 1))%nat.
Definition measure (bd : SqliteBindData) (s : state) : nat :=
  (2 * span bd (global s) + length (unclaimed bd (global s)) + sum_list_with weight (locals s))%nat.

Lemma apply_filters_perm l1 l2 : l1 ≡ₚ l2 -> SqliteApplyFilters l1 ≡ₚ SqliteApplyFilters l2.
Proof. intros H. unfold SqliteApplyFilters. by rewrite H. Qed.

Lemma apply_filters_app l1 l2 : SqliteApplyFilters (l1 ++ l2) = SqliteApplyFilters l1 ++ SqliteApplyFilters l2.
Proof. apply filter_app. Qed.

Lemma next_ok bd l g : bind_ok bd -> global_ok bd g ->
  match SqliteParallelStateNext bd l g with
  | Some (l', g', true) => global_ok bd g' /\ unclaimed bd g ≡ₚ stmt l' ++ unclaimed bd g' /\ (span bd g' < span bd g)%nat /\
      done l' = false /\ returned l' = returned l
  | Some (l', g', false) => l' = l /\ g' = g /\ unclaimed bd g = []
  | None => False
  end.
Proof.
  intros Hb Hg. unfold SqliteParallelStateNext. pose proof (claim_ok bd l g Hb Hg) as H.
  destruct (SqliteClaimNextSlice bd l g); [done|naive_solver|done].
Qed.

Lemma step_ok bd s s' : (0 < vsize)%nat -> bind_ok bd -> inv bd s -> step bd s s' -> inv bd s' /\ (measure bd s' < measure bd s)%nat.
Proof.
  intros Hv Hb [G L P] Hs. destruct Hs as [i l l' g' Hi Hd Hr Hn|i l l' g' Hi Hd Hr Hn|i l out l' Hi Hd Hf];
    pose proof (proj1 (Forall_lookup _ _) L i l Hi) as [Hl1 Hl2].
  - pose proof (next_ok bd l (global s) Hb G) as H. rewrite Hn in H. destruct H as (G' & Hu & Hsp & Hd' & Hr'). specialize (Hl1 Hd).
    pose proof (concat_insert stmt (locals s) i l l' Hi) as Hc. rewrite Hl1, app_nil_r in Hc.
    pose proof (sum_insert weight (locals s) i l l' Hi) as Hw. unfold weight in Hw at 2 4. rewrite Hd, Hr, Hd', Hr', Hr, Hl1 in Hw. cbn in Hw.
    split; [split|]; cbn.
    + done.
    + apply Forall_insert; [|split; congruence]. eapply Forall_impl; [done|]. intros k [K1 K2]. split; [done|]. intros H.
      destruct (K2 H) as [? E]. split; [done|]. rewrite E in Hu. apply Permutation_nil_l in Hu. symmetry in Hu. apply app_eq_nil in Hu. tauto.
    + rewrite <- P, (apply_filters_perm _ _ Hc), (apply_filters_perm _ _ Hu), !apply_filters_app, <- app_assoc. done.
    + unfold measure. cbn. rewrite Hu, length_app. lia.
  - pose proof (next_ok bd l (global s) Hb G) as H. rewrite Hn in H. destruct H as (-> & -> & Hu). specialize (Hl1 Hd).
    set (l' := mk_local _ _ _ true). pose proof (concat_insert stmt (locals s) i l l' Hi) as Hc.
    change (stmt l') with (stmt l) in Hc. apply Permutation_app_inv_r in Hc.
    pose proof (sum_insert weight (locals s) i l l' Hi) as Hw. unfold weight in Hw at 2 4.
    change (stmt l') with (stmt l) in Hw. change (done l') with (done l) in Hw. change (returned l') with true in Hw.
    rewrite Hd, Hr, Hl1 in Hw. cbn in Hw. split; [split|]; cbn.
    + done.
    + apply Forall_insert; [done|]. by split; cbn.
    + by rewrite (apply_filters_perm _ _ Hc).
    + unfold measure. cbn. lia.
  - destruct (fill_ok vsize l out l' Hf) as (Hout & Hret & Hdn & Hprog). specialize (Hprog Hv).
    pose proof (concat_insert stmt (locals s) i l l' Hi) as Hc. rewrite <- Hout in Hc.
    pose proof (sum_insert weight (locals s) i l l' Hi) as Hw. unfold weight in Hw at 2 4. rewrite Hret, Hd, <- Hout, length_app in Hw.
    assert (returned l = false) as Hr by (destruct (returned l); [destruct (Hl2 eq_refl); congruence|done]).
    split; [split|]; cbn.
    + done.
    + apply Forall_insert; [done|]. split; [|rewrite Hret; congruence]. intros H. destruct (Hdn H); congruence.
    + rewrite app_assoc in Hc. apply Permutation_app_inv_r in Hc. rewrite <- P, <- (apply_filters_perm _ _ Hc), apply_filters_app.
      rewrite <- !app_assoc. apply Permutation_app_head. rewrite !app_assoc. apply Permutation_app_tail, Permutation_app_comm.
    + unfold measure. cbn. destruct Hprog as [Hp|Hp]; [rewrite Hp in Hw|destruct (done l')]; lia.
Qed.

Lemma apply_filters_rows (P : Z * R -> Prop) `{forall x, Decision (P x)} :
  (forall x, x ∈ table -> P x <-> cond (snd x) = true) -> SqliteApplyFilters (snd <$> filter P table) = result.
Proof.
  intros HP. unfold SqliteApplyFilters, result. induction table as [|x t IH]; [done|].
  assert (forall y, y ∈ t -> P y <-> cond (snd y) = true) as HP' by (intros y Hy; apply HP; by right).
  specialize (HP x ltac:(by left)). rewrite !filter_cons.
  destruct (decide (P x)); rewrite ?fmap_cons, ?filter_cons; cbn; repeat case_decide; rewrite ?fmap_cons; try tauto; rewrite IH by done; done.
Qed.

Lemma inv_start bd threads : bind_ok bd -> inv bd (start bd threads).
Proof.
  intros Hb. split; cbn.
  - unfold global_ok, SqliteInitGlobalState, bind_ok in *. destruct (rows_per_group bd); [|by left]. cbn.
    unfold MAX_ROWS, first_position in *. destruct Hb as (-> & H0 & H1 & H2 & _). destruct (0 <? min_rowid bd) eqn:?; lia.
  - apply Forall_replicate. by split.
  - assert (concat (stmt <$> replicate threads start_local) = []) as -> by (induction threads; cbn; auto).
    cbn. unfold unclaimed, SqliteInitGlobalState. unfold bind_ok in Hb. destruct (rows_per_group bd) as [n|].
    + rewrite apply_filters_rows; [done|]. intros x Hx. destruct Hb as (_ & _ & _ & _ & Hb). specialize (Hb x Hx).
      unfold first_position in Hb. cbn. tauto.
    + change (0 <? position (mk_global 0 0)) with false. unfold slice_rows. rewrite apply_filters_rows; [done|]. intros x Hx. cbn. tauto.
Qed.

Lemma progress bd s i l : bind_ok bd -> inv bd s -> locals s !! i = Some l -> returned l = false -> exists s', step bd s s'.
Proof.
  intros Hb [G _ _] Hi Hr. destruct (done l) eqn:Hd; [|destruct (fill vsize l) eqn:E; eexists; by eapply step_chunk].
  pose proof (next_ok bd l (global s) Hb G) as H. destruct (SqliteParallelStateNext bd l (global s)) as [[[l' g'] [|]]|] eqn:E;
    [eexists; by eapply step_claim|eexists; by eapply step_return|done].
Qed.

Lemma finished_result bd s : inv bd s -> locals s <> [] -> Forall (fun l => returned l = true) (locals s) -> emitted s ≡ₚ result.
Proof.
  intros [G L P] Hne Hret. assert (unclaimed bd (global s) = []) as Hu.
  { destruct (locals s) as [|l ls]; [done|]. inversion_clear L as [|? ? [_ H] _]. inversion_clear Hret as [|? ? Hl _]. by destruct (H Hl). }
  assert (concat (stmt <$> locals s) = []) as Hc.
  { clear -L Hret. induction (locals s) as [|l ls IH]; [done|]. inversion_clear L as [|? ? [H1 H2] Hls]. inversion_clear Hret as [|? ? Hl Hrest].
    cbn. destruct (H2 Hl) as [Hd _]. rewrite (H1 Hd). cbn. by apply IH. }
  rewrite Hu, Hc in P. by rewrite !app_nil_r in P.
Qed.

Lemma runs_ok bd s0 k s : (0 < vsize)%nat -> bind_ok bd -> inv bd s0 -> nsteps (step bd) k s0 s ->
  inv bd s /\ (measure bd s + k <= measure bd s0)%nat /\ length (locals s) = length (locals s0).
Proof.
  intros Hv Hb Hi H. induction H as [|k s0 s1 s2 Hs _ IH]; [split_and!; [done|lia|done]|].
  destruct (step_ok bd s0 s1 Hv Hb Hi Hs) as [Hi1 Hm]. destruct (IH Hi1) as (H1 & H2 & H3). split_and!; [done|lia|].
  rewrite H3. destruct Hs; cbn; by rewrite length_insert.
Qed.

(** C5. The parallel scan, for any number of threads and any interleaving, with
    64-bit positions and slice sizes that double on empty slices.  Every run ends.
    A run in which no thread can go on is one in which every call has returned,
    and then the rows handed out are, each once, the rows of the table that
    satisfy the condition in the statement and the filters evaluated in DuckDB.
    No claim ever overflows or raises an exception. *)
Theorem scan_returns_each_row_once (has_rowid use_global_db : bool) (threads : nat) :
  (0 < vsize)%nat -> Forall (fun x => is_s 64 (fst x)) table ->
  let bd := bind has_rowid use_global_db in
  (exists bound, forall k s, nsteps (step bd) k (start bd threads) s -> (k <= bound)%nat) /\
  (forall s, rtc (step bd) (start bd threads) s ->
    (exists s', step bd s s') \/
    (Forall (fun l => returned l = true) (locals s) /\ (threads <> 0%nat -> emitted s ≡ₚ result))).
Proof.
  intros Hv Hs bd. pose proof (bind_is_ok has_rowid use_global_db Hs) as Hb. pose proof (inv_start bd threads Hb) as Hi. split.
  - exists (measure bd (start bd threads)). intros k s H. destruct (runs_ok bd _ k s Hv Hb Hi H) as (_ & H2 & _). lia.
  - intros s (k & H)%rtc_nsteps. destruct (runs_ok bd _ k s Hv Hb Hi H) as (Hinv & _ & Hlen). cbn in Hlen. rewrite length_replicate in Hlen.
    destruct (decide (Forall (fun l => returned l = true) (locals s))) as [Hf|Hf].
    + right. split; [done|]. intros Ht. eapply finished_result; [done| |done]. intros E. by rewrite E in Hlen.
    + left. apply not_Forall_Exists in Hf; [|apply _]. apply Exists_exists in Hf as (l & Hl & Hr).
      apply list_elem_of_lookup in Hl as [i Hl]. eapply progress; [done|done|done|]. by apply not_true_is_false.
Qed.

End Scan.

(** Three rows of a sparse table, two threads. *)
Definition demo_table : list (Z * Z) := [(3, 30); (4, 40); (1000000, 50)].

Lemma scan_returns_each_row_once_witness :
  bind demo_table true false = mk_bind (Some (3, 1000000)) (Some 122880) /\
  exists bound, forall k s,
    nsteps (step demo_table (fun r => 35 <? r) (fun _ => true) 2048 (bind demo_table true false)) k
      (start (bind demo_table true false) 2) s -> (k <= bound)%nat.
Proof.
  split; [reflexivity|].
  apply (scan_returns_each_row_once demo_table (fun r => 35 <? r) (fun _ => true) 2048 true false 2).
  - lia.
  - repeat constructor; cbn; lia.
Defined.
