(* ===== verification/Types.v ===== *)
(** * Declared types (sqlite_utils.cpp, SQLite's build.c)

    SQLite gives a column an affinity from the words in its declared type, with a
    rolling hash of the last four characters; the extension derives a DuckDB type
    with the same rules written as substring tests.  Here both, with the type
    mapping used for writing.  DuckDB's [StringUtil::Contains], [Lower] and
    [Trim] are parameters. *)

From S2P Require Import Prelude Ctype IntParse.

(** The bytes of a word. *)
Definition word (s : string) : list Z := (fun c => Z.of_N (N_of_ascii c)) <$> String.list_ascii_of_string s.

(** ** Affinity *)

Definition SQLITE_AFF_BLOB : Z := 0x41.
Definition SQLITE_AFF_TEXT : Z := 0x42.
Definition SQLITE_AFF_NUMERIC : Z := 0x43.
Definition SQLITE_AFF_INTEGER : Z := 0x44.
Definition SQLITE_AFF_REAL : Z := 0x45.

(** Four characters as the hash reads them. *)
Definition four (a b c d : Z) : Z := Z.shiftl a 24 + Z.shiftl b 16 + Z.shiftl c 8 + d.

(** The loop; [zChar] is where the size in parentheses may follow. *)
Fixpoint affinity_loop (zIn : list Z) (h aff : Z) (zChar : option (list Z)) : Z * option (list Z) :=
  match zIn with
  | [] => (aff, zChar)
  | c :: zIn =>
      let h := u32 (u32 (Z.shiftl h 8) + UpperToLower (Z.land c 0xff)) in
      if h =? four 99 104 97 114 then affinity_loop zIn h SQLITE_AFF_TEXT (Some zIn)
      else if h =? four 99 108 111 98 then affinity_loop zIn h SQLITE_AFF_TEXT zChar
      else if h =? four 116 101 120 116 then affinity_loop zIn h SQLITE_AFF_TEXT zChar
      else if (h =? four 98 108 111 98) && ((aff =? SQLITE_AFF_NUMERIC) || (aff =? SQLITE_AFF_REAL)) then
        affinity_loop zIn h SQLITE_AFF_BLOB (if hd 0 zIn =? 40 then Some zIn else zChar)
      else if (h =? four 114 101 97 108) && (aff =? SQLITE_AFF_NUMERIC) then affinity_loop zIn h SQLITE_AFF_REAL zChar
      else if (h =? four 102 108 111 97) && (aff =? SQLITE_AFF_NUMERIC) then affinity_loop zIn h SQLITE_AFF_REAL zChar
      else if (h =? four 100 111 117 98) && (aff =? SQLITE_AFF_NUMERIC) then affinity_loop zIn h SQLITE_AFF_REAL zChar
      else if Z.land h 0x00FFFFFF =? Z.shiftl 105 16 + Z.shiftl 110 8 + 116 then (SQLITE_AFF_INTEGER, zChar)
      else affinity_loop zIn h aff zChar
  end.

(** The size estimate that is stored in the column. *)
Definition size_estimate (aff : Z) (zChar : option (list Z)) : Z :=
  let v :=
    if aff <? SQLITE_AFF_NUMERIC then
      match zChar with
      | Some z =>
          let z := skip_while (fun c => negb (sqlite3Isdigit c)) z in
          match z with [] => 0 | _ => default 0 (sqlite3GetInt32 z) end
      | None => 16
      end
    else 0 in
  let v := Z.quot v 4 + 1 in
  if 255 <? v then 255 else v.

Definition sqlite3AffinityType (zIn : list Z) : Z * Z :=
  let '(aff, zChar) := affinity_loop zIn 0 SQLITE_AFF_NUMERIC None in (aff, size_estimate aff zChar).

(** ** DuckDB's types, as far as the extension names them *)

Inductive LogicalTypeId : Type :=
| BOOLEAN | TINYINT | SMALLINT | INTEGER | BIGINT | UTINYINT | USMALLINT | UINTEGER
| FLOAT | DOUBLE | BLOB | VARCHAR | DATE | TIMESTAMP
| SQLNULL | UBIGINT | HUGEINT | UHUGEINT | DECIMAL (width scale : Z) | INTERVAL | STRING_LITERAL
| OtherType (id : Z).

#[export] Instance LogicalTypeId_eq_dec : EqDecision LogicalTypeId.
Proof. solve_decision. Defined.

Definition ToSQLiteType (t : LogicalTypeId) : LogicalTypeId :=
  match t with
  | BOOLEAN | TINYINT | SMALLINT | INTEGER | BIGINT | UTINYINT | USMALLINT | UINTEGER => BIGINT
  | FLOAT | DOUBLE => DOUBLE
  | BLOB => BLOB
  | _ => VARCHAR
  end.

(** ** The rules, as substrings *)

(** [w] occurs in [s]. *)
Definition occurs (w s : list Z) : Prop := exists a b, s = a ++ w ++ b.

Fixpoint occursb (w s : list Z) : bool :=
  bool_decide (take (length w) s = w) || match s with [] => false | _ :: s => occursb w s end.

Definition affinity_rules (s : list Z) : Z :=
  if occursb (word "int") s then SQLITE_AFF_INTEGER
  else if occursb (word "char") s || occursb (word "clob") s || occursb (word "text") s then SQLITE_AFF_TEXT
  else if occursb (word "blob") s then SQLITE_AFF_BLOB
  else if occursb (word "real") s || occursb (word "floa") s || occursb (word "doub") s then SQLITE_AFF_REAL
  else SQLITE_AFF_NUMERIC.

Lemma occursb_spec w s : occursb w s = true <-> occurs w s.
Proof.
  induction s as [|c s IH]; cbn; rewrite orb_true_iff, bool_decide_eq_true.
  - rewrite take_nil. split; [intros [<-|?]; [by exists [], []|done]|]. intros (a & b & E). left.
    symmetry in E. apply app_nil in E as [_ E]. by apply app_nil in E as [-> _].
  - rewrite IH. split.
    + intros [E|(a & b & ->)]; [exists [], (drop (length w) (c :: s)); cbn [app]; by rewrite <- E at 1; rewrite take_drop|by exists (c :: a), b].
    + intros ([|x a] & b & E); [left; rewrite E; cbn [app]; by rewrite take_app_length|]. right. injection E as -> ->. by exists a, b.
Qed.

Lemma occurs_rev w s : occurs (rev w) (rev s) <-> occurs w s.
Proof.
  split; intros (a & b & E); exists (rev b), (rev a).
  - apply (f_equal (@rev Z)) in E. rewrite !rev_app_distr, !rev_involutive, <- app_assoc in E. exact E.
  - subst s. by rewrite !rev_app_distr, <- app_assoc.
Qed.

(** The same test on the text read backwards. *)
Lemma occursb_rev w s : occursb w s = occursb (rev w) (rev s).
Proof. apply eq_true_iff_eq. rewrite !occursb_spec. symmetry. apply occurs_rev. Qed.

(** ** The hash *)

Definition last4 (r : list Z) : Z := four (nth 3 r 0) (nth 2 r 0) (nth 1 r 0) (nth 0 r 0).

Definition letters (r : list Z) : Prop := Forall (fun c => 0 < c < 256) r.

Lemma nth_letters r n : letters r -> 0 <= nth n r 0 < 256.
Proof.
  intros H. destruct (nth_in_or_default n r 0) as [Hin| ->]; [|lia].
  unfold letters in H. rewrite List.Forall_forall in H. specialize (H _ Hin). lia.
Qed.

Lemma four_eq a b c d : four a b c d = a * 16777216 + b * 65536 + c * 256 + d.
Proof. unfold four. by rewrite !Z.shiftl_mul_pow2. Qed.

Lemma hash_step r c : letters r -> 0 < c < 256 -> u32 (u32 (Z.shiftl (last4 r) 8) + c) = last4 (c :: r).
Proof.
  intros Hr Hc. unfold last4. rewrite !four_eq, Z.shiftl_mul_pow2 by lia. cbn [nth].
  pose proof (nth_letters r 0 Hr). pose proof (nth_letters r 1 Hr). pose proof (nth_letters r 2 Hr). pose proof (nth_letters r 3 Hr).
  unfold wrapu. change (2 ^ 32) with 4294967296. change (2 ^ 8) with 256.
  set (x3 := nth 3 r 0) in *. set (x2 := nth 2 r 0) in *. set (x1 := nth 1 r 0) in *. set (x0 := nth 0 r 0) in *.
  clearbody x3 x2 x1 x0. Z.to_euclidean_division_equations. lia.
Qed.

(** The hash has a word of four letters exactly if the text ends with it. *)
Lemma last4_word r a b c d : letters r -> letters [a; b; c; d] -> (last4 r =? four a b c d) = bool_decide (take 4 r = [d; c; b; a]).
Proof.
  intros Hr Hw. unfold letters in Hw. rewrite !Forall_cons in Hw. unfold last4. rewrite !four_eq.
  pose proof (nth_letters r 0 Hr) as H0. pose proof (nth_letters r 1 Hr) as H1. pose proof (nth_letters r 2 Hr) as H2.
  pose proof (nth_letters r 3 Hr) as H3. apply eq_true_iff_eq. rewrite Z.eqb_eq, bool_decide_eq_true.
  destruct r as [|r0 [|r1 [|r2 [|r3 r]]]]; cbn in *; (split; [intros E; try lia|by intros [= -> -> -> ->] || done]).
  f_equal; [lia|]. f_equal; [lia|]. f_equal; [lia|]. f_equal; lia.
Qed.

Lemma last4_int r : letters r -> (Z.land (last4 r) 0x00FFFFFF =? Z.shiftl 105 16 + Z.shiftl 110 8 + 116) = bool_decide (take 3 (take 4 r) = [116; 110; 105]).
Proof.
  intros Hr. unfold last4. rewrite !four_eq. change 0x00FFFFFF with (Z.ones 24). rewrite Z.land_ones by lia.
  change (2 ^ 24) with 16777216. change (Z.shiftl 105 16 + Z.shiftl 110 8 + 116) with 6909556.
  pose proof (nth_letters r 0 Hr) as H0. pose proof (nth_letters r 1 Hr) as H1. pose proof (nth_letters r 2 Hr) as H2.
  pose proof (nth_letters r 3 Hr) as H3. apply eq_true_iff_eq. rewrite Z.eqb_eq, bool_decide_eq_true.
  replace ((nth 3 r 0 * 16777216 + nth 2 r 0 * 65536 + nth 1 r 0 * 256 + nth 0 r 0) mod 16777216) with
    (nth 2 r 0 * 65536 + nth 1 r 0 * 256 + nth 0 r 0) by (Z.to_euclidean_division_equations; lia).
  destruct r as [|r0 [|r1 [|r2 r]]]; cbn in *; (split; [intros E; try lia|by intros [= -> -> ->] || done]).
  f_equal; [lia|]. f_equal; [lia|]. f_equal; lia.
Qed.

(** The rules on the text read so far, last character first. *)
Definition back (w : string) (r : list Z) : bool := occursb (rev (word w)) r.
Definition texts (r : list Z) : bool := back "char" r || back "clob" r || back "text" r.
Definition reals (r : list Z) : bool := back "real" r || back "floa" r || back "doub" r.

Definition rules_back (r : list Z) : Z :=
  if back "int" r then SQLITE_AFF_INTEGER
  else if texts r then SQLITE_AFF_TEXT
  else if back "blob" r then SQLITE_AFF_BLOB
  else if reals r then SQLITE_AFF_REAL
  else SQLITE_AFF_NUMERIC.

Lemma affinity_rules_back s : affinity_rules s = rules_back (rev s).
Proof. unfold affinity_rules, rules_back, texts, reals, back. by rewrite !(occursb_rev _ s). Qed.

(** The text ends with one of the words. *)
Definition ends4 (w r : list Z) : bool := bool_decide (take 4 r = w).

Lemma back_cons w c r : back w (c :: r) = bool_decide (take (length (rev (word w))) (c :: r) = rev (word w)) || back w r.
Proof. done. Qed.

Lemma texts_cons c r : texts (c :: r) =
  ends4 [114; 97; 104; 99] (c :: r) || ends4 [98; 111; 108; 99] (c :: r) || ends4 [116; 120; 101; 116] (c :: r) || texts r.
Proof.
  unfold texts. rewrite !back_cons. unfold ends4. change (length (rev (word _))) with 4%nat.
  change (rev (word "char")) with [114; 97; 104; 99]. change (rev (word "clob")) with [98; 111; 108; 99].
  change (rev (word "text")) with [116; 120; 101; 116]. destruct (back "char" r), (back "clob" r), (back "text" r);
    rewrite ?orb_true_r, ?orb_false_r; done.
Qed.

Lemma reals_cons c r : reals (c :: r) =
  ends4 [108; 97; 101; 114] (c :: r) || ends4 [97; 111; 108; 102] (c :: r) || ends4 [98; 117; 111; 100] (c :: r) || reals r.
Proof.
  unfold reals. rewrite !back_cons. unfold ends4. change (length (rev (word _))) with 4%nat.
  change (rev (word "real")) with [108; 97; 101; 114]. change (rev (word "floa")) with [97; 111; 108; 102].
  change (rev (word "doub")) with [98; 117; 111; 100]. destruct (back "real" r), (back "floa" r), (back "doub" r);
    rewrite ?orb_true_r, ?orb_false_r; done.
Qed.

Lemma int_monotone s r : back "int" r = true -> rules_back (s ++ r) = SQLITE_AFF_INTEGER.
Proof.
  intros H. unfold rules_back. replace (back "int" (s ++ r)) with true; [done|]. symmetry. unfold back in *.
  apply occursb_spec in H as (a & b & ->). apply occursb_spec. exists (s ++ a), b. by rewrite app_assoc.
Qed.

Lemma lower_letter c : 0 < c < 256 -> 0 < UpperToLower (Z.land c 0xff) < 256 /\ UpperToLower (Z.land c 0xff) = UpperToLower c.
Proof.
  intros H. change 0xff with (Z.ones 8). rewrite Z.land_ones, Z.mod_small by lia. split; [|done].
  rewrite UpperToLower_spec by (split; lia). case_match; lia.
Qed.

Lemma affinity_loop_spec z : forall r zc, cstring z -> letters r -> back "int" r = false ->
  fst (affinity_loop z (last4 r) (rules_back r) zc) = rules_back (rev (UpperToLower <$> z) ++ r).
Proof.
  induction z as [|c z IH]; intros r zc Hz Hr Hi; [done|]. inversion_clear Hz as [|? ? Hc Hz'].
  destruct (lower_letter c Hc) as [Hl Hlc]. cbn [affinity_loop]. rewrite hash_step, Hlc in * by done.
  assert (letters (UpperToLower c :: r)) as Hr' by by constructor. set (r' := UpperToLower c :: r) in *.
  replace (rev (UpperToLower <$> c :: z) ++ r) with (rev (UpperToLower <$> z) ++ r') by (unfold r'; cbn; by rewrite <- app_assoc).
  assert (forall a, a = rules_back r' -> back "int" r' = false -> forall zc',
    fst (affinity_loop z (last4 r') a zc') = rules_back (rev (UpperToLower <$> z) ++ r')) as Hgo by (intros a -> ? ?; by apply IH).
  rewrite !last4_word, last4_int by (done || by repeat constructor).
  assert (rules_back r = if texts r then SQLITE_AFF_TEXT else if back "blob" r then SQLITE_AFF_BLOB else if reals r then SQLITE_AFF_REAL else SQLITE_AFF_NUMERIC) as Hrr
    by (unfold rules_back; by rewrite Hi).
  assert (back "int" r' = bool_decide (take 3 (take 4 r') = [116; 110; 105])) as Hint.
  { unfold r' at 1. rewrite back_cons, Hi, orb_false_r. change (length (rev (word "int"))) with 3%nat. by rewrite take_take. }
  assert (rules_back r' = if bool_decide (take 3 (take 4 r') = [116; 110; 105]) then SQLITE_AFF_INTEGER
    else if ends4 [114; 97; 104; 99] r' || ends4 [98; 111; 108; 99] r' || ends4 [116; 120; 101; 116] r' || texts r then SQLITE_AFF_TEXT
    else if ends4 [98; 111; 108; 98] r' || back "blob" r then SQLITE_AFF_BLOB
    else if ends4 [108; 97; 101; 114] r' || ends4 [97; 111; 108; 102] r' || ends4 [98; 117; 111; 100] r' || reals r then SQLITE_AFF_REAL
    else SQLITE_AFF_NUMERIC) as Hrr'.
  { unfold rules_back. rewrite Hint. unfold r'. by rewrite texts_cons, reals_cons, back_cons. }
  rewrite Hrr. unfold ends4 in Hrr'. revert Hgo Hrr' Hint. generalize (take 4 r') as t. intros t Hgo Hrr' Hint.
  assert (bool_decide (take 3 t = [116; 110; 105]) = true -> rules_back (rev (UpperToLower <$> z) ++ r') = SQLITE_AFF_INTEGER) as Hend
    by (intros E; apply int_monotone; by rewrite Hint).
  repeat (match goal with |- context [bool_decide (t = ?w)] => destruct (decide (t = w)) as [->|?];
    [|rewrite ?(bool_decide_false (t = w)) in * by done] end).
  all: destruct (texts r), (back "blob" r), (reals r); cbn in Hrr', Hint |- *;
    try (apply Hgo; [by rewrite Hrr'|done]).
  all: destruct (bool_decide (take 3 t = _)) eqn:E; [by rewrite Hend|apply Hgo; [by rewrite Hrr'|done]].
Qed.



Section Types.
Variables (Contains : list Z -> list Z -> bool) (Lower Trim : list Z -> list Z).

Definition TypeToLogicalType (sqlite_type : list Z) : LogicalTypeId :=
  if Contains sqlite_type (word "int") then BIGINT
  else if Contains sqlite_type (word "bool") then BIGINT
  else if Contains sqlite_type (word "char") || Contains sqlite_type (word "clob") || Contains sqlite_type (word "text") then VARCHAR
  else if Contains sqlite_type (word "blob") || bool_decide (sqlite_type = []) then BLOB
  else if Contains sqlite_type (word "real") || Contains sqlite_type (word "floa") || Contains sqlite_type (word "doub") then DOUBLE
  else if bool_decide (sqlite_type = word "date") then DATE
  else if Contains sqlite_type (word "time") then TIMESTAMP
  else if Contains sqlite_type (word "dec") || Contains sqlite_type (word "num") then DOUBLE
  else VARCHAR.

Definition HasTextAffinity (sqlite_type : list Z) : bool :=
  if Contains sqlite_type (word "int") then false
  else Contains sqlite_type (word "char") || Contains sqlite_type (word "clob") || Contains sqlite_type (word "text").

(** The type and the TEXT flag of a column in [SQLiteDB::GetTableInfo]. *)
Definition column_type (all_varchar utf8 : bool) (declared : list Z) : LogicalTypeId * bool :=
  let sqlite_type := Trim (Lower declared) in
  (if all_varchar then VARCHAR else TypeToLogicalType sqlite_type, utf8 && HasTextAffinity sqlite_type).

(** ** What DuckDB's string functions do *)

Definition is_space (c : Z) : Prop := c = 32 \/ 9 <= c <= 13.

Hypothesis contains_spec : forall s w, Contains s w = true <-> occurs w s.
Hypothesis lower_spec : forall s, Lower s = UpperToLower <$> s.
Hypothesis trim_spec : forall s, exists a b, s = a ++ Trim s ++ b /\ Forall is_space a /\ Forall is_space b.

Lemma contains_occursb s w : Contains s w = occursb w s.
Proof. apply eq_true_iff_eq. by rewrite contains_spec, occursb_spec. Qed.

Lemma occurs_skip w x s : ~ is_space (hd 0 w) -> w <> [] -> is_space x -> occurs w (x :: s) <-> occurs w s.
Proof.
  intros Hw Hne Hx. split; [|intros (a & b & ->); by exists (x :: a), b].
  intros ([|y a] & b & E); [|injection E as -> ->; by exists a, b]. destruct w as [|c w]; [done|]. by injection E as -> ->.
Qed.

Lemma occurs_skip_all w a s : ~ is_space (hd 0 w) -> w <> [] -> Forall is_space a -> occurs w (a ++ s) <-> occurs w s.
Proof. intros Hw Hne. induction 1 as [|x a Hx _ IH]; [done|]. cbn [app]. by rewrite occurs_skip, IH. Qed.

(** Trimming does not change which words occur. *)
Lemma occurs_trim w s : w <> [] -> ~ is_space (hd 0 w) -> ~ is_space (hd 0 (rev w)) -> occurs w (Trim s) <-> occurs w s.
Proof.
  intros Hne H1 H2. destruct (trim_spec s) as (a & b & E & Ha & Hb). rewrite E at 2. rewrite occurs_skip_all by done.
  rewrite <- (occurs_rev w (_ ++ b)), rev_app_distr, occurs_skip_all, occurs_rev; [done|done| |by apply Forall_rev].
  intros E2. apply (f_equal (@rev Z)) in E2. rewrite rev_involutive in E2. done.
Qed.

Lemma contains_trim w s : word w <> [] -> Forall (fun c => 97 <= c <= 122) (word w) ->
  Contains (Trim (Lower s)) (word w) = occursb (word w) (UpperToLower <$> s).
Proof.
  intros Hne Hw. apply eq_true_iff_eq. rewrite contains_spec, occursb_spec, occurs_trim, lower_spec; [done|done| |].
  - destruct (word w); [done|]. inversion_clear Hw. cbn. unfold is_space. lia.
  - apply Forall_rev in Hw. destruct (rev (word w)) as [|c l] eqn:E; [|inversion_clear Hw; cbn; unfold is_space; lia].
    apply (f_equal (@rev Z)) in E. rewrite rev_involutive in E. done.
Qed.

Lemma affinity_type_rules z : cstring z -> fst (sqlite3AffinityType z) = affinity_rules (UpperToLower <$> z).
Proof.
  intros Hz. unfold sqlite3AffinityType. pose proof (affinity_loop_spec z [] None Hz (Forall_nil_2 _) eq_refl) as H.
  change (last4 []) with 0 in H. change (rules_back []) with SQLITE_AFF_NUMERIC in H.
  destruct (affinity_loop z 0 SQLITE_AFF_NUMERIC None) as [aff zc]. cbn in *. rewrite H, affinity_rules_back, app_nil_r. done.
Qed.

(** The DuckDB types a column may be read as, by its affinity. *)
Definition read_as (aff : Z) (t : LogicalTypeId) : Prop :=
  if aff =? SQLITE_AFF_INTEGER then t = BIGINT
  else if aff =? SQLITE_AFF_TEXT then t = VARCHAR
  else if aff =? SQLITE_AFF_BLOB then t = BLOB
  else if aff =? SQLITE_AFF_REAL then t = DOUBLE
  else t = DATE \/ t = TIMESTAMP \/ t = DOUBLE \/ t = VARCHAR.

Lemma stored_types t : ToSQLiteType t ∈ [BIGINT; DOUBLE; BLOB; VARCHAR].
Proof. destruct t; by apply (bool_decide_unpack _). Qed.

(** C19. Declared types.  The affinity SQLite computes with its rolling hash is
    the one the documented substring rules give.  The extension derives the same:
    a column that is not blank and not declared as some boolean is read as the
    DuckDB type that belongs to its affinity, its TEXT flag is set exactly if
    SQLite gives it TEXT affinity (in a UTF-8 database), and a boolean is read as
    BIGINT.  Every type written to SQLite is one of the four it stores. *)
Theorem column_type_matches_affinity (z : list Z) (utf8 : bool) : cstring z -> Trim (Lower z) <> [] ->
  let low := UpperToLower <$> z in
  let t := fst (column_type false utf8 z) in
  fst (sqlite3AffinityType z) = affinity_rules low /\
  snd (column_type false utf8 z) = utf8 && (fst (sqlite3AffinityType z) =? SQLITE_AFF_TEXT) /\
  (occursb (word "bool") low = false -> read_as (fst (sqlite3AffinityType z)) t) /\
  (occursb (word "bool") low = true -> t = BIGINT) /\
  ToSQLiteType t ∈ [BIGINT; DOUBLE; BLOB; VARCHAR].
Proof.
  intros Hz Hne low. rewrite (affinity_type_rules z Hz). fold low. unfold column_type. cbn [fst snd]. unfold HasTextAffinity,
    TypeToLogicalType, affinity_rules, read_as.
  rewrite !contains_trim by (done || by apply (bool_decide_unpack _)). rewrite (bool_decide_false (Trim (Lower z) = [])) by done. fold low.
  split; [done|]. split; [|split; [|split; [|apply stored_types]]]; clear Hz Hne contains_spec lower_spec trim_spec.
  all: generalize (occursb (word "int") low) (occursb (word "bool") low)
    (occursb (word "char") low || occursb (word "clob") low || occursb (word "text") low) (occursb (word "blob") low)
    (occursb (word "real") low || occursb (word "floa") low || occursb (word "doub") low)
    (bool_decide (Trim (Lower z) = word "date")) (occursb (word "time") low) (occursb (word "dec") low || occursb (word "num") low).
  all: intros [] [] [] [] [] [] [] []; cbn; rewrite ?andb_true_r, ?andb_false_r; tauto || done.
Qed.

End Types.

(** ** An instance of the parameters *)

Definition spaceb (c : Z) : bool := (c =? 32) || (9 <=? c) && (c <=? 13).
Definition trim (s : list Z) : list Z := rev (skip_while spaceb (rev (skip_while spaceb s))).

Lemma skip_spaces s : exists a, s = a ++ skip_while spaceb s /\ Forall is_space a.
Proof.
  induction s as [|c s (a & E & Ha)]; [by exists []|]. cbn. destruct (spaceb c) eqn:H; [|by exists []].
  exists (c :: a). split; [by rewrite E at 1|]. constructor; [|done]. unfold spaceb, is_space in *. lia.
Qed.

Lemma trim_ok s : exists a b, s = a ++ trim s ++ b /\ Forall is_space a /\ Forall is_space b.
Proof.
  destruct (skip_spaces s) as (a & E & Ha). destruct (skip_spaces (rev (skip_while spaceb s))) as (b & E' & Hb).
  exists a, (rev b). split_and!; [|done|by apply Forall_rev]. rewrite E at 1. f_equal. unfold trim.
  apply (f_equal (@rev Z)) in E'. rewrite rev_involutive, rev_app_distr in E'. exact E'.
Qed.

(** A column declared as [ VarChar(20)]. *)
Definition demo_type : list Z := 32 :: word "VarChar(20)".

Lemma column_type_witness :
  sqlite3AffinityType demo_type = (SQLITE_AFF_TEXT, 6) /\
  column_type (fun s w => occursb w s) (fmap UpperToLower) trim false true demo_type = (VARCHAR, true) /\
  fst (sqlite3AffinityType demo_type) = affinity_rules (UpperToLower <$> demo_type).
Proof.
  split; [reflexivity|]. split; [reflexivity|].
  assert (cstring demo_type) as Hz by by apply (bool_decide_unpack _).
  assert (trim (UpperToLower <$> demo_type) <> []) as Hne by by apply (bool_decide_unpack _).
  exact (proj1 (column_type_matches_affinity (fun s w => occursb w s) (fmap UpperToLower) trim
    (fun s w => occursb_spec w s) (fun s => eq_refl) trim_ok demo_type true Hz Hne)).
Defined.
