(* ===== verification/SqlText.v ===== *)
(** * The SQL text the extension writes (sqlite_utils.cpp, and the statements of storage)

    Quoting of identifiers and the statements built from table and column names,
    with SQLite's tokenizer (Tokenize.v) as the reader: whatever a name contains,
    the statement has the tokens it is meant to have and the names are read back.
    DuckDB's [StringUtil::Replace] and [KeywordHelper::RequiresQuotes] are
    parameters. *)

From S2P Require Import Prelude Ctype TokenTables Tokenize Types.

Section SqlText.
Variables (Replace : list Z -> list Z -> list Z -> list Z) (RequiresQuotes : list Z -> bool -> bool).

(** ** Quoting *)

Definition SanitizeString (text : list Z) : list Z := Replace text [39] [39; 39].
Definition SanitizeIdentifier (text : list Z) : list Z := Replace text [34] [34; 34].
Definition EscapeQuotes (text : list Z) (quote : Z) : list Z := Replace text [quote] [quote; quote].

Fixpoint escape_loop (text : list Z) (quote : Z) : list Z :=
  match text with
  | [] => []
  | c :: text => (if c =? quote then [quote] else []) ++ c :: escape_loop text quote
  end.

Definition WriteQuotedAndEscaped (text : list Z) (quote : Z) : list Z := [quote] ++ escape_loop text quote ++ [quote].

Definition WriteOptionallyQuoted (text : list Z) (quote : Z) (allow_caps : bool) : list Z :=
  if negb (RequiresQuotes text allow_caps) && negb (sqlite3_keyword_check text) then text
  else WriteQuotedAndEscaped text quote.

(** With the default arguments. *)
Definition ident (text : list Z) : list Z := WriteOptionallyQuoted text 34 true.

(** ** Statements *)

Inductive CatalogType : Type := TABLE_ENTRY | VIEW_ENTRY | INDEX_ENTRY | OtherEntry.

Definition GetDropSQL (type : CatalogType) (table_name : list Z) : option (list Z) :=
  match type with
  | TABLE_ENTRY => Some (word "DROP " ++ word "TABLE " ++ ident table_name)
  | VIEW_ENTRY => Some (word "DROP " ++ word "VIEW " ++ ident table_name)
  | INDEX_ENTRY => Some (word "DROP " ++ word "INDEX " ++ ident table_name)
  | OtherEntry => None
  end.

Definition GetDeleteSQL (table_name rowid_name : list Z) : list Z :=
  word "DELETE FROM " ++ ident table_name ++ word " WHERE " ++ rowid_name ++ word " = ?".

(** A loop that writes the separator before every element but the first. *)
Fixpoint separated (first : bool) (l : list (list Z)) : list Z :=
  match l with
  | [] => []
  | x :: l => (if first then [] else word ", ") ++ x ++ separated false l
  end.

Definition GetInsertSQL (table_name : list Z) (columns : list (list Z)) : list Z :=
  word "INSERT INTO " ++ ident table_name ++ word " (" ++ separated true (ident <$> columns) ++ word ")" ++
  word " VALUES (" ++ separated true (replicate (length columns) (word "?")) ++ word ");".

Definition GetUpdateSQL (table_name : list Z) (columns : list (list Z)) (rowid_name : list Z) : list Z :=
  word "UPDATE " ++ ident table_name ++ word " SET " ++
  separated true ((fun c => ident c ++ word " = ?") <$> columns) ++ word " WHERE " ++ rowid_name ++ word " = ?".

Definition RenameTable (table_name new_table_name : list Z) : list Z :=
  word "ALTER TABLE " ++ ident table_name ++ word " RENAME TO " ++ ident new_table_name.

Definition RenameColumn (table_name old_name new_name : list Z) : list Z :=
  word "ALTER TABLE " ++ ident table_name ++ word " RENAME COLUMN  " ++ ident old_name ++ word " TO " ++ ident new_name.

Definition RemoveColumn (table_name removed_column : list Z) : list Z :=
  word "ALTER TABLE " ++ ident table_name ++ word " DROP COLUMN  " ++ ident removed_column.

(** The first name of the row id that no column hides. *)
Definition rowid_names : list (list Z) := [word "rowid"; word "_rowid_"; word "oid"].
Definition FindRowIdName (CIEquals : list Z -> list Z -> bool) (column_names : list (list Z)) : option (list Z) :=
  List.find (fun candidate => negb (existsb (fun c => CIEquals c candidate) column_names)) rowid_names.

(** ** Reading the text *)

(** A token that is not white space, an identifier without its quotes. *)
Inductive lexeme : Type := Tok (ty : Z) | Name (text : list Z).

Definition lexeme_of (t : Z * list Z) : lexeme :=
  if fst t =? TK_ID then Name (default [] (sqlite3Dequote (snd t))) else Tok (fst t).

Definition lex (z : list Z) : list lexeme :=
  lexeme_of <$> filter (fun t => fst t <> TK_SPACE) (tokenize (length z) z).

Lemma lex_step z n ty : cstring z -> z <> [] -> sqlite3GetToken z = (n, ty) ->
  lex z = (if ty =? TK_SPACE then [] else [lexeme_of (ty, take n z)]) ++ lex (drop n z).
Proof.
  intros Hz Hne E. unfold lex. destruct z as [|c z]; [done|]. cbn [length tokenize]. rewrite E.
  pose proof (gettoken_bounds (c :: z) Hz ltac:(done)) as Hb. unfold tok_ok in Hb. rewrite E in Hb. cbn [fst] in Hb.
  rewrite tokenize_fuel; [|by apply cstring_drop|rewrite length_drop; simpl in Hb |- *; lia].
  rewrite filter_cons. cbn [fst]. destruct (Z.eqb_spec ty TK_SPACE) as [->|Hn]; [by rewrite decide_False by tauto|].
  by rewrite decide_True.
Qed.

Lemma lex_app a rest ty : cstring (a ++ rest) -> a <> [] -> sqlite3GetToken (a ++ rest) = (length a, ty) ->
  lex (a ++ rest) = (if ty =? TK_SPACE then [] else [lexeme_of (ty, a)]) ++ lex rest.
Proof.
  intros Hz Hne E. rewrite (lex_step _ _ _ Hz ltac:(by destruct a) E). by rewrite take_app_length, drop_app_length.
Qed.

(** ** Identifiers *)

Definition id_start (c : Z) : Prop := 65 <= c <= 90 \/ 97 <= c <= 122 \/ c = 95.
Definition id_char (c : Z) : Prop := id_start c \/ 48 <= c <= 57.

(** What may follow a name: no character that would continue it. *)
Definition after_name (rest : list Z) : Prop := IdChar (hd 0 rest) = false /\ hd 0 rest <> 34 /\ hd 0 rest <> 39.

Definition plain_identifier (t : list Z) : Prop := exists c t', t = c :: t' /\ id_start c /\ Forall id_char t'.

Lemma escape_double text quote : escape_loop text quote = double quote text.
Proof. induction text as [|c t IH]; cbn; [done|]. rewrite IH. destruct (Z.eqb_spec c quote) as [->|]; done. Qed.

Lemma run_app P t rest : Forall (fun c => P c = true) t -> P (hd 0 rest) = false -> run P (t ++ rest) = length t.
Proof.
  intros Ht Hr. induction Ht as [|c t Hc _ IH]; cbn.
  - destruct rest as [|c rest]; [done|]. cbn in *. by rewrite Hr.
  - by rewrite Hc, IH.
Qed.

Lemma id_char_byte c : id_char c -> 0 < c < 256.
Proof. unfold id_char, id_start. lia. Qed.

Lemma IdChar_spec c : id_char c -> IdChar c = true.
Proof.
  intros H. pose proof (all_bytes_spec (fun c => negb (((65 <=? c) && (c <=? 90)) || ((97 <=? c) && (c <=? 122)) || (c =? 95) ||
    ((48 <=? c) && (c <=? 57))) || IdChar c) c ltac:(vm_compute; reflexivity)) as Hb.
  specialize (Hb ltac:(pose proof (id_char_byte c H); unfold is_u; lia)). unfold id_char, id_start in H. cbv beta in Hb. lia.
Qed.

(** The class of a letter or an underscore. *)
Lemma id_start_class c : id_start c -> table aiClass c = CC_KYWD0 \/ table aiClass c = CC_X \/ table aiClass c = CC_KYWD \/ table aiClass c = CC_ID.
Proof.
  intros H. pose proof (all_bytes_spec (fun c => negb (((65 <=? c) && (c <=? 90)) || ((97 <=? c) && (c <=? 122)) || (c =? 95)) ||
    (table aiClass c =? CC_KYWD0) || (table aiClass c =? CC_X) || (table aiClass c =? CC_KYWD) || (table aiClass c =? CC_ID)) c
    ltac:(vm_compute; reflexivity)) as Hb.
  specialize (Hb ltac:(unfold id_start in H; unfold is_u; lia)). unfold id_start in H. cbv beta in Hb. lia.
Qed.

Lemma in_keyword_id c : is_byte c -> in_keyword c = true -> IdChar c = true.
Proof.
  intros Hb H. pose proof (all_bytes_spec (fun c => negb (in_keyword c) || IdChar c) c ltac:(vm_compute; reflexivity) Hb) as Hb'.
  cbv beta in Hb'. by rewrite H in Hb'.
Qed.

Lemma keyword_match_app t rest k n : (n <= length t)%nat -> keyword_match (t ++ rest) k n = keyword_match t k n.
Proof.
  revert t k. induction n as [|n IH]; intros t k Hl; [done|]. destruct t as [|c t]; cbn in *; [lia|]. f_equal. apply IH. lia.
Qed.

Lemma keyword_chain_app fuel t rest n i : (n <= length t)%nat -> keyword_chain fuel (t ++ rest) n i = keyword_chain fuel t n i.
Proof.
  intros Hn. revert i. induction fuel as [|fuel IH]; intros i; [done|]. cbn [keyword_chain]. rewrite keyword_match_app by done.
  by rewrite IH.
Qed.

Lemma keyword_code_app t rest ty : keywordCode (t ++ rest) (length t) ty = keywordCode t (length t) ty.
Proof.
  unfold keywordCode, keyword_index. destruct (2 <=? length t)%nat eqn:E; [|done]. apply Nat.leb_le in E.
  unfold ch. rewrite !app_nth1 by lia. by rewrite keyword_chain_app.
Qed.

Lemma run_keyword_le t rest : Forall id_char t -> IdChar (hd 0 rest) = false -> cstring rest -> (run in_keyword (t ++ rest) <= length t)%nat.
Proof.
  intros Ht Hr Hc. induction Ht as [|c t _ _ IH]; cbn.
  - destruct Hc as [|c rest Hb _]; [done|]. cbn in *. destruct (in_keyword c) eqn:E; [|lia].
    rewrite in_keyword_id in Hr; [done|unfold is_u; lia|done].
  - destruct (in_keyword c); lia.
Qed.

(** The rest of an identifier ends with it. *)
Lemma id_token_app t rest i : Forall id_char (drop i t) -> (i <= length t)%nat -> IdChar (hd 0 rest) = false ->
  id_token (t ++ rest) i = (length t, TK_ID).
Proof.
  intros Ht Hi Hr. unfold id_token. rewrite drop_app_le, run_app, length_drop by (done || (eapply Forall_impl; [done|apply IdChar_spec])).
  f_equal. lia.
Qed.

Lemma keyword_token_app c t rest : Forall id_char (c :: t) -> sqlite3_keyword_check (c :: t) = false -> IdChar (hd 0 rest) = false ->
  cstring rest -> keyword_token ((c :: t) ++ rest) = (length (c :: t), TK_ID).
Proof.
  intros Ht Hk Hr Hc. inversion_clear Ht as [|? ? Hc0 Ht']. unfold keyword_token. change (drop 1 ((c :: t) ++ rest)) with (t ++ rest).
  pose proof (run_keyword_le t rest Ht' Hr Hc) as Hle. set (k := run in_keyword (t ++ rest)) in *. clearbody k.
  destruct (decide (k = length t)) as [->|Hne].
  - assert (ch ((c :: t) ++ rest) (1 + length t) = hd 0 rest) as ->.
    { unfold ch. cbn. rewrite app_nth2, Nat.sub_diag by lia. by destruct rest. }
    rewrite Hr. change (1 + length t)%nat with (length (c :: t)). rewrite keyword_code_app. f_equal.
    unfold sqlite3_keyword_check, sqlite3KeywordCode in Hk. lia.
  - assert (IdChar (ch ((c :: t) ++ rest) (1 + k)) = true) as ->.
    { unfold ch. cbn. rewrite app_nth1 by lia. apply IdChar_spec. rewrite List.Forall_forall in Ht'. apply Ht'. apply nth_In. lia. }
    apply id_token_app; [|cbn; lia|done]. by apply Forall_drop; constructor.
Qed.

Lemma plain_token t rest : plain_identifier t -> sqlite3_keyword_check t = false -> after_name rest -> cstring rest ->
  sqlite3GetToken (t ++ rest) = (length t, TK_ID).
Proof.
  intros (c & t' & -> & Hc & Ht) Hk (Hr & _ & H39) Hrest. assert (Forall id_char (c :: t')) as Hall by (constructor; [by left|done]).
  unfold sqlite3GetToken. change (ch ((c :: t') ++ rest) 0) with c.
  assert (ch ((c :: t') ++ rest) 1 <> 39) as H1.
  { unfold ch. destruct t' as [|x t']; cbn; [by destruct rest|]. inversion_clear Ht as [|? ? Hx _]. unfold id_char, id_start in Hx. lia. }
  destruct (id_start_class c Hc) as [-> | [-> | [-> | ->]]]; cbn [Z.eqb andb].
  - by apply keyword_token_app.
  - apply Z.eqb_neq in H1. rewrite H1. apply (id_token_app (c :: t') rest 1); [|cbn; lia|done]. by apply Forall_drop.
  - apply (id_token_app (c :: t') rest 1); [|cbn; lia|done]. by apply Forall_drop.
  - apply (id_token_app (c :: t') rest 1); [|cbn; lia|done]. by apply Forall_drop.
Qed.

(** ** What DuckDB's functions do *)

Hypothesis replace_spec : forall s q r, Replace s [q] r = flat_map (fun c => if c =? q then r else [c]) s.
Hypothesis requires_quotes_spec : forall t caps, RequiresQuotes t caps = false -> plain_identifier t.

Lemma sanitize_double s q : Replace s [q] [q; q] = double q s.
Proof. rewrite replace_spec. induction s as [|c s IH]; cbn; [done|]. rewrite IH. by destruct (c =? q). Qed.

Lemma plain_not_quoted t : plain_identifier t -> sqlite3Dequote t = Some t.
Proof.
  intros (c & t' & -> & Hc & _). cbn [sqlite3Dequote]. unfold id_start in Hc. rewrite isquote_spec by solve_width.
  by replace (_ || _) with false by lia.
Qed.

(** A name in a statement is read as one identifier, the name. *)
Lemma lex_ident name rest : cstring name -> cstring rest -> after_name rest -> cstring (ident name ++ rest) ->
  lex (ident name ++ rest) = Name name :: lex rest.
Proof.
  intros Hn Hrest Ha Hz. unfold ident, WriteOptionallyQuoted in *. destruct (negb (RequiresQuotes name true) && _) eqn:E.
  - apply andb_true_iff in E as [E1 E2]. apply negb_true_iff in E1, E2. pose proof (requires_quotes_spec _ _ E1) as Hp.
    rewrite (lex_app name rest TK_ID); [|done|by destruct Hp as (c & t' & -> & _)|by apply plain_token].
    unfold lexeme_of. cbn [fst snd]. by rewrite plain_not_quoted.
  - unfold WriteQuotedAndEscaped in *. rewrite escape_double in *. change ([34] ++ double 34 name ++ [34]) with (34 :: double 34 name ++ [34]) in *.
    destruct (quoted_token 34 name rest ltac:(by left) Hn ltac:(by destruct Ha as (_ & ? & _))) as [E1 E2].
    rewrite (lex_app (34 :: double 34 name ++ [34]) rest TK_ID); [|done|done|done].
    unfold lexeme_of. cbn [fst snd]. change (TK_ID =? TK_ID) with true. cbv iota. by rewrite E2.
Qed.
(** White space before a token; a vertical tab is white space only after other
    white space. *)
Lemma lex_space rest : cstring rest -> hd 0 rest <> 11 -> lex (32 :: rest) = lex rest.
Proof.
  intros Hr H11. assert (cstring (32 :: rest)) as Hz by by constructor.
  assert (forall z, sqlite3GetToken (32 :: z) = (S (run sqlite3Isspace z), TK_SPACE)) as Hs.
  { intros z. unfold sqlite3GetToken. change (ch (32 :: z) 0) with 32. change (table aiClass 32) with CC_SPACE.
    change (CC_SPACE =? CC_SPACE) with true. cbv iota. change (drop 1 (32 :: z)) with (drop 0 z). by rewrite drop_0. }
  rewrite (lex_step (32 :: rest) _ _ Hz ltac:(done) (Hs rest)). change (TK_SPACE =? TK_SPACE) with true. cbn [app drop].
  destruct rest as [|c rest]; [done|]. cbn [run]. destruct (sqlite3Isspace c) eqn:E; [|by rewrite drop_0].
  assert (sqlite3GetToken (c :: rest) = (S (run sqlite3Isspace rest), TK_SPACE)) as Hc.
  { unfold sqlite3GetToken. change (ch (c :: rest) 0) with c. inversion_clear Hr as [|? ? Hb _].
    pose proof (all_bytes_spec (fun c => negb (sqlite3Isspace c) || (c =? 11) || (table aiClass c =? CC_SPACE)) c
      ltac:(vm_compute; reflexivity) ltac:(solve_width)) as Hcl. cbv beta in Hcl. apply orb_prop in Hcl as [Hcl|Hcl].
    { apply orb_prop in Hcl as [Hcl|Hcl]; [by rewrite E in Hcl|]. cbn in H11. lia. }
    rewrite Hcl. change (drop 1 (c :: rest)) with (drop 0 rest). by rewrite drop_0. }
  rewrite (lex_step (c :: rest) _ _ Hr ltac:(done) Hc). done.
Qed.

Lemma cstring_ident name : cstring name -> cstring (ident name).
Proof.
  intros H. unfold ident, WriteOptionallyQuoted, WriteQuotedAndEscaped. destruct (_ && _); [done|]. rewrite escape_double.
  constructor; [lia|]. apply Forall_app_2; [|by repeat constructor; lia].
  induction H as [|c t Hc _ IH]; cbn; [constructor|]. destruct (c =? 34); repeat (constructor; [lia|]); exact IH.
Qed.

Lemma cstring_separated l : Forall cstring l -> forall first, cstring (separated first l).
Proof.
  induction 1 as [|x l Hx _ IH]; intros first; [constructor|]. cbn [separated]. apply Forall_app_2; [|apply Forall_app_2; [done|apply IH]].
  destruct first; [constructor|]. by apply (bool_decide_unpack _).
Qed.

(** ** Names in a list *)

Fixpoint with_commas (first : bool) (l : list (list lexeme)) : list lexeme :=
  match l with
  | [] => []
  | x :: l => (if first then [] else [Tok TK_COMMA]) ++ x ++ with_commas false l
  end.

(** Elements that are each read as they should, whatever follows them. *)
Lemma lex_separated (elem : list Z -> list Z) (expect : list Z -> list lexeme) (follow : list Z -> Prop) l :
  (forall c rest, cstring c -> cstring rest -> follow rest -> lex (elem c ++ rest) = expect c ++ lex rest) ->
  (forall c, cstring c -> cstring (elem c)) -> (forall c rest, hd 0 (elem c ++ rest) <> 11) -> (forall rest, follow (44 :: rest)) ->
  Forall cstring l -> forall first rest, cstring rest -> follow rest ->
  lex (separated first (elem <$> l) ++ rest) = with_commas first (expect <$> l) ++ lex rest.
Proof.
  intros He Hcs Hhd Hcomma Hl. induction Hl as [|c l Hc Hl IH]; intros first rest Hr Hf; [done|].
  assert (cstring (separated false (elem <$> l) ++ rest)) as Ht.
  { apply Forall_app_2; [|done]. apply cstring_separated, Forall_fmap. eapply Forall_impl; [done|exact Hcs]. }
  assert (follow (separated false (elem <$> l) ++ rest)) as Hft by (destruct l; [done|apply Hcomma]).
  assert (lex (elem c ++ separated false (elem <$> l) ++ rest) = expect c ++ with_commas false (expect <$> l) ++ lex rest) as Hgo
    by by rewrite (He c _ Hc Ht Hft), IH.
  rewrite !fmap_cons. cbn [separated with_commas]. rewrite <- !app_assoc. destruct first; [exact Hgo|].
  change (word ", ") with [44; 32]. cbn [app]. assert (cstring (elem c ++ separated false (elem <$> l) ++ rest)) as Hz
    by (apply Forall_app_2; [by apply Hcs|done]).
  rewrite (lex_step (44 :: 32 :: _) 1 TK_COMMA); [|by repeat constructor; try lia|done|reflexivity].
  change (drop 1 (44 :: 32 :: ?z)) with (32 :: z). cbn [drop]. rewrite lex_space, Hgo by done. done.
Qed.
Lemma ident_head name rest : hd 0 (ident name ++ rest) <> 11.
Proof.
  unfold ident, WriteOptionallyQuoted. destruct (negb (RequiresQuotes name true) && _) eqn:E; [|done].
  apply andb_true_iff in E as [E _]. apply negb_true_iff in E. destruct (requires_quotes_spec _ _ E) as (c & t & -> & Hc & _).
  cbn. unfold id_start in Hc. lia.
Qed.

Lemma cstring_app a b : cstring a -> cstring b -> cstring (a ++ b).
Proof. apply Forall_app_2. Qed.

Lemma cstring_cons c b : 0 < c < 256 -> cstring b -> cstring (c :: b).
Proof. by constructor. Qed.

(** Whether the text is a C string, and what may follow a name. *)
Ltac side :=
  repeat first
    [ assumption | apply ident_head | apply cstring_app | apply cstring_cons; [lia|] | apply cstring_ident | apply Forall_nil_2
    | apply cstring_separated, Forall_fmap; eapply Forall_impl; [eassumption|intros]
    | match goal with |- after_name _ => split; [vm_compute; reflexivity|split; cbn [hd]; lia] end
    | match goal with |- hd 0 (_ :: _) <> _ => cbn [hd]; lia end ].

(** The words of the statement as bytes. *)
Ltac words :=
  repeat match goal with |- context [word ?s] => let w := eval vm_compute in (word s) in change (word s) with w end;
  cbn [app].

(** The next token of the text. *)
Ltac lex1 :=
  match goal with
  | |- context [lex (ident ?n ++ ?r)] => rewrite (lex_ident n r) by side
  | |- context [lex (32 :: ?r)] => rewrite (lex_space r) by side
  | |- context [lex (?c :: ?z)] =>
      let r := eval vm_compute in (sqlite3GetToken (c :: z)) in
      match r with
      | (?n, ?t) =>
          rewrite (lex_step (c :: z) n t); [|side|done|vm_compute; reflexivity]; cbn [drop take]; rewrite ?drop_0;
          match goal with |- context [lexeme_of (t, ?x)] =>
            let l := eval vm_compute in (lexeme_of (t, x)) in change (lexeme_of (t, x)) with l end;
          change (t =? TK_SPACE) with false; cbn [app]
      end
  end.

Lemma drop_statement name : cstring name -> forall type,
  match GetDropSQL type name with
  | Some sql => lex sql = [Tok TK_DROP; Tok (match type with TABLE_ENTRY => TK_TABLE | VIEW_ENTRY => TK_VIEW | _ => TK_INDEX end); Name name]
  | None => type = OtherEntry
  end.
Proof. intros H [| | |]; cbn [GetDropSQL]; [| | |done]; rewrite <- (app_nil_r (ident name)); words; repeat lex1; done. Qed.

(** A parameter. *)
Lemma lex_variable rest : cstring rest -> sqlite3Isdigit (hd 0 rest) = false -> lex (63 :: rest) = Tok TK_VARIABLE :: lex rest.
Proof.
  intros Hr Hd. assert (sqlite3GetToken (63 :: rest) = (1%nat, TK_VARIABLE)) as E.
  { destruct rest as [|d rest]; [reflexivity|]. cbn [hd] in Hd. unfold sqlite3GetToken. change (ch (63 :: d :: rest) 0) with 63.
    change (table aiClass 63) with CC_VARNUM. cbn [drop]. rewrite ?drop_0. cbn [run]. rewrite Hd. reflexivity. }
  rewrite (lex_step (63 :: rest) 1 TK_VARIABLE); [|by constructor|done|done]. cbn [drop]. by rewrite drop_0.
Qed.

(** The end of UPDATE and DELETE. *)
Lemma where_row_id r : r ∈ rowid_names -> cstring (r ++ word " = ?") /\ hd 0 (r ++ word " = ?") <> 11 /\
  lex (r ++ word " = ?") = [Name r; Tok TK_EQ; Tok TK_VARIABLE].
Proof.
  intros Hr. apply list_elem_of_In in Hr. destruct Hr as [<-|[<-|[<-|[]]]]; (split; [by apply (bool_decide_unpack _)|split; [done|vm_compute; reflexivity]]).
Qed.

Lemma delete_statement name r : cstring name -> r ∈ rowid_names ->
  lex (GetDeleteSQL name r) = [Tok TK_DELETE; Tok TK_FROM; Name name; Tok TK_WHERE; Name r; Tok TK_EQ; Tok TK_VARIABLE].
Proof.
  intros H Hr. destruct (where_row_id r Hr) as (Hc & Hh & Hl). unfold GetDeleteSQL. revert Hc Hh Hl.
  generalize (r ++ word " = ?") as w. intros w Hc Hh Hl. words. repeat lex1. by rewrite Hl.
Qed.

Lemma rename_statements name a b : cstring name -> cstring a -> cstring b ->
  lex (RenameTable name a) = [Tok TK_ALTER; Tok TK_TABLE; Name name; Tok TK_RENAME; Tok TK_TO; Name a] /\
  lex (RenameColumn name a b) = [Tok TK_ALTER; Tok TK_TABLE; Name name; Tok TK_RENAME; Tok TK_COLUMNKW; Name a; Tok TK_TO; Name b] /\
  lex (RemoveColumn name a) = [Tok TK_ALTER; Tok TK_TABLE; Name name; Tok TK_DROP; Tok TK_COLUMNKW; Name a].
Proof.
  intros Hn Ha Hb. unfold RenameTable, RenameColumn, RemoveColumn. split_and!.
  - rewrite <- (app_nil_r (ident a)). words. repeat lex1. done.
  - rewrite <- (app_nil_r (ident b)). words. repeat lex1. done.
  - rewrite <- (app_nil_r (ident a)). words. repeat lex1. done.
Qed.

Lemma insert_statement name cols : cstring name -> Forall cstring cols ->
  lex (GetInsertSQL name cols) =
    [Tok TK_INSERT; Tok TK_INTO; Name name; Tok TK_LP] ++ with_commas true ((fun c => [Name c]) <$> cols) ++
    [Tok TK_RP; Tok TK_VALUES; Tok TK_LP] ++ with_commas true ((fun _ => [Tok TK_VARIABLE]) <$> cols) ++ [Tok TK_RP; Tok TK_SEMI].
Proof.
  intros Hn Hcols. unfold GetInsertSQL.
  set (vars := separated true (replicate (length cols) (word "?")) ++ word ");").
  assert (cstring vars /\ hd 0 vars <> 11 /\ lex vars = with_commas true ((fun _ => [Tok TK_VARIABLE]) <$> cols) ++ [Tok TK_RP; Tok TK_SEMI]) as (Hv & Hvh & Hvl).
  { unfold vars. replace (replicate (length cols) (word "?")) with ((fun _ : list Z => word "?") <$> cols) 
      by (clear; induction cols as [|c l IH]; [done|]; rewrite fmap_cons, IH; done).
    split; [|split].
    - apply cstring_app; [|by apply (bool_decide_unpack _)]. apply cstring_separated, Forall_fmap. eapply Forall_impl; [done|].
      intros. by apply (bool_decide_unpack _).
    - by destruct cols.
    - rewrite (lex_separated (fun _ => word "?") (fun _ => [Tok TK_VARIABLE]) (fun rest => sqlite3Isdigit (hd 0 rest) = false)); try done.
      + intros c rest _ Hr Hd. by apply lex_variable.
      + intros. by apply (bool_decide_unpack _).
      + by apply (bool_decide_unpack _). }
  words. repeat lex1.
  rewrite (lex_separated ident (fun c => [Name c]) after_name); [|by intros; apply lex_ident; side|exact cstring_ident|exact ident_head|done|done| |done].
  2: { side. }
  words. repeat lex1. rewrite Hvl. done.
Qed.

Lemma update_statement name cols r : cstring name -> Forall cstring cols -> r ∈ rowid_names ->
  lex (GetUpdateSQL name cols r) =
    [Tok TK_UPDATE; Name name; Tok TK_SET] ++ with_commas true ((fun c => [Name c; Tok TK_EQ; Tok TK_VARIABLE]) <$> cols) ++
    [Tok TK_WHERE; Name r; Tok TK_EQ; Tok TK_VARIABLE].
Proof.
  intros Hn Hcols Hr. destruct (where_row_id r Hr) as (Hc & Hh & Hl). unfold GetUpdateSQL. revert Hc Hh Hl.
  generalize (r ++ word " = ?") as w. intros w Hc Hh Hl. set (elem := fun c => ident c ++ word " = ?").
  assert (forall c, cstring c -> cstring (elem c)) as Hcs by (intros; apply cstring_app; [by apply cstring_ident|by apply (bool_decide_unpack _)]).
  assert (cstring (separated true (elem <$> cols) ++ word " WHERE " ++ w)) as Hz.
  { apply cstring_app; [|apply cstring_app; [by apply (bool_decide_unpack _)|done]]. apply cstring_separated, Forall_fmap.
    eapply Forall_impl; [done|exact Hcs]. }
  assert (forall c rest, hd 0 (elem c ++ rest) <> 11) as Hhd by (intros; unfold elem; rewrite <- app_assoc; apply ident_head).
  assert (hd 0 (separated true (elem <$> cols) ++ word " WHERE " ++ w) <> 11) as Hzh
    by (destruct cols; [done|]; rewrite fmap_cons; cbn [separated app]; rewrite <- app_assoc; apply Hhd).
  assert (lex (separated true (elem <$> cols) ++ word " WHERE " ++ w) =
    with_commas true ((fun c => [Name c; Tok TK_EQ; Tok TK_VARIABLE]) <$> cols) ++ [Tok TK_WHERE; Name r; Tok TK_EQ; Tok TK_VARIABLE]) as Hgo.
  { rewrite (lex_separated elem (fun c => [Name c; Tok TK_EQ; Tok TK_VARIABLE]) (fun rest => sqlite3Isdigit (hd 0 rest) = false)); try done.
    - f_equal. words. repeat lex1. by rewrite Hl.
    - intros c rest Hcc Hrest Hd. unfold elem. rewrite <- app_assoc. words. lex1. lex1. lex1. lex1. rewrite lex_variable by done. done.
    - apply cstring_app; [by apply (bool_decide_unpack _)|done]. }
  revert Hz Hzh Hgo. generalize (separated true (elem <$> cols) ++ word " WHERE " ++ w) as v. intros v Hz Hzh Hgo.
  words. repeat lex1. by rewrite Hgo.
Qed.


End SqlText.

(** ** An instance of the parameters *)

Definition replace_char (s needle r : list Z) : list Z := flat_map (fun c => if c =? hd 0 needle then r else [c]) s.

Definition requires_quotes (t : list Z) (caps : bool) : bool :=
  match t with
  | c :: t => negb ((97 <=? c) && (c <=? 122) && forallb (fun c => (97 <=? c) && (c <=? 122)) t)
  | [] => true
  end.

Lemma requires_quotes_ok t caps : requires_quotes t caps = false -> plain_identifier t.
Proof.
  destruct t as [|c t]; [done|]. cbn. intros H. apply negb_false_iff, andb_true_iff in H as [H1 H2].
  exists c, t. split; [done|]. split; [unfold id_start; lia|]. apply List.Forall_forall. intros x Hx.
  rewrite forallb_forall in H2. specialize (H2 x Hx). unfold id_char, id_start. lia.
Qed.

(** A table whose name holds a quote, a second statement and a comment. *)
Definition hostile : list Z := word "x" ++ [34] ++ word "; DROP TABLE y; --".

