(* ===== verification/FilterPushdown.v ===== *)
(** * Filters of a scan (sqlite_filter_pushdown.cpp)

    Which filters become part of the statement and which are evaluated in DuckDB
    after it.  [TransformFilterExpression] and [IsInternalExpression] belong to
    another repository and are parameters, like DuckDB's [Join]; the expression
    classes are those the code tests for. *)

From S2P Require Import Prelude Types SqlText.

(** ** Expressions *)

(** The classes of a bound expression the code distinguishes.  A function may be
    an optional filter; [bind_info] is then the filter it wraps, which may be a
    null pointer. *)
Inductive Expression : Type :=
| BoundConstant (is_varchar is_null : bool) (text : list Z)
| BoundConjunctionAnd (children : list Expression)
| BoundFunction (is_optional_filter : bool) (bind_info : option (option Expression)) (children : list Expression)
| OtherExpression (tag : Z) (children : list Expression).

Fixpoint HasNulByteConstant (expr : Expression) : bool :=
  match expr with
  | BoundConstant is_varchar is_null text => is_varchar && negb is_null && existsb (Z.eqb 0) text
  | BoundConjunctionAnd children => existsb HasNulByteConstant children
  | BoundFunction true (Some child) children =>
      match child with Some child => HasNulByteConstant child | None => false end
  | BoundFunction _ _ children => existsb HasNulByteConstant children
  | OtherExpression _ children => existsb HasNulByteConstant children
  end.

(** What the scan knows about the table. *)
Record SqliteBindData : Type := mk_bind_data {
  names : list (list Z);
  types : list LogicalTypeId;
  rowid_name : list Z;
  all_varchar : bool;
  utf8_text_affinity : list bool
}.

(** A column id; [None] is COLUMN_IDENTIFIER_ROW_ID. *)
Abbreviation column_t := (option nat).

Definition CanPushColumn (bd : SqliteBindData) (column_id : column_t) : bool :=
  match column_id with
  | None => negb (bool_decide (rowid_name bd = []))
  | Some i =>
      if all_varchar bd || (length (types bd) <=? i)%nat || (length (utf8_text_affinity bd) <=? i)%nat then false
      else
        match nth i (types bd) VARCHAR with
        | BIGINT => true
        | VARCHAR => nth i (utf8_text_affinity bd) false
        | _ => false
        end
  end.

(** A filter of the scan: the position of its column in the scanned columns. *)
Record TableFilter : Type := mk_filter { column_index : nat; filter_expr : Expression }.

Section Filters.
Variables (TransformFilterExpression : list Z -> Expression -> list Z) (IsInternalExpression : Expression -> bool)
  (Replace : list Z -> list Z -> list Z -> list Z) (Join : list (list Z) -> list Z -> list Z).

(** The conditions of a filter SQLite can evaluate are appended; the result is
    false if part of the filter has to be evaluated in DuckDB. *)
Fixpoint TransformFilter (column_name : list Z) (expr : Expression) (conditions : list (list Z)) : bool * list (list Z) :=
  match expr with
  | BoundConjunctionAnd children =>
      (fix loop (children : list Expression) (complete : bool) (conditions : list (list Z)) :=
        match children with
        | [] => (complete, conditions)
        | child :: children =>
            let '(c, conditions) := TransformFilter column_name child conditions in
            loop children (c && complete) conditions
        end) children true conditions
  | _ =>
      let condition := if HasNulByteConstant expr then [] else TransformFilterExpression column_name expr in
      match condition with
      | [] => (IsInternalExpression expr, conditions)
      | _ => (true, conditions ++ [condition])
      end
  end.

Definition pushed_name (bd : SqliteBindData) (column_id : column_t) : list Z :=
  match column_id with
  | None => rowid_name bd
  | Some i =>
      [34] ++ SanitizeIdentifier Replace (nth i (names bd) []) ++ [34] ++
      (if bool_decide (nth i (types bd) VARCHAR = VARCHAR) then word " COLLATE BINARY" else [])
  end.

Definition TransformFilters (bd : SqliteBindData) (column_ids : list column_t) (filters : list TableFilter)
    : list Z * list TableFilter :=
  match filters with
  | [] => ([], [])
  | _ =>
      let '(conditions, scan_filters) :=
        fold_left (fun acc entry =>
          let '(conditions, scan_filters) := acc in
          let column_id := nth (column_index entry) column_ids None in
          let '(complete, conditions) :=
            if CanPushColumn bd column_id then TransformFilter (pushed_name bd column_id) (filter_expr entry) conditions
            else (false, conditions) in
          (conditions, if complete then scan_filters else scan_filters ++ [entry])) filters ([], []) in
      (Join conditions (word " AND "), scan_filters)
  end.

(** ** What the conditions mean *)

Context {Row Val : Type}.
Variables (column : column_t -> Row -> Val) (holds : Expression -> Val -> bool) (sql : list Z -> Row -> bool).

(** A conjunction holds if its parts do; an empty condition is no condition; the
    conditions are joined to one that holds if they all do. *)
Hypothesis holds_and : forall l v, holds (BoundConjunctionAnd l) v = forallb (fun e => holds e v) l.
Hypothesis sql_empty : forall r, sql [] r = true.
Hypothesis sql_join : forall l r, sql (Join l (word " AND ")) r = forallb (fun c => sql c r) l.

(** The text written for an expression without NUL bytes on a column that SQLite
    compares as DuckDB does means the same as the expression. *)
Hypothesis transform_sound : forall bd column_id e r,
  CanPushColumn bd column_id = true -> HasNulByteConstant e = false -> TransformFilterExpression (pushed_name bd column_id) e <> [] ->
  sql (TransformFilterExpression (pushed_name bd column_id) e) r = holds e (column column_id r).

(** What a filter requires when the parts that only prune rows are left out. *)
Fixpoint required (e : Expression) (v : Val) : bool :=
  match e with
  | BoundConjunctionAnd l => forallb (fun e => required e v) l
  | _ => IsInternalExpression e || holds e v
  end.

Fixpoint Expression_nested_ind (P : Expression -> Prop)
    (Hand : forall l, Forall P l -> P (BoundConjunctionAnd l))
    (Hrest : forall e, (forall l, e <> BoundConjunctionAnd l) -> P e) (e : Expression) : P e :=
  match e with
  | BoundConjunctionAnd l =>
      Hand l ((fix go l : Forall P l :=
        match l with [] => Forall_nil_2 P | e :: l => Forall_cons_2 P e l (Expression_nested_ind P Hand Hrest e) (go l) end) l)
  | BoundConstant a b c => Hrest (BoundConstant a b c) (fun l H => ltac:(discriminate H))
  | BoundFunction a b c => Hrest (BoundFunction a b c) (fun l H => ltac:(discriminate H))
  | OtherExpression a b => Hrest (OtherExpression a b) (fun l H => ltac:(discriminate H))
  end.

(** The conditions written for a filter hold for every row it keeps; and if it was
    written completely they imply what it requires. *)
Definition written (bd : SqliteBindData) (column_id : column_t) (e : Expression) : Prop :=
  forall conditions, exists complete new,
    TransformFilter (pushed_name bd column_id) e conditions = (complete, conditions ++ new) /\
    forall r, (holds e (column column_id r) = true -> forallb (fun c => sql c r) new = true) /\
      (complete = true -> forallb (fun c => sql c r) new = true -> required e (column column_id r) = true).

Lemma written_leaf bd column_id e : CanPushColumn bd column_id = true -> (forall l, e <> BoundConjunctionAnd l) -> written bd column_id e.
Proof.
  intros Hp He conditions. set (cond := if HasNulByteConstant e then [] else TransformFilterExpression (pushed_name bd column_id) e).
  assert (forall v, required e v = IsInternalExpression e || holds e v) as Hreq by (intros v; destruct e; try done; by destruct (He children)).
  assert (TransformFilter (pushed_name bd column_id) e conditions =
    match cond with [] => (IsInternalExpression e, conditions) | _ => (true, conditions ++ [cond]) end) as ->
    by (destruct e; try done; by destruct (He children)).
  destruct cond as [|x cond'] eqn:E.
  - exists (IsInternalExpression e), []. rewrite app_nil_r. split; [done|]. intros r. split; [done|]. intros Hi _. by rewrite Hreq, Hi.
  - exists true, [x :: cond']. split; [done|]. intros r. unfold cond in E. destruct (HasNulByteConstant e) eqn:Hn; [done|].
    pose proof (transform_sound bd column_id e r Hp Hn ltac:(by rewrite E)) as Hs. rewrite E in Hs. cbn. rewrite Hs, andb_true_r.
    split; [done|]. intros _ H. by rewrite Hreq, H, orb_true_r.
Qed.

Lemma written_all bd column_id e : CanPushColumn bd column_id = true -> written bd column_id e.
Proof.
  intros Hp. induction e as [l IH|e He] using Expression_nested_ind; [|by apply written_leaf].
  intros conditions. cbn [TransformFilter].
  assert (forall done conditions, exists complete new,
    (fix loop (children : list Expression) (complete : bool) (conditions : list (list Z)) :=
        match children with
        | [] => (complete, conditions)
        | child :: children =>
            let '(c, conditions) := TransformFilter (pushed_name bd column_id) child conditions in
            loop children (c && complete) conditions
        end) l done conditions = (complete, conditions ++ new) /\ (complete = true -> done = true) /\
    forall r, (forallb (fun e => holds e (column column_id r)) l = true -> forallb (fun c => sql c r) new = true) /\
      (complete = true -> forallb (fun c => sql c r) new = true -> forallb (fun e => required e (column column_id r)) l = true)) as Hloop.
  { clear conditions. induction IH as [|e l He _ IHl]; intros d conditions; [exists d, []; rewrite app_nil_r; by split_and!|].
    destruct (He conditions) as (c & new & -> & Hnew). destruct (IHl (c && d) (conditions ++ new)) as (c' & new' & -> & Hd & Hnew').
    exists c', (new ++ new'). rewrite app_assoc. split; [done|]. split; [intros H; by apply andb_true_iff in Hd as []; [|done]|].
    intros r. destruct (Hnew r) as [H1 H2], (Hnew' r) as [H3 H4]. rewrite forallb_app. cbn. split.
    - intros [Ha Hb]%andb_true_iff. by rewrite H1, H3.
    - intros Hc [Ha Hb]%andb_true_iff. apply andb_true_iff in Hd as [-> _]; [|done]. by rewrite H2, H4. }
  destruct (Hloop true conditions) as (c & new & -> & _ & Hnew). exists c, new. split; [done|]. intros r. rewrite holds_and. exact (Hnew r).
Qed.

(** The filters one after the other. *)
Definition value (column_ids : list column_t) (f : TableFilter) (r : Row) : Val := column (nth (column_index f) column_ids None) r.

Lemma holds_required e v : holds e v = true -> required e v = true.
Proof.
  induction e as [l IH|e He] using Expression_nested_ind.
  - rewrite holds_and. cbn. induction IH as [|e l H _ IHl]; [done|]. cbn. rewrite !andb_true_iff. tauto.
  - intros H. destruct e; cbn; rewrite ?H, ?orb_true_r; try done. by destruct (He children).
Qed.

Definition keeps (column_ids : list column_t) (r : Row) (f : TableFilter) : bool := holds (filter_expr f) (value column_ids f r).

(** The body of the loop of [TransformFilters]. *)
Definition filter_step (bd : SqliteBindData) (column_ids : list column_t) (acc : list (list Z) * list TableFilter) (entry : TableFilter)
    : list (list Z) * list TableFilter :=
  let '(conditions, scan_filters) := acc in
  let column_id := nth (column_index entry) column_ids None in
  let '(complete, conditions) :=
    if CanPushColumn bd column_id then TransformFilter (pushed_name bd column_id) (filter_expr entry) conditions
    else (false, conditions) in
  (conditions, if complete then scan_filters else scan_filters ++ [entry]).

Lemma filter_step_ok bd column_ids cs sf f : exists new rest,
  filter_step bd column_ids (cs, sf) f = (cs ++ new, sf ++ rest) /\
  forall r, (keeps column_ids r f = true -> forallb (fun c => sql c r) new && forallb (keeps column_ids r) rest = true) /\
    (forallb (fun c => sql c r) new && forallb (keeps column_ids r) rest = true -> required (filter_expr f) (value column_ids f r) = true).
Proof.
  unfold filter_step, keeps, value. set (id := nth (column_index f) column_ids None).
  assert (exists complete new, (if CanPushColumn bd id then TransformFilter (pushed_name bd id) (filter_expr f) cs else (false, cs)) =
    (complete, cs ++ new) /\ forall r, (holds (filter_expr f) (column id r) = true -> forallb (fun c => sql c r) new = true) /\
      (complete = true -> forallb (fun c => sql c r) new = true -> required (filter_expr f) (column id r) = true))
    as (complete & new & -> & Hnew).
  { destruct (CanPushColumn bd id) eqn:Hp; [apply (written_all bd id _ Hp)|]. exists false, []. rewrite app_nil_r. by split_and!. }
  destruct complete.
  - exists new, []. rewrite app_nil_r. split; [done|]. intros r. destruct (Hnew r) as [H1 H2]. cbn. rewrite andb_true_r. auto.
  - exists new, [f]. split; [done|]. intros r. destruct (Hnew r) as [H1 H2]. cbn. fold id. rewrite andb_true_r.
    split; [intros H; by rewrite (H1 H), H|]. intros [_ H]%andb_true_iff. by apply holds_required.
Qed.

Lemma filter_steps_ok bd column_ids filters : forall cs sf, exists new rest,
  fold_left (filter_step bd column_ids) filters (cs, sf) = (cs ++ new, sf ++ rest) /\
  forall r, (forallb (keeps column_ids r) filters = true -> forallb (fun c => sql c r) new && forallb (keeps column_ids r) rest = true) /\
    (forallb (fun c => sql c r) new && forallb (keeps column_ids r) rest = true ->
     forallb (fun f => required (filter_expr f) (value column_ids f r)) filters = true).
Proof.
  induction filters as [|f filters IH]; intros cs sf; [exists [], []; rewrite !app_nil_r; by split|]. cbn [fold_left].
  destruct (filter_step_ok bd column_ids cs sf f) as (n1 & r1 & -> & H1). destruct (IH (cs ++ n1) (sf ++ r1)) as (n2 & r2 & -> & H2).
  exists (n1 ++ n2), (r1 ++ r2). rewrite !app_assoc. split; [done|]. intros r. destruct (H1 r) as [H3 H4], (H2 r) as [H5 H6].
  rewrite !forallb_app. cbn. rewrite !andb_true_iff in *. tauto.
Qed.


End Filters.

(** ** An instance: comparisons of a column with a digit *)

(** [OtherExpression k []] is "the column is [k]"; a digit can be written. *)
Definition demo_text (name : list Z) (e : Expression) : list Z :=
  match e with OtherExpression k [] => if (0 <=? k) && (k <=? 9) then [k] else [] | _ => [] end.
Fixpoint demo_holds (e : Expression) (v : Z) : bool :=
  match e with
  | BoundConjunctionAnd l => forallb (fun e => demo_holds e v) l
  | OtherExpression k [] => v =? k
  | _ => true
  end.
Definition demo_sql (text : list Z) (r : Z) : bool := forallb (Z.eqb r) text.

Definition demo_data : SqliteBindData := mk_bind_data [word "a"] [BIGINT] (word "rowid") false [false].

Lemma demo_join l r : demo_sql (concat l) r = forallb (fun c => demo_sql c r) l.
Proof. induction l as [|c l IH]; cbn; [done|]. unfold demo_sql in *. by rewrite forallb_app, IH. Qed.

Lemma demo_sound bd (column_id : column_t) e (r : Z) : CanPushColumn bd column_id = true -> HasNulByteConstant e = false ->
  demo_text (pushed_name (fun s _ _ => s) bd column_id) e <> [] ->
  demo_sql (demo_text (pushed_name (fun s _ _ => s) bd column_id) e) r = demo_holds e r.
Proof.
  intros _ _. destruct e as [| | |k [|]]; try done. cbn. destruct (_ && _); [|done]. intros _. cbn. by rewrite andb_true_r.
Qed.

