(* ===== verification/Record.v ===== *)
(** * The record format (vdbe.c and vdbeaux.c of the engine)

    Rows and index keys are stored as records: a header (its own size and one
    serial type per field, as varints) followed by the contents of the fields.
    [OP_MakeRecord] builds a record in two passes, [sqlite3VdbeRecordUnpack]
    reads one.  The file transcribes both with the helpers they call
    ([sqlite3VdbeSerialPut], [sqlite3VdbeSerialGet], [serialGet],
    [sqlite3VdbeSerialTypeLen], [sqlite3VdbeMemExpandBlob]) and proves that
    reading inverts writing.

    A pointer into a buffer is an offset; the buffer is the memory [mem] of
    [Varint].  The allocator is an oracle that says whether a request of a
    given size succeeds.  The affinity string of [OP_MakeRecord] is not part of
    the model: the fields are the registers after that pass. *)

From S2P Require Import Prelude Bits Varint.
Import Writer Reader Spec.

Local Open Scope c_scope.

(** ** Values

    The combinations of [Mem.flags] a register of a record can have, with the
    field of the union that the flag selects.  A double is its 64-bit pattern;
    a blob may have a tail of zeros that is not stored ([MEM_Zero]). *)
Inductive Mem : Type :=
| MEM_Null (MEM_Zero : bool)
| MEM_Int (i : Z)
| MEM_IntReal (i : Z)
| MEM_Real (r : Z)
| MEM_Str (z : list Z)
| MEM_Blob (z : list Z) (nZero : option Z).

#[export] Instance Mem_eq_dec : EqDecision Mem.
Proof. solve_decision. Defined.

(** The members [u.i], [u.r] and [z] as a function that does not look at the
    flags reads them. *)
Definition u_i (m : Mem) : Z := match m with MEM_Int i | MEM_IntReal i => i | _ => 0 end.
Definition u_r (m : Mem) : Z := match m with MEM_Real r => r | _ => 0 end.
Definition z_of (m : Mem) : list Z := match m with MEM_Str z | MEM_Blob z _ => z | _ => [] end.

Definition EXP754 : Z := 0x7ff << 52.
Definition MAN754 : Z := (1 << 52) - 1.
Definition IsNaN (x : Z) : bool := (x & EXP754 =? EXP754) && negb (x & MAN754 =? 0).

(** The C conversion [(double)i] of a 64-bit integer, as a bit pattern: round
    to nearest, ties to even.  A carry out of the mantissa moves into the
    exponent by the addition. *)
Definition double_of_int (i : Z) : Z :=
  if i =? 0 then 0 else
  let m := Z.abs i in
  let e := Z.log2 m in
  let mant :=
    if e <=? 52 then m << (52 - e) else
    let sh := e - 52 in
    let q := m / 2 ^ sh in
    let r := m mod 2 ^ sh in
    let half := 2 ^ (sh - 1) in
    if (half <? r) || ((half =? r) && Z.odd q) then q + 1 else q in
  (if i <? 0 then 2 ^ 63 else 0) + (e + 1023) * 2 ^ 52 + (mant - 2 ^ 52).

(** ** Serial types *)

Definition sqlite3SmallTypeSizes : list Z :=
  [ 0;  1;  2;  3;  4;  6;  8;  8;  0;  0;
    0;  0;  0;  0;  1;  1;  2;  2;  3;  3;
    4;  4;  5;  5;  6;  6;  7;  7;  8;  8;
    9;  9; 10; 10; 11; 11; 12; 12; 13; 13;
   14; 14; 15; 15; 16; 16; 17; 17; 18; 18;
   19; 19; 20; 20; 21; 21; 22; 22; 23; 23;
   24; 24; 25; 25; 26; 26; 27; 27; 28; 28;
   29; 29; 30; 30; 31; 31; 32; 32; 33; 33;
   34; 34; 35; 35; 36; 36; 37; 37; 38; 38;
   39; 39; 40; 40; 41; 41; 42; 42; 43; 43;
   44; 44; 45; 45; 46; 46; 47; 47; 48; 48;
   49; 49; 50; 50; 51; 51; 52; 52; 53; 53;
   54; 54; 55; 55; 56; 56; 57; 57].

Definition sqlite3VdbeSerialTypeLen (serial_type : Z) : Z :=
  if 128 <=? serial_type then (serial_type - 12) / 2
  else nth (Z.to_nat serial_type) sqlite3SmallTypeSizes 0.

(** The loop [do{ buf[--i] = (u8)(v&0xFF); v >>= 8; }while( i )]. *)
Fixpoint put_be (i : nat) (v : Z) (buf : list Z) : list Z :=
  match i with
  | O => buf
  | S i => put_be i (v >> 8) (u8 (v & 0xff) :: buf)
  end.

(** The bytes stored at [buf]; the C function returns their number. *)
Definition sqlite3VdbeSerialPut (pMem : Mem) (serial_type : Z) : list Z :=
  if (serial_type <=? 7) && (0 <? serial_type) then
    let v := if serial_type =? 7 then u_r pMem else u64 (u_i pMem) in
    put_be (Z.to_nat (nth (Z.to_nat serial_type) sqlite3SmallTypeSizes 0)) v []
  else if 12 <=? serial_type then z_of pMem
  else [].

Definition i8 (x : Z) : Z := wraps 8 x.
Definition at_ (x : mem) (k : nat) : mem := fun j => x (k + j)%nat.

Definition ONE_BYTE_INT (x : mem) : Z := i8 (x 0%nat).
Definition TWO_BYTE_INT (x : mem) : Z := 256 * i8 (x 0%nat) ||| x 1%nat.
Definition THREE_BYTE_INT (x : mem) : Z :=
  65536 * i8 (x 0%nat) ||| (x 1%nat << 8) ||| x 2%nat.
Definition FOUR_BYTE_UINT (x : mem) : Z :=
  u32 (x 0%nat << 24) ||| (x 1%nat << 16) ||| (x 2%nat << 8) ||| x 3%nat.
Definition FOUR_BYTE_INT (x : mem) : Z :=
  16777216 * i8 (x 0%nat) ||| (x 1%nat << 16) ||| (x 2%nat << 8) ||| x 3%nat.

Definition serialGet (buf : mem) (serial_type : Z) : Mem :=
  let x := FOUR_BYTE_UINT buf in
  let y := FOUR_BYTE_UINT (at_ buf 4) in
  let x := u64 (u64 (x << 32) + y) in
  if serial_type =? 6 then MEM_Int (i64 x)
  else if IsNaN x then MEM_Null false else MEM_Real x.

(** The [n] bytes at a pointer. *)
Definition bytes_at (buf : mem) (n : Z) : list Z := map buf (seq 0 (Z.to_nat n)).

(** A string or blob is left in the record and the register points into it;
    its value is the bytes there. *)
Definition sqlite3VdbeSerialGet (buf : mem) (serial_type : Z) : Mem :=
  match serial_type with
  | 10 => MEM_Null true
  | 11 | 0 => MEM_Null false
  | 1 => MEM_Int (ONE_BYTE_INT buf)
  | 2 => MEM_Int (TWO_BYTE_INT buf)
  | 3 => MEM_Int (THREE_BYTE_INT buf)
  | 4 => MEM_Int (FOUR_BYTE_INT buf)
  | 5 => MEM_Int (i64 (FOUR_BYTE_UINT (at_ buf 2) + (1 << 32) * TWO_BYTE_INT buf))
  | 6 | 7 => serialGet buf serial_type
  | 8 | 9 => MEM_Int (serial_type - 8)
  | _ =>
      let n := (serial_type - 12) / 2 in
      if serial_type & 1 =? 0 then MEM_Blob (bytes_at buf n) None
      else MEM_Str (bytes_at buf n)
  end.

(** The macro [putVarint32]. *)
Definition putVarint32 (b : Z) : list Z :=
  if u32 b <? 0x80 then [u8 b] else sqlite3PutVarint b.

(** ** Writing a record *)

Inductive mk_error : Type := no_mem | too_big.

#[export] Instance mk_error_eq_dec : EqDecision mk_error.
Proof. solve_decision. Defined.

Section Make.

(** Whether the allocator grants a request of the given size. *)
Context (alloc : Z -> bool).

Definition sqlite3VdbeMemExpandBlob (z : list Z) (nZero : Z) : res mk_error Mem :=
  let nByte := Z.of_nat (length z) + nZero in
  let nByte := if nByte <=? 0 then 1 else nByte in
  if alloc nByte then Ok (MEM_Blob (z ++ repeat 0 (Z.to_nat nZero)) None) else Throw no_mem.

(** The serial type of an integer and the bytes of data it takes. *)
Definition int_serial (file_format i : Z) : Z * Z :=
  let uu := if i <? 0 then u64 (Z.lnot i) else u64 i in
  if uu <=? 127 then
    if (i & 1 =? i) && (4 <=? file_format) then (8 + u32 uu, 0) else (1, 1)
  else if uu <=? 32767 then (2, 2)
  else if uu <=? 8388607 then (3, 3)
  else if uu <=? 2147483647 then (4, 4)
  else if uu <=? 140737488355327 then (5, 6)
  else (6, 8).

Record sizes : Type := Sizes { nHdr : Z; nData : Z; nZero : Z }.

(** One round of the loop that sizes the record: the register (which may be
    changed), its [uTemp], and the totals. *)
Definition size_field (file_format : Z) (pRec : Mem) (s : sizes)
  : res mk_error (Mem * Z * sizes) :=
  match pRec with
  | MEM_Null true => Ok (pRec, 10, Sizes (nHdr s + 1) (nData s) (nZero s))
  | MEM_Null false => Ok (pRec, 0, Sizes (nHdr s + 1) (nData s) (nZero s))
  | MEM_Int i =>
      let '(t, n) := int_serial file_format i in
      Ok (pRec, t, Sizes (nHdr s + 1) (u64 (nData s + n)) (nZero s))
  | MEM_IntReal i =>
      let '(t, n) := int_serial file_format i in
      let '(pRec, t) := if t =? 6 then (MEM_Real (double_of_int i), 7) else (pRec, t) in
      Ok (pRec, t, Sizes (nHdr s + 1) (u64 (nData s + n)) (nZero s))
  | MEM_Real _ => Ok (pRec, 7, Sizes (nHdr s + 1) (u64 (nData s + 8)) (nZero s))
  | MEM_Str z =>
      let len := u32 (Z.of_nat (length z)) in
      let serial_type := u32 (len * 2 + 12 + 1) in
      Ok (pRec, serial_type,
          Sizes (nHdr s + sqlite3VarintLen serial_type) (u64 (nData s + len)) (nZero s))
  | MEM_Blob z zt =>
      let len := u32 (Z.of_nat (length z)) in
      let serial_type := u32 (len * 2 + 12 + 0) in
      match zt with
      | None =>
          Ok (pRec, serial_type,
              Sizes (nHdr s + sqlite3VarintLen serial_type) (u64 (nData s + len)) (nZero s))
      | Some k =>
          let serial_type := u32 (serial_type + k * 2) in
          if negb (nData s =? 0) then
            pRec ← sqlite3VdbeMemExpandBlob z k;
            let len := u32 (len + k) in
            Ok (pRec, serial_type,
                Sizes (nHdr s + sqlite3VarintLen serial_type) (u64 (nData s + len)) (nZero s))
          else
            Ok (pRec, serial_type,
                Sizes (nHdr s + sqlite3VarintLen serial_type) (u64 (nData s + len)) (nZero s + k))
      end
  end.

(** The loop runs from the last field to the first; [done_] are the fields
    behind it, in order. *)
Fixpoint size_loop (file_format : Z) (todo : list Mem) (done_ : list (Mem * Z)) (s : sizes)
  : res mk_error (list (Mem * Z) * sizes) :=
  match todo with
  | [] => Ok (done_, s)
  | pRec :: todo =>
      r ← size_field file_format pRec s;
      let '(pRec, uTemp, s) := r in
      size_loop file_format todo ((pRec, uTemp) :: done_) s
  end.

(** The size of the header with its own size varint. *)
Definition header_size (nHdr : Z) : Z :=
  if nHdr <=? 126 then nHdr + 1
  else
    let nVarint := sqlite3VarintLen nHdr in
    let nHdr := nHdr + nVarint in
    if nVarint <? sqlite3VarintLen nHdr then nHdr + 1 else nHdr.

(** [memcpy] of [l] to offset [off] of the buffer. *)
Definition store (z : mem) (off : Z) (l : list Z) : mem := fun j =>
  if (Z.to_nat off <=? j)%nat && (j <? Z.to_nat off + length l)%nat
  then nth (j - Z.to_nat off) l 0 else z j.

(** The loop that writes the record: the buffer and the two pointers. *)
Fixpoint write_loop (l : list (Mem * Z)) (z : mem) (zHdr zPayload : Z) : mem * Z * Z :=
  match l with
  | [] => (z, zHdr, zPayload)
  | (pRec, serial_type) :: l =>
      let h := putVarint32 serial_type in
      let z := store z zHdr h in
      let zHdr := zHdr + Z.of_nat (length h) in
      let p := sqlite3VdbeSerialPut pRec serial_type in
      let z := store z zPayload p in
      let zPayload := zPayload + Z.of_nat (length p) in
      write_loop l z zHdr zPayload
  end.

(** The output register, with the header size and the final pointers that the
    two closing assertions of the opcode compare. *)
Record record : Type := Rec
  { r_z : mem; r_n : Z; r_nZero : Z; r_nHdr : Z; r_zHdr : Z; r_zPayload : Z }.

(** [szMalloc] is the buffer the output register already owns, [z0] what is in
    the buffer before, [limit] is [db->aLimit[SQLITE_LIMIT_LENGTH]]. *)
Definition OP_MakeRecord (file_format szMalloc limit : Z) (z0 : mem) (fields : list Mem)
  : res mk_error record :=
  r ← size_loop file_format (rev fields) [] (Sizes 0 0 0);
  let '(fs, s) := r in
  let nHdr := header_size (nHdr s) in
  let nByte := nHdr + nData s in
  _ ← (if nByte + nZero s <=? szMalloc then Ok tt
       else if limit <? nByte + nZero s then Throw too_big
       else if alloc nByte then Ok tt else Throw no_mem);
  let h := putVarint32 nHdr in
  let '(z, zHdr, zPayload) :=
    write_loop fs (store z0 0 h) (Z.of_nat (length h)) nHdr in
  Ok (Rec z nByte (nZero s) nHdr zHdr zPayload).

End Make.

(** ** Reading a record *)

(** The loop of [sqlite3VdbeRecordUnpack].  It stops after [nField] rounds at
    the latest, which is the fuel; [aMem] are the registers filled so far. *)
Fixpoint unpack_loop (fuel : nat) (aKey : mem) (nKey nField szHdr idx d u : Z)
    (aMem : list Mem) : list Mem * Z :=
  match fuel with
  | O => (aMem, d)
  | S fuel =>
      if (idx <? szHdr) && (d <=? u32 nKey) then
        let '(serial_type, n) := getVarint32 (at_ aKey (Z.to_nat idx)) in
        let idx := u32 (idx + n) in
        let aMem := aMem ++ [sqlite3VdbeSerialGet (at_ aKey (Z.to_nat d)) serial_type] in
        let d := u32 (d + sqlite3VdbeSerialTypeLen serial_type) in
        let u := u16 (u + 1) in
        if nField <=? u then (aMem, d)
        else unpack_loop fuel aKey nKey nField szHdr idx d u aMem
      else (aMem, d)
  end.

(** The registers filled; their number is the new [p->nField]. *)
Definition sqlite3VdbeRecordUnpack (nField : Z) (aKey : mem) (nKey : Z) : list Mem :=
  let '(szHdr, idx) := getVarint32 aKey in
  let '(aMem, d) := unpack_loop (Z.to_nat nField) aKey nKey nField szHdr idx szHdr 0 [] in
  if (u32 nKey <? d) && negb (length aMem =? 0)%nat
  then take (length aMem - 1) aMem ++ [MEM_Null false]
  else aMem.

(** What a field reads back as: integers stay, an integer to be read as a real
    that needs eight bytes has become a real, a NaN has become NULL, and the
    tail of zeros of a blob is ordinary content. *)
Definition real_back (r : Z) : Mem := if IsNaN r then MEM_Null false else MEM_Real r.
Definition read_back (m : Mem) : Mem :=
  match m with
  | MEM_IntReal i =>
      if (- 2 ^ 47 <=? i) && (i <? 2 ^ 47) then MEM_Int i else real_back (double_of_int i)
  | MEM_Real r => real_back r
  | MEM_Blob z (Some k) => MEM_Blob (z ++ repeat 0 (Z.to_nat k)) None
  | m => m
  end.

(** ** Big-endian integers *)

Definition be_val (l : list Z) : Z := fold_left (fun a b => a * 256 + b) l 0.

Lemma fold_be l : forall a, fold_left (fun a b => a * 256 + b) l a =
  a * 256 ^ Z.of_nat (length l) + be_val l.
Proof.
  unfold be_val. induction l as [|b l IH]; intros a; cbn [fold_left length].
  - change (Z.of_nat 0) with 0. lia.
  - rewrite IH, (IH (0 * 256 + b)). rewrite Nat2Z.inj_succ, Z.pow_succ_r by lia. ring.
Qed.

Lemma u8_low v : u8 (v & 0xff) = v mod 256.
Proof.
  change 0xff with (Z.ones 8). rewrite Z.land_ones by lia. unfold wrapu.
  apply Z.mod_mod. done.
Qed.

Lemma put_be_spec n : forall v buf, 0 <= v ->
  length (put_be n v buf) = (n + length buf)%nat /\
  (Forall is_byte buf -> Forall is_byte (put_be n v buf)) /\
  be_val (put_be n v buf) =
    (v mod 256 ^ Z.of_nat n) * 256 ^ Z.of_nat (length buf) + be_val buf.
Proof.
  induction n as [|n IH]; intros v buf Hv; cbn [put_be].
  - split; [done|]. split; [done|]. change (256 ^ Z.of_nat 0) with 1. rewrite Z.mod_1_r. lia.
  - rewrite u8_low. pose proof (Z.mod_pos_bound v 256 ltac:(lia)) as B.
    destruct (IH (v >> 8) (v mod 256 :: buf)) as (L & F & V); [by apply Z.shiftr_nonneg|].
    split; [rewrite L; cbn [length]; lia|]. split.
    { intros Hb. apply F. constructor; [unfold is_u; lia|done]. }
    rewrite V. cbn [length]. unfold be_val at 1. cbn [fold_left]. rewrite fold_be.
    rewrite !Nat2Z.inj_succ, !Z.pow_succ_r by lia.
    rewrite Z.shiftr_div_pow2 by lia. change (2 ^ 8) with 256.
    rewrite (Z.rem_mul_r v 256) by (try apply Z.pow_pos_nonneg; lia). ring.
Qed.

Lemma two_byte_int x : is_byte (x 1%nat) -> TWO_BYTE_INT x = 256 * i8 (x 0%nat) + x 1%nat.
Proof.
  intros H. unfold TWO_BYTE_INT. rewrite (Z.mul_comm 256). by apply (lor_add _ 8).
Qed.

Lemma three_byte_int x : is_byte (x 1%nat) -> is_byte (x 2%nat) ->
  THREE_BYTE_INT x = 65536 * i8 (x 0%nat) + 256 * x 1%nat + x 2%nat.
Proof.
  intros H1 H2. unfold THREE_BYTE_INT. rewrite Z.shiftl_mul_pow2 by lia. unfold is_u in *.
  replace (65536 * i8 (x 0%nat)) with (i8 (x 0%nat) * 2 ^ 16) by lia.
  rewrite lor_add by lia.
  replace (i8 (x 0%nat) * 2 ^ 16 + x 1%nat * 2 ^ 8)
    with ((i8 (x 0%nat) * 2 ^ 8 + x 1%nat) * 2 ^ 8) by lia.
  rewrite lor_add by lia. lia.
Qed.

Lemma four_byte a b c d : is_byte b -> is_byte c -> is_byte d ->
  a * 2 ^ 24 ||| (b << 16) ||| (c << 8) ||| d = 16777216 * a + 65536 * b + 256 * c + d.
Proof.
  intros Hb Hc Hd. rewrite !Z.shiftl_mul_pow2 by lia. unfold is_u in *.
  rewrite lor_add by lia.
  replace (a * 2 ^ 24 + b * 2 ^ 16) with ((a * 2 ^ 8 + b) * 2 ^ 16) by lia.
  rewrite lor_add by lia.
  replace ((a * 2 ^ 8 + b) * 2 ^ 16 + c * 2 ^ 8) with ((a * 2 ^ 16 + b * 2 ^ 8 + c) * 2 ^ 8) by lia.
  rewrite lor_add by lia. lia.
Qed.

Lemma four_byte_int x : is_byte (x 1%nat) -> is_byte (x 2%nat) -> is_byte (x 3%nat) ->
  FOUR_BYTE_INT x = 16777216 * i8 (x 0%nat) + 65536 * x 1%nat + 256 * x 2%nat + x 3%nat.
Proof.
  intros. unfold FOUR_BYTE_INT. rewrite <- four_byte by done. do 3 f_equal. lia.
Qed.

Lemma four_byte_uint x : is_byte (x 0%nat) -> is_byte (x 1%nat) -> is_byte (x 2%nat) ->
  is_byte (x 3%nat) ->
  FOUR_BYTE_UINT x = 16777216 * x 0%nat + 65536 * x 1%nat + 256 * x 2%nat + x 3%nat.
Proof.
  intros. unfold FOUR_BYTE_UINT. rewrite <- four_byte by done. do 3 f_equal.
  rewrite Z.shiftl_mul_pow2 by lia. apply wrapu_id. unfold is_u in *. lia.
Qed.

Lemma i8_of b : is_byte b -> i8 b = if b <? 128 then b else b - 256.
Proof.
  unfold i8, wraps, is_u. intros H. change (2 ^ (8 - 1)) with 128. change (2 ^ 8) with 256 in *.
  destruct (Z.ltb_spec b 128); [rewrite Z.mod_small by lia; lia|].
  replace ((b + 128) mod 256) with (b - 128) by (apply Z.mod_unique_pos with 1; lia). lia.
Qed.

Lemma serialGet_be x : is_byte (x 0%nat) -> is_byte (x 1%nat) -> is_byte (x 2%nat) ->
  is_byte (x 3%nat) -> is_byte (x 4%nat) -> is_byte (x 5%nat) -> is_byte (x 6%nat) ->
  is_byte (x 7%nat) ->
  u64 (u64 (FOUR_BYTE_UINT x << 32) + FOUR_BYTE_UINT (at_ x 4)) = be_val (map x (seq 0 8)).
Proof.
  intros. rewrite !four_byte_uint by done. unfold at_, be_val. cbn [Nat.add map seq fold_left].
  rewrite Z.shiftl_mul_pow2 by lia. unfold is_u in *.
  rewrite (wrapu_id 64 (_ * 2 ^ 32)) by solve_width. rewrite wrapu_id by solve_width. lia.
Qed.

(** ** One field *)

Definition int_view (ff i t n : Z) : Prop :=
  (t = 8 + i /\ n = 0 /\ 0 <= i <= 1 /\ 4 <= ff) \/
  (t = 1 /\ n = 1 /\ is_s 8 i) \/ (t = 2 /\ n = 2 /\ is_s 16 i) \/
  (t = 3 /\ n = 3 /\ is_s 24 i) \/ (t = 4 /\ n = 4 /\ is_s 32 i) \/
  (t = 5 /\ n = 6 /\ is_s 48 i) \/ (t = 6 /\ n = 8 /\ ~ is_s 48 i).

Lemma land_1_self i : is_s 64 i -> (i & 1 =? i) = (0 <=? i) && (i <=? 1).
Proof.
  intros H. change 1 with (Z.ones 1) at 1. rewrite Z.land_ones by lia.
  pose proof (Z.mod_pos_bound i (2 ^ 1) ltac:(lia)).
  destruct (Z.eqb_spec (i mod 2 ^ 1) i) as [E|E]; [lia|].
  destruct (Z.leb_spec 0 i), (Z.leb_spec i 1); try done.
  destruct E. apply Z.mod_small. lia.
Qed.

Lemma int_serial_view ff i : is_s 64 i ->
  int_view ff i (fst (int_serial ff i)) (snd (int_serial ff i)).
Proof.
  intros H. unfold int_serial. rewrite land_1_self by done.
  replace (if i <? 0 then u64 (Z.lnot i) else u64 i) with (if i <? 0 then - i - 1 else i).
  2: { unfold is_s in H. change (2 ^ (64 - 1)) with 0x8000000000000000 in H.
       unfold Z.lnot. destruct (Z.ltb_spec i 0); rewrite wrapu_id; unfold is_u; lia. }
  unfold int_view, is_s. set (uu := if i <? 0 then _ else _).
  assert (uu = i \/ uu = - i - 1 /\ i < 0) as Hu by (unfold uu; destruct (Z.ltb_spec i 0); lia).
  assert (0 <= uu) as Hp by (unfold uu; destruct (Z.ltb_spec i 0); lia). clearbody uu.
  destruct (Z.leb_spec uu 127).
  { destruct (Z.leb_spec 0 i), (Z.leb_spec i 1), (Z.leb_spec 4 ff); cbn [andb fst snd];
      try (right; left; lia). left. rewrite wrapu_id by solve_width. lia. }
  repeat match goal with |- context [if ?a <=? ?b then _ else _] => destruct (Z.leb_spec a b) end;
    cbn [fst snd]; lia.
Qed.

(** The buffer holds the bytes [l]. *)
Definition holds (buf : mem) (l : list Z) : Prop :=
  forall j, (j < length l)%nat -> buf j = nth j l 0.

Lemma put_be_list n v : 0 <= v -> exists l, put_be n v [] = l /\ length l = n /\
  Forall is_byte l /\ be_val l = v mod 256 ^ Z.of_nat n.
Proof.
  intros Hv. destruct (put_be_spec n v [] Hv) as (L & F & V). eexists. split; [done|].
  split; [rewrite L; cbn [length]; lia|]. split; [apply F; constructor|].
  rewrite V. cbn [length]. change (256 ^ Z.of_nat 0) with 1. unfold be_val. cbn [fold_left]. lia.
Qed.

(** Name the bytes of a [put_be] buffer of known length. *)
Ltac name_bytes Hh :=
  match type of Hh with
  | holds ?buf (put_be ?n ?v []) =>
      let l := fresh "l" in let E := fresh in let L := fresh in let F := fresh in let V := fresh "V" in
      destruct (put_be_list n v) as (l & E & L & F & V); [apply wrapu_range; lia || done|];
      rewrite E in Hh; clear E;
      repeat (destruct l as [|? l]; [discriminate L| cbn [length] in L; apply eq_add_S in L]
              || (destruct l; [|discriminate L]));
      clear L; unfold holds in Hh; cbn [length] in Hh;
      rewrite ?Forall_cons in F
  end.

Lemma bytes_at_holds buf l n : n = Z.of_nat (length l) -> holds buf l -> bytes_at buf n = l.
Proof.
  intros -> H. unfold bytes_at. rewrite Nat2Z.id.
  apply nth_ext with 0 0; [by rewrite length_map, length_seq|]. intros j Hj.
  rewrite length_map, length_seq in Hj. rewrite <- H by lia.
  rewrite (nth_indep _ _ (buf 0%nat)) by (rewrite length_map, length_seq; lia).
  rewrite map_nth, seq_nth by lia. done.
Qed.

Lemma mod_signed w i : 1 <= w -> is_s w i -> u64 i mod 2 ^ w = (if i <? 0 then i + 2 ^ w else i) \/ 64 < w.
Proof.
  intros Hw H. destruct (Z.lt_ge_cases 64 w); [by right|left].
  unfold wrapu, is_s in *. pose proof (pow2_split w Hw).
  replace (2 ^ 64) with (2 ^ w * 2 ^ (64 - w)) by (rewrite <- Z.pow_add_r by lia; f_equal; lia).
  rewrite Z.rem_mul_r by (apply Z.pow_nonzero || apply Z.pow_pos_nonneg; lia).
  rewrite (Z.mul_comm (2 ^ w) (_ mod _)), Z_mod_plus_full, Z.mod_mod by lia.
  destruct (Z.ltb_spec i 0).
  - symmetry. apply Z.mod_unique_pos with (-1); lia.
  - apply Z.mod_small. lia.
Qed.

(** Replace the bytes the buffer holds by their names. *)
Ltac read_bytes Hh :=
  let rec go k :=
    (let E := fresh "B" in
     assert (E := Hh k ltac:(cbn [length]; lia)); cbn [nth] in E; go (S k)) || idtac in
  go 0%nat; clear Hh.

Ltac get_int_case Hh H w :=
  name_bytes Hh; read_bytes Hh; destruct_and?;
  destruct (mod_signed w _ ltac:(lia) H) as [M|?]; [|lia];
  unfold be_val in *; cbn [fold_left] in *.

Ltac get_int_done V M :=
  unfold is_s, is_u in *;
  match type of V with context [256 ^ Z.of_nat ?k] =>
    let w := eval vm_compute in (8 * Z.of_nat k) in change (256 ^ Z.of_nat k) with (2 ^ w) in V
  end; rewrite M in V; repeat case_match; lia.

Lemma int_get_small buf i : is_s 8 i -> holds buf (put_be 1 (u64 i) []) ->
  ONE_BYTE_INT buf = i.
Proof.
  intros H Hh. get_int_case Hh H 8. unfold ONE_BYTE_INT. rewrite B, i8_of by done.
  get_int_done V M.
Qed.

Lemma int_get_2 buf i : is_s 16 i -> holds buf (put_be 2 (u64 i) []) ->
  TWO_BYTE_INT buf = i.
Proof.
  intros H Hh. get_int_case Hh H 16. rewrite two_byte_int by congruence.
  rewrite B, B0, i8_of by done.
  get_int_done V M.
Qed.

Lemma int_get_3 buf i : is_s 24 i -> holds buf (put_be 3 (u64 i) []) ->
  THREE_BYTE_INT buf = i.
Proof.
  intros H Hh. get_int_case Hh H 24. rewrite three_byte_int by congruence.
  rewrite B, B0, B1, i8_of by done.
  get_int_done V M.
Qed.

Lemma int_get_4 buf i : is_s 32 i -> holds buf (put_be 4 (u64 i) []) ->
  FOUR_BYTE_INT buf = i.
Proof.
  intros H Hh. get_int_case Hh H 32. rewrite four_byte_int by congruence.
  rewrite B, B0, B1, B2, i8_of by done.
  get_int_done V M.
Qed.

Lemma int_get_6 buf i : is_s 48 i -> holds buf (put_be 6 (u64 i) []) ->
  i64 (FOUR_BYTE_UINT (at_ buf 2) + (1 << 32) * TWO_BYTE_INT buf) = i.
Proof.
  intros H Hh. get_int_case Hh H 48.
  rewrite two_byte_int by congruence. rewrite four_byte_uint by (unfold at_; cbn [Nat.add]; congruence).
  unfold at_. cbn [Nat.add]. rewrite B, B0, B1, B2, B3, B4, i8_of by done.
  change (1 << 32) with 0x100000000.
  rewrite wraps_id; [|lia|unfold is_s]; get_int_done V M.
Qed.

Lemma word_get buf v : is_u 64 v -> holds buf (put_be 8 v []) ->
  u64 (u64 (FOUR_BYTE_UINT buf << 32) + FOUR_BYTE_UINT (at_ buf 4)) = v.
Proof.
  intros H Hh. destruct (put_be_list 8 v) as (l & E & L & F & V); [unfold is_u in H; lia|].
  rewrite E in Hh. clear E.
  assert (map buf (seq 0 8) = l) as El by (apply (bytes_at_holds buf l 8); [lia|done]).
  assert (forall j, (j < 8)%nat -> is_byte (buf j)) as Hb.
  { intros j Hj. rewrite Hh by lia. rewrite List.Forall_forall in F. apply F, nth_In. lia. }
  rewrite serialGet_be, El, V by (apply Hb; lia). apply Z.mod_small. exact H.
Qed.

(** Reading back what [sqlite3VdbeSerialPut] stored for an integer. *)
Lemma int_get ff i buf : is_s 64 i ->
  holds buf (put_be (Z.to_nat (snd (int_serial ff i))) (u64 i) []) ->
  sqlite3VdbeSerialGet buf (fst (int_serial ff i)) = MEM_Int i.
Proof.
  intros Hi Hh.
  destruct (int_serial_view ff i Hi) as
    [(-> & _ & H & _)|[(-> & E & H)|[(-> & E & H)|[(-> & E & H)|[(-> & E & H)|[(-> & E & H)|(-> & E & H)]]]]]];
    [|rewrite E in Hh; clear E..]; cbn [sqlite3VdbeSerialGet].
  - assert (i = 0 \/ i = 1) as [-> | ->] by lia; done.
  - f_equal. by apply int_get_small.
  - f_equal. by apply int_get_2.
  - f_equal. by apply int_get_3.
  - f_equal. by apply int_get_4.
  - f_equal. by apply int_get_6.
  - unfold serialGet. rewrite (word_get _ (u64 i)) by (done || (apply wrapu_range; lia)).
    cbn [Z.eqb Pos.eqb]. f_equal. rewrite wraps_wrapu by lia. apply wraps_id; [lia|done].
Qed.

Lemma mantissa_bound m : 0 < m -> 52 < Z.log2 m ->
  2 ^ 52 <= m / 2 ^ (Z.log2 m - 52) < 2 ^ 53.
Proof.
  intros Hm He. pose proof (Z.log2_spec m Hm) as [L U].
  set (e := Z.log2 m) in *. assert (0 < 2 ^ (e - 52)) by (apply Z.pow_pos_nonneg; lia).
  split.
  - apply Z.div_le_lower_bound; [done|]. rewrite <- Z.pow_add_r by lia.
    by replace (e - 52 + 52) with e by lia.
  - apply Z.div_lt_upper_bound; [done|]. rewrite <- Z.pow_add_r by lia.
    by replace (e - 52 + 53) with (Z.succ e) by lia.
Qed.

(** Exponent and mantissa of the conversion, below those of an infinity. *)
Lemma double_of_int_parts i : is_s 64 i -> exists y, 0 <= y < 2047 * 2 ^ 52 /\
  double_of_int i = (if i <? 0 then 2 ^ 63 else 0) + y.
Proof.
  intros H. unfold double_of_int. destruct (Z.eqb_spec i 0) as [-> |Hz]; [exists 0; done|].
  set (m := Z.abs i). assert (0 < m <= 2 ^ 63) as Hm by (unfold m, is_s in *; lia).
  assert (0 <= Z.log2 m <= 63) as He.
  { split; [apply Z.log2_nonneg|]. change 63 with (Z.log2 (2 ^ 63)). apply Z.log2_le_mono. lia. }
  set (mant := if Z.log2 m <=? 52 then _ else _).
  assert (2 ^ 52 <= mant <= 2 ^ 53) as Hmant.
  { unfold mant. destruct (Z.leb_spec (Z.log2 m) 52).
    - rewrite Z.shiftl_mul_pow2 by lia. pose proof (Z.log2_spec m ltac:(lia)) as [L U].
      assert (0 < 2 ^ (52 - Z.log2 m)) by (apply Z.pow_pos_nonneg; lia).
      replace (2 ^ 52) with (2 ^ Z.log2 m * 2 ^ (52 - Z.log2 m))
        by (rewrite <- Z.pow_add_r by lia; f_equal; lia).
      replace (2 ^ 53) with (2 ^ Z.succ (Z.log2 m) * 2 ^ (52 - Z.log2 m))
        by (rewrite <- Z.pow_add_r by lia; f_equal; lia). nia.
    - pose proof (mantissa_bound m). case_match; lia. }
  clearbody mant. eexists. split; [|rewrite <- Z.add_assoc; reflexivity]. lia.
Qed.

Lemma double_of_int_u64 i : is_s 64 i -> is_u 64 (double_of_int i).
Proof.
  intros H. destruct (double_of_int_parts i H) as (y & Hy & ->). unfold is_u. case_match; lia.
Qed.

(** The conversion of an integer is never a NaN. *)
Lemma double_of_int_not_nan i : is_s 64 i -> IsNaN (double_of_int i) = false.
Proof.
  intros H. destruct (double_of_int_parts i H) as (y & Hy & ->). unfold IsNaN.
  set (x := _ + y). apply andb_false_iff. left. apply Z.eqb_neq. intros E.
  apply (f_equal (fun z => z >> 52)) in E. rewrite Z.shiftr_land in E.
  change (EXP754 >> 52) with (Z.ones 11) in E.
  rewrite Z.land_ones, Z.shiftr_div_pow2 in E by lia. change (Z.ones 11) with 2047 in E.
  assert (x / 2 ^ 52 = (if i <? 0 then 2 ^ 11 else 0) + y / 2 ^ 52) as E'.
  { unfold x. replace ((if i <? 0 then 2 ^ 63 else 0) + y)
      with (y + (if i <? 0 then 2 ^ 11 else 0) * 2 ^ 52) by (case_match; lia).
    rewrite Z.div_add by lia. lia. }
  assert (0 <= y / 2 ^ 52 < 2047) by (split; [apply Z.div_pos|apply Z.div_lt_upper_bound]; lia).
  rewrite E' in E. destruct (i <? 0).
  - replace (2 ^ 11 + y / 2 ^ 52) with (y / 2 ^ 52 + 1 * 2 ^ 11) in E by lia.
    rewrite Z_mod_plus_full, Z.mod_small in E by lia. lia.
  - rewrite Z.add_0_l, Z.mod_small in E by lia. lia.
Qed.

(** *** Specification of a field: its serial type and its bytes *)

Definition tail_of (zt : option Z) : Z := default 0 zt.

Definition ftype (ff : Z) (m : Mem) : Z :=
  match m with
  | MEM_Null b => if b then 10 else 0
  | MEM_Int i => fst (int_serial ff i)
  | MEM_IntReal i => if fst (int_serial ff i) =? 6 then 7 else fst (int_serial ff i)
  | MEM_Real _ => 7
  | MEM_Str z => 2 * Z.of_nat (length z) + 13
  | MEM_Blob z zt => 2 * (Z.of_nat (length z) + tail_of zt) + 12
  end.

Definition fbytes (ff : Z) (m : Mem) : list Z :=
  match m with
  | MEM_Null _ => []
  | MEM_Int i => put_be (Z.to_nat (snd (int_serial ff i))) (u64 i) []
  | MEM_IntReal i =>
      if fst (int_serial ff i) =? 6 then put_be 8 (double_of_int i) []
      else put_be (Z.to_nat (snd (int_serial ff i))) (u64 i) []
  | MEM_Real r => put_be 8 r []
  | MEM_Str z => z
  | MEM_Blob z zt => z ++ repeat 0 (Z.to_nat (tail_of zt))
  end.

(** A register as the engine keeps it: integers and doubles of 64 bits, strings
    and blobs of bytes within [SQLITE_MAX_LENGTH]. *)
Definition SQLITE_MAX_LENGTH : Z := 1000000000.
Definition Mem_ok (m : Mem) : Prop :=
  match m with
  | MEM_Null _ => True
  | MEM_Int i | MEM_IntReal i => is_s 64 i
  | MEM_Real r => is_u 64 r
  | MEM_Str z => Forall is_byte z /\ Z.of_nat (length z) <= SQLITE_MAX_LENGTH
  | MEM_Blob z zt => Forall is_byte z /\ 0 <= tail_of zt /\
      Z.of_nat (length z) + tail_of zt <= SQLITE_MAX_LENGTH
  end.


Lemma get_big t buf : 12 <= t -> sqlite3VdbeSerialGet buf t =
  if t & 1 =? 0 then MEM_Blob (bytes_at buf ((t - 12) / 2)) None
  else MEM_Str (bytes_at buf ((t - 12) / 2)).
Proof.
  intros H. destruct t as [|p|p]; [lia| |lia].
  do 4 (destruct p as [p|p|]; try (exfalso; lia)); reflexivity.
Qed.

Lemma len_big t : 12 <= t -> sqlite3VdbeSerialTypeLen t = (t - 12) / 2.
Proof.
  intros H. unfold sqlite3VdbeSerialTypeLen. destruct (Z.leb_spec 128 t); [done|].
  assert (forallb (fun k => nth k sqlite3SmallTypeSizes 0 =? (Z.of_nat k - 12) / 2) (seq 12 116)
    = true) as T by (vm_compute; reflexivity).
  rewrite forallb_forall in T. specialize (T (Z.to_nat t)). rewrite in_seq in T.
  rewrite Z2Nat.id in T by lia. apply Z.eqb_eq, T. lia.
Qed.

Lemma int_view_type ff i : is_s 64 i ->
  0 <= fst (int_serial ff i) <= 9 /\
  sqlite3VdbeSerialTypeLen (fst (int_serial ff i)) = snd (int_serial ff i) /\
  0 <= snd (int_serial ff i) <= 8.
Proof.
  intros H. destruct (int_serial_view ff i H) as
    [(-> & -> & Hi & _)|[(-> & -> & _)|[(-> & -> & _)|[(-> & -> & _)|[(-> & -> & _)|[(-> & -> & _)|(-> & -> & _)]]]]]];
    try (split; [lia|split; [reflexivity|lia]]).
  assert (i = 0 \/ i = 1) as [-> | ->] by lia; (split; [lia|split; [reflexivity|lia]]).
Qed.

Lemma intreal_wide ff i : is_s 64 i ->
  (fst (int_serial ff i) =? 6) = negb ((- 2 ^ 47 <=? i) && (i <? 2 ^ 47)).
Proof.
  intros H. destruct (int_serial_view ff i H) as
    [(-> & _ & Hi & _)|[(-> & _ & Hi)|[(-> & _ & Hi)|[(-> & _ & Hi)|[(-> & _ & Hi)|[(-> & _ & Hi)|(-> & _ & Hi)]]]]]];
    unfold is_s in *; lia.
Qed.

Lemma put_be_length n v : 0 <= v -> length (put_be n v []) = n.
Proof. intros H. destruct (put_be_list n v H) as (l & -> & ? & _). done. Qed.
Lemma put_be_bytes n v : 0 <= v -> Forall is_byte (put_be n v []).
Proof. intros H. destruct (put_be_list n v H) as (l & -> & _ & ? & _). done. Qed.

(** The specification of a field is what the code reads back. *)
Lemma field_get ff m buf : Mem_ok m -> holds buf (fbytes ff m) ->
  sqlite3VdbeSerialGet buf (ftype ff m) = read_back m.
Proof.
  destruct m as [b|i|i|r|z|z zt]; cbn [Mem_ok ftype fbytes read_back]; intros Hm Hh.
  - by destruct b.
  - by apply int_get.
  - rewrite intreal_wide in * by done.
    destruct ((- 2 ^ 47 <=? i) && (i <? 2 ^ 47)); cbn [negb] in *; [by apply int_get|].
    cbn [sqlite3VdbeSerialGet]. unfold serialGet.
    rewrite (word_get _ (double_of_int i)) by auto using double_of_int_u64.
    unfold real_back. by rewrite double_of_int_not_nan.
  - cbn [sqlite3VdbeSerialGet]. unfold serialGet. by rewrite (word_get _ r).
  - rewrite get_big by lia. replace (2 * _ + 13 - 12) with (1 + Z.of_nat (length z) * 2) by lia.
    rewrite Z.div_add by lia. cbn [Z.div Z.div_eucl]. change (1 / 2) with 0. rewrite Z.add_0_l.
    change 1 with (Z.ones 1) at 1. rewrite Z.land_ones by lia.
    replace (2 * Z.of_nat (length z) + 13) with (1 + (Z.of_nat (length z) + 6) * 2 ^ 1) by lia.
    rewrite Z_mod_plus_full. cbn. f_equal. by apply bytes_at_holds.
  - destruct Hm as (_ & H0 & _). rewrite get_big by lia.
    set (n := Z.of_nat (length z) + tail_of zt) in *.
    replace (2 * n + 12 - 12) with (n * 2) by lia. rewrite Z.div_mul by lia.
    change 1 with (Z.ones 1) at 1. rewrite Z.land_ones by lia.
    replace (2 * n + 12) with (0 + (n + 6) * 2 ^ 1) by lia.
    rewrite Z_mod_plus_full. change (0 mod 2 ^ 1 =? 0) with true. cbn iota.
    rewrite (bytes_at_holds _ _ n) with (2 := Hh)
      by (rewrite length_app, repeat_length; unfold n; lia).
    unfold tail_of in *. destruct zt; cbn [default]; [done|]. cbn. by rewrite app_nil_r.
Qed.

Lemma field_len ff m : Mem_ok m ->
  sqlite3VdbeSerialTypeLen (ftype ff m) = Z.of_nat (length (fbytes ff m)).
Proof.
  destruct m as [b|i|i|r|z|z zt]; cbn [Mem_ok ftype fbytes]; intros Hm.
  - by destruct b.
  - pose proof (int_view_type ff i Hm) as (_ & -> & ?).
    rewrite put_be_length by (apply wrapu_range; lia). lia.
  - pose proof (int_view_type ff i Hm) as (_ & L & ?). destruct (_ =? 6).
    + rewrite put_be_length by (apply double_of_int_u64; done). done.
    + rewrite put_be_length by (apply wrapu_range; lia). lia.
  - rewrite put_be_length by apply Hm. done.
  - rewrite len_big by lia. Z.to_euclidean_division_equations. lia.
  - rewrite len_big by lia. rewrite length_app, repeat_length.
    Z.to_euclidean_division_equations. lia.
Qed.

Lemma field_type_range ff m : Mem_ok m -> 0 <= ftype ff m < 2 ^ 31.
Proof.
  unfold Mem_ok, SQLITE_MAX_LENGTH.
  destruct m as [b|i|i|r|z|z zt]; cbn [ftype]; intros Hm; try lia.
  - destruct b; lia.
  - pose proof (int_view_type ff i Hm). lia.
  - pose proof (int_view_type ff i Hm). destruct (_ =? 6); lia.
Qed.

Lemma field_bytes ff m : Mem_ok m -> Forall is_byte (fbytes ff m).
Proof.
  destruct m as [b|i|i|r|z|z zt]; cbn [Mem_ok fbytes]; intros Hm.
  - constructor.
  - apply put_be_bytes, wrapu_range. lia.
  - destruct (_ =? 6); apply put_be_bytes; [by apply double_of_int_u64|apply wrapu_range; lia].
  - apply put_be_bytes, Hm.
  - apply Hm.
  - apply Forall_app. split; [apply Hm|]. apply List.Forall_forall. intros x Hx.
    apply repeat_spec in Hx. subst. unfold is_u. lia.
Qed.

Lemma field_max ff m : Mem_ok m -> Z.of_nat (length (fbytes ff m)) <= SQLITE_MAX_LENGTH.
Proof.
  intros Hm. rewrite <- field_len by done.
  destruct m as [b|i|i|r|z|z zt]; cbn [Mem_ok ftype] in *; unfold SQLITE_MAX_LENGTH in *.
  - destruct b; vm_compute; discriminate.
  - pose proof (int_view_type ff i Hm). lia.
  - pose proof (int_view_type ff i Hm). destruct (_ =? 6); [vm_compute; discriminate|lia].
  - vm_compute. discriminate.
  - rewrite len_big by lia. Z.to_euclidean_division_equations. lia.
  - rewrite len_big by lia. Z.to_euclidean_division_equations. lia.
Qed.

(** ** The header *)

Lemma length_enc v : 0 <= v < 2 ^ 56 -> length (enc v) = varint_size v.
Proof.
  intros H. unfold enc. replace (v <? 2 ^ 56) with true by lia. unfold enc_short.
  rewrite length_app, length_map, length_rev, length_seq. cbn [length].
  unfold varint_size. repeat case_match; lia.
Qed.

Lemma putVarint32_enc t : is_u 32 t -> putVarint32 t = enc t.
Proof.
  intros H. unfold putVarint32. rewrite wrapu_id by done.
  rewrite <- PutVarint_spec by solve_width.
  destruct (Z.ltb_spec t 0x80); [|done]. unfold sqlite3PutVarint.
  replace (t <=? 127) with true by lia. do 2 f_equal.
  change 127 with (Z.ones 7). rewrite Z.land_ones by lia. symmetry. apply Z.mod_small.
  unfold is_u in H. lia.
Qed.

(** The size the code computes for the header counts its own varint. *)
Lemma header_size_spec n : 0 <= n < 2 ^ 20 ->
  header_size n = n + Z.of_nat (length (enc (header_size n))) /\ 0 < header_size n < 2 ^ 21.
Proof.
  intros H. unfold header_size.
  rewrite (VarintLen_enc n) by solve_width. rewrite (length_enc n) by lia.
  rewrite VarintLen_enc by (unfold is_u, varint_size; repeat case_match; lia).
  rewrite length_enc by (unfold varint_size; repeat case_match; lia).
  destruct (Z.leb_spec n 126).
  - rewrite length_enc by lia. unfold varint_size. replace (n + 1 <? 2 ^ 7) with true by lia. lia.
  - destruct (Z.ltb_spec (Z.of_nat (varint_size n)) (Z.of_nat (varint_size (n + Z.of_nat (varint_size n)))));
      rewrite length_enc by (unfold varint_size; repeat case_match; lia);
      unfold varint_size in *; repeat case_match; lia.
Qed.

Section Layout.
Context (ff : Z).

(** The header (without its size) and the contents of a list of fields. *)
Definition hdr (ms : list Mem) : list Z := concat (map (fun m => enc (ftype ff m)) ms).
Definition data (ms : list Mem) : list Z := concat (map (fbytes ff) ms).
Definition payload (fs : list (Mem * Z)) : list Z :=
  concat (map (fun f => sqlite3VdbeSerialPut (fst f) (snd f)) fs).

Lemma hdr_length ms : Forall Mem_ok ms ->
  Z.of_nat (length ms) <= Z.of_nat (length (hdr ms)) <= 5 * Z.of_nat (length ms).
Proof.
  unfold hdr. induction 1 as [|m ms Hm _ IH]; [done|]. cbn [map concat length].
  rewrite length_app. pose proof (field_type_range ff m Hm). rewrite length_enc by lia.
  assert (1 <= varint_size (ftype ff m) <= 5)%nat by (unfold varint_size; repeat case_match; lia). lia.
Qed.

Lemma data_length ms : Forall Mem_ok ms ->
  Z.of_nat (length (data ms)) <= Z.of_nat (length ms) * SQLITE_MAX_LENGTH.
Proof.
  unfold data. induction 1 as [|m ms Hm _ IH]; [done|]. cbn [map concat length].
  rewrite length_app. pose proof (field_max ff m Hm). lia.
Qed.

Lemma hdr_bytes ms : Forall Mem_ok ms -> Forall is_byte (hdr ms).
Proof.
  unfold hdr. induction 1 as [|m ms Hm _ IH]; [constructor|]. cbn [map concat].
  apply Forall_app. split; [|done]. apply enc_bytes. pose proof (field_type_range ff m Hm).
  unfold is_u. lia.
Qed.

Lemma data_bytes ms : Forall Mem_ok ms -> Forall is_byte (data ms).
Proof.
  unfold data. induction 1 as [|m ms Hm _ IH]; [constructor|]. cbn [map concat].
  apply Forall_app. split; [by apply field_bytes|done].
Qed.

(** ** The sizing loop *)

(** What one round does: the serial type, and either all the bytes of the field
    are counted as data, or the zeros of its tail go to [nZero]. *)
Definition sized (m : Mem) (s : sizes) (m' : Mem) (t : Z) (s' : sizes) : Prop :=
  t = ftype ff m /\
  nHdr s' = nHdr s + Z.of_nat (length (enc t)) /\
  nData s' = nData s + Z.of_nat (length (sqlite3VdbeSerialPut m' t)) /\
  exists k, fbytes ff m = sqlite3VdbeSerialPut m' t ++ repeat 0 (Z.to_nat k) /\
    nZero s' = nZero s + k /\ 0 <= k /\ (k = 0 \/ nData s = 0).

Lemma enc_one t : 0 <= t < 128 -> length (enc t) = 1%nat.
Proof. intros H. rewrite length_enc by lia. unfold varint_size. by replace (t <? 2 ^ 7) with true by lia. Qed.

Lemma put_int i m : is_s 64 i -> u_i m = i ->
  sqlite3VdbeSerialPut m (fst (int_serial ff i)) =
    put_be (Z.to_nat (snd (int_serial ff i))) (u64 i) [].
Proof.
  intros H Hm. unfold sqlite3VdbeSerialPut. rewrite Hm.
  destruct (int_serial_view ff i H) as
    [(-> & -> & Hi & _)|[(-> & -> & _)|[(-> & -> & _)|[(-> & -> & _)|[(-> & -> & _)|[(-> & -> & _)|(-> & -> & _)]]]]]];
    try done.
  by assert (i = 0 \/ i = 1) as [-> | ->] by lia.
Qed.

Lemma put_big m t : 12 <= t -> sqlite3VdbeSerialPut m t = z_of m.
Proof.
  intros H. unfold sqlite3VdbeSerialPut. replace (t <=? 7) with false by lia.
  by replace (12 <=? t) with true by lia.
Qed.

(** The number of bytes of data stays far below the 64-bit counter. *)
Definition room (s : sizes) : Prop := 0 <= nData s < 2 ^ 63.

(** A field all of whose bytes are stored. *)
Lemma sized_plain m s m' t h n : Mem_ok m -> room s ->
  t = ftype ff m -> h = Z.of_nat (length (enc t)) -> n = Z.of_nat (length (fbytes ff m)) ->
  sqlite3VdbeSerialPut m' t = fbytes ff m ->
  sized m s m' t (Sizes (nHdr s + h) (u64 (nData s + n)) (nZero s)).
Proof.
  intros Hm Hr Ht Hh Hn Hp. unfold sized. cbn [nHdr nData nZero]. rewrite Hp.
  pose proof (field_max ff m Hm). unfold room, SQLITE_MAX_LENGTH in *.
  rewrite wrapu_id by solve_width. split_and!; [done|lia|lia|].
  exists 0. rewrite app_nil_r. split_and!; [done|lia|lia|by left].
Qed.

Lemma varint_len_type m : Mem_ok m ->
  sqlite3VarintLen (ftype ff m) = Z.of_nat (length (enc (ftype ff m))).
Proof.
  intros Hm. pose proof (field_type_range ff m Hm). apply VarintLen_enc. unfold is_u. lia.
Qed.

Lemma sized_bytes m s m' : Mem_ok m -> room s -> 12 <= ftype ff m -> z_of m' = fbytes ff m ->
  sized m s m' (ftype ff m)
    (Sizes (nHdr s + sqlite3VarintLen (ftype ff m))
       (u64 (nData s + Z.of_nat (length (fbytes ff m)))) (nZero s)).
Proof.
  intros Hm Hr Ht Hz. apply sized_plain; [done..|by apply varint_len_type|done|].
  by rewrite put_big.
Qed.

Lemma sized_int m i s m' t : Mem_ok m -> is_s 64 i -> room s -> t = fst (int_serial ff i) ->
  ftype ff m = t -> fbytes ff m = put_be (Z.to_nat (snd (int_serial ff i))) (u64 i) [] ->
  u_i m' = i ->
  sized m s m' t (Sizes (nHdr s + 1) (u64 (nData s + snd (int_serial ff i))) (nZero s)).
Proof.
  intros Hm Hi Hr Ht Hf Hb Hu. pose proof (int_view_type ff i Hi) as (R & _ & N).
  apply sized_plain; [done|done|done|rewrite enc_one by lia; done| |].
  - rewrite Hb, put_be_length by (apply wrapu_range; lia). lia.
  - rewrite Ht, put_int by done. done.
Qed.

Context (alloc : Z -> bool).

Lemma blob_sized z k s m' t s' : Mem_ok (MEM_Blob z (Some k)) -> room s ->
  size_field alloc ff (MEM_Blob z (Some k)) s = Ok (m', t, s') ->
  sized (MEM_Blob z (Some k)) s m' t s'.
Proof.
  intros Hm Hr. pose proof (field_type_range ff _ Hm) as Ht.
  assert (0 <= k) as H0 by apply Hm.
  assert (Z.of_nat (length z) + k <= 1000000000) as HM by apply Hm.
  change (ftype ff (MEM_Blob z (Some k))) with (2 * (Z.of_nat (length z) + k) + 12) in Ht.
  cbn [size_field].
  rewrite (wrapu_id 32 (Z.of_nat _)) by solve_width.
  rewrite (wrapu_id 32 (_ * 2 + 12 + 0)) by solve_width.
  rewrite (wrapu_id 32 (_ + k * 2)) by solve_width.
  replace (Z.of_nat (length z) * 2 + 12 + 0 + k * 2) with (ftype ff (MEM_Blob z (Some k)))
    by (cbn [ftype]; change (tail_of (Some k)) with k; lia).
  assert (12 <= ftype ff (MEM_Blob z (Some k))) as H12
    by (cbn [ftype]; change (tail_of (Some k)) with k; lia).
  destruct (Z.eqb_spec (nData s) 0) as [E|E]; cbn [negb].
  - intros [= <- <- <-]. unfold sized. cbn [nHdr nData nZero]. 
    change (2 * (Z.of_nat (length z) + k) + 12) with (ftype ff (MEM_Blob z (Some k))).
    rewrite put_big, varint_len_type by done. cbn [z_of fbytes].
    unfold room in Hr. rewrite wrapu_id by solve_width.
    split_and!; [done|done|done|]. exists k. split_and!; auto.
  - rewrite (wrapu_id 32) by solve_width. unfold sqlite3VdbeMemExpandBlob.
    destruct (alloc _); [|discriminate]. intros [= <- <- <-].
    change (2 * (Z.of_nat (length z) + k) + 12) with (ftype ff (MEM_Blob z (Some k))).
    replace (Z.of_nat (length z) + k) with (Z.of_nat (length (fbytes ff (MEM_Blob z (Some k)))))
      by (cbn [fbytes]; change (tail_of (Some k)) with k; rewrite length_app, repeat_length; lia).
    by apply sized_bytes.
Qed.

Lemma size_field_sized m s m' t s' : Mem_ok m -> room s ->
  size_field alloc ff m s = Ok (m', t, s') -> sized m s m' t s'.
Proof.
  intros Hm Hr. pose proof (field_type_range ff m Hm) as Ht.
  destruct m as [b|i|i|r|z|z [k|]]; [..|by apply blob_sized|]; cbn [size_field].
  - intros E. assert (s' = Sizes (nHdr s + 1) (u64 (nData s + 0)) (nZero s)) as ->.
    { unfold room in Hr. rewrite wrapu_id, Z.add_0_r by solve_width. by destruct b; injection E. }
    apply sized_plain; destruct b; by simplify_eq.
  - rewrite (surjective_pairing (int_serial ff i)). intros [= <- <- <-]. by apply sized_int.
  - rewrite (surjective_pairing (int_serial ff i)). cbn [Mem_ok] in Hm.
    pose proof (int_view_type ff i Hm) as (R & L & N).
    destruct (Z.eqb_spec (fst (int_serial ff i)) 6) as [E|E]; intros [= <- <- <-].
    + rewrite E in L. change (sqlite3VdbeSerialTypeLen 6) with 8 in L. rewrite <- L.
      apply sized_plain; try done; cbn [ftype fbytes]; rewrite E; try done.
    + apply Z.eqb_neq in E. apply sized_int; try done; cbn [ftype fbytes]; by rewrite E.
  - intros [= <- <- <-]. by apply sized_plain.
  - pose proof Hm as [Hb HM]. unfold SQLITE_MAX_LENGTH in HM.
    rewrite (wrapu_id 32 (Z.of_nat _)) by solve_width.
    rewrite (wrapu_id 32) by solve_width. intros [= <- <- <-].
    replace (Z.of_nat (length z) * 2 + 12 + 1) with (ftype ff (MEM_Str z)) by (cbn [ftype]; lia).
    apply (sized_bytes (MEM_Str z)); [done..|cbn [ftype]; lia|done].
  - pose proof Hm as (Hb & H0 & HM). cbn in HM. unfold SQLITE_MAX_LENGTH in HM.
    rewrite (wrapu_id 32 (Z.of_nat _)) by solve_width.
    rewrite (wrapu_id 32) by solve_width. intros [= <- <- <-].
    replace (Z.of_nat (length z) * 2 + 12 + 0) with (ftype ff (MEM_Blob z None))
      by (cbn [ftype]; change (tail_of None) with 0; lia).
    replace (length z) with (length (fbytes ff (MEM_Blob z None))) by (cbn; by rewrite app_nil_r).
    apply sized_bytes; [done..|cbn [ftype]; change (tail_of None) with 0; lia|].
    cbn. by rewrite app_nil_r.
Qed.

(** The fields [ms] behind the loop, and what it computed for them. *)
Definition sized_all (ms : list Mem) (fs : list (Mem * Z)) (s : sizes) : Prop :=
  map snd fs = map (ftype ff) ms /\
  nHdr s = Z.of_nat (length (hdr ms)) /\
  nData s = Z.of_nat (length (payload fs)) /\
  0 <= nZero s /\
  payload fs ++ repeat 0 (Z.to_nat (nZero s)) = data ms.

Lemma sized_all_step m ms fs s m' t s' :
  sized_all ms fs s -> sized m s m' t s' -> sized_all (m :: ms) ((m', t) :: fs) s'.
Proof.
  intros (T & H & D & Z0 & P) (Et & Eh & Ed & k & Eb & Ez & Hk & Hor).
  unfold sized_all, hdr, payload, data in *. cbn [map concat fst snd]. rewrite !length_app.
  split_and!; [by f_equal|rewrite Eh, H, Et; lia|lia|lia|].
  rewrite Eb, Ez, <- P, <- !app_assoc. f_equal. rewrite Z2Nat.inj_add, repeat_app by lia.
  destruct Hor as [-> | E0]; [by rewrite app_nil_r|]. rewrite D in E0.
  match type of E0 with Z.of_nat (length ?X) = 0 =>
    assert (X = []) as -> by (apply length_zero_iff_nil; lia) end. cbn [app].
  by rewrite <- !repeat_app, Nat.add_comm.
Qed.

Lemma sized_all_room ms fs s : Forall Mem_ok ms -> Z.of_nat (length ms) <= 2 ^ 15 ->
  sized_all ms fs s -> room s.
Proof.
  intros Hm Hn (_ & _ & D & _ & P). pose proof (data_length ms Hm) as B. rewrite <- P in B.
  rewrite length_app in B. unfold room, SQLITE_MAX_LENGTH in *. lia.
Qed.

Lemma size_loop_spec todo : forall ms fs s fs' s',
  Forall Mem_ok todo -> Forall Mem_ok ms -> Z.of_nat (length todo + length ms) <= 2 ^ 15 ->
  sized_all ms fs s -> size_loop alloc ff todo fs s = Ok (fs', s') ->
  sized_all (rev todo ++ ms) fs' s'.
Proof.
  induction todo as [|m todo IH]; intros ms fs s fs' s' Ht Hm Hn Hs; cbn [size_loop rev app].
  - by intros [= <- <-].
  - apply Forall_cons in Ht as [Hm1 Ht]. cbn [length] in Hn.
    destruct (size_field alloc ff m s) as [[[m' t] s1]|e] eqn:E; [|discriminate]. cbn [mbind res_bind].
    intros L. rewrite <- app_assoc. cbn [app]. eapply IH with (s := s1); [done| | |  |exact L].
    + by constructor.
    + cbn [length]. lia.
    + apply sized_all_step with s; [done|]. apply size_field_sized; [done| |done].
      apply sized_all_room with ms fs; [done|lia|done].
Qed.

(** With an allocator that always succeeds, sizing does not fail. *)
Lemma size_loop_total todo : (forall n, alloc n = true) -> forall fs s,
  exists r, size_loop alloc ff todo fs s = Ok r.
Proof.
  intros Ha. induction todo as [|m todo IH]; intros fs s; cbn [size_loop]; [by eexists|].
  assert (exists r, size_field alloc ff m s = Ok r) as [[[m' t] s1] ->]; [|by apply IH].
  destruct m as [[]|i|i|r|z|z [k|]]; cbn [size_field]; try (by eexists).
  - destruct (int_serial ff i). by eexists.
  - destruct (int_serial ff i) as [t n]. destruct (t =? 6); by eexists.
  - destruct (negb _); [|by eexists]. unfold sqlite3VdbeMemExpandBlob. rewrite Ha. by eexists.
Qed.

End Layout.

(** ** The writing loop *)

Lemma store_ext z z' o l : (forall j, z j = z' j) -> forall j, store z o l j = store z' o l j.
Proof. intros E j. unfold store. by rewrite E. Qed.

Ltac store_cases :=
  unfold store; rewrite ?length_app;
  repeat match goal with
    | |- context [(?a <=? ?b)%nat] => destruct (Nat.leb_spec a b)
    | |- context [(?a <? ?b)%nat] => destruct (Nat.ltb_spec a b)
    end; cbn [andb]; try lia; try done.

Lemma store_app z o a b j : 0 <= o ->
  store (store z o a) (o + Z.of_nat (length a)) b j = store z o (a ++ b) j.
Proof.
  intros Ho. store_cases.
  - rewrite app_nth2 by lia. f_equal. lia.
  - by rewrite app_nth1 by lia.
Qed.

Lemma store_comm z o a o' b j : 0 <= o -> o + Z.of_nat (length a) <= o' ->
  store (store z o a) o' b j = store (store z o' b) o a j.
Proof. intros Ho Hd. store_cases. Qed.

Lemma store_nil z o j : store z o [] j = z j.
Proof. store_cases. cbn [length] in *. lia. Qed.

(** The loop writes the serial types in sequence from [h] on and the contents
    in sequence from [p] on; the two areas do not overlap. *)
Lemma write_loop_spec fs : forall z h p, 0 <= h ->
  let H := concat (map (fun f => putVarint32 (snd f)) fs) in
  h + Z.of_nat (length H) <= p ->
  exists z', write_loop fs z h p =
    (z', h + Z.of_nat (length H), p + Z.of_nat (length (payload fs))) /\
  forall j, z' j = store (store z h H) p (payload fs) j.
Proof.
  unfold payload. induction fs as [|[m t] fs IH]; intros z h p Hh; cbn [map concat fst snd write_loop].
  - intros _. exists z. cbn [length]. rewrite !Z.add_0_r. split; [done|]. intros j.
    by rewrite !store_nil.
  - set (a := putVarint32 t). set (b := sqlite3VdbeSerialPut m t).
    rewrite length_app. intros Hp.
    destruct (IH (store (store z h a) p b) (h + Z.of_nat (length a)) (p + Z.of_nat (length b)))
      as (z' & E & S); [lia|lia|].
    exists z'. split; [by rewrite E, !length_app, !Nat2Z.inj_add, !Z.add_assoc|].
    intros j. rewrite S. clear S E IH.
    rewrite <- (store_app _ p b) by lia. apply store_ext. intros i.
    rewrite <- store_comm by lia. apply store_ext. intros i'. by apply store_app.
Qed.

(** ** The reading loop *)

Lemma getVarint32_holds p v : mem_ok p -> is_u 32 v -> holds p (enc v) ->
  getVarint32 p = (v, Z.of_nat (length (enc v))).
Proof.
  intros Hp Hv Hh. assert (is_u 64 v) as Hv' by solve_width.
  assert (varint p = (v, Z.of_nat (length (enc v)))) as E.
  { rewrite <- (varint_enc v p) by done. apply varint_ref_local. intros j Hj.
    change (varint_ref 8 0 0 (mem_app (enc v) p)) with (varint (mem_app (enc v) p)) in Hj.
    rewrite varint_enc in Hj by done. cbn [snd] in Hj. unfold mem_app.
    destruct (Nat.ltb_spec j (length (enc v))); [by apply Hh|lia]. }
  rewrite getVarint32_ref, E by done. cbn [fst snd]. rewrite sat32_small; [done|].
  unfold is_u in Hv. lia.
Qed.

Lemma at_ok p k : mem_ok p -> mem_ok (at_ p k).
Proof. intros H j. apply H. Qed.

Lemma holds_app p a b : holds p (a ++ b) -> holds p a /\ holds (at_ p (length a)) b.
Proof.
  unfold holds, at_. rewrite length_app. intros H. split; intros j Hj.
  - rewrite H by lia. by rewrite app_nth1.
  - rewrite H by lia. rewrite app_nth2 by lia. f_equal. lia.
Qed.

Lemma at_at p a b j : at_ (at_ p a) b j = at_ p (a + b) j.
Proof. unfold at_. f_equal. lia. Qed.

Lemma holds_ext p q l : (forall j, p j = q j) -> holds p l -> holds q l.
Proof. intros E H j Hj. rewrite <- E. by apply H. Qed.

(** The areas a pointer moves over: the bytes at [o], then those after. *)
Lemma holds_split p o a b : 0 <= o -> holds (at_ p (Z.to_nat o)) (a ++ b) ->
  holds (at_ p (Z.to_nat o)) a /\ holds (at_ p (Z.to_nat (o + Z.of_nat (length a)))) b.
Proof.
  intros Ho [Ha Hb]%holds_app. split; [done|]. eapply holds_ext; [|exact Hb].
  intros j. rewrite at_at. f_equal. lia.
Qed.

Lemma unpack_loop_spec ff p nKey nField szHdr : mem_ok p -> 0 <= nKey < 2 ^ 31 ->
  szHdr < 2 ^ 31 -> 0 <= nField < 2 ^ 16 ->
  forall ms fuel idx d acc, Forall Mem_ok ms -> 0 <= idx -> 0 <= d ->
  holds (at_ p (Z.to_nat idx)) (hdr ff ms) -> idx + Z.of_nat (length (hdr ff ms)) = szHdr ->
  holds (at_ p (Z.to_nat d)) (data ff ms) -> d + Z.of_nat (length (data ff ms)) = nKey ->
  Z.of_nat fuel <= nField ->
  exists d', d' <= nKey /\
    unpack_loop fuel p nKey nField szHdr idx d (nField - Z.of_nat fuel) acc =
    (acc ++ map read_back (take fuel ms), d').
Proof.
  intros Hp Hk Hz Hn. induction ms as [|m ms IH]; intros fuel idx d acc Hm Hi Hd Hh Eh Hb Eb Hf.
  { exists d. cbn in Eh, Eb. split; [lia|]. rewrite take_nil. cbn [map]. rewrite app_nil_r.
    destruct fuel; cbn [unpack_loop]; [done|]. by replace (idx <? szHdr) with false by lia. }
  destruct fuel as [|fuel]; [exists d; cbn; rewrite app_nil_r; split; [lia|done]|].
  apply Forall_cons in Hm as [Hm Hms]. pose proof (field_type_range ff m Hm) as Ht.
  unfold hdr, data in Hh, Hb, Eh, Eb. cbn [map concat] in Hh, Hb, Eh, Eb. rewrite length_app in Eh, Eb.
  apply holds_split in Hh as [Hh1 Hh2]; [|done]. apply holds_split in Hb as [Hb1 Hb2]; [|done].
  assert (1 <= length (enc (ftype ff m)))%nat as L1
    by (rewrite length_enc by lia; unfold varint_size; repeat case_match; lia).
  cbn [unpack_loop take map]. rewrite (wrapu_id 32 nKey) by solve_width.
  replace ((idx <? szHdr) && (d <=? nKey)) with true by lia.
  rewrite (getVarint32_holds _ (ftype ff m)) by (auto using at_ok; unfold is_u; lia).
  rewrite (field_get ff m), field_len by done.
  rewrite (wrapu_id 32 (idx + _)) by solve_width.
  rewrite (wrapu_id 32 (d + _)) by solve_width.
  rewrite (wrapu_id 16) by solve_width.
  destruct (IH fuel (idx + Z.of_nat (length (enc (ftype ff m)))) (d + Z.of_nat (length (fbytes ff m)))
    (acc ++ [read_back m])) as (d' & Hd' & E); try done; try lia.
  { rewrite <- Eh. unfold hdr. lia. } { rewrite <- Eb. unfold data. lia. }
  replace (nField - Z.of_nat (S fuel) + 1) with (nField - Z.of_nat fuel) by lia.
  exists d'. rewrite <- app_assoc in E. cbn [app] in E. split; [done|]. rewrite <- E.
  destruct (Z.leb_spec nField (nField - Z.of_nat fuel)); [|done].
  destruct fuel; [done|lia].
Qed.

(** ** The record as a whole *)

Lemma types_hdr ff ms (fs : list (Mem * Z)) : Forall Mem_ok ms -> map snd fs = map (ftype ff) ms ->
  concat (map (fun f => putVarint32 (snd f)) fs) = hdr ff ms.
Proof.
  unfold hdr. intros Hm. revert fs. induction Hm as [|m ms Hm _ IH]; intros [|[m' t] fs] E;
    try discriminate; [done|]. cbn [map snd] in E. injection E as Et E.
  cbn [map concat snd]. rewrite (IH fs) by done. f_equal. rewrite Et. apply putVarint32_enc.
  pose proof (field_type_range ff m Hm). unfold is_u. lia.
Qed.

Lemma size_loop_all alloc ff ms fs s : Forall Mem_ok ms -> Z.of_nat (length ms) <= 2 ^ 15 ->
  size_loop alloc ff (rev ms) [] (Sizes 0 0 0) = Ok (fs, s) -> sized_all ff ms fs s.
Proof.
  intros Hm Hn E. rewrite <- (rev_involutive ms), <- (app_nil_r (rev (rev ms))).
  apply (size_loop_spec ff alloc (rev ms) [] [] (Sizes 0 0 0) fs s); try done.
  - by apply Forall_rev.
  - rewrite length_rev. cbn [length]. lia.
Qed.

(** The record of [ms], with the zeros of its tail. *)
Definition full_record (ff : Z) (ms : list Mem) : list Z :=
  let h := hdr ff ms in
  enc (header_size (Z.of_nat (length h))) ++ h ++ data ff ms.

Lemma make_record_layout alloc ff szMalloc limit z0 ms r :
  Forall Mem_ok ms -> Z.of_nat (length ms) <= 2 ^ 15 -> szMalloc < 2 ^ 31 -> limit < 2 ^ 31 ->
  OP_MakeRecord alloc ff szMalloc limit z0 ms = Ok r ->
  r_zHdr r = r_nHdr r /\ r_zPayload r = r_n r /\
  r_nHdr r = header_size (Z.of_nat (length (hdr ff ms))) /\
  0 <= r_nZero r /\ 0 <= r_n r /\ r_n r + r_nZero r < 2 ^ 31 /\
  r_n r + r_nZero r = Z.of_nat (length (full_record ff ms)) /\
  bytes_at (r_z r) (r_n r) ++ repeat 0 (Z.to_nat (r_nZero r)) = full_record ff ms.
Proof.
  intros Hm Hn Hsz Hlim. unfold OP_MakeRecord.
  destruct (size_loop _ _ _ _ _) as [[fs s]|e] eqn:E; [|discriminate]. cbn [mbind res_bind].
  assert (sized_all ff ms fs s) as (T & H & D & Z0 & P) by (by eapply size_loop_all).
  set (nh := header_size (nHdr s)). intros HR.
  pose proof (hdr_length ff ms Hm) as HL.
  destruct (header_size_spec (nHdr s) ltac:(lia)) as [Hs1 Hs2]. fold nh in Hs1, Hs2.
  assert (nh + nData s + nZero s < 2 ^ 31) as Hbound.
  { destruct (Z.leb_spec (nh + nData s + nZero s) szMalloc); [lia|].
    destruct (Z.ltb_spec limit (nh + nData s + nZero s)); [discriminate HR|lia]. }
  apply res_then in HR. rewrite putVarint32_enc in HR by solve_width.
  pose proof (types_hdr ff ms fs Hm T) as TH.
  edestruct (write_loop_spec fs) as (z' & W & S); [| |rewrite W in HR]; [lia|rewrite TH; lia|].
  rewrite TH in *. injection HR as <-. cbn [r_z r_n r_nZero r_nHdr r_zHdr r_zPayload].
  unfold full_record. rewrite <- H, <- P. fold nh.
  split_and!; try (rewrite ?length_app, ?repeat_length; lia).
  rewrite !app_assoc. f_equal.
  apply bytes_at_holds; [rewrite !length_app; lia|]. intros j Hj. rewrite S.
  assert (forall j, store (store (store z0 0 (enc nh)) (Z.of_nat (length (enc nh))) (hdr ff ms))
    nh (payload fs) j = store z0 0 ((enc nh ++ hdr ff ms) ++ payload fs) j) as ->.
  { intros i. rewrite <- (store_app _ 0 (_ ++ _)) by lia.
    replace (0 + Z.of_nat (length (enc nh ++ hdr ff ms))) with nh by (rewrite length_app; lia).
    apply store_ext. intros k. rewrite <- store_app by lia. by rewrite Z.add_0_l. }
  unfold store. change (Z.to_nat 0) with O. cbn [Nat.leb andb Nat.add].
  rewrite Nat.sub_0_r. by replace (j <? _)%nat with true by (symmetry; by apply Nat.ltb_lt).
Qed.

Lemma full_record_length ff ms fs s : Forall Mem_ok ms -> Z.of_nat (length ms) <= 2 ^ 15 ->
  sized_all ff ms fs s ->
  Z.of_nat (length (full_record ff ms)) = header_size (nHdr s) + nData s + nZero s.
Proof.
  intros Hm Hn (_ & H & D & Z0 & P). pose proof (hdr_length ff ms Hm) as HL.
  destruct (header_size_spec (nHdr s) ltac:(lia)) as [Hs1 Hs2].
  unfold full_record. rewrite <- H, <- P, !length_app, repeat_length. lia.
Qed.

Lemma full_record_bytes ff ms : Forall Mem_ok ms -> Z.of_nat (length ms) <= 2 ^ 15 ->
  Forall is_byte (full_record ff ms).
Proof.
  intros Hm Hn. pose proof (hdr_length ff ms Hm) as HL.
  destruct (header_size_spec (Z.of_nat (length (hdr ff ms))) ltac:(lia)) as [_ Hs].
  unfold full_record. rewrite !Forall_app.
  split_and!; [apply enc_bytes; unfold is_u; lia|by apply hdr_bytes|by apply data_bytes].
Qed.

Lemma mem_app_holds l q : holds (mem_app l q) l.
Proof. intros j Hj. unfold mem_app. by replace (j <? length l)%nat with true by lia. Qed.

(** Reading a full record gives its fields. *)
Lemma unpack_full_record ff ms nField q : Forall Mem_ok ms -> Z.of_nat (length ms) <= 2 ^ 15 ->
  Z.of_nat (length (full_record ff ms)) < 2 ^ 31 -> 1 <= nField < 2 ^ 16 -> mem_ok q ->
  sqlite3VdbeRecordUnpack nField (mem_app (full_record ff ms) q)
    (Z.of_nat (length (full_record ff ms))) = map read_back (take (Z.to_nat nField) ms).
Proof.
  intros Hm Hn HB Hf Hq. pose proof (hdr_length ff ms Hm) as HL.
  assert (mem_ok (mem_app (full_record ff ms) q)) as Hp
    by (apply mem_app_ok; [by apply full_record_bytes|done]).
  pose proof (mem_app_holds (full_record ff ms) q) as Hh.
  set (p := mem_app _ q) in *. clearbody p. set (len := Z.of_nat (length (full_record ff ms))) in *.
  unfold full_record in *.
  destruct (header_size_spec (Z.of_nat (length (hdr ff ms))) ltac:(lia)) as [Hs1 Hs2].
  set (nh := header_size _) in *.
  assert (len = nh + Z.of_nat (length (data ff ms))) as Hlen
    by (unfold len; rewrite !length_app; lia).
  clearbody len. apply (holds_split p 0) in Hh as [H1 H2]; [|lia].
  apply holds_split in H2 as [H2 H3]; [|lia]. rewrite Z.add_0_l in *.
  unfold sqlite3VdbeRecordUnpack.
  rewrite (getVarint32_holds p nh) by (done || solve_width).
  destruct (unpack_loop_spec ff p len nField nh Hp ltac:(lia) ltac:(lia) ltac:(lia) ms
    (Z.to_nat nField) (Z.of_nat (length (enc nh))) nh []) as (d' & Hd & E); try done; try lia.
  { by replace nh with (Z.of_nat (length (enc nh)) + Z.of_nat (length (hdr ff ms))) by lia. }
  rewrite Z2Nat.id, Z.sub_diag in E by lia. rewrite E.
  rewrite (wrapu_id 32) by solve_width. by replace (len <? d') with false by lia.
Qed.

Definition sample : list Mem :=
  [MEM_Null false; MEM_Int 1; MEM_Int (-129); MEM_IntReal (2 ^ 53 + 1); MEM_Str [97; 98];
   MEM_Blob [7] (Some 3); MEM_Int 0; MEM_Blob [] (Some 2); MEM_Null true].

Definition sample_record : record :=
  match OP_MakeRecord (fun _ => true) 4 0 1000 (fun _ => 99) sample with
  | Ok r => r
  | Throw _ => Rec (fun _ => 0) 0 0 0 0 0
  end.

Lemma sample_ok : Forall Mem_ok sample.
Proof. repeat constructor; vm_compute; intros; discriminate. Qed.

(** ** Properties *)

(** C30. For registers the engine can hold (64-bit integers and doubles,
    strings and blobs within the length limit, at most 32768 fields), a record
    built by [OP_MakeRecord] has the header size it computed and fills exactly
    its buffer (the two closing assertions of the opcode), and
    [sqlite3VdbeRecordUnpack] on it, with the zeros of its tail and whatever
    follows in memory, reads back the fields in order, all of them or the first
    [nField]: integers of every width unchanged, strings and blobs unchanged
    with the zeros of their tails, an integer stored for a REAL column as the
    integer or its double, a NaN as NULL.  When the allocator succeeds the
    record is built whenever it fits the limit. *)
Theorem record_roundtrip alloc ff szMalloc limit z0 ms :
  Forall Mem_ok ms -> Z.of_nat (length ms) <= 2 ^ 15 ->
  szMalloc < 2 ^ 31 -> limit <= SQLITE_MAX_LENGTH ->
  (forall r nField q, OP_MakeRecord alloc ff szMalloc limit z0 ms = Ok r ->
     1 <= nField < 2 ^ 16 -> mem_ok q ->
     r_zHdr r = r_nHdr r /\ r_zPayload r = r_n r /\
     sqlite3VdbeRecordUnpack nField
       (mem_app (bytes_at (r_z r) (r_n r) ++ repeat 0 (Z.to_nat (r_nZero r))) q)
       (r_n r + r_nZero r) = map read_back (take (Z.to_nat nField) ms)) /\
  ((forall n, alloc n = true) ->
     (exists r, OP_MakeRecord alloc ff szMalloc limit z0 ms = Ok r) \/
     OP_MakeRecord alloc ff szMalloc limit z0 ms = Throw too_big /\
       limit < Z.of_nat (length (full_record ff ms))).
Proof.
  intros Hm Hn Hsz Hlim. split.
  - intros r nField q HR Hf Hq. unfold SQLITE_MAX_LENGTH in Hlim.
    assert (limit < 2 ^ 31) as Hl by lia.
    destruct (make_record_layout _ _ _ _ _ _ _ Hm Hn Hsz Hl HR)
      as (A1 & A2 & Eh & Z0 & N0 & HB & EL & ->).
    split; [done|]. split; [done|]. rewrite EL in *. apply unpack_full_record; done || lia.
  - intros Ha. unfold OP_MakeRecord.
    destruct (size_loop_total ff alloc (rev ms) Ha [] (Sizes 0 0 0)) as [[fs s] E].
    pose proof (size_loop_all _ _ _ _ _ Hm Hn E) as HS. rewrite E. cbn [mbind res_bind].
    rewrite Ha, (full_record_length ff ms fs s) by done.
    destruct (_ <=? szMalloc); [left; destruct (write_loop _ _ _ _) as [[]]; by eexists|].
    destruct (Z.ltb_spec limit (header_size (nHdr s) + nData s + nZero s)); [by right|].
    left. destruct (write_loop _ _ _ _) as [[]]. by eexists.
Qed.

Lemma record_roundtrip_witness :
  sqlite3VdbeRecordUnpack 20
    (mem_app (bytes_at (r_z sample_record) (r_n sample_record)
                ++ repeat 0 (Z.to_nat (r_nZero sample_record))) (fun _ => 255))
    (r_n sample_record + r_nZero sample_record) = map read_back sample.
Proof.
  apply (record_roundtrip (fun _ => true) 4 0 1000 (fun _ => 99) sample).
  - apply sample_ok.
  - vm_compute; discriminate.
  - lia.
  - vm_compute; discriminate.
  - reflexivity.
  - lia.
  - intros j. unfold is_u. lia.
Defined.
