(* ===== verification/RealParse.v ===== *)
(** * Text to real number and integer to text (util.c of the engine)

    [sqlite3AtoF] for UTF-8 and [sqlite3Int64ToText].  The significand and the
    exponent are exact; their product is computed by the processor in
    [LONGDOUBLE_TYPE], and [scale10 s e] stands for that branch, the double of
    [s * 10^e] with [e] not 0. *)

From S2P Require Import Prelude Ctype IntArith IntParse Record.

(** ** Text to real number *)

(** The largest significand a digit is added to, [(LARGEST_INT64-9)/10]. *)
Definition SIGNIFICAND_MAX : Z := (LARGEST_INT64 - 9) / 10.

(** The inner loop over digits that are not significant. *)
Fixpoint skip_digits (z : list Z) (d : Z) : Z * list Z :=
  match z with
  | c :: z' => if sqlite3Isdigit c then skip_digits z' (d + 1) else (d, z)
  | [] => (d, z)
  end.

(** The digits before the decimal point: [s], [nDigit], [d] and the rest. *)
Fixpoint significand (z : list Z) (s nDigit : Z) : Z * Z * Z * list Z :=
  match z with
  | c :: z' =>
      if sqlite3Isdigit c then
        let s := s * 10 + (c - 48) in
        let nDigit := nDigit + 1 in
        if SIGNIFICAND_MAX <=? s then let '(d, z) := skip_digits z' 0 in (s, nDigit, d, z)
        else significand z' s nDigit
      else (s, nDigit, 0, z)
  | [] => (s, nDigit, 0, z)
  end.

(** The digits after it. *)
Fixpoint fraction (z : list Z) (s nDigit d : Z) : Z * Z * Z * list Z :=
  match z with
  | c :: z' =>
      if sqlite3Isdigit c then
        if s <? SIGNIFICAND_MAX then fraction z' (s * 10 + (c - 48)) (nDigit + 1) (d - 1) else fraction z' s nDigit d
      else (s, nDigit, d, z)
  | [] => (s, nDigit, d, z)
  end.

Fixpoint exponent (z : list Z) (e : Z) (eValid : bool) : Z * bool * list Z :=
  match z with
  | c :: z' => if sqlite3Isdigit c then exponent z' (if e <? 10000 then e * 10 + (c - 48) else 10000) true else (e, eValid, z)
  | [] => (e, eValid, z)
  end.

(** The variables of the function when it reaches [do_atof_calc]. *)
Record real_parts : Type := {
  r_neg : bool; r_s : Z; r_d : Z; r_esign : Z; r_e : Z; r_eValid : bool; r_nDigit : Z; r_eType : Z; r_rest : list Z
}.

Definition scan_exponent (neg : bool) (s nDigit d eType : Z) (z : list Z) : real_parts :=
  let at_end esign e eValid eType z :=
    {| r_neg := neg; r_s := s; r_d := d; r_esign := esign; r_e := e; r_eValid := eValid; r_nDigit := nDigit; r_eType := eType; r_rest := z |} in
  match z with
  | [] => at_end 1 0 true eType []
  | c :: z' =>
      if (c =? 101) || (c =? 69) then
        match z' with
        | [] => at_end 1 0 false (eType + 1) []
        | c :: z'' =>
            let '(esign, z) := if c =? 45 then (-1, z'') else if c =? 43 then (1, z'') else (1, z') in
            let '(e, eValid, z) := exponent z 0 false in
            at_end esign e eValid (eType + 1) (skip_while sqlite3Isspace z)
        end
      else at_end 1 0 true eType (skip_while sqlite3Isspace z)
  end.

Definition scan_number (neg : bool) (z : list Z) : real_parts :=
  let '(s, nDigit, d, z) := significand z 0 0 in
  match z with
  | c :: z' =>
      if c =? 46 then let '(s, nDigit, d, z) := fraction z' s nDigit d in scan_exponent neg s nDigit d 2 z
      else scan_exponent neg s nDigit d 1 z
  | [] => scan_exponent neg s nDigit d 1 z
  end.

(** The loop that reduces the exponent [e], positive or negative. *)
Fixpoint reduce (e : nat) (positive : bool) (s : Z) : Z * nat :=
  match e with
  | O => (s, O)
  | S e' =>
      if positive then if LARGEST_INT64 / 10 <=? s then (s, e) else reduce e' positive (s * 10)
      else if negb (Z.rem s 10 =? 0) then (s, e) else reduce e' positive (Z.quot s 10)
  end.

Section AtoF.
Context (scale10 : Z -> Z -> Z).

Definition AtoF_value (p : real_parts) : Z :=
  let e := r_e p * r_esign p + r_d p in
  let positive := 0 <=? e in
  if r_s p =? 0 then (if r_neg p then 2 ^ 63 else 0)
  else
    let '(s, n) := reduce (Z.to_nat (Z.abs e)) positive (r_s p) in
    let s := if r_neg p then - s else s in
    match n with
    | O => double_of_int s
    | _ => scale10 s (if positive then Z.of_nat n else - Z.of_nat n)
    end.

Definition AtoF_code (p : real_parts) : Z :=
  if is_nil (r_rest p) && (0 <? r_nDigit p) && r_eValid p && (0 <? r_eType p) then r_eType p
  else if (2 <=? r_eType p) && ((r_eType p =? 3) || r_eValid p) && (0 <? r_nDigit p) then -1
  else 0.

(** The return code and [*pResult]. *)
Definition sqlite3AtoF (z : list Z) : Z * Z :=
  match skip_while sqlite3Isspace z with
  | [] => (0, 0)
  | c :: z' =>
      let '(neg, z) := if c =? 45 then (true, z') else if c =? 43 then (false, z') else (false, c :: z') in
      let p := scan_number neg z in (AtoF_code p, AtoF_value p)
  end.
End AtoF.

(** ** Integer to text *)

(** [do zTemp[i--] = (x%10) + '0'; while( x = x/10 )]; 20 bytes are enough. *)
Fixpoint digits_loop (fuel : nat) (x : Z) (zTemp : list Z) : list Z :=
  match fuel with
  | O => zTemp
  | S fuel =>
      let zTemp := x mod 10 + 48 :: zTemp in
      let x := x / 10 in
      if x =? 0 then zTemp else digits_loop fuel x zTemp
  end.

(** The text without its NUL. *)
Definition sqlite3Int64ToText (v : Z) : list Z :=
  let x := if v <? 0 then (if v =? SMALLEST_INT64 then u64 (Z.shiftl 1 63) else u64 (- v)) else v in
  let zTemp := digits_loop 20 x [] in
  if v <? 0 then 45 :: zTemp else zTemp.

(** ** Scanning *)

Lemma digit_is c : is_digit c -> sqlite3Isdigit c = true.
Proof. intros H. rewrite isdigit_spec by (by apply digit_byte). unfold is_digit in H. lia. Qed.

Definition stops (rest : list Z) : Prop := sqlite3Isdigit (hd 0 rest) = false.

(** Digits and what follows them. *)
Lemma digits_span z : Forall is_byte z -> exists ds rest, z = ds ++ rest /\ Forall is_digit ds /\ stops rest.
Proof.
  induction 1 as [|c z Hc Hz (ds & rest & -> & Hd & Hr)]; [by exists [], []|].
  destruct (sqlite3Isdigit c) eqn:E; [|by exists [], (c :: ds ++ rest)].
  exists (c :: ds), rest. split; [done|]. split; [|done]. constructor; [|done]. rewrite isdigit_spec in E by done. unfold is_digit. lia.
Qed.

Lemma skip_digits_spec ds rest d : Forall is_digit ds -> stops rest -> skip_digits (ds ++ rest) d = (d + Z.of_nat (length ds), rest).
Proof.
  intros H Hr. revert d. induction H as [|c ds Hc _ IH]; intros d; cbn [app skip_digits length].
  - rewrite Z.add_0_r. destruct rest as [|c rest]; [done|]. unfold stops in Hr. cbn [hd] in Hr. cbn [skip_digits]. by rewrite Hr.
  - rewrite digit_is, IH by done. f_equal. lia.
Qed.

(** The number [s] with the digits [ds] appended. *)
Definition extend (s : Z) (ds : list Z) : Z := s * 10 ^ Z.of_nat (length ds) + dec ds.

Lemma extend_cons s c ds : extend s (c :: ds) = extend (s * 10 + (c - 48)) ds.
Proof. unfold extend. rewrite pow_len_cons. cbn [dec]. ring. Qed.
Lemma extend_lower s ds : Forall is_digit ds -> 0 <= s -> s * 10 ^ Z.of_nat (length ds) <= extend s ds.
Proof. intros H Hs. unfold extend. pose proof (dec_bounds ds H). lia. Qed.
Lemma extend_app s a b : extend s (a ++ b) = extend (extend s a) b.
Proof. revert s. induction a as [|c a IH]; intros s; [cbn [app]; f_equal; unfold extend; cbn; lia|]. cbn [app]. by rewrite !extend_cons, IH. Qed.

Lemma significand_max : SIGNIFICAND_MAX = 922337203685477579.
Proof. reflexivity. Qed.

(** Up to 10^18 the significand is exact. *)
Lemma full_last s ds : Forall is_digit ds -> SIGNIFICAND_MAX <= s -> extend s ds < 10 ^ 18 -> ds = [].
Proof.
  rewrite significand_max. intros H Hs Hv. destruct ds as [|c ds]; [done|]. exfalso.
  pose proof (extend_lower s _ H ltac:(lia)) as L. rewrite pow_len_cons in L. pose proof (pow_len_pos 10 ds ltac:(lia)). nia.
Qed.

Lemma significand_spec ds rest : Forall is_digit ds -> stops rest -> forall s n, exists s' n' d,
  significand (ds ++ rest) s n = (s', n', d, rest) /\ n <= n' <= n + Z.of_nat (length ds) /\ (ds <> [] -> n < n') /\
  (0 <= s -> extend s ds < 10 ^ 18 -> s' = extend s ds /\ d = 0).
Proof.
  intros H Hr. induction H as [|c ds Hc Hds IH]; intros s n.
  - exists s, n, 0. split; [|split; [cbn [length]; lia|split; [done|intros; unfold extend; cbn; lia]]].
    destruct rest as [|c rest]; [done|]. unfold stops in Hr. cbn [hd] in Hr. cbn [app significand]. by rewrite Hr.
  - cbn [app significand]. rewrite digit_is by done. destruct (Z.leb_spec SIGNIFICAND_MAX (s * 10 + (c - 48))) as [Hm|Hm].
    + rewrite skip_digits_spec by done. do 3 eexists. split; [done|]. split; [cbn [length]; lia|]. split; [lia|]. intros Hs Hv. rewrite extend_cons in *.
      rewrite (full_last _ ds Hds Hm Hv). unfold extend. cbn. lia.
    + destruct (IH (s * 10 + (c - 48)) (n + 1)) as (s' & n' & d & E & Hn & _ & Hv). exists s', n', d.
      split; [done|]. split; [cbn [length]; lia|]. split; [lia|]. intros Hs. rewrite extend_cons. apply Hv. unfold is_digit in Hc. lia.
Qed.

Lemma fraction_spec ds rest : Forall is_digit ds -> stops rest -> forall s n d, exists s' n' d',
  fraction (ds ++ rest) s n d = (s', n', d', rest) /\ n <= n' <= n + Z.of_nat (length ds) /\ (ds <> [] -> s < SIGNIFICAND_MAX -> n < n') /\
  (0 <= s -> extend s ds < 10 ^ 18 -> s' = extend s ds /\ d' = d - Z.of_nat (length ds)).
Proof.
  intros H Hr. induction H as [|c ds Hc Hds IH]; intros s n d.
  - exists s, n, d. split; [|split; [cbn [length]; lia|split; [done|intros; unfold extend; cbn; lia]]].
    destruct rest as [|c rest]; [done|]. unfold stops in Hr. cbn [hd] in Hr. cbn [app fraction]. by rewrite Hr.
  - cbn [app fraction]. rewrite digit_is by done. destruct (Z.ltb_spec s SIGNIFICAND_MAX) as [Hm|Hm].
    + destruct (IH (s * 10 + (c - 48)) (n + 1) (d - 1)) as (s' & n' & d' & E & Hn & _ & Hv). exists s', n', d'.
      split; [done|]. split; [cbn [length]; lia|]. split; [lia|]. intros Hs. rewrite extend_cons. cbn [length]. intros Hx.
      destruct Hv as [-> ->]; [unfold is_digit in Hc; lia|done|]. split; [done|lia].
    + destruct (IH s n d) as (s' & n' & d' & E & Hn & _ & _). exists s', n', d'. split; [done|]. split; [cbn [length]; lia|]. split; [lia|].
      intros Hs Hx. by assert (c :: ds = []) by (apply (full_last s); [by constructor|done..]).
Qed.

(** The exponent is exact up to 9999. *)
Lemma exponent_spec ds rest : Forall is_digit ds -> stops rest -> forall e v, exists e',
  exponent (ds ++ rest) e v = (e', match ds with [] => v | _ => true end, rest) /\ (0 <= e -> extend e ds < 10000 -> e' = extend e ds).
Proof.
  intros H Hr. induction H as [|c ds Hc Hds IH]; intros e v.
  - exists e. split; [|intros; unfold extend; cbn; lia]. destruct rest as [|c rest]; [done|]. unfold stops in Hr. cbn [hd] in Hr.
    cbn [app exponent]. by rewrite Hr.
  - cbn [app exponent]. rewrite digit_is by done.
    destruct (IH (if e <? 10000 then e * 10 + (c - 48) else 10000) true) as (e' & E & Hv). exists e'. split; [rewrite E; by destruct ds|].
    intros He. rewrite extend_cons. intros Hx. unfold is_digit in Hc.
    pose proof (extend_lower (e * 10 + (c - 48)) ds Hds ltac:(lia)). pose proof (pow_len_pos 10 ds ltac:(lia)).
    replace (e <? 10000) with true in Hv by nia. apply Hv; [lia|done].
Qed.

(** ** Numerals *)

Definition space (c : Z) : Prop := is_byte c /\ sqlite3Isspace c = true.

(** [sp sg ip.fp e sg xp tail]: spaces, a sign, digits, the digits after a decimal
    point, the letter, sign and digits of an exponent, and spaces. *)
Record numeral : Type := {
  n_space : list Z; n_sign : list Z; n_int : list Z; n_frac : option (list Z); n_exp : option (Z * list Z * list Z); n_tail : list Z
}.
Definition frac_text (f : option (list Z)) : list Z := match f with Some ds => 46 :: ds | None => [] end.
Definition exp_text (x : option (Z * list Z * list Z)) : list Z := match x with Some (c, sg, ds) => c :: sg ++ ds | None => [] end.
Definition numeral_text (n : numeral) : list Z :=
  n_space n ++ n_sign n ++ n_int n ++ frac_text (n_frac n) ++ exp_text (n_exp n) ++ n_tail n.

Definition frac_digits (f : option (list Z)) : list Z := match f with Some ds => ds | None => [] end.
Definition exp_ok (x : option (Z * list Z * list Z)) : Prop :=
  match x with Some (c, sg, ds) => (c = 101 \/ c = 69) /\ is_sign sg /\ Forall is_digit ds /\ ds <> [] | None => True end.
Definition numeral_ok (n : numeral) : Prop :=
  Forall space (n_space n) /\ is_sign (n_sign n) /\ Forall is_digit (n_int n) /\ Forall is_digit (frac_digits (n_frac n)) /\
  n_int n ++ frac_digits (n_frac n) <> [] /\ exp_ok (n_exp n) /\ Forall space (n_tail n).

(** [significand * 10^exponent] *)
Definition n_significand (n : numeral) : Z := dec (n_int n ++ frac_digits (n_frac n)).
Definition exp_value (x : option (Z * list Z * list Z)) : Z := match x with Some (_, sg, ds) => signed sg (dec ds) | None => 0 end.
Definition n_exponent (n : numeral) : Z := exp_value (n_exp n) - Z.of_nat (length (frac_digits (n_frac n))).
Definition present {A} (o : option A) : Z := match o with Some _ => 1 | None => 0 end.
Definition n_type (n : numeral) : Z := 1 + present (n_frac n) + present (n_exp n).

Lemma space_stops tail : Forall space tail -> stops tail.
Proof.
  intros H. destruct H as [|c tail [Hb Hc] _]; [done|]. unfold stops. cbn [hd]. rewrite isdigit_spec, isspace_spec in * by done. lia.
Qed.
Lemma space_head c : space c -> c <> 46 /\ c <> 101 /\ c <> 69 /\ c <> 43 /\ c <> 45.
Proof. intros [Hb Hc]. rewrite isspace_spec in Hc by done. lia. Qed.
Lemma skip_space sp z : Forall space sp -> skip_while sqlite3Isspace (sp ++ z) = skip_while sqlite3Isspace z.
Proof. intros H. apply skip_while_all. eapply Forall_impl; [done|]. by intros c []. Qed.
Lemma skip_all_spaces sp : Forall space sp -> skip_while sqlite3Isspace sp = [].
Proof. intros H. rewrite <- (app_nil_r sp). by rewrite skip_space. Qed.
Lemma space_span z : Forall is_byte z -> exists sp, z = sp ++ skip_while sqlite3Isspace z /\ Forall space sp.
Proof.
  induction 1 as [|c z Hc _ (sp & E & Hs)]; [by exists []|]. cbn [skip_while]. destruct (sqlite3Isspace c) eqn:Ec; [|by exists []].
  exists (c :: sp). cbn [app]. rewrite <- E. split; [done|]. by constructor.
Qed.

(** The sign in front of digits and other text. *)
Definition split_sign {A} (k : bool -> list Z -> A) (z : list Z) (other : A) : A :=
  match z with
  | c :: z' => if c =? 45 then k true z' else if c =? 43 then k false z' else k false z
  | [] => other
  end.

Lemma digit_head ds : Forall is_digit ds -> ds <> [] -> exists c ds', ds = c :: ds' /\ c <> 45 /\ c <> 43 /\ sqlite3Isspace c = false.
Proof.
  intros H Hn. destruct H as [|c ds Hc _]; [done|]. exists c, ds. split; [done|]. unfold is_digit in Hc.
  rewrite isspace_spec by (by apply digit_byte). lia.
Qed.

(** ** The exponent and the end *)

Lemma scan_exponent_spec neg s n d t x tail : exp_ok x -> Forall space tail -> exists e sg,
  scan_exponent neg s n d t (exp_text x ++ tail) =
    {| r_neg := neg; r_s := s; r_d := d; r_esign := sg; r_e := e; r_eValid := true; r_nDigit := n;
       r_eType := t + present x; r_rest := [] |} /\
  (Z.abs (exp_value x) < 10000 -> e * sg = exp_value x).
Proof.
  intros Hx Ht. destruct x as [[[c sg] ds]|]; cbn [exp_text exp_ok exp_value app] in *.
  - destruct Hx as (Hc & Hs & Hd & Hn). unfold scan_exponent. replace ((c =? 101) || (c =? 69)) with true by lia.
    destruct (exponent_spec ds tail Hd (space_stops _ Ht) 0 false) as (e & E & Hv). rewrite <- app_assoc.
    assert (match ds with [] => false | _ => true end = true) as Ev by (by destruct ds). rewrite Ev in E.
    exists e, (if decide (sg = [45]) then -1 else 1). split.
    + destruct (digit_head ds Hd Hn) as (c' & ds' & Ed & H1 & H2 & _). destruct Hs as [->|[->| ->]]; cbn [app].
      * rewrite Ed in E |- *. cbn [app] in *. replace (c' =? 45) with false by lia. replace (c' =? 43) with false by lia.
        rewrite E. by rewrite skip_all_spaces.
      * cbn [Z.eqb Pos.eqb]. rewrite E. by rewrite skip_all_spaces.
      * cbn [Z.eqb Pos.eqb]. rewrite E. by rewrite skip_all_spaces.
    + unfold signed. pose proof (dec_bounds ds Hd). unfold extend in Hv. case_decide; intros Ha; rewrite Hv by lia; lia.
  - rewrite Z.add_0_r. exists 0, 1. split; [|done]. destruct tail as [|c tail]; [done|]. unfold scan_exponent.
    apply Forall_inv in Ht as Hc. destruct (space_head c Hc) as (_ & H1 & H2 & _).
    replace ((c =? 101) || (c =? 69)) with false by lia. by rewrite skip_all_spaces.
Qed.

Lemma exp_stops x tail : exp_ok x -> Forall space tail -> stops (exp_text x ++ tail) /\ hd 0 (exp_text x ++ tail) <> 46.
Proof.
  intros Hx Ht. destruct x as [[[c sg] ds]|]; cbn [exp_text exp_ok app] in *.
  - destruct Hx as ([->| ->] & _); split; done.
  - split; [by apply space_stops|]. destruct Ht as [|c tail Hc _]; [done|]. by destruct (space_head c Hc).
Qed.

Lemma scan_number_spec neg ip f x tail : Forall is_digit ip -> Forall is_digit (frac_digits f) -> ip ++ frac_digits f <> [] ->
  exp_ok x -> Forall space tail ->
  let p := scan_number neg (ip ++ frac_text f ++ exp_text x ++ tail) in
  r_neg p = neg /\ r_rest p = [] /\ 0 < r_nDigit p /\ r_eValid p = true /\ r_eType p = 1 + present f + present x /\
  (dec (ip ++ frac_digits f) < 10 ^ 18 -> Z.abs (exp_value x) < 10000 ->
   r_s p = dec (ip ++ frac_digits f) /\ r_e p * r_esign p + r_d p = exp_value x - Z.of_nat (length (frac_digits f))).
Proof.
  intros Hi Hf Hn Hx Ht. destruct (exp_stops x tail Hx Ht) as [Hs Hd]. destruct f as [fp|]; cbn [frac_text frac_digits default app] in *.
  - destruct (significand_spec ip (46 :: fp ++ exp_text x ++ tail) Hi eq_refl 0 0) as (s & n & d & E & Hb & Hp & Hv).
    destruct (fraction_spec fp (exp_text x ++ tail) Hf Hs s n d) as (s' & n' & d' & E' & Hb' & Hp' & Hv').
    destruct (scan_exponent_spec neg s' n' d' 2 x tail Hx Ht) as (e & sg & Ex & He). 
    assert (scan_number neg (ip ++ 46 :: fp ++ exp_text x ++ tail) = scan_exponent neg s' n' d' 2 (exp_text x ++ tail)) as ->
      by (unfold scan_number; rewrite E; cbn [Z.eqb Pos.eqb]; by rewrite E').
    rewrite Ex. cbn. split; [done|]. split; [done|]. split.
    { destruct (decide (ip = [])) as [->|Hne]; [|pose proof (Hp Hne); lia]. cbn [app] in *. destruct Hv as [-> _]; [lia|done|].
      pose proof (Hp' Hn eq_refl). lia. }
    split; [done|]. split; [lia|]. intros B1 B2.
    assert (extend (extend 0 ip) fp = dec (ip ++ fp)) as Ev by (rewrite <- extend_app; unfold extend; lia).
    pose proof (dec_bounds ip Hi). assert (0 <= extend 0 ip) by (unfold extend; lia).
    pose proof (extend_lower (extend 0 ip) fp Hf ltac:(done)). pose proof (pow_len_pos 10 fp ltac:(lia)).
    destruct Hv as [-> ->]; [lia|nia|]. destruct Hv' as [-> ->]; [lia|lia|]. rewrite He by done. lia.
  - destruct (significand_spec ip (exp_text x ++ tail) Hi Hs 0 0) as (s & n & d & E & Hb & Hp & Hv).
    destruct (scan_exponent_spec neg s n d 1 x tail Hx Ht) as (e & sg & Ex & He). rewrite app_nil_r in *.
    assert (scan_number neg (ip ++ exp_text x ++ tail) = scan_exponent neg s n d 1 (exp_text x ++ tail)) as ->.
    { unfold scan_number. rewrite E. destruct (exp_text x ++ tail) as [|c z]; [done|]. cbn [hd] in Hd.
      by replace (c =? 46) with false by lia. }
    rewrite Ex. cbn. split; [done|]. split; [done|]. split; [auto|]. split; [done|]. split; [lia|]. intros B1 B2.
    destruct Hv as [-> ->]; [lia|unfold extend; lia|]. rewrite He by done. unfold extend. lia.
Qed.

(** ** The value *)

Lemma reduce_spec positive k : forall s, 0 < s <= LARGEST_INT64 -> exists s' m, reduce k positive s = (s', m) /\ (m <= k)%nat /\
  0 < s' <= LARGEST_INT64 /\
  if positive then s' = s * 10 ^ (Z.of_nat k - Z.of_nat m) else s = s' * 10 ^ (Z.of_nat k - Z.of_nat m).
Proof.
  assert (forall s m, s = s * 10 ^ (Z.of_nat m - Z.of_nat m)) as Z0 by (intros s m; rewrite Z.sub_diag; lia).
  induction k as [|k IH]; intros s Hs; cbn [reduce]; [exists s, 0%nat; split; [done|split; [lia|split; [done|destruct positive; apply Z0]]]|].
  assert (forall m, (m <= k)%nat -> 10 ^ (Z.of_nat (S k) - Z.of_nat m) = 10 * 10 ^ (Z.of_nat k - Z.of_nat m)) as P
    by (intros m Hm; rewrite <- Z.pow_succ_r by lia; f_equal; lia).
  destruct positive.
  - destruct (Z.leb_spec (LARGEST_INT64 / 10) s) as [Hl|Hl]; [exists s, (S k); split; [done|split; [lia|split; [done|apply Z0]]]|].
    change (LARGEST_INT64 / 10) with 922337203685477580 in Hl. unfold LARGEST_INT64 in *.
    destruct (IH (s * 10)) as (s' & m & -> & Hm & Hb & Hv); [lia|]. exists s', m. split; [done|]. split; [lia|]. split; [done|].
    rewrite P by lia. lia.
  - destruct (Z.eqb_spec (Z.rem s 10) 0) as [Hr|Hr]; cbn [negb]; [|exists s, (S k); split; [done|split; [lia|split; [done|apply Z0]]]].
    pose proof (Z.quot_rem s 10 ltac:(lia)) as D. rewrite Hr in D.
    destruct (IH (Z.quot s 10)) as (s' & m & -> & Hm & Hb & Hv); [lia|]. exists s', m. split; [done|]. split; [lia|]. split; [done|].
    rewrite P by lia. lia.
Qed.

(** [s * 10^e = s' * 10^e'], without fractions. *)
Definition same_number (s e s' e' : Z) : Prop := s * 10 ^ Z.max 0 (e - e') = s' * 10 ^ Z.max 0 (e' - e).

Section Value.
Context (scale10 : Z -> Z -> Z).

Lemma value_spec p (e := r_e p * r_esign p + r_d p) : 0 < r_s p <= LARGEST_INT64 -> exists s' e',
  same_number (r_s p) e s' e' /\ (0 <= e' <= e \/ e <= e' <= 0) /\ 0 < s' <= LARGEST_INT64 /\
  AtoF_value scale10 p = let s' := if r_neg p then - s' else s' in if e' =? 0 then double_of_int s' else scale10 s' e'.
Proof.
  intros Hs. unfold AtoF_value. fold e. replace (r_s p =? 0) with false by lia.
  destruct (reduce_spec (0 <=? e) (Z.to_nat (Z.abs e)) (r_s p) Hs) as (s' & m & -> & Hm & Hb & Hv).
  exists s', (if 0 <=? e then Z.of_nat m else - Z.of_nat m). unfold same_number.
  destruct (Z.leb_spec 0 e) as [He|He].
  - replace (Z.max 0 (Z.of_nat m - e)) with 0 by lia. replace (Z.max 0 (e - Z.of_nat m)) with (Z.of_nat (Z.to_nat (Z.abs e)) - Z.of_nat m) by lia.
    split; [lia|]. split; [lia|]. split; [done|]. by destruct m.
  - replace (Z.max 0 (e - - Z.of_nat m)) with 0 by lia. replace (Z.max 0 (- Z.of_nat m - e)) with (Z.of_nat (Z.to_nat (Z.abs e)) - Z.of_nat m) by lia.
    split; [lia|]. split; [lia|]. split; [done|]. by destruct m.
Qed.

Lemma sign_split sg z : is_sign sg -> (sg = [] -> hd 0 z <> 45 /\ hd 0 z <> 43) -> sg ++ z <> [] ->
  exists c z', sg ++ z = c :: z' /\
    (if c =? 45 then (true, z') else if c =? 43 then (false, z') else (false, c :: z')) = (bool_decide (sg = [45]), z).
Proof.
  intros [->|[->| ->]] H Hn; cbn [app] in *; [|by eexists _, _..]. destruct z as [|c z]; [done|]. exists c, z. split; [done|].
  destruct (H eq_refl) as [H1 H2]. cbn [hd] in *. replace (c =? 45) with false by lia. by replace (c =? 43) with false by lia.
Qed.

Lemma numeral_start n : numeral_ok n -> let z := n_int n ++ frac_text (n_frac n) ++ exp_text (n_exp n) ++ n_tail n in
  z <> [] /\ sqlite3Isspace (hd 0 z) = false /\ hd 0 z <> 45 /\ hd 0 z <> 43.
Proof.
  intros (_ & _ & Hi & Hf & Hn & _). destruct (decide (n_int n = [])) as [E|E].
  - rewrite E in *. cbn [app] in *. destruct (n_frac n) as [fp|]; [|done]. done.
  - destruct (digit_head _ Hi E) as (c & ds & -> & H1 & H2 & H3). by cbn.
Qed.

Lemma atof_scan n : numeral_ok n ->
  sqlite3AtoF scale10 (numeral_text n) =
    let p := scan_number (bool_decide (n_sign n = [45])) (n_int n ++ frac_text (n_frac n) ++ exp_text (n_exp n) ++ n_tail n) in
    (AtoF_code p, AtoF_value scale10 p).
Proof.
  intros H. pose proof (numeral_start n H) as (Hz & Hs & H1 & H2). destruct H as (Hsp & Hsg & _). unfold sqlite3AtoF, numeral_text.
  rewrite skip_space by done. destruct (sign_split (n_sign n) _ Hsg ltac:(done) ltac:(by intros [_ ?]%app_nil)) as (c & z' & E & Ec).
  rewrite skip_while_stop.
  - rewrite E, Ec. done.
  - destruct Hsg as [E'|[E'|E']]; rewrite E'; [done|..]; done.
Qed.
End Value.

(** ** Texts that are read as numerals *)

Lemma split_exp neg s n d t z : Forall is_byte z -> r_rest (scan_exponent neg s n d t z) = [] -> r_eValid (scan_exponent neg s n d t z) = true ->
  exists x tail, z = exp_text x ++ tail /\ exp_ok x /\ Forall space tail.
Proof.
  intros Hb. assert (forall z, Forall is_byte z -> skip_while sqlite3Isspace z = [] -> Forall space z) as Sp.
  { intros y Hy E. destruct (space_span y Hy) as (sp & E' & Hs). rewrite E, app_nil_r in E'. by subst. }
  destruct z as [|c z]; [intros; by exists None, []|]. unfold scan_exponent.
  destruct ((c =? 101) || (c =? 69)) eqn:Ec; [|intros Hr _; exists None, (c :: z); split; [done|]; split; [done|]; by apply Sp].
  apply Forall_cons in Hb as [_ Hb]. destruct z as [|c1 z]; [done|].
  assert (exists sg z1, c1 :: z = sg ++ z1 /\ is_sign sg /\
    (if c1 =? 45 then (-1, z) else if c1 =? 43 then (1, z) else (1, c1 :: z)) = (if decide (sg = [45]) then -1 else 1, z1)) as (sg & z1 & E & Hsg & ->).
  { destruct (Z.eqb_spec c1 45) as [->|]; [exists [45], z; by split; [|split; [right; right|]]|].
    destruct (Z.eqb_spec c1 43) as [->|]; [exists [43], z; by split; [|split; [right; left|]]|].
    exists [], (c1 :: z). by split; [|split; [left|]]. }
  rewrite E in Hb. apply Forall_app in Hb as [_ Hb]. destruct (digits_span z1 Hb) as (ds & rest & -> & Hd & Hr).
  destruct (exponent_spec ds rest Hd Hr 0 false) as (e & -> & _). cbn. intros Hrest Hv. apply Forall_app in Hb as [_ Hb].
  exists (Some (c, sg, ds)), rest. cbn [exp_text exp_ok app]. rewrite E, <- app_assoc. split; [done|].
  split; [split; [lia|]; split; [done|]; split; [done|]; by destruct ds|by apply Sp].
Qed.

Lemma split_number neg z : Forall is_byte z -> let p := scan_number neg z in
  r_rest p = [] -> r_eValid p = true -> 0 < r_nDigit p ->
  exists ip f x tail, z = ip ++ frac_text f ++ exp_text x ++ tail /\ Forall is_digit ip /\ Forall is_digit (frac_digits f) /\
    ip ++ frac_digits f <> [] /\ exp_ok x /\ Forall space tail.
Proof.
  intros Hb. destruct (digits_span z Hb) as (ip & rest & -> & Hi & Hr). apply Forall_app in Hb as [_ Hb].
  destruct (significand_spec ip rest Hi Hr 0 0) as (s & n & d & E & Hn & _). unfold scan_number. rewrite E.
  assert (forall m t z, r_nDigit (scan_exponent neg s m d t z) = m) as Nd.
  { intros m t [|c y]; [done|]. unfold scan_exponent. destruct (_ || _); [|done]. destruct y as [|c1 y]; [done|]. by repeat case_match. }
  assert (forall s m d t z, r_nDigit (scan_exponent neg s m d t z) = m) as Nd'.
  { intros s1 m d1 t [|c y]; [done|]. unfold scan_exponent. destruct (_ || _); [|done]. destruct y as [|c1 y]; [done|]. by repeat case_match. }
  destruct (match rest with c :: _ => c =? 46 | [] => false end) eqn:Ed.
  - destruct rest as [|c rest]; [done|]. apply Z.eqb_eq in Ed as ->. cbn [Z.eqb Pos.eqb]. apply Forall_cons in Hb as [_ Hb].
    destruct (digits_span rest Hb) as (fp & rest' & -> & Hf & Hr'). apply Forall_app in Hb as [_ Hb].
    destruct (fraction_spec fp rest' Hf Hr' s n d) as (s' & n' & d' & E' & Hn' & _). rewrite E'. cbn. intros Hrest Hv Hp. rewrite Nd' in Hp.
    destruct (split_exp _ _ _ _ _ _ Hb Hrest Hv) as (x & tail & -> & Hx & Ht).
    exists ip, (Some fp), x, tail. cbn [frac_text frac_digits default]. split; [done|]. split; [done|]. split; [done|].
    split; [|done]. intros [-> ->]%app_nil. cbn [length] in *. lia.
  - assert ((match rest with c :: z' => if c =? 46 then let '(s, nDigit, d, z) := fraction z' s n d in scan_exponent neg s nDigit d 2 z
      else scan_exponent neg s n d 1 rest | [] => scan_exponent neg s n d 1 rest end) = scan_exponent neg s n d 1 rest) as ->
      by (destruct rest as [|c rest]; [done|]; by rewrite Ed).
    cbn. intros Hrest Hv Hp. rewrite Nd in Hp. destruct (split_exp _ _ _ _ _ _ Hb Hrest Hv) as (x & tail & -> & Hx & Ht).
    exists ip, None, x, tail. cbn [frac_text frac_digits default app]. rewrite app_nil_r. split; [done|]. split; [done|]. split; [done|].
    split; [|done]. intros ->. cbn [length] in *. lia.
Qed.

Lemma code_positive p : 0 < AtoF_code p -> r_rest p = [] /\ r_eValid p = true /\ 0 < r_nDigit p.
Proof.
  unfold AtoF_code. destruct (is_nil (r_rest p) && (0 <? r_nDigit p) && r_eValid p && (0 <? r_eType p)) eqn:E;
    [|destruct ((2 <=? r_eType p) && ((r_eType p =? 3) || r_eValid p) && (0 <? r_nDigit p)); lia].
  intros _. destruct (r_rest p); [|done]. destruct (r_eValid p); [split; [done|split; [done|lia]]|]. by rewrite andb_false_r in E.
Qed.



(** ** Integers as text *)

Lemma digits_loop_spec fuel : forall x acc, 0 <= x < 10 ^ Z.of_nat fuel -> (0 < fuel)%nat -> exists ds,
  digits_loop fuel x acc = ds ++ acc /\ Forall is_digit ds /\ ds <> [] /\ dec ds = x /\ (hd 0 ds = 48 -> ds = [48]).
Proof.
  induction fuel as [|fuel IH]; intros x acc Hx Hf; [lia|]. cbn [digits_loop]. pose proof (Z.div_mod x 10 ltac:(lia)) as D.
  pose proof (Z.mod_pos_bound x 10 ltac:(lia)) as M. assert (is_digit (x mod 10 + 48)) as Hd by (unfold is_digit; lia).
  destruct (Z.eqb_spec (x / 10) 0) as [E|E].
  - exists [x mod 10 + 48]. split; [done|]. split; [by apply Forall_singleton|]. split; [done|]. split; [cbn; lia|]. cbn [hd]. by intros ->.
  - destruct fuel as [|fuel']; [change (10 ^ Z.of_nat 1) with 10 in Hx; lia|]. remember (S fuel') as fuel.
    rewrite Nat2Z.inj_succ, Z.pow_succ_r in Hx by lia.
    destruct (IH (x / 10) (x mod 10 + 48 :: acc)) as (ds & -> & H1 & H2 & H3 & H4); [nia|lia|].
    exists (ds ++ [x mod 10 + 48]). rewrite <- app_assoc. split; [done|]. split; [apply Forall_app; split; [done|by apply Forall_singleton]|].
    split; [by destruct ds|]. assert (dec (ds ++ [x mod 10 + 48]) = x) as ->.
    { pose proof (extend_app 0 ds [x mod 10 + 48]) as Ea. unfold extend in Ea. rewrite !Z.mul_0_l, !Z.add_0_l, H3 in Ea. rewrite Ea. cbn. lia. }
    split; [done|]. destruct ds as [|c ds]; [done|]. cbn [app hd] in *. intros ->. rewrite (H4 eq_refl) in H3. cbn in H3. lia.
Qed.

(** The text of an integer: a sign and digits without leading zeros. *)
Lemma int_text_form v : in_i64 v = true -> exists ds,
  sqlite3Int64ToText v = (if v <? 0 then [45] else []) ++ ds /\ Forall is_digit ds /\ ds <> [] /\ dec ds = Z.abs v /\ (hd 0 ds = 48 -> v = 0 /\ ds = [48]).
Proof.
  intros Hv. unfold sqlite3Int64ToText. set (x := if v <? 0 then _ else v).
  assert (x = Z.abs v /\ 0 <= x < 10 ^ Z.of_nat 20) as [Ex Hx].
  { unfold x. clear x. destruct (Z.ltb_spec v 0); [|unfold in_i64, SMALLEST_INT64, LARGEST_INT64 in *; lia].
    destruct (Z.eqb_spec v SMALLEST_INT64) as [->|]; [done|]. unfold in_i64, SMALLEST_INT64, LARGEST_INT64 in *.
    rewrite wrapu_id by solve_width. lia. }
  destruct (digits_loop_spec 20 x [] Hx ltac:(lia)) as (ds & -> & H1 & H2 & H3 & H4). exists ds. rewrite app_nil_r.
  split; [by destruct (v <? 0)|]. split; [done|]. split; [done|]. split; [lia|]. intros H. rewrite (H4 H) in *. cbn in H3. split; [lia|done].
Qed.

Lemma int_text_atoi v : in_i64 v = true -> sqlite3Atoi64 (sqlite3Int64ToText v) SQLITE_UTF8 = (v, 0).
Proof.
  intros Hv. destruct (int_text_form v Hv) as (ds & -> & H1 & H2 & H3 & _). rewrite atoi64_utf8_units.
  pose proof (atoi64_units_spec [] (if v <? 0 then [45] else []) ds [] false) as A. cbn [app] in A. rewrite app_nil_r in A. rewrite A.
  - rewrite H3. assert (signed (if v <? 0 then [45] else []) (Z.abs v) = v) as ->.
    { unfold signed. destruct (Z.ltb_spec v 0); case_decide; (done || lia). }
    unfold atoi64_result. rewrite Hv. by destruct ds.
  - constructor.
  - destruct (v <? 0); [by right; right|by left].
  - done.
  - unfold nondigit_head, is_digit. cbn. lia.
  - by intros _ ->.
Qed.

Definition int_numeral (v : Z) (ds : list Z) : numeral :=
  {| n_space := []; n_sign := if v <? 0 then [45] else []; n_int := ds; n_frac := None; n_exp := None; n_tail := [] |}.

Lemma int_text_numeral v : in_i64 v = true -> exists ds,
  sqlite3Int64ToText v = numeral_text (int_numeral v ds) /\ numeral_ok (int_numeral v ds) /\ dec ds = Z.abs v.
Proof.
  intros Hv. destruct (int_text_form v Hv) as (ds & E & H1 & H2 & H3 & _). exists ds. split; [|split; [|done]].
  - rewrite E. unfold numeral_text, int_numeral. cbn. by rewrite !app_nil_r.
  - unfold numeral_ok. cbn. rewrite app_nil_r. split; [done|]. split; [destruct (v <? 0); [by right; right|by left]|]. auto.
Qed.
