(* ===== verification/Aggregates.v ===== *)
(** * Aggregates by order (sqlite_functions.cpp of the extension)

    Queries that are pushed down use aggregates the extension registers with
    SQLite: [duckdb_string_agg] with an ORDER BY, [duckdb_arg_min] and
    [duckdb_arg_max], and [duckdb_quantile_disc].  All of them order values with
    [SQLiteCompareValues].  The file transcribes the comparison, the step and
    final functions and the parser of decimal quantiles, states when the
    comparison is an order, and proves what the aggregates return.

    The aggregate context of SQLite is the state passed from step to step;
    [None] is a context without state.  [mem] tells a step whether its
    allocations succeed ([dup] those of the copies, where the order matters).  Values are
    not shared, so a copy is the value.  [std::stable_sort] and [std::sort] are
    given by their contracts; the first has a single possible result, which is
    computed, the second is a parameter. *)

From S2P Require Import Prelude Record.
From Stdlib Require Import Sorting.Permutation Sorting.Sorted.

(** ** Values and their comparison *)

Inductive sqlite3_value : Type :=
| SQLITE_NULL
| SQLITE_INTEGER (i : Z)
| SQLITE_FLOAT (r : Z)
| SQLITE_TEXT (z : list Z)
| SQLITE_BLOB (z : list Z).

#[export] Instance sqlite3_value_eq_dec : EqDecision sqlite3_value.
Proof. solve_decision. Defined.

Definition is_null (v : sqlite3_value) : bool :=
  match v with SQLITE_NULL => true | _ => false end.
Definition numeric (v : sqlite3_value) : bool :=
  match v with SQLITE_INTEGER _ | SQLITE_FLOAT _ => true | _ => false end.

(** [sqlite3_value_double] of a number, as a bit pattern. *)
Definition sqlite3_value_double (v : sqlite3_value) : Z :=
  match v with SQLITE_INTEGER i => double_of_int i | SQLITE_FLOAT r => r | _ => 0 end.
(** [sqlite3_value_blob], [sqlite3_value_text] and [sqlite3_value_bytes] of a
    text or a blob. *)
Definition content (v : sqlite3_value) : list Z :=
  match v with SQLITE_TEXT z | SQLITE_BLOB z => z | _ => [] end.

(** The order of IEEE doubles on bit patterns: sign and magnitude, both zeros
    equal; a NaN is not less than anything. *)
Definition dkey (x : Z) : Z := if x <? 2 ^ 63 then x else - (x - 2 ^ 63).
Definition dlt (x y : Z) : bool := negb (IsNaN x) && negb (IsNaN y) && (dkey x <? dkey y).

(** [memcmp] of the first [n] bytes; only the sign of the result is used. *)
Fixpoint memcmp (l r : list Z) (n : nat) : Z :=
  match n, l, r with
  | S n, a :: l, b :: r => if a <? b then -1 else if b <? a then 1 else memcmp l r n
  | _, _, _ => 0
  end.

Definition SQLiteCompareValues (left_ right_ : sqlite3_value) : Z :=
  let left_numeric := numeric left_ in
  let right_numeric := numeric right_ in
  if left_numeric && right_numeric then
    match left_, right_ with
    | SQLITE_INTEGER l, SQLITE_INTEGER r => if l <? r then -1 else if r <? l then 1 else 0
    | _, _ =>
        let l := sqlite3_value_double left_ in
        let r := sqlite3_value_double right_ in
        if dlt l r then -1 else if dlt r l then 1 else 0
    end
  else if xorb left_numeric right_numeric then (if left_numeric then -1 else 1)
  else
    let l := content left_ in
    let r := content right_ in
    let result := memcmp l r (Nat.min (length l) (length r)) in
    if negb (result =? 0) then result
    else if (length l <? length r)%nat then -1 else if (length r <? length l)%nat then 1 else 0.

(** What a call reports: the result, or the message of [sqlite3_result_error]. *)
Inductive agg_error : Type :=
| error_nomem
| error_string_agg_arguments
| error_quantile_range.

(** ** Sorting *)

Section Sort.
Context {A : Type} (comparator : A -> A -> bool).

Fixpoint insert_sorted (x : A) (l : list A) : list A :=
  match l with
  | [] => [x]
  | y :: l => if comparator y x then y :: insert_sorted x l else x :: y :: l
  end.

(** The list [std::stable_sort] leaves: elements that the comparator does not
    separate stay in the order they had. *)
Fixpoint stable_sort (l : list A) : list A :=
  match l with
  | [] => []
  | x :: l => insert_sorted x (stable_sort l)
  end.
End Sort.

(** ** duckdb_string_agg *)

Section Text.
(** The text SQLite prints for a number. *)
Context (number_text : sqlite3_value -> list Z).

Definition SQLiteTextArgument (v : sqlite3_value) : list Z :=
  match v with
  | SQLITE_NULL => []
  | SQLITE_TEXT z | SQLITE_BLOB z => z
  | v => number_text v
  end.

Record Row : Type := { value : list Z; keys : list sqlite3_value }.
Record SQLiteOrderedStringAggState : Type :=
  { rows : list Row; separator : list Z; order : list Z }.

Definition SQLiteOrderedStringAggStep (mem : bool) (argv : list sqlite3_value)
    (state : option SQLiteOrderedStringAggState)
  : res agg_error (option SQLiteOrderedStringAggState) :=
  match argv with
  | v :: sep :: ord :: ks =>
      if is_null v then Ok state
      else if negb mem then Throw error_nomem
      else
        let rows := match state with Some s => rows s | None => [] end in
        Ok (Some {| separator := SQLiteTextArgument sep;
                    order := SQLiteTextArgument ord;
                    rows := rows ++ [{| value := SQLiteTextArgument v; keys := ks |}] |})
  | _ => Throw error_string_agg_arguments
  end.

(** The comparator of the rows; [k] is the index of the first key of the two
    lists. *)
Fixpoint compare_keys (order : list Z) (k : nat) (left_ right_ : list sqlite3_value) : bool :=
  match left_, right_ with
  | l :: left_, r :: right_ =>
      let descending := match order !! (k * 2)%nat with Some c => c =? 68 | None => false end in
      let nulls_first := match order !! (k * 2 + 1)%nat with Some c => c =? 70 | None => false end in
      let left_null := is_null l in
      let right_null := is_null r in
      if left_null || right_null then
        if left_null && right_null then compare_keys order (S k) left_ right_
        else if left_null then nulls_first else negb nulls_first
      else
        let comparison := SQLiteCompareValues l r in
        if negb (comparison =? 0) then
          if descending then 0 <? comparison else comparison <? 0
        else compare_keys order (S k) left_ right_
  | _, _ => false
  end.

Definition row_comparator (order : list Z) (left_ right_ : Row) : bool :=
  compare_keys order 0 (keys left_) (keys right_).

(** The loop that joins the values; [i > 0] writes the separator. *)
Fixpoint join (separator : list Z) (first : bool) (l : list Row) : list Z :=
  match l with
  | [] => []
  | row :: l => (if first then [] else separator) ++ value row ++ join separator false l
  end.

Definition SQLiteOrderedStringAggFinal (state : option SQLiteOrderedStringAggState)
  : sqlite3_value :=
  match state with
  | None => SQLITE_NULL
  | Some s =>
      match rows s with
      | [] => SQLITE_NULL
      | _ => SQLITE_TEXT (join (separator s) true (stable_sort (row_comparator (order s)) (rows s)))
      end
  end.
End Text.

(** ** arg_min and arg_max *)

Record SQLiteArgState : Type := { arg : sqlite3_value; val : sqlite3_value }.

Definition SQLiteArgStep (IS_MAX mem : bool) (argv0 argv1 : sqlite3_value)
    (state : option SQLiteArgState) : res agg_error (option SQLiteArgState) :=
  let replace := if mem then Ok (Some {| arg := argv0; val := argv1 |}) else Throw error_nomem in
  if is_null argv0 || is_null argv1 then Ok state
  else
    match state with
    | Some s =>
        let comparison := SQLiteCompareValues argv1 (val s) in
        if (if IS_MAX then comparison <=? 0 else 0 <=? comparison) then Ok state else replace
    | None => replace
    end.

Definition SQLiteArgFinal (state : option SQLiteArgState) : sqlite3_value :=
  match state with None => SQLITE_NULL | Some s => arg s end.

(** ** quantile_disc *)

(** What the code relies on of DuckDB's 128-bit integer [hugeint_t]: its value,
    and operations that are exact while they stay in range. *)
Definition in_hugeint (z : Z) : Prop := - 2 ^ 127 < z < 2 ^ 127.

Class Hugeint (hugeint_t : Type) : Type :=
  { h_val : hugeint_t -> Z;
    h_of : Z -> hugeint_t;
    h_add : hugeint_t -> hugeint_t -> hugeint_t;
    h_sub : hugeint_t -> hugeint_t -> hugeint_t;
    h_mul : hugeint_t -> hugeint_t -> hugeint_t;
    h_div : hugeint_t -> hugeint_t -> hugeint_t;
    h_le : hugeint_t -> hugeint_t -> bool;
    h_TryCast : hugeint_t -> Z;
    h_of_val z : is_s 64 z -> h_val (h_of z) = z;
    h_add_val a b : in_hugeint (h_val a + h_val b) -> h_val (h_add a b) = h_val a + h_val b;
    h_sub_val a b : in_hugeint (h_val a - h_val b) -> h_val (h_sub a b) = h_val a - h_val b;
    h_mul_val a b : in_hugeint (h_val a * h_val b) -> h_val (h_mul a b) = h_val a * h_val b;
    h_div_val a b : h_val b <> 0 -> h_val (h_div a b) = Z.quot (h_val a) (h_val b);
    h_le_val a b : h_le a b = (h_val a <=? h_val b);
    h_TryCast_val a : is_s 64 (h_val a) -> h_TryCast a = h_val a }.

#[refine, export] Instance Z_hugeint : Hugeint Z :=
  { h_val := fun z => z; h_of := fun z => z; h_add := Z.add; h_sub := Z.sub; h_mul := Z.mul;
    h_div := Z.quot; h_le := Z.leb; h_TryCast := fun z => z }.
Proof. all: done. Defined.

Section Quantile.
Context {hugeint_t : Type} `{!Hugeint hugeint_t}.
(** [std::sort], and the floating point expression
    [idx_t(std::floor(double(n) - double(n) * quantile))], whose value depends on
    whether the compiler fuses it, as a comment of the code says. *)
Context (std_sort : (sqlite3_value -> sqlite3_value -> bool) -> list sqlite3_value -> list sqlite3_value).
Context (floor_n_minus_nq : Z -> Z -> Z).
(** The bounds test of a quantile that is not a text, on the double it is. *)
Context (double_in_unit : sqlite3_value -> bool) (double_argument : sqlite3_value -> Z).

Record SQLiteQuantileState : Type :=
  { values : list sqlite3_value; quantile : Z; is_decimal : bool;
    integral : hugeint_t; scaling : hugeint_t }.

(** The loop of [SQLiteParseDecimalQuantile]. *)
Fixpoint parse_loop (text : list Z) (i s : hugeint_t) (fraction : bool) (digits : Z)
  : option (hugeint_t * hugeint_t * Z) :=
  match text with
  | [] => Some (i, s, digits)
  | c :: text =>
      if (c =? 46) && negb fraction then parse_loop text i s true digits
      else if (c <? 48) || (57 <? c) || (30 <=? digits) then None
      else
        let i := h_add (h_mul i (h_of 10)) (h_of (c - 48)) in
        let s := if fraction then h_mul s (h_of 10) else s in
        parse_loop text i s fraction (digits + 1)
  end.

Definition SQLiteParseDecimalQuantile (text : list Z) : option (hugeint_t * hugeint_t) :=
  match parse_loop text (h_of 0) (h_of 1) false 0 with
  | Some (i, s, digits) => if (0 <? digits) && h_le i s then Some (i, s) else None
  | None => None
  end.

Definition empty_state : SQLiteQuantileState :=
  {| values := []; quantile := 0; is_decimal := false; integral := h_of 0; scaling := h_of 0 |}.

Definition SQLiteQuantileStep (mem dup : bool) (argv0 argv1 : sqlite3_value)
    (state : option SQLiteQuantileState) : res agg_error (option SQLiteQuantileState) :=
  if is_null argv0 then Ok state
  else if negb mem then Throw error_nomem
  else
    let st := match state with Some st => st | None => empty_state end in
    match argv1 with
    | SQLITE_TEXT text =>
        match SQLiteParseDecimalQuantile text with
        | None => Throw error_quantile_range
        | Some (i, s) =>
            if negb dup then Throw error_nomem
            else Ok (Some {| values := values st ++ [argv0]; quantile := quantile st;
                             is_decimal := true; integral := i; scaling := s |})
        end
    | _ =>
        if is_null argv1 || negb (double_in_unit argv1) then Throw error_quantile_range
        else if negb dup then Throw error_nomem
        else Ok (Some {| values := values st ++ [argv0]; quantile := double_argument argv1;
                         is_decimal := is_decimal st; integral := integral st; scaling := scaling st |})
    end.

(** [SQLiteQuantileFinal<true>]; the access to the vector is checked. *)
Definition SQLiteQuantileFinal_discrete (state : option SQLiteQuantileState) : option sqlite3_value :=
  match state with
  | None => Some SQLITE_NULL
  | Some st =>
      match values st with
      | [] => Some SQLITE_NULL
      | _ =>
          let n := Z.of_nat (length (values st)) in
          let values := std_sort (fun l r => SQLiteCompareValues l r <? 0) (values st) in
          let floored :=
            if is_decimal st then
              let wide_n := h_of n in
              h_TryCast (h_div (h_sub (h_mul wide_n (scaling st)) (h_mul wide_n (integral st)))
                               (scaling st))
            else floor_n_minus_nq n (quantile st) in
          let index := u64 (Z.max 1 (u64 (n - floored)) - 1) in
          values !! Z.to_nat index
      end
  end.
End Quantile.

(** ** Comparisons that are total preorders

    A three-way comparison on the elements of a domain [P]. *)
Class Order {A : Type} (P : A -> Prop) (cmp : A -> A -> Z) : Prop :=
  { ord_flip x y : P x -> P y -> Z.sgn (cmp y x) = - Z.sgn (cmp x y);
    ord_trans x y z : P x -> P y -> P z -> cmp x y <= 0 -> cmp y z <= 0 -> cmp x z <= 0 }.

Lemma ord_refl {A} {P : A -> Prop} {cmp} `{!Order P cmp} x : P x -> cmp x x = 0.
Proof. intros H. pose proof (ord_flip x x H H). lia. Qed.

(** The order of byte strings. *)
Fixpoint bcmp (l r : list Z) : Z :=
  match l, r with
  | [], [] => 0
  | [], _ => -1
  | _, [] => 1
  | a :: l, b :: r => if a <? b then -1 else if b <? a then 1 else bcmp l r
  end.

Lemma bytes_compare l : forall r,
  (let result := memcmp l r (Nat.min (length l) (length r)) in
   if negb (result =? 0) then result
   else if (length l <? length r)%nat then -1 else if (length r <? length l)%nat then 1 else 0)
  = bcmp l r.
Proof.
  induction l as [|a l IH]; intros [|b r]; try reflexivity.
  cbn [length Nat.min memcmp bcmp]. destruct (Z.ltb_spec a b); [reflexivity|].
  destruct (Z.ltb_spec b a); [reflexivity|]. rewrite <- IH. reflexivity.
Qed.

#[export] Instance bcmp_order : Order (fun _ => True) bcmp.
Proof.
  split.
  - intros l r _ _. revert r. induction l as [|a l IH]; intros [|b r]; try reflexivity.
    cbn [bcmp]. destruct (Z.ltb_spec a b), (Z.ltb_spec b a); try lia; try reflexivity. apply IH.
  - intros x y z _ _ _. revert y z. induction x as [|a x IH]; intros [|b y] [|c z]; cbn [bcmp]; try lia.
    destruct (Z.ltb_spec a b), (Z.ltb_spec b a), (Z.ltb_spec b c), (Z.ltb_spec c b),
      (Z.ltb_spec a c), (Z.ltb_spec c a); try lia. apply IH.
Qed.

(** ** When [SQLiteCompareValues] is an order

    A column is exact when it has no floating point numbers ([mixed = false])
    or when its integers are doubles ([mixed = true]). *)
Definition exact_value (mixed : bool) (v : sqlite3_value) : Prop :=
  match v with
  | SQLITE_INTEGER i => if mixed then - 2 ^ 53 <= i <= 2 ^ 53 else True
  | SQLITE_FLOAT r => mixed = true /\ IsNaN r = false
  | _ => True
  end.

Definition number_key (mixed : bool) (v : sqlite3_value) : Z :=
  match v with
  | SQLITE_INTEGER i => if mixed then dkey (double_of_int i) else i
  | SQLITE_FLOAT r => dkey r
  | _ => 0
  end.

(** Numbers by their value, before strings and blobs by their bytes. *)
Definition value_order (mixed : bool) (v w : sqlite3_value) : Z :=
  match numeric v, numeric w with
  | true, true => Z.sgn (number_key mixed v - number_key mixed w)
  | true, false => -1
  | false, true => 1
  | false, false => bcmp (content v) (content w)
  end.

#[export] Instance value_order_order mixed : Order (exact_value mixed) (value_order mixed).
Proof.
  split.
  - intros v w _ _. unfold value_order. destruct (numeric v), (numeric w); try reflexivity; [lia|].
    by apply ord_flip.
  - intros u v w _ _ _. unfold value_order.
    destruct (numeric u), (numeric v), (numeric w); try lia. by apply ord_trans.
Qed.

(** The magnitude part of a positive integer's double grows with it. *)
Definition mag (m : Z) : Z := (Z.log2 m + 1023) * 2 ^ 52 + (m * 2 ^ (52 - Z.log2 m) - 2 ^ 52).

Lemma double_of_pos m : 0 < m < 2 ^ 53 -> double_of_int m = mag m /\
  (Z.log2 m + 1023) * 2 ^ 52 <= mag m < (Z.log2 m + 1024) * 2 ^ 52 /\ 0 <= Z.log2 m <= 52.
Proof.
  intros H. assert (0 <= Z.log2 m <= 52) as He.
  { split; [apply Z.log2_nonneg|]. apply Z.lt_succ_r, Z.log2_lt_pow2; lia. }
  pose proof (Z.log2_spec m ltac:(lia)) as [L U].
  assert (2 ^ 52 <= m * 2 ^ (52 - Z.log2 m) < 2 ^ 53) as B.
  { assert (0 < 2 ^ (52 - Z.log2 m)) by (apply Z.pow_pos_nonneg; lia).
    replace (2 ^ 52) with (2 ^ Z.log2 m * 2 ^ (52 - Z.log2 m))
      by (rewrite <- Z.pow_add_r by lia; f_equal; lia).
    replace (2 ^ 53) with (2 ^ Z.succ (Z.log2 m) * 2 ^ (52 - Z.log2 m))
      by (rewrite <- Z.pow_add_r by lia; f_equal; lia). nia. }
  split; [|split; [unfold mag; lia|done]].
  unfold double_of_int, mag. replace (m =? 0) with false by lia. replace (m <? 0) with false by lia.
  rewrite Z.abs_eq by lia. replace (Z.log2 m <=? 52) with true by lia.
  rewrite Z.shiftl_mul_pow2 by lia. lia.
Qed.

Lemma mag_lt m n : 0 < m < n -> n < 2 ^ 53 -> mag m < mag n.
Proof.
  intros H Hn. pose proof (double_of_pos m ltac:(lia)) as (_ & Bm & Em).
  pose proof (double_of_pos n ltac:(lia)) as (_ & Bn & En).
  pose proof (Z.log2_le_mono m n ltac:(lia)) as L.
  destruct (Z.eq_dec (Z.log2 m) (Z.log2 n)) as [E|E].
  - unfold mag. rewrite E. assert (0 < 2 ^ (52 - Z.log2 n)) by (apply Z.pow_pos_nonneg; lia). nia.
  - nia.
Qed.

(** The sort key of the double of an integer up to 2^53 in magnitude. *)
Definition pos_key (m : Z) : Z := if m =? 2 ^ 53 then 1076 * 2 ^ 52 else mag m.
Definition int_key (i : Z) : Z :=
  if i =? 0 then 0 else if 0 <? i then pos_key i else - pos_key (- i).

Lemma double_of_int_opp i : i < 0 -> double_of_int i = 2 ^ 63 + double_of_int (- i).
Proof.
  intros H. unfold double_of_int. rewrite Z.abs_opp. replace (- i =? 0) with false by lia.
  replace (i =? 0) with false by lia. replace (i <? 0) with true by lia.
  replace (- i <? 0) with false by lia. lia.
Qed.

Lemma pos_key_spec m : 0 < m <= 2 ^ 53 -> double_of_int m = pos_key m /\ 0 < pos_key m < 2 ^ 63.
Proof.
  intros H. unfold pos_key. destruct (Z.eqb_spec m (2 ^ 53)) as [-> |]; [split; [reflexivity|lia]|].
  pose proof (double_of_pos m ltac:(lia)) as (-> & B & E). split; [done|]. lia.
Qed.

Lemma pos_key_lt m n : 0 < m < n -> n <= 2 ^ 53 -> pos_key m < pos_key n.
Proof.
  intros H Hn. unfold pos_key. replace (m =? 2 ^ 53) with false by lia.
  destruct (Z.eqb_spec n (2 ^ 53)).
  - pose proof (double_of_pos m ltac:(lia)). lia.
  - apply mag_lt; lia.
Qed.

Lemma dkey_of_int i : - 2 ^ 53 <= i <= 2 ^ 53 -> dkey (double_of_int i) = int_key i.
Proof.
  intros H. unfold int_key. destruct (Z.eqb_spec i 0) as [-> |]; [reflexivity|].
  destruct (Z.ltb_spec 0 i).
  - pose proof (pos_key_spec i ltac:(lia)) as [-> B]. unfold dkey.
    by replace (pos_key i <? 2 ^ 63) with true by lia.
  - rewrite double_of_int_opp by lia. pose proof (pos_key_spec (- i) ltac:(lia)) as [-> B].
    unfold dkey. replace (2 ^ 63 + pos_key (- i) <? 2 ^ 63) with false by lia. lia.
Qed.

Lemma int_key_lt i j : - 2 ^ 53 <= i < j -> j <= 2 ^ 53 -> int_key i < int_key j.
Proof.
  intros H Hj. unfold int_key.
  pose proof (fun m (Hm : 0 < m <= 2 ^ 53) => proj2 (pos_key_spec m Hm)) as B.
  destruct (Z.eqb_spec i 0), (Z.eqb_spec j 0), (Z.ltb_spec 0 i), (Z.ltb_spec 0 j); try lia.
  - specialize (B j). lia.
  - specialize (B (- i)). lia.
  - apply pos_key_lt; lia.
  - pose proof (B j). pose proof (B (- i)). lia.
  - pose proof (pos_key_lt (- j) (- i)). lia.
Qed.

Lemma double_of_int_finite i : - 2 ^ 53 <= i <= 2 ^ 53 -> IsNaN (double_of_int i) = false.
Proof. intros H. apply double_of_int_not_nan. unfold is_s. lia. Qed.

(** On an exact column the code compares as the order does. *)
Lemma compare_values mixed v w : exact_value mixed v -> exact_value mixed w ->
  SQLiteCompareValues v w = value_order mixed v w.
Proof.
  intros Hv Hw. unfold SQLiteCompareValues, value_order.
  assert (forall a b, (if a <? b then -1 else if b <? a then 1 else 0) = Z.sgn (a - b)) as S
    by (intros; repeat case_match; lia).
  destruct v as [|i|r|z|z], w as [|j|s|y|y];
    cbn [numeric andb xorb exact_value number_key sqlite3_value_double content] in *;
    try reflexivity; try apply bytes_compare.
  - destruct mixed; [|apply S]. rewrite S, !dkey_of_int by done.
    destruct (Z.lt_trichotomy i j) as [L|[-> |L]]; [|lia|].
    + pose proof (int_key_lt i j). lia.
    + pose proof (int_key_lt j i). lia.
  - destruct Hw as [-> Hn]. unfold dlt. rewrite Hn, double_of_int_finite by done. apply S.
  - destruct Hv as [-> Hn]. unfold dlt. rewrite Hn, double_of_int_finite by done. apply S.
  - destruct Hv as [_ Hn], Hw as [_ Hm]. unfold dlt. rewrite Hn, Hm. apply S.
Qed.

(** The condition is needed, and is why the comment of the function asks for
    values of one type: with large integers among floating point numbers the
    first and the last of three values differ although both compare as equal to
    the second, which a comparator of [std::sort] must not do. *)
Lemma compare_mixed_not_transitive :
  let one := SQLITE_INTEGER (2 ^ 53) in
  let two := SQLITE_FLOAT (double_of_int (2 ^ 53)) in
  let three := SQLITE_INTEGER (2 ^ 53 + 1) in
  SQLiteCompareValues one two = 0 /\ SQLiteCompareValues two three = 0 /\
  SQLiteCompareValues one three = -1.
Proof. vm_compute. split; [|split]; reflexivity. Qed.

(** ** Sorting by an order *)

Section Sorting.
Context {A : Type} {P : A -> Prop} {cmp : A -> A -> Z} `{!Order P cmp}.

Definition le_of (x y : A) : Prop := cmp x y <= 0.
Definition same (x y : A) : bool := cmp x y =? 0.

(** What [std::stable_sort] promises of [out], the sorted [l]. *)
Definition stable_sort_of (l out : list A) : Prop :=
  Permutation out l /\ StronglySorted le_of out /\
  forall x, P x -> List.filter (same x) out = List.filter (same x) l.

Context (lt : A -> A -> bool) (lt_cmp : forall x y, P x -> P y -> lt x y = (cmp x y <? 0)).

Lemma insert_perm x l : Permutation (insert_sorted lt x l) (x :: l).
Proof.
  induction l as [|y l IH]; cbn [insert_sorted]; [done|]. destruct (lt y x); [|done].
  rewrite IH. apply perm_swap.
Qed.

Lemma stable_sort_perm l : Permutation (stable_sort lt l) l.
Proof.
  induction l as [|x l IH]; cbn [stable_sort]; [done|]. by rewrite insert_perm, IH.
Qed.

Lemma insert_sorted_sorted x l : P x -> Forall P l -> StronglySorted le_of l ->
  StronglySorted le_of (insert_sorted lt x l).
Proof.
  intros Hx Hl. induction 1 as [|y l Hs IH Hy]; cbn [insert_sorted]; [by repeat constructor|].
  apply Forall_cons in Hl as [Py Pl]. rewrite lt_cmp by done. unfold le_of in *.
  destruct (Z.ltb_spec (cmp y x) 0).
  - constructor; [by apply IH|]. apply Forall_perm with (x :: l); [apply insert_perm|].
    constructor; [lia|done].
  - pose proof (ord_flip x y Hx Py). assert (cmp x y <= 0) by lia.
    constructor; [by constructor|]. constructor; [done|]. rewrite List.Forall_forall in *.
    intros z Hz. apply ord_trans with y; auto.
Qed.

Lemma insert_stable x y l : P x -> P y -> Forall P l ->
  List.filter (same x) (insert_sorted lt y l) = List.filter (same x) (y :: l).
Proof.
  intros Hx Hy Hl. induction Hl as [|z l Hz Hl IH]; cbn [insert_sorted]; [done|].
  rewrite lt_cmp by done. destruct (Z.ltb_spec (cmp z y) 0); [|done].
  cbn [List.filter] in *. rewrite IH. unfold same.
  destruct (Z.eqb_spec (cmp x z) 0), (Z.eqb_spec (cmp x y) 0); try done.
  pose proof (ord_flip x y Hx Hy). pose proof (ord_trans y x z Hy Hx Hz).
  pose proof (ord_flip y z Hy Hz). lia.
Qed.

Lemma stable_sort_correct l : Forall P l -> stable_sort_of l (stable_sort lt l).
Proof.
  intros Hl. assert (forall l, Forall P l -> Forall P (stable_sort lt l)) as HP
    by (intros l' H'; by apply Forall_perm with l'; [apply stable_sort_perm|]).
  split; [apply stable_sort_perm|]. induction Hl as [|x l Hx Hl [IH1 IH2]]; cbn [stable_sort].
  - split; [constructor|done].
  - split; [by apply insert_sorted_sorted; auto|]. intros y Hy.
    rewrite insert_stable by auto. cbn [List.filter]. by rewrite IH2.
Qed.

(** The contract determines the result. *)
Lemma stable_sort_unique l1 : forall l2, Forall P l1 -> Permutation l1 l2 ->
  StronglySorted le_of l1 -> StronglySorted le_of l2 ->
  (forall x, P x -> List.filter (same x) l1 = List.filter (same x) l2) -> l1 = l2.
Proof.
  induction l1 as [|x l1 IH]; intros [|y l2] HP Hp S1 S2 Hf; [done| | |].
  - by apply Permutation_nil in Hp.
  - by apply Permutation_sym, Permutation_nil in Hp.
  - apply Forall_cons in HP as [Hx Hl1].
    assert (Forall P (y :: l2)) as [Hy Hl2]%Forall_cons
      by (apply Forall_perm with (x :: l1); [by symmetry|by constructor]).
    apply StronglySorted_inv in S1 as [S1 F1], S2 as [S2 F2].
    assert (cmp x y = 0) as E.
    { assert (cmp x y <= 0 /\ cmp y x <= 0) as [? ?].
      - rewrite List.Forall_forall in F1, F2. split.
        + assert (In y (x :: l1)) as [-> |I] by (rewrite Hp; by left); [rewrite ord_refl; done || lia|by apply F1].
        + assert (In x (y :: l2)) as [-> |I] by (rewrite <- Hp; by left); [rewrite ord_refl; done || lia|by apply F2].
      - pose proof (ord_flip x y Hx Hy). lia. }
    pose proof (Hf x Hx) as Fx. cbn [List.filter] in Fx.
    assert (same x x = true) as E1 by (unfold same; by rewrite ord_refl).
    assert (same x y = true) as E2 by (unfold same; by rewrite E).
    rewrite E1, E2 in Fx. injection Fx as <- _. f_equal.
    apply IH; [done|by apply Permutation_cons_inv in Hp|done..|].
    intros z Hz. specialize (Hf z Hz). cbn [List.filter] in Hf. destruct (same z x); [by injection Hf|done].
Qed.
End Sorting.

(** ** The order of the rows *)

(** One key: its place among NULLs and its direction. *)
Definition key_order (descending nulls_first mixed : bool) (x y : sqlite3_value) : Z :=
  match is_null x, is_null y with
  | true, true => 0
  | true, false => if nulls_first then -1 else 1
  | false, true => if nulls_first then 1 else -1
  | false, false => if descending then value_order mixed y x else value_order mixed x y
  end.

#[export] Instance key_order_order d nf mixed : Order (exact_value mixed) (key_order d nf mixed).
Proof.
  split.
  - intros x y Hx Hy. unfold key_order. destruct (is_null x), (is_null y), nf; try reflexivity;
      destruct d; by apply ord_flip.
  - intros x y z Hx Hy Hz. unfold key_order.
    destruct (is_null x), (is_null y), (is_null z), nf; try lia; destruct d; intros;
      by apply (ord_trans (P := exact_value mixed)) with y.
Qed.

Definition direction (ord : list Z) (k : nat) : bool :=
  match ord !! (k * 2)%nat with Some c => c =? 68 | None => false end.
Definition nulls (ord : list Z) (k : nat) : bool :=
  match ord !! (k * 2 + 1)%nat with Some c => c =? 70 | None => false end.

(** ORDER BY: the first key that differs decides.  [cols] says of each key
    column how it is exact. *)
Fixpoint keys_order (ord : list Z) (k : nat) (cols : list bool) (l r : list sqlite3_value) : Z :=
  match cols, l, r with
  | mixed :: cols, x :: l, y :: r =>
      let c := key_order (direction ord k) (nulls ord k) mixed x y in
      if c =? 0 then keys_order ord (S k) cols l r else c
  | _, _, _ => 0
  end.

#[export] Instance keys_order_order ord k cols :
  Order (Forall2 exact_value cols) (keys_order ord k cols).
Proof.
  split.
  - intros l r Hl. revert k r. induction Hl as [|m x cols l Hx Hl IH]; intros k r Hr; inversion Hr; subst;
      cbn [keys_order]; [reflexivity|].
    match goal with H : exact_value m ?y |- _ =>
      pose proof (ord_flip (cmp := key_order (direction ord k) (nulls ord k) m) x y Hx H) end.
    destruct (Z.eqb_spec (key_order (direction ord k) (nulls ord k) m x y) 0),
      (Z.eqb_spec (key_order (direction ord k) (nulls ord k) m y x) 0); try lia. by apply IH.
  - intros l r q Hl. revert k r q. induction Hl as [|m x cols l Hx Hl IH]; intros k r q Hr Hq;
      inversion Hr as [|? y ? ys Hy Hys]; inversion Hq as [|? z ? zs Hz Hzs]; subst; cbn [keys_order]; [lia|].
    set (c := key_order (direction ord k) (nulls ord k) m) in *.
    assert (Order (exact_value m) c) as O by apply _.
    pose proof (ord_flip (cmp := c) x y Hx Hy). pose proof (ord_flip (cmp := c) y z Hy Hz).
    pose proof (ord_flip (cmp := c) x z Hx Hz).
    pose proof (ord_trans (cmp := c) x y z Hx Hy Hz). pose proof (ord_trans (cmp := c) z y x Hz Hy Hx).
    pose proof (ord_trans (cmp := c) y z x Hy Hz Hx). pose proof (ord_trans (cmp := c) z x y Hz Hx Hy).
    pose proof (ord_trans (cmp := c) y x z Hy Hx Hz). pose proof (ord_trans (cmp := c) x z y Hx Hz Hy).
    destruct (Z.eqb_spec (c x y) 0), (Z.eqb_spec (c y z) 0), (Z.eqb_spec (c x z) 0); try lia.
    by apply IH.
Qed.

Lemma compare_keys_order ord cols : forall k l r,
  Forall2 exact_value cols l -> Forall2 exact_value cols r ->
  compare_keys ord k l r = (keys_order ord k cols l r <? 0).
Proof.
  intros k l r Hl. revert k r. induction Hl as [|m x cols l Hx Hl IH]; intros k r Hr;
    inversion Hr as [|? y ? ys Hy Hys]; subst; cbn [compare_keys keys_order]; [done|].
  rewrite IH, (compare_values m) by done. unfold key_order.
  change (match ord !! (k * 2)%nat with Some c => c =? 68 | None => false end) with (direction ord k).
  change (match ord !! (k * 2 + 1)%nat with Some c => c =? 70 | None => false end) with (nulls ord k).
  pose proof (ord_flip (cmp := value_order m) x y Hx Hy).
  destruct (is_null x), (is_null y), (nulls ord k), (direction ord k); cbn [orb andb negb]; try done;
    destruct (Z.eqb_spec (value_order m x y) 0); cbn [negb];
    destruct (Z.eqb_spec (value_order m y x) 0); try lia; try done.
Qed.

(** The order of rows, and their domain. *)
Definition requested_order (ord : list Z) (cols : list bool) (l r : Row) : Z :=
  keys_order ord 0 cols (keys l) (keys r).
Definition exact_row (cols : list bool) (r : Row) : Prop := Forall2 exact_value cols (keys r).

#[export] Instance requested_order_order ord cols :
  Order (exact_row cols) (requested_order ord cols).
Proof.
  split; intros *; unfold exact_row, requested_order; [apply ord_flip|apply ord_trans].
Qed.

(** ** Running the aggregate *)

Section Run.
Context (number_text : sqlite3_value -> list Z).

(** The step calls of one group: a separator and an order that are constant in
    the statement, and the value and the keys of each input row. *)
Fixpoint string_agg_steps (sep ord : sqlite3_value) (input : list (sqlite3_value * list sqlite3_value))
    (state : option SQLiteOrderedStringAggState) : res agg_error (option SQLiteOrderedStringAggState) :=
  match input with
  | [] => Ok state
  | (v, ks) :: input =>
      state ← SQLiteOrderedStringAggStep number_text true (v :: sep :: ord :: ks) state;
      string_agg_steps sep ord input state
  end.

(** The rows whose value is not NULL. *)
Definition agg_rows (input : list (sqlite3_value * list sqlite3_value)) : list Row :=
  map (fun x => {| value := SQLiteTextArgument number_text (fst x); keys := snd x |})
    (List.filter (fun x => negb (is_null (fst x))) input).

Definition agg_state (sep ord : sqlite3_value) (l : list Row) : option SQLiteOrderedStringAggState :=
  match l with
  | [] => None
  | _ => Some {| rows := l; separator := SQLiteTextArgument number_text sep;
                 order := SQLiteTextArgument number_text ord |}
  end.

Lemma string_agg_steps_rows sep ord input : forall l,
  string_agg_steps sep ord input (agg_state sep ord l) = Ok (agg_state sep ord (l ++ agg_rows input)).
Proof.
  unfold agg_rows. induction input as [|[v ks] input IH]; intros l; cbn [string_agg_steps].
  - cbn. by rewrite app_nil_r.
  - unfold SQLiteOrderedStringAggStep. cbn [List.filter fst negb].
    destruct (is_null v); cbn [negb mbind res_bind map]; [apply IH|].
    set (row := {| value := _; keys := ks |}).
    replace (Some {| rows := _; separator := _; order := _ |}) with (agg_state sep ord (l ++ [row]))
      by (by destruct l).
    rewrite IH, <- app_assoc. done.
Qed.
End Run.

(** ** arg_min and arg_max pick the first extreme row *)

Fixpoint arg_steps (IS_MAX : bool) (input : list (sqlite3_value * sqlite3_value))
    (state : option SQLiteArgState) : res agg_error (option SQLiteArgState) :=
  match input with
  | [] => Ok state
  | (a, v) :: input =>
      state ← SQLiteArgStep IS_MAX true a v state; arg_steps IS_MAX input state
  end.

Definition arg_rows (input : list (sqlite3_value * sqlite3_value)) : list (sqlite3_value * sqlite3_value) :=
  List.filter (fun x => negb (is_null (fst x) || is_null (snd x))) input.

(** The order in which larger is better. *)
Definition rank_order (IS_MAX mixed : bool) (x y : sqlite3_value) : Z :=
  if IS_MAX then value_order mixed x y else value_order mixed y x.

#[export] Instance rank_order_order IS_MAX mixed : Order (exact_value mixed) (rank_order IS_MAX mixed).
Proof.
  destruct IS_MAX; [exact (value_order_order mixed)|]. split; unfold rank_order; intros.
  - by apply ord_flip.
  - by apply (ord_trans (P := exact_value mixed)) with y.
Qed.

(** [s] holds the first of the best rows of [l]. *)
Definition first_best (IS_MAX mixed : bool) (l : list (sqlite3_value * sqlite3_value))
    (s : SQLiteArgState) : Prop :=
  exists before after, l = before ++ (arg s, val s) :: after /\
    Forall (fun x => rank_order IS_MAX mixed (snd x) (val s) < 0) before /\
    Forall (fun x => rank_order IS_MAX mixed (snd x) (val s) <= 0) after.

Lemma first_best_step IS_MAX mixed l s a v :
  Forall (fun x => exact_value mixed (snd x)) l -> exact_value mixed v -> first_best IS_MAX mixed l s ->
  first_best IS_MAX mixed (l ++ [(a, v)])
    (if rank_order IS_MAX mixed v (val s) <=? 0 then s else {| arg := a; val := v |}).
Proof.
  intros Hl Hv (before & after & -> & HB & HA).
  assert (exact_value mixed (val s)) as Hs by (rewrite Forall_app, Forall_cons in Hl; apply Hl).
  destruct (Z.leb_spec (rank_order IS_MAX mixed v (val s)) 0).
  - exists before, (after ++ [(a, v)]). rewrite <- app_assoc. split; [done|]. split; [done|].
    apply Forall_app. split; [done|]. by repeat constructor.
  - exists (before ++ (arg s, val s) :: after), []. cbn [arg val]. split; [done|]. split; [|constructor].
    pose proof (ord_flip (cmp := rank_order IS_MAX mixed) v (val s) Hv Hs).
    assert (forall x, exact_value mixed x -> rank_order IS_MAX mixed x (val s) <= 0 ->
      rank_order IS_MAX mixed x v < 0) as T.
    { intros x Hx Hle. pose proof (ord_trans (cmp := rank_order IS_MAX mixed) v x (val s) Hv Hx Hs).
      pose proof (ord_flip (cmp := rank_order IS_MAX mixed) x v Hx Hv). lia. }
    rewrite List.Forall_forall in *. intros x Hx. apply T; [by apply Hl|].
    rewrite in_app_iff in Hx. destruct Hx as [Hx|[<-|Hx]].
    + apply HB in Hx. lia.
    + cbn [snd]. rewrite ord_refl by done. lia.
    + by apply HA.
Qed.

Lemma arg_steps_best IS_MAX mixed input : forall l s,
  Forall (fun x => exact_value mixed (snd x)) l -> Forall (fun x => exact_value mixed (snd x)) input ->
  first_best IS_MAX mixed l s ->
  exists s', arg_steps IS_MAX input (Some s) = Ok (Some s') /\
    first_best IS_MAX mixed (l ++ arg_rows input) s'.
Proof.
  unfold arg_rows. induction input as [|[a v] input IH]; intros l s Hl Hi Hs; cbn [arg_steps].
  - exists s. cbn. by rewrite app_nil_r.
  - apply Forall_cons in Hi as [Hv Hi]. cbn [snd] in Hv.
    assert (exact_value mixed (val s)) as Hvs.
    { destruct Hs as (b & t & -> & _). rewrite Forall_app, Forall_cons in Hl. apply Hl. }
    unfold SQLiteArgStep. cbn [List.filter fst snd].
    destruct (is_null a || is_null v); cbn [negb]; [by apply IH|].
    rewrite (compare_values mixed) by done.
    replace (if IS_MAX then value_order mixed v (val s) <=? 0 else 0 <=? value_order mixed v (val s))
      with (rank_order IS_MAX mixed v (val s) <=? 0).
    2: { pose proof (ord_flip (cmp := value_order mixed) v (val s) Hv Hvs). destruct IS_MAX; cbn; lia. }
    pose proof (first_best_step IS_MAX mixed l s a v Hl Hv Hs) as Hb.
    rewrite cons_middle, app_assoc.
    destruct (rank_order IS_MAX mixed v (val s) <=? 0); cbn [mbind res_bind]; apply IH; try done;
      apply Forall_app; (split; [done|by repeat constructor]).
Qed.

Lemma arg_steps_correct IS_MAX mixed input : Forall (fun x => exact_value mixed (snd x)) input ->
  match arg_rows input with
  | [] => arg_steps IS_MAX input None = Ok None
  | l => exists s, arg_steps IS_MAX input None = Ok (Some s) /\ first_best IS_MAX mixed l s
  end.
Proof.
  unfold arg_rows. induction 1 as [|[a v] input Hv Hi IH]; cbn [arg_steps List.filter fst snd] in *; [done|].
  unfold SQLiteArgStep. destruct (is_null a || is_null v); cbn [negb mbind res_bind]; [done|].
  destruct (arg_steps_best IS_MAX mixed input [(a, v)] {| arg := a; val := v |}) as (s & E & B); try done.
  - by repeat constructor.
  - exists [], []. by repeat constructor.
  - by exists s.
Qed.

(** ** quantile_disc *)

(** The number a string of decimal digits writes. *)
Definition digits (l : list Z) : Prop := Forall (fun c => 48 <= c <= 57) l.
Definition dec_from (v : Z) (l : list Z) : Z := fold_left (fun v c => v * 10 + (c - 48)) l v.
Definition dec (l : list Z) : Z := dec_from 0 l.

Lemma dec_bound l : forall v k, digits l -> 0 <= v < 10 ^ k -> 0 <= k ->
  0 <= dec_from v l < 10 ^ (k + Z.of_nat (length l)).
Proof.
  unfold dec_from. induction l as [|c l IH]; intros v k Hd Hv Hk; cbn [fold_left length].
  - replace (k + Z.of_nat 0) with k by lia. done.
  - apply Forall_cons in Hd as [Hc Hd]. replace (k + Z.of_nat (S (length l))) with (k + 1 + Z.of_nat (length l)) by lia.
    apply IH; [done| |lia]. rewrite Z.pow_add_r by lia. lia.
Qed.

Section QuantileProofs.
Context {hugeint_t : Type} `{!Hugeint hugeint_t}.

(** One part of the text: its digits extend the number, and after the point
    the scaling. *)
Lemma parse_digits l rest frac : forall (i s : hugeint_t) n, digits l -> n + Z.of_nat (length l) <= 30 ->
  0 <= n -> 0 <= h_val i < 10 ^ n -> 0 <= h_val s <= 10 ^ n ->
  exists i' s', parse_loop (l ++ rest) i s frac n = parse_loop rest i' s' frac (n + Z.of_nat (length l)) /\
    h_val i' = dec_from (h_val i) l /\
    h_val s' = if frac then h_val s * 10 ^ Z.of_nat (length l) else h_val s.
Proof.
  induction l as [|c l IH]; intros i s n Hd Hn Hn0 Hi Hs; cbn [app length].
  - exists i, s. rewrite Z.add_0_r. split; [done|]. split; [done|]. destruct frac; [|done].
    change (10 ^ Z.of_nat 0) with 1. lia.
  - apply Forall_cons in Hd as [Hc Hd]. cbn [length] in Hn. cbn [parse_loop].
    replace (c =? 46) with false by lia. cbn [andb].
    replace ((c <? 48) || (57 <? c) || (30 <=? n)) with false by lia.
    assert (10 ^ n <= 10 ^ 29) as B by (apply Z.pow_le_mono_r; lia).
    assert (h_val (h_mul i (h_of 10)) = h_val i * 10) as E1.
    { rewrite h_mul_val; rewrite h_of_val by solve_width; [done|]. unfold in_hugeint. lia. }
    assert (h_val (h_add (h_mul i (h_of 10)) (h_of (c - 48))) = h_val i * 10 + (c - 48)) as E2.
    { rewrite h_add_val; rewrite E1, h_of_val by solve_width; [done|]. unfold in_hugeint. lia. }
    assert (h_val (if frac then h_mul s (h_of 10) else s) = if frac then h_val s * 10 else h_val s) as E3.
    { destruct frac; [|done]. rewrite h_mul_val; rewrite h_of_val by solve_width; [done|].
      unfold in_hugeint. lia. }
    destruct (IH (h_add (h_mul i (h_of 10)) (h_of (c - 48))) (if frac then h_mul s (h_of 10) else s) (n + 1))
      as (i' & s' & E & Ei & Es); try done; try lia.
    + rewrite E2, Z.pow_add_r by lia. lia.
    + rewrite E3, Z.pow_add_r by lia. destruct frac; lia.
    + exists i', s'. rewrite E. split; [f_equal; lia|]. rewrite Ei, Es, E2, E3. split; [done|].
      destruct frac; [|done]. rewrite Nat2Z.inj_succ, Z.pow_succ_r by lia. ring.
Qed.

(** The parser reads [a.b], with at most thirty digits, as the number it
    writes, and accepts it when it is at most one. *)
Lemma parse_decimal a b : digits a -> digits b -> 1 <= Z.of_nat (length a + length b) <= 30 ->
  exists i s, SQLiteParseDecimalQuantile (a ++ 46 :: b) =
    (if dec (a ++ b) <=? 10 ^ Z.of_nat (length b) then Some (i, s) else None) /\
    h_val i = dec (a ++ b) /\ h_val s = 10 ^ Z.of_nat (length b).
Proof.
  intros Ha Hb Hn. unfold SQLiteParseDecimalQuantile.
  destruct (parse_digits a (46 :: b) false (h_of 0) (h_of 1) 0) as (i1 & s1 & E1 & I1 & S1); try done; try lia;
    rewrite ?h_of_val by solve_width; try (split; lia).
  rewrite E1. cbn [parse_loop Z.eqb Pos.eqb andb negb]. rewrite h_of_val in I1, S1 by solve_width.
  pose proof (dec_bound a 0 0 Ha ltac:(lia) ltac:(lia)) as B1.
  destruct (parse_digits b [] true i1 s1 (0 + Z.of_nat (length a))) as (i2 & s2 & E2 & I2 & S2); try done; try lia.
  rewrite app_nil_r in E2. rewrite E2. cbn [parse_loop]. exists i2, s2.
  assert (h_val i2 = dec (a ++ b)) as Ei.
  { rewrite I2, I1. unfold dec, dec_from. by rewrite fold_left_app. }
  assert (h_val s2 = 10 ^ Z.of_nat (length b)) as Es by (rewrite S2, S1; lia).
  split; [|done]. replace (0 <? _) with true by lia. cbn [andb]. by rewrite h_le_val, Ei, Es.
Qed.
End QuantileProofs.

(** The index of the discrete quantile: the least position with at least the
    fraction [i / s] of the [n] values at or before it. *)
Lemma quantile_index n i s : 0 < n -> 0 <= i <= s -> 0 < s ->
  let c := n - Z.quot (n * s - n * i) s in
  0 <= c <= n /\ n * i <= c * s /\ (c - 1) * s < n * i.
Proof.
  intros Hn Hi Hs c. unfold c. rewrite Z.quot_div_nonneg by nia.
  pose proof (Z.div_mod (n * s - n * i) s ltac:(lia)) as D.
  pose proof (Z.mod_pos_bound (n * s - n * i) s Hs) as M.
  assert (0 <= (n * s - n * i) / s <= n).
  { split; [apply Z.div_pos; nia|]. apply Z.div_le_upper_bound; nia. }
  nia.
Qed.

Section Select.
Context (mixed : bool).

Definition count_le (v : sqlite3_value) (l : list sqlite3_value) : Z :=
  Z.of_nat (length (List.filter (fun x => value_order mixed x v <=? 0) l)).
Definition count_lt (v : sqlite3_value) (l : list sqlite3_value) : Z :=
  Z.of_nat (length (List.filter (fun x => value_order mixed x v <? 0) l)).

Lemma sorted_split {A} (R : A -> A -> Prop) b v a : StronglySorted R (b ++ v :: a) ->
  Forall (fun x => R x v) b /\ Forall (R v) a.
Proof.
  induction b as [|x b IH]; cbn [app]; intros [S F]%StronglySorted_inv; [split; [constructor|done]|].
  destruct (IH S) as [H1 H2]. split; [|done]. constructor; [|done].
  rewrite Forall_app, Forall_cons in F. apply F.
Qed.

(** The element at a position of the sorted list, counted in the input. *)
Lemma select_counts l out k v : Forall (exact_value mixed) l -> Permutation out l ->
  StronglySorted (le_of (cmp := value_order mixed)) out -> out !! k = Some v ->
  In v l /\ Z.of_nat k + 1 <= count_le v l /\ count_lt v l <= Z.of_nat k.
Proof.
  intros Hl Hp Hs Hk. apply list_elem_of_split_length in Hk as (b & a & -> & ->).
  assert (In v l) as Hv by (rewrite <- Hp, in_app_iff; right; by left).
  assert (forall x, In x (b ++ v :: a) -> exact_value mixed x) as He.
  { intros x Hx. rewrite List.Forall_forall in Hl. apply Hl. by rewrite <- Hp. }
  apply sorted_split in Hs as [HB HA]. unfold le_of in *.
  split; [done|]. unfold count_le, count_lt.
  rewrite <- !(Permutation_filter_length _ _ _ Hp), !List.filter_app, !length_app. cbn [List.filter].
  assert (exact_value mixed v) as Hev by (apply He; rewrite in_app_iff; right; by left).
  rewrite ord_refl by done. cbn [Z.leb Z.ltb Z.compare]. split.
  - rewrite (filter_all _ b) by (rewrite List.Forall_forall in *; intros x Hx; apply Z.leb_le; by apply HB).
    cbn [length]. lia.
  - rewrite (filter_none _ a); cbn [length].
    + pose proof (List.filter_length_le (fun x => value_order mixed x v <? 0) b). lia.
    + rewrite List.Forall_forall in *. intros x Hx. apply Z.ltb_ge.
      pose proof (ord_flip (cmp := value_order mixed) v x Hev ltac:(apply He; rewrite in_app_iff; right; by right)).
      specialize (HA x Hx). lia.
Qed.
End Select.

Section QuantileRun.
Context {hugeint_t : Type} `{!Hugeint hugeint_t}.
Context (std_sort : (sqlite3_value -> sqlite3_value -> bool) -> list sqlite3_value -> list sqlite3_value).
Context (floor_n_minus_nq : Z -> Z -> Z).
Context (double_in_unit : sqlite3_value -> bool) (double_argument : sqlite3_value -> Z).

(** The step calls of one group, with a quantile that is constant in the
    statement. *)
Fixpoint quantile_steps (q : sqlite3_value) (input : list sqlite3_value)
    (state : option SQLiteQuantileState) : res agg_error (option (SQLiteQuantileState (hugeint_t := hugeint_t))) :=
  match input with
  | [] => Ok state
  | v :: input =>
      state ← SQLiteQuantileStep double_in_unit double_argument true true v q state;
      quantile_steps q input state
  end.

Definition non_null (input : list sqlite3_value) : list sqlite3_value :=
  List.filter (fun v => negb (is_null v)) input.

(** The state after the values [l] with a decimal quantile. *)
Definition decimal_state (i s : hugeint_t) (l : list sqlite3_value) : option SQLiteQuantileState :=
  match l with
  | [] => None
  | _ => Some {| values := l; quantile := 0; is_decimal := true; integral := i; scaling := s |}
  end.

Lemma quantile_steps_decimal text i s input : SQLiteParseDecimalQuantile text = Some (i, s) ->
  forall l, quantile_steps (SQLITE_TEXT text) input (decimal_state i s l) =
    Ok (decimal_state i s (l ++ non_null input)).
Proof.
  intros E. unfold non_null. induction input as [|v input IH]; intros l; cbn [quantile_steps].
  - cbn. by rewrite app_nil_r.
  - unfold SQLiteQuantileStep. cbn [List.filter negb]. destruct (is_null v); cbn [negb mbind res_bind]; [apply IH|].
    rewrite E.
    replace (Some {| values := _; quantile := _; is_decimal := _; integral := _; scaling := _ |})
      with (decimal_state i s (l ++ [v])) by (by destruct l).
    cbn [negb mbind res_bind]. rewrite IH, <- app_assoc. done.
Qed.

(** Without values nothing is read; with a text that is not a quantile the first
    value reports the error. *)
Lemma quantile_steps_null q input : non_null input = [] -> quantile_steps q input None = Ok None.
Proof.
  unfold non_null. induction input as [|v input IH]; cbn [quantile_steps List.filter]; [done|].
  unfold SQLiteQuantileStep. destruct (is_null v); cbn [negb mbind res_bind]; [done|discriminate].
Qed.

Lemma quantile_steps_error text input : SQLiteParseDecimalQuantile (hugeint_t := hugeint_t) text = None ->
  non_null input <> [] -> quantile_steps (SQLITE_TEXT text) input None = Throw error_quantile_range.
Proof.
  intros E. unfold non_null. induction input as [|v input IH]; cbn [quantile_steps List.filter]; [done|].
  unfold SQLiteQuantileStep. destruct (is_null v); cbn [negb mbind res_bind]; [done|]. by rewrite E.
Qed.

(** The contract of [std::sort]: for a comparator that is an order on the
    elements, a sorted permutation. *)
Definition sort_contract : Prop := forall (P : sqlite3_value -> Prop) cmp lt l, Order P cmp ->
  (forall x y, P x -> P y -> lt x y = (cmp x y <? 0)) -> Forall P l ->
  Permutation (std_sort lt l) l /\ StronglySorted (le_of (cmp := cmp)) (std_sort lt l).

(** The final function on a decimal quantile [i / s]. *)
Lemma quantile_final_decimal mixed (i s : hugeint_t) v0 l : sort_contract ->
  Forall (exact_value mixed) (v0 :: l) -> 0 <= h_val i <= h_val s -> 0 < h_val s ->
  let n := Z.of_nat (length (v0 :: l)) in n < 2 ^ 63 -> n * h_val s < 2 ^ 127 ->
  exists v, SQLiteQuantileFinal_discrete std_sort floor_n_minus_nq (decimal_state i s (v0 :: l)) = Some v /\
    In v (v0 :: l) /\ n * h_val i <= h_val s * count_le mixed v (v0 :: l) /\
    (count_lt mixed v (v0 :: l) = 0 \/ h_val s * count_lt mixed v (v0 :: l) < n * h_val i).
Proof.
  intros HS Hl Hi Hs n Hn Hb. assert (0 < n) as Hn0 by (unfold n; cbn [length]; lia).
  destruct (HS (exact_value mixed) (value_order mixed) (fun l r => SQLiteCompareValues l r <? 0) (v0 :: l))
    as [HP HSt]; [apply _|intros x y Hx Hy; by rewrite (compare_values mixed)|done|].
  pose proof (quantile_index n (h_val i) (h_val s) Hn0 Hi Hs) as (Hc & Hlo & Hhi).
  cbn [decimal_state SQLiteQuantileFinal_discrete values is_decimal integral scaling]. fold n.
  set (out := std_sort _ _) in *.
  assert (h_val (h_of n) = n) as E0 by (apply h_of_val; unfold is_s; lia).
  assert (h_val (h_mul (h_of n) s) = n * h_val s) as E1
    by (rewrite h_mul_val; rewrite E0; [done|unfold in_hugeint; nia]).
  assert (h_val (h_mul (h_of n) i) = n * h_val i) as E2
    by (rewrite h_mul_val; rewrite E0; [done|unfold in_hugeint; nia]).
  assert (h_val (h_sub (h_mul (h_of n) s) (h_mul (h_of n) i)) = n * h_val s - n * h_val i) as E3
    by (rewrite h_sub_val; rewrite E1, E2; [done|unfold in_hugeint; nia]).
  set (floored := h_TryCast _).
  assert (floored = Z.quot (n * h_val s - n * h_val i) (h_val s)) as Ef.
  { unfold floored. rewrite h_TryCast_val; rewrite h_div_val, E3 by lia; [done|]. unfold is_s. lia. }
  set (c := n - Z.quot (n * h_val s - n * h_val i) (h_val s)) in *.
  rewrite Ef. fold c. rewrite (wrapu_id 64 c) by solve_width.
  rewrite wrapu_id by solve_width.
  assert (length out = length (v0 :: l)) as HL by (by apply Permutation_length).
  destruct (lookup_lt_is_Some_2 out (Z.to_nat (Z.max 1 c - 1))) as [v Hv]; [rewrite HL; unfold n in *; lia|].
  exists v. split; [done|]. apply (select_counts mixed (v0 :: l)) in Hv as (Hin & Hle & Hlt); try done.
  split; [done|]. split; [nia|]. destruct (Z.eq_dec (count_lt mixed v (v0 :: l)) 0); [by left|right].
  assert (1 <= count_lt mixed v (v0 :: l)) by (unfold count_lt in *; lia). nia.
Qed.
End QuantileRun.

Lemma stable_sort_contract : sort_contract (fun lt => stable_sort lt).
Proof.
  intros P cmp lt l HO Hlt Hl. destruct (stable_sort_correct (cmp := cmp) lt Hlt l Hl) as (? & ? & _). done.
Qed.

(** ** Properties *)

(** [duckdb_string_agg]: for rows whose keys are exact columns, the steps
    succeed, and the final function returns NULL when no value is given and
    otherwise the values that are not NULL, joined by the separator in the order
    that is requested (key by key, ascending or descending, NULLs first or
    last), rows with equal keys in the order of the input.  This order is the
    only one the contract of a stable sort allows. *)
Theorem string_agg_correct number_text sep ord cols input :
  Forall (fun x => Forall2 exact_value cols (snd x)) input ->
  let order := SQLiteTextArgument number_text ord in
  let l := agg_rows number_text input in
  exists state out,
    string_agg_steps number_text sep ord input None = Ok state /\
    SQLiteOrderedStringAggFinal state =
      (match l with [] => SQLITE_NULL | _ => SQLITE_TEXT (join (SQLiteTextArgument number_text sep) true out) end) /\
    stable_sort_of (P := exact_row cols) (cmp := requested_order order cols) l out /\
    (forall out', stable_sort_of (P := exact_row cols) (cmp := requested_order order cols) l out' -> out' = out).
Proof.
  intros Hi order l. exists (agg_state number_text sep ord l), (stable_sort (row_comparator order) l).
  assert (Forall (exact_row cols) l) as Hl.
  { unfold l, agg_rows. apply List.Forall_map, List.Forall_forall. intros x [Hx _]%filter_In.
    rewrite List.Forall_forall in Hi. by apply Hi. }
  assert (stable_sort_of (P := exact_row cols) (cmp := requested_order order cols) l
    (stable_sort (row_comparator order) l)) as HS.
  { apply stable_sort_correct; [|done]. intros x y Hx Hy. by apply compare_keys_order. }
  split; [apply (string_agg_steps_rows number_text sep ord input [])|].
  split; [unfold SQLiteOrderedStringAggFinal; by destruct l|]. split; [done|].
  intros out' (P1 & S1 & F1). destruct HS as (P2 & S2 & F2).
  apply (stable_sort_unique (P := exact_row cols) (cmp := requested_order order cols)); try done.
  - by apply Forall_perm with l.
  - by rewrite P1, P2.
  - intros x Hx. by rewrite F1, F2.
Qed.

Lemma string_agg_correct_witness :
  let input := [(SQLITE_TEXT [98], [SQLITE_INTEGER 2]); (SQLITE_NULL, [SQLITE_INTEGER 0]);
                (SQLITE_TEXT [97], [SQLITE_INTEGER 1]); (SQLITE_TEXT [99], [SQLITE_NULL]);
                (SQLITE_TEXT [100], [SQLITE_INTEGER 2])] in
  exists state,
    string_agg_steps (fun _ => []) (SQLITE_TEXT [44]) (SQLITE_TEXT [68; 76]) input None = Ok state /\
    SQLiteOrderedStringAggFinal state = SQLITE_TEXT [98; 44; 100; 44; 97; 44; 99].
Proof.
  intros input.
  destruct (string_agg_correct (fun _ => []) (SQLITE_TEXT [44]) (SQLITE_TEXT [68; 76]) [false] input)
    as (state & out & E & F & _).
  - repeat constructor.
  - exists state. split; [exact E|]. vm_compute in E. injection E as <-. vm_compute. reflexivity.
Defined.

(** C31. [duckdb_arg_min] and [duckdb_arg_max] return the argument of the first
    of the rows with the extreme value among those where neither is NULL, and
    NULL without such a row.  [duckdb_quantile_disc] with a quantile written as
    a decimal [a.b] up to one, whatever sorted list [std::sort] leaves, accesses
    its vector in range and returns one of the values that are not NULL: at
    least the fraction [a.b] of the values is at or below it, and less than that
    fraction (or none) is below it; with a decimal above one it reports an
    error, and without values it returns NULL.  Columns are exact, and the
    number of values times the scaling fits DuckDB's 128-bit integer. *)
Theorem order_statistics_correct {hugeint_t : Type} `{!Hugeint hugeint_t} std_sort floor_nq in_unit dbl mixed :
  sort_contract std_sort ->
  (forall IS_MAX input, Forall (fun x => exact_value mixed (snd x)) input ->
     exists state, arg_steps IS_MAX input None = Ok state /\
       match arg_rows input with
       | [] => SQLiteArgFinal state = SQLITE_NULL
       | l => exists before v after, l = before ++ (SQLiteArgFinal state, v) :: after /\
           Forall (fun x => rank_order IS_MAX mixed (snd x) v < 0) before /\
           Forall (fun x => rank_order IS_MAX mixed (snd x) v <= 0) after
       end) /\
  (forall a b input, digits a -> digits b -> 1 <= Z.of_nat (length a + length b) <= 30 ->
     Forall (exact_value mixed) input ->
     let l := non_null input in
     let n := Z.of_nat (length l) in
     let s := 10 ^ Z.of_nat (length b) in
     n < 2 ^ 63 -> n * s < 2 ^ 127 ->
     let run := quantile_steps (hugeint_t := hugeint_t) in_unit dbl (SQLITE_TEXT (a ++ 46 :: b)) input None in
     match l with
     | [] => run = Ok None
     | _ =>
         if dec (a ++ b) <=? s then
           exists state v, run = Ok state /\
             SQLiteQuantileFinal_discrete std_sort floor_nq state = Some v /\ In v l /\
             n * dec (a ++ b) <= s * count_le mixed v l /\
             (count_lt mixed v l = 0 \/ s * count_lt mixed v l < n * dec (a ++ b))
         else run = Throw error_quantile_range
     end).
Proof.
  intros HS. split.
  - intros IS_MAX input Hi. pose proof (arg_steps_correct IS_MAX mixed input Hi) as H.
    destruct (arg_rows input); [by eexists|]. destruct H as (s & E & before & after & B).
    exists (Some s). split; [done|]. by exists before, (val s), after.
  - intros a b input Ha Hb Hd Hi l n s Hn Hns run.
    destruct (parse_decimal (hugeint_t := hugeint_t) a b Ha Hb Hd) as (i & sc & E & Ei & Es).
    fold s in E, Es.
    assert (Forall (exact_value mixed) l) as Hl.
    { unfold l, non_null. rewrite List.Forall_forall in *. intros x [Hx _]%filter_In. by apply Hi. }
    destruct l as [|v0 l'] eqn:El; [by apply quantile_steps_null|].
    destruct (Z.leb_spec (dec (a ++ b)) s) as [Hle|Hgt].
    + assert (0 < s) as Hs0 by (unfold s; apply Z.pow_pos_nonneg; lia).
      pose proof (dec_bound (a ++ b) 0 0 ltac:(by apply Forall_app) ltac:(lia) ltac:(lia)) as Hdb.
      fold (dec (a ++ b)) in Hdb. rewrite <- Ei, <- Es in *.
      destruct (quantile_final_decimal std_sort floor_nq mixed i sc v0 l' HS Hl) as (v & F & R);
        [lia..|]. exists (decimal_state i sc (v0 :: l')), v. split; [|by split].
      unfold run. rewrite (quantile_steps_decimal _ _ _ i sc input E []). cbn [app].
      by change (non_null input) with l; rewrite El.
    + apply quantile_steps_error; [done|]. change (non_null input) with l. by rewrite El.
Qed.

Lemma order_statistics_correct_witness :
  (exists state, arg_steps true [(SQLITE_TEXT [97], SQLITE_INTEGER 3); (SQLITE_NULL, SQLITE_INTEGER 9);
      (SQLITE_TEXT [98], SQLITE_INTEGER 7); (SQLITE_TEXT [99], SQLITE_INTEGER 7)] None = Ok state /\
    SQLiteArgFinal state = SQLITE_TEXT [98]) /\
  (exists state v, quantile_steps (hugeint_t := Z) (fun _ => true) (fun _ => 0) (SQLITE_TEXT [48; 46; 53])
      [SQLITE_INTEGER 30; SQLITE_INTEGER 10; SQLITE_NULL; SQLITE_INTEGER 20] None = Ok state /\
    SQLiteQuantileFinal_discrete (fun lt => stable_sort lt) (fun _ _ => 0) state = Some v /\
    3 * 5 <= 10 * count_le false v [SQLITE_INTEGER 30; SQLITE_INTEGER 10; SQLITE_INTEGER 20]).
Proof.
  destruct (order_statistics_correct (hugeint_t := Z) (fun lt => stable_sort lt) (fun _ _ => 0)
    (fun _ => true) (fun _ => 0) false stable_sort_contract) as [HA HQ]. split.
  - destruct (HA true [(SQLITE_TEXT [97], SQLITE_INTEGER 3); (SQLITE_NULL, SQLITE_INTEGER 9);
      (SQLITE_TEXT [98], SQLITE_INTEGER 7); (SQLITE_TEXT [99], SQLITE_INTEGER 7)]) as (state & E & _).
    + repeat constructor.
    + exists state. split; [exact E|]. vm_compute in E. injection E as <-. reflexivity.
  - assert (digits [48]) as D1 by (repeat constructor; lia).
    assert (digits [53]) as D2 by (repeat constructor; lia).
    assert (Forall (exact_value false)
      [SQLITE_INTEGER 30; SQLITE_INTEGER 10; SQLITE_NULL; SQLITE_INTEGER 20]) as DV by repeat constructor.
    assert (1 <= Z.of_nat (length [48] + length [53]) <= 30) as DL by (cbn [length]; lia).
    assert (3 < 2 ^ 63) as DN by lia. assert (3 * 10 < 2 ^ 127) as DS by lia.
    destruct (HQ [48] [53] [SQLITE_INTEGER 30; SQLITE_INTEGER 10; SQLITE_NULL; SQLITE_INTEGER 20]
      D1 D2 DL DV DN DS) as (state & v & E & F & _ & C & _).
    exists state, v. split; [exact E|]. split; [exact F|exact C].
Defined.
