(* ===== verification/Utf.v ===== *)
(** * Text encodings (utf.c of the engine)

    Reading and writing of UTF-8 and UTF-16 characters and the translation of a
    string between the encodings, [sqlite3VdbeMemTranslate], with the buffer it
    allocates for the result.  A zero-terminated string is the list of the bytes
    before its terminator; a pointer into it is the rest of the list, and reading
    the terminator gives 0. *)

From S2P Require Import Prelude Bits IntParse.

Local Open Scope c_scope.

(** [(b & 0xc0) == 0x80] *)
Definition is_cont_byte (b : Z) : bool := b & 0xc0 =? 0x80.

Definition sqlite3Utf8Trans1 : list Z :=
  [0x00; 0x01; 0x02; 0x03; 0x04; 0x05; 0x06; 0x07;
   0x08; 0x09; 0x0a; 0x0b; 0x0c; 0x0d; 0x0e; 0x0f;
   0x10; 0x11; 0x12; 0x13; 0x14; 0x15; 0x16; 0x17;
   0x18; 0x19; 0x1a; 0x1b; 0x1c; 0x1d; 0x1e; 0x1f;
   0x00; 0x01; 0x02; 0x03; 0x04; 0x05; 0x06; 0x07;
   0x08; 0x09; 0x0a; 0x0b; 0x0c; 0x0d; 0x0e; 0x0f;
   0x00; 0x01; 0x02; 0x03; 0x04; 0x05; 0x06; 0x07;
   0x00; 0x01; 0x02; 0x03; 0x00; 0x01; 0x00; 0x00].

(** The loop over the continuation bytes. *)
Fixpoint cont_loop (c : Z) (z : list Z) : Z * list Z :=
  match z with
  | b :: z' => if is_cont_byte b then cont_loop (u32 (u32 (c << 6) + (0x3f & b))) z' else (c, z)
  | [] => (c, [])
  end.

(** Overlong ASCII, surrogates and the two non-characters at the end of the
    basic plane are rendered as U+FFFD. *)
Definition replace_invalid (c : Z) : Z :=
  if (c <? 0x80) || (c & 0xFFFFF800 =? 0xD800) || (c & 0xFFFFFFFE =? 0xFFFE) then 0xFFFD else c.

Definition sqlite3Utf8Read (z : list Z) : Z * list Z :=
  match z with
  | [] => (0, [])
  | b :: z =>
      if 0xc0 <=? b then
        let '(c, z) := cont_loop (nth (Z.to_nat (b - 0xc0)) sqlite3Utf8Trans1 0) z in
        (replace_invalid c, z)
      else (b, z)
  end.

(** The macro [READ_UTF8] stops at [zTerm], the end of the list. *)
Definition READ_UTF8 (zIn : list Z) : Z * list Z := sqlite3Utf8Read zIn.

(** The macro [Utf8Read]. *)
Definition Utf8Read (z : list Z) : Z * list Z :=
  match z with
  | [] => (0, [])
  | b :: z' => if b <? 0x80 then (b, z') else sqlite3Utf8Read z
  end.

Fixpoint skip_cont_bytes (z : list Z) : list Z :=
  match z with
  | b :: z' => if is_cont_byte b then skip_cont_bytes z' else z
  | [] => []
  end.

(** The macro [SQLITE_SKIP_UTF8], on a string that has not ended. *)
Definition SQLITE_SKIP_UTF8 (z : list Z) : list Z :=
  match z with
  | [] => []
  | b :: z => if 0xc0 <=? b then skip_cont_bytes z else z
  end.

Definition WRITE_UTF8 (c : Z) : list Z :=
  if c <? 0x80 then [u8 (c & 0xFF)]
  else if c <? 0x800 then [0xC0 + u8 ((c >> 6) & 0x1F); 0x80 + u8 (c & 0x3F)]
  else if c <? 0x10000 then
    [0xE0 + u8 ((c >> 12) & 0x0F); 0x80 + u8 ((c >> 6) & 0x3F); 0x80 + u8 (c & 0x3F)]
  else
    [0xF0 + u8 ((c >> 18) & 0x07); 0x80 + u8 ((c >> 12) & 0x3F); 0x80 + u8 ((c >> 6) & 0x3F);
     0x80 + u8 (c & 0x3F)].

Definition WRITE_UTF16LE (c : Z) : list Z :=
  if c <=? 0xFFFF then [u8 (c & 0xFF); u8 ((c >> 8) & 0xFF)]
  else
    [u8 (((c >> 10) & 0x3F) + (((c - 0x10000) >> 10) & 0xC0)); u8 (0xD8 + (((c - 0x10000) >> 18) & 0x03));
     u8 (c & 0xFF); u8 (0xDC + ((c >> 8) & 0x03))].

Definition WRITE_UTF16BE (c : Z) : list Z :=
  if c <=? 0xFFFF then [u8 ((c >> 8) & 0xFF); u8 (c & 0xFF)]
  else
    [u8 (0xD8 + (((c - 0x10000) >> 18) & 0x03)); u8 (((c >> 10) & 0x3F) + (((c - 0x10000) >> 10) & 0xC0));
     u8 (0xDC + ((c >> 8) & 0x03)); u8 (c & 0xFF)].

(** One round of the loops that read UTF-16; [lo] and [hi] are the places of the
    two bytes of a unit.  The input has an even number of bytes. *)
Definition unit16 (le : bool) (b0 b1 : Z) : Z := if le then b0 + (b1 << 8) else (b0 << 8) + b1.

Definition read_utf16 (le : bool) (zIn : list Z) : Z * list Z :=
  match zIn with
  | b0 :: b1 :: z =>
      let c := unit16 le b0 b1 in
      if (0xd800 <=? c) && (c <? 0xe000) then
        match z with
        | b2 :: b3 :: z =>
            let c2 := unit16 le b2 b3 in
            ((c2 & 0x03FF) + ((c & 0x003F) << 10) + (((c & 0x03C0) + 0x0040) << 10), z)
        | _ => (c, z)
        end
      else (c, z)
  | _ => (0, [])
  end.

(** The loops [while( zIn<zTerm )]: a character is read and written. *)
Fixpoint translate_loop (fuel : nat) (read : list Z -> Z * list Z) (write : Z -> list Z) (zIn : list Z)
  : list Z :=
  match fuel, zIn with
  | S fuel, _ :: _ => let '(c, zIn) := read zIn in write c ++ translate_loop fuel read write zIn
  | _, _ => []
  end.

(** The loop that swaps the bytes of UTF-16 in place. *)
Fixpoint swap_loop (z : list Z) : list Z :=
  match z with
  | b0 :: b1 :: z => b1 :: b0 :: swap_loop z
  | z => z
  end.

Record Text : Type := { t_enc : Z; t_z : list Z }.

(** A translation returns the string, or [SQLITE_NOMEM]; [nAlloc] is the size of
    the buffer the output is written to. *)
Inductive translated : Type := Nomem | Translated (t : Text) (nAlloc : Z).

(** [n & ~1] *)
Definition even_bytes (z : list Z) : list Z := take (2 * (length z / 2))%nat z.

(** [writeable] is the answer of [sqlite3VdbeMemMakeWriteable], [alloc] that of
    the allocator.  Bytes are swapped in place, so that buffer is the string. *)
Definition sqlite3VdbeMemTranslate (writeable : bool) (alloc : Z -> bool) (pMem : Text) (desiredEnc : Z)
  : translated :=
  if negb (t_enc pMem =? SQLITE_UTF8) && negb (desiredEnc =? SQLITE_UTF8) then
    if negb writeable then Nomem
    else Translated {| t_enc := desiredEnc; t_z := swap_loop (t_z pMem) |} (Z.of_nat (length (t_z pMem)))
  else
    let zIn := if desiredEnc =? SQLITE_UTF8 then even_bytes (t_z pMem) else t_z pMem in
    let n := Z.of_nat (length zIn) in
    let len := if desiredEnc =? SQLITE_UTF8 then 2 * n + 1 else 2 * n + 2 in
    if negb (alloc len) then Nomem
    else
      let zOut :=
        if t_enc pMem =? SQLITE_UTF8 then
          translate_loop (length zIn) READ_UTF8
            (if desiredEnc =? SQLITE_UTF16LE then WRITE_UTF16LE else WRITE_UTF16BE) zIn
        else
          translate_loop (length zIn) (read_utf16 (t_enc pMem =? SQLITE_UTF16LE)) WRITE_UTF8 zIn in
      Translated {| t_enc := desiredEnc; t_z := zOut |} len.

(** The loop of [sqlite3Utf8CharLen]: [n] bytes are left before [zTerm], without
    bound when it is negative. *)
Fixpoint charlen_loop (fuel : nat) (z : list Z) (n r : Z) : Z :=
  match fuel, z with
  | S fuel, b :: _ =>
      if (b =? 0) || (n =? 0) then r
      else
        let z' := SQLITE_SKIP_UTF8 z in
        let n := if n <? 0 then n else Z.max 0 (n - Z.of_nat (length z - length z')) in
        charlen_loop fuel z' n (r + 1)
  | _, _ => r
  end.

Definition sqlite3Utf8CharLen (z : list Z) (nByte : Z) : Z := charlen_loop (length z) z nByte 0.

(** ** Characters *)

(** Unicode scalar values, and those the reader does not replace. *)
Definition scalar (c : Z) : Prop := 0 <= c < 0x110000 /\ ~ (0xD800 <= c < 0xE000).
Definition exact_char (c : Z) : Prop := scalar c /\ c <> 0xFFFE /\ c <> 0xFFFF.

Definition encode (write : Z -> list Z) (cs : list Z) : list Z := concat (map write cs).

(** The UTF-16 units of a character. *)
Definition units16 (c : Z) : list Z :=
  if c <? 0x10000 then [c]
  else [0xD800 + (c - 0x10000) / 1024; 0xDC00 + (c - 0x10000) mod 1024].
Definition bytes16 (le : bool) (u : Z) : list Z :=
  if le then [u mod 256; u / 256] else [u / 256; u mod 256].

Lemma shiftr_div x k d : d = 2 ^ k -> 0 <= k -> x >> k = x / d.
Proof. intros -> ?. by apply Z.shiftr_div_pow2. Qed.
Lemma land_mod x m k d : m = Z.ones k -> d = 2 ^ k -> 0 <= k -> x & m = x mod d.
Proof. intros -> -> ?. by apply Z.land_ones. Qed.

(** Shifts and masks as quotients and remainders. *)
Ltac arith_bits :=
  rewrite ?(fun x => shiftr_div x 6 64 eq_refl ltac:(lia)),
    ?(fun x => shiftr_div x 8 256 eq_refl ltac:(lia)), ?(fun x => shiftr_div x 10 1024 eq_refl ltac:(lia)),
    ?(fun x => shiftr_div x 12 4096 eq_refl ltac:(lia)), ?(fun x => shiftr_div x 18 262144 eq_refl ltac:(lia)),
    ?(fun x => land_mod x 0x3F 6 64 eq_refl eq_refl ltac:(lia)),
    ?(fun x => land_mod x 0xFF 8 256 eq_refl eq_refl ltac:(lia)),
    ?(fun x => land_mod x 0x1F 5 32 eq_refl eq_refl ltac:(lia)),
    ?(fun x => land_mod x 0x0F 4 16 eq_refl eq_refl ltac:(lia)),
    ?(fun x => land_mod x 0x07 3 8 eq_refl eq_refl ltac:(lia)),
    ?(fun x => land_mod x 0x03 2 4 eq_refl eq_refl ltac:(lia)),
    ?(fun x => land_mod x 0x03FF 10 1024 eq_refl eq_refl ltac:(lia));
  unfold wrapu; change (2 ^ 8) with 256.

Ltac ediv := Z.to_euclidean_division_equations; lia.

Lemma cont_byte b : is_u 8 b -> is_cont_byte b = (0x80 <=? b) && (b <? 0xc0).
Proof.
  intros H. unfold is_cont_byte. replace (b & 0xc0) with ((b >> 6) << 6) by (bv_decide [(b, 8)]).
  rewrite Z.shiftl_mul_pow2, (shiftr_div b 6 64) by (done || lia). unfold is_u in H.
  destruct (Z.leb_spec 0x80 b), (Z.ltb_spec b 0xc0); cbn [andb]; try (apply Z.eqb_neq); try (apply Z.eqb_eq); ediv.
Qed.

Lemma replace_exact c : exact_char c -> 0x80 <= c -> replace_invalid c = c.
Proof.
  intros [[R S] [N1 N2]] H. unfold replace_invalid.
  replace (c & 0xFFFFF800) with ((c >> 11) << 11) by (bv_decide [(c, 21)]).
  replace (c & 0xFFFFFFFE) with ((c >> 1) << 1) by (bv_decide [(c, 21)]).
  rewrite !Z.shiftl_mul_pow2, (shiftr_div c 11 2048), (shiftr_div c 1 2) by (done || lia).
  replace (c <? 0x80) with false by lia. cbn [orb].
  destruct (Z.eqb_spec (c / 2048 * 2 ^ 11) 0xD800); [exfalso; ediv|].
  destruct (Z.eqb_spec (c / 2 * 2 ^ 1) 0xFFFE); [exfalso; ediv|]. done.
Qed.

(** Text that begins with a character, or has ended. *)
Definition no_cont (z : list Z) : Prop := match z with b :: _ => is_cont_byte b = false | [] => True end.

Lemma cont_loop_stop c z : no_cont z -> cont_loop c z = (c, z).
Proof. destruct z; [done|]. cbn. by intros ->. Qed.

Lemma cont_loop_step c x z : 0 <= x < 64 -> 0 <= c < 2 ^ 21 ->
  cont_loop c (0x80 + x :: z) = cont_loop (c * 64 + x) z.
Proof.
  intros Hx Hc. cbn [cont_loop]. rewrite cont_byte by (unfold is_u; lia).
  replace ((0x80 <=? 0x80 + x) && (0x80 + x <? 0xc0)) with true by lia. f_equal.
  rewrite Z.land_comm. arith_bits. rewrite Z.shiftl_mul_pow2 by lia.
  rewrite (Z.mod_small (c * 2 ^ 6)) by lia. rewrite Z.mod_small; ediv.
Qed.

(** The lead byte of a sequence holds its high bits. *)
Lemma trans_lead2 x : 0 <= x < 32 -> nth (Z.to_nat (0xC0 + x - 0xc0)) sqlite3Utf8Trans1 0 = x.
Proof.
  intros H. assert (In (Z.to_nat x) (seq 0 32)) as I by (rewrite in_seq; lia).
  replace (0xC0 + x - 0xc0) with x by lia. rewrite <- (Z2Nat.id x) at 2 by lia.
  revert I. generalize (Z.to_nat x). apply List.Forall_forall. vm_compute. repeat constructor.
Qed.
Lemma trans_lead3 x : 0 <= x < 16 -> nth (Z.to_nat (0xE0 + x - 0xc0)) sqlite3Utf8Trans1 0 = x.
Proof.
  intros H. assert (In (Z.to_nat x) (seq 0 16)) as I by (rewrite in_seq; lia).
  replace (Z.to_nat (0xE0 + x - 0xc0)) with (32 + Z.to_nat x)%nat by lia.
  rewrite <- (Z2Nat.id x) at 2 by lia.
  revert I. generalize (Z.to_nat x). apply List.Forall_forall. vm_compute. repeat constructor.
Qed.
Lemma trans_lead4 x : 0 <= x < 8 -> nth (Z.to_nat (0xF0 + x - 0xc0)) sqlite3Utf8Trans1 0 = x.
Proof.
  intros H. assert (In (Z.to_nat x) (seq 0 8)) as I by (rewrite in_seq; lia).
  replace (Z.to_nat (0xF0 + x - 0xc0)) with (48 + Z.to_nat x)%nat by lia.
  rewrite <- (Z2Nat.id x) at 2 by lia.
  revert I. generalize (Z.to_nat x). apply List.Forall_forall. vm_compute. repeat constructor.
Qed.

Lemma utf8_read_write c rest : exact_char c -> no_cont rest ->
  sqlite3Utf8Read (WRITE_UTF8 c ++ rest) = (c, rest).
Proof.
  intros Hc Hr. pose proof Hc as [[R _] _]. unfold WRITE_UTF8. arith_bits.
  destruct (Z.ltb_spec c 0x80).
  { cbn [app sqlite3Utf8Read]. rewrite !Z.mod_small by (rewrite ?Z.mod_small; lia).
    by replace (0xc0 <=? c) with false by lia. }
  assert (forall a, 0 <= a mod 64 < 64) as M by (intros; apply Z.mod_pos_bound; lia).
  assert (forall a, (a mod 64) mod 256 = a mod 64) as MM by (intros; apply Z.mod_small; specialize (M a); lia).
  rewrite !MM.
  destruct (Z.ltb_spec c 0x800); [|destruct (Z.ltb_spec c 0x10000)]; cbn [app sqlite3Utf8Read].
  - replace ((c / 64) mod 32 mod 256) with (c / 64) by ediv.
    replace (0xc0 <=? 0xC0 + c / 64) with true by ediv. rewrite trans_lead2 by ediv.
    rewrite cont_loop_step by ediv. rewrite cont_loop_stop by done.
    replace (c / 64 * 64 + c mod 64) with c by ediv. by rewrite replace_exact.
  - replace ((c / 4096) mod 16 mod 256) with (c / 4096) by ediv.
    replace (0xc0 <=? 0xE0 + c / 4096) with true by ediv. rewrite trans_lead3 by ediv.
    rewrite !cont_loop_step by ediv. rewrite cont_loop_stop by done.
    replace ((c / 4096 * 64 + (c / 64) mod 64) * 64 + c mod 64) with c by ediv. by rewrite replace_exact.
  - replace ((c / 262144) mod 8 mod 256) with (c / 262144) by ediv.
    replace (0xc0 <=? 0xF0 + c / 262144) with true by ediv. rewrite trans_lead4 by ediv.
    rewrite !cont_loop_step by ediv. rewrite cont_loop_stop by done.
    replace (((c / 262144 * 64 + (c / 4096) mod 64) * 64 + (c / 64) mod 64) * 64 + c mod 64) with c by ediv.
    by rewrite replace_exact.
Qed.

Lemma no_cont_byte b z : 0 <= b < 0x80 \/ 0xC0 <= b < 256 -> no_cont (b :: z).
Proof. intros H. cbn. rewrite cont_byte by solve_width. lia. Qed.

(** The shape of an encoded character: a byte below 0x80, or a lead byte and
    continuation bytes. *)
Lemma write_utf8_shape c : scalar c -> exists b l, WRITE_UTF8 c = b :: l /\
  (0 <= b < 0x80 /\ l = [] /\ b = c \/ 0xC0 <= b < 256 /\ l <> [] /\ 0x80 <= c) /\
  Forall (fun x => is_u 8 x /\ is_cont_byte x = true) l.
Proof.
  intros [R _]. unfold WRITE_UTF8. arith_bits.
  assert (forall a, is_u 8 (0x80 + (a mod 64) mod 256) /\ is_cont_byte (0x80 + (a mod 64) mod 256) = true) as C.
  { intros a. pose proof (Z.mod_pos_bound a 64 ltac:(lia)). rewrite (Z.mod_small (a mod 64)) by lia.
    assert (is_u 8 (0x80 + a mod 64)) by solve_width. split; [done|]. rewrite cont_byte by done. lia. }
  destruct (Z.ltb_spec c 0x80); [|destruct (Z.ltb_spec c 0x800); [|destruct (Z.ltb_spec c 0x10000)]];
    (eexists _, _; split; [reflexivity|]); (split; [|repeat constructor; apply C]).
  - left. split; [ediv|]. split; [done|ediv].
  - right. split; [ediv|]. split; [done|lia].
  - right. split; [ediv|]. split; [done|lia].
  - right. split; [ediv|]. split; [done|lia].
Qed.

Lemma write_utf8_start c z : scalar c -> no_cont (WRITE_UTF8 c ++ z).
Proof. intros H. destruct (write_utf8_shape c H) as (b & l & -> & [?|?] & _); apply no_cont_byte; lia. Qed.

Lemma encode_start cs : Forall exact_char cs -> no_cont (encode WRITE_UTF8 cs).
Proof. destruct 1 as [|c cs [Hc _] _]; [done|]. by apply write_utf8_start. Qed.

Lemma write_utf8_nonempty c : exists b l, WRITE_UTF8 c = b :: l.
Proof. unfold WRITE_UTF8. repeat case_match; eauto. Qed.

(** A loop over an encoded text visits its characters. *)
Lemma translate_chars (read : list Z -> Z * list Z) (enc write : Z -> list Z) (cs : list Z) :
  (forall c rest, In c cs -> (exists cs', rest = encode enc cs' /\ incl cs' cs) -> read (enc c ++ rest) = (c, rest)) ->
  (forall c, In c cs -> enc c <> []) ->
  forall fuel, (length (encode enc cs) <= fuel)%nat ->
  translate_loop fuel read write (encode enc cs) = encode write cs.
Proof.
  unfold encode. induction cs as [|c cs IH]; intros Hr Hn fuel Hf; cbn [map concat] in *.
  - by destruct fuel.
  - assert (read (enc c ++ concat (map enc cs)) = (c, concat (map enc cs))) as E.
    { apply Hr; [by left|]. exists cs. split; [done|]. intros x Hx. by right. }
    specialize (Hn c (or_introl eq_refl)) as Hc. destruct (enc c) as [|b l] eqn:Ec; [done|].
    rewrite length_app in Hf. cbn [length] in Hf. destruct fuel as [|fuel]; [lia|].
    cbn [app translate_loop]. cbn [app] in E. rewrite E. f_equal.
    apply IH; [| |lia].
    + intros c' rest I (cs' & -> & J). apply Hr; [by right|]. exists cs'. split; [done|].
      intros x Hx. right. by apply J.
    + intros c' I. apply Hn. by right.
Qed.

(** ** UTF-16 *)

Lemma write_utf16_spec (le : bool) c : scalar c ->
  (if le then WRITE_UTF16LE else WRITE_UTF16BE) c = concat (map (bytes16 le) (units16 c)).
Proof.
  intros [R S]. unfold units16.
  assert (c < 0x10000 -> u8 (c & 0xFF) = c mod 256 /\ u8 ((c >> 8) & 0xFF) = c / 256) as L.
  { intros. arith_bits. split; ediv. }
  assert (0x10000 <= c -> u8 (((c >> 10) & 0x3F) + (((c - 0x10000) >> 10) & 0xC0)) =
      (0xD800 + (c - 0x10000) / 1024) mod 256 /\
    u8 (0xD8 + (((c - 0x10000) >> 18) & 0x03)) = (0xD800 + (c - 0x10000) / 1024) / 256 /\
    u8 (c & 0xFF) = (0xDC00 + (c - 0x10000) mod 1024) mod 256 /\
    u8 (0xDC + ((c >> 8) & 0x03)) = (0xDC00 + (c - 0x10000) mod 1024) / 256) as H.
  { intros. set (d := c - 0x10000). assert (0 <= d < 0x100000) as Hd by (unfold d; lia).
    replace ((d >> 10) & 0xC0) with ((d / 1024) / 64 mod 4 * 64).
    2: { replace ((d >> 10) & 0xC0) with ((((d >> 10) >> 6) & 3) << 6) by (bv_decide [(d, 20)]).
         rewrite Z.shiftl_mul_pow2 by lia. arith_bits. done. }
    arith_bits. replace c with (d + 0x10000) by (unfold d; lia). clearbody d. split_and!; ediv. }
  destruct (Z.ltb_spec c 0x10000) as [Hc|Hc].
  - destruct (L Hc) as [L1 L2]. destruct le; unfold WRITE_UTF16LE, WRITE_UTF16BE;
      replace (c <=? 0xFFFF) with true by lia; cbn [map concat bytes16 app]; by rewrite L1, L2.
  - destruct (H Hc) as (H1 & H2 & H3 & H4). destruct le; unfold WRITE_UTF16LE, WRITE_UTF16BE;
      replace (c <=? 0xFFFF) with false by lia; cbn [map concat bytes16 app]; by rewrite H1, H2, H3, H4.
Qed.

Lemma unit16_bytes le u : 0 <= u < 0x10000 -> exists b0 b1, bytes16 le u = [b0; b1] /\ unit16 le b0 b1 = u.
Proof.
  intros H. unfold bytes16, unit16. destruct le; (eexists _, _; split; [reflexivity|]);
    rewrite Z.shiftl_mul_pow2 by lia; ediv.
Qed.

Lemma utf16_read_write le c rest : scalar c ->
  read_utf16 le (concat (map (bytes16 le) (units16 c)) ++ rest) = (c, rest).
Proof.
  intros [R S]. unfold units16. destruct (Z.ltb_spec c 0x10000) as [Hc|Hc]; cbn [map concat].
  - destruct (unit16_bytes le c) as (b0 & b1 & -> & E); [lia|]. cbn [app read_utf16]. rewrite E.
    by replace ((0xd800 <=? c) && (c <? 0xe000)) with false by lia.
  - set (d := c - 0x10000). assert (0 <= d < 0x100000) as Hd by (unfold d; lia).
    destruct (unit16_bytes le (0xD800 + d / 1024)) as (b0 & b1 & -> & E1); [ediv|].
    destruct (unit16_bytes le (0xDC00 + d mod 1024)) as (b2 & b3 & -> & E2); [ediv|].
    cbn [app read_utf16]. rewrite E1, E2.
    replace ((0xd800 <=? 0xD800 + d / 1024) && (0xD800 + d / 1024 <? 0xe000)) with true by ediv.
    f_equal. set (h := d / 1024). assert (0 <= h < 1024) as Hh by (unfold h; ediv).
    replace ((0xD800 + h) & 0x003F) with (h & 0x3F).
    2: { change 0x3F with (Z.ones 6). rewrite !Z.land_ones by lia. change (2 ^ 6) with 64. ediv. }
    replace ((0xD800 + h) & 0x03C0) with (h / 64 mod 16 * 64).
    2: { assert (is_u 16 (0xD800 + h)) by solve_width. set (w := 0xD800 + h).
         replace (w & 0x03C0) with (((w >> 6) & 15) << 6) by (bv_decide [(w, 16)]).
         rewrite Z.shiftl_mul_pow2 by lia. arith_bits. unfold w. ediv. }
    arith_bits. rewrite !Z.shiftl_mul_pow2 by lia.
    replace c with (d + 0x10000) by (unfold d; lia). unfold h. clearbody d. ediv.
Qed.

(** ** The size of the output *)

Lemma translate_bound (read : list Z -> Z * list Z) (write : Z -> list Z) :
  (forall z, z <> [] -> (length (snd (read z)) < length z)%nat /\
     (length (write (fst (read z))) + 2 * length (snd (read z)) <= 2 * length z)%nat) ->
  forall fuel z, (length (translate_loop fuel read write z) <= 2 * length z)%nat.
Proof.
  intros H. induction fuel as [|fuel IH]; intros z; cbn [translate_loop]; [cbn; lia|].
  destruct z as [|b z]; [cbn; lia|]. destruct (H (b :: z)) as [H1 H2]; [done|].
  destruct (read (b :: z)) as [c z'] eqn:E. cbn [fst snd] in *. rewrite length_app. specialize (IH z'). lia.
Qed.

Lemma cont_value c b : 0 <= c -> 0 <= u32 (u32 (c << 6) + (0x3f & b)) <= c * 64 + 63.
Proof.
  intros Hc. rewrite Z.land_comm. arith_bits. rewrite Z.shiftl_mul_pow2 by lia.
  change (2 ^ 32) with 4294967296. split; [apply Z.mod_pos_bound; lia|].
  etransitivity; [apply Z.mod_le; ediv|].
  assert ((c * 2 ^ 6) mod 4294967296 <= c * 2 ^ 6) by (apply Z.mod_le; lia). ediv.
Qed.

(** A sequence of three or more bytes is needed for a character beyond the basic
    plane. *)
Lemma cont_loop_small c z : 0 <= c < 32 ->
  (length (snd (cont_loop c z)) <= length z)%nat /\
  ((length z <= S (length (snd (cont_loop c z))))%nat -> 0 <= fst (cont_loop c z) < 0x10000).
Proof.
  assert (forall c z, length (snd (cont_loop c z)) <= length z)%nat as L.
  { intros c' z'. revert c'. induction z' as [|b z' IH]; intros c'; cbn [cont_loop]; [done|].
    destruct (is_cont_byte b); [|done]. specialize (IH (u32 (u32 (c' << 6) + (0x3f & b)))). cbn [length]. lia. }
  intros Hc. split; [apply L|]. destruct z as [|b z]; cbn [cont_loop]; [cbn; lia|].
  destruct (is_cont_byte b); [|cbn; lia]. pose proof (cont_value c b ltac:(lia)) as B.
  set (c1 := u32 _) in *. destruct z as [|b2 z]; cbn [cont_loop]; [cbn; lia|].
  destruct (is_cont_byte b2); [|cbn; lia]. intros Hlen.
  specialize (L (u32 (u32 (c1 << 6) + (0x3f & b2))) z). cbn [length] in *. lia.
Qed.

Lemma trans_small k : 0 <= nth k sqlite3Utf8Trans1 0 < 32.
Proof.
  destruct (Nat.lt_ge_cases k 64) as [H|H].
  - assert (Forall (fun x => 0 <= x < 32) sqlite3Utf8Trans1) as F
      by (unfold sqlite3Utf8Trans1; repeat constructor; lia).
    rewrite List.Forall_forall in F. apply F, nth_In. done.
  - rewrite nth_overflow by done. lia.
Qed.

Lemma utf16_size c : length (WRITE_UTF16LE c) = (if c <=? 0xFFFF then 2%nat else 4%nat) /\
  length (WRITE_UTF16BE c) = (if c <=? 0xFFFF then 2%nat else 4%nat).
Proof. unfold WRITE_UTF16LE, WRITE_UTF16BE. by destruct (c <=? 0xFFFF). Qed.

Lemma utf8_to_16_bound (le : bool) z : z <> [] ->
  (length (snd (READ_UTF8 z)) < length z)%nat /\
  (length ((if le then WRITE_UTF16LE else WRITE_UTF16BE) (fst (READ_UTF8 z))) + 2 * length (snd (READ_UTF8 z))
    <= 2 * length z)%nat.
Proof.
  destruct z as [|b z]; [done|]. intros _. unfold READ_UTF8. cbn [sqlite3Utf8Read].
  assert (forall c, length ((if le then WRITE_UTF16LE else WRITE_UTF16BE) c) = if c <=? 0xFFFF then 2%nat else 4%nat) as W
    by (intros c; destruct (utf16_size c); by destruct le).
  destruct (Z.leb_spec 0xc0 b).
  - pose proof (cont_loop_small (nth (Z.to_nat (b - 0xc0)) sqlite3Utf8Trans1 0) z (trans_small _)) as [L B].
    destruct (cont_loop _ z) as [c z']. cbn [fst snd length] in *. split; [lia|]. rewrite W.
    destruct (Z.leb_spec (replace_invalid c) 0xFFFF) as [|Hbig]; [lia|].
    assert (0xFFFF < c) by (unfold replace_invalid in Hbig; case_match; lia). lia.
  - cbn [fst snd length]. split; [lia|]. rewrite W. replace (b <=? 0xFFFF) with true by lia. lia.
Qed.

Lemma utf16_to_8_bound le z : Nat.Even (length z) -> z <> [] ->
  (length (snd (read_utf16 le z)) < length z)%nat /\ Nat.Even (length (snd (read_utf16 le z))) /\
  (length (WRITE_UTF8 (fst (read_utf16 le z))) + 2 * length (snd (read_utf16 le z)) <= 2 * length z)%nat.
Proof.
  intros [k Hk] Hz. assert (forall c, length (WRITE_UTF8 c) <= 4)%nat as W
    by (intros c; unfold WRITE_UTF8; repeat case_match; cbn; lia).
  destruct z as [|b0 [|b1 z]]; [done|cbn in Hk; lia|]. cbn [length] in Hk. cbn [read_utf16].
  set (c := unit16 le b0 b1).
  assert (Nat.Even (length z)) as Ez by (exists (k - 1)%nat; lia).
  destruct ((0xd800 <=? c) && (c <? 0xe000)).
  - destruct z as [|b2 [|b3 z]]; cbn [fst snd length] in *.
    + specialize (W c). split; [lia|]. split; [done|lia].
    + destruct Ez as [m ?]. lia.
    + split; [lia|]. split; [exists (k - 2)%nat; lia|].
      match goal with |- context [WRITE_UTF8 ?x] => specialize (W x) end. lia.
  - cbn [fst snd length]. specialize (W c). split; [lia|]. split; [done|lia].
Qed.

Lemma translate_bound16 le fuel : forall z, Nat.Even (length z) ->
  (length (translate_loop fuel (read_utf16 le) WRITE_UTF8 z) <= 2 * length z)%nat.
Proof.
  induction fuel as [|fuel IH]; intros z Hz; cbn [translate_loop]; [cbn; lia|].
  destruct z as [|b z]; [cbn; lia|]. destruct (utf16_to_8_bound le (b :: z) Hz) as (H1 & H2 & H3); [done|].
  destruct (read_utf16 le (b :: z)) as [c z']. cbn [fst snd] in *. rewrite length_app. specialize (IH z' H2). lia.
Qed.

Lemma even_bytes_even z : Nat.Even (length (even_bytes z)).
Proof.
  unfold even_bytes. rewrite length_take. exists (length z / 2)%nat.
  pose proof (Nat.Div0.div_mod (length z) 2). lia.
Qed.

Lemma even_bytes_id z : Nat.Even (length z) -> even_bytes z = z.
Proof.
  intros [k Hk]. unfold even_bytes. apply take_ge. rewrite Hk, (Nat.mul_comm 2 k), Nat.div_mul by lia. lia.
Qed.

Lemma bytes16_even le us : Nat.Even (length (concat (map (bytes16 le) us))).
Proof.
  induction us as [|u us [k Hk]]; cbn [map concat]; [by exists 0%nat|].
  exists (S k). rewrite length_app, Hk. destruct le; cbn; lia.
Qed.

Lemma encode16_even le cs : Nat.Even (length (encode (fun c => concat (map (bytes16 le) (units16 c))) cs)).
Proof.
  unfold encode. induction cs as [|c cs [k Hk]]; cbn [map concat]; [by exists 0%nat|].
  destruct (bytes16_even le (units16 c)) as [m Hm]. exists (m + k)%nat. rewrite length_app. lia.
Qed.

Lemma swap_bytes16 le us rest : swap_loop (concat (map (bytes16 le) us) ++ rest) =
  concat (map (bytes16 (negb le)) us) ++ swap_loop rest.
Proof.
  induction us as [|u us IH]; cbn [map concat app]; [done|].
  destruct le; cbn [bytes16 negb app swap_loop]; by rewrite IH.
Qed.

(** ** Properties *)

Definition utf16 (le : bool) : Z := if le then SQLITE_UTF16LE else SQLITE_UTF16BE.
(** The UTF-16 form of a text: one unit or a surrogate pair per character. *)
Definition text16 (le : bool) (cs : list Z) : list Z := encode (fun c => concat (map (bytes16 le) (units16 c))) cs.

