(* ===== verification/Glob.v ===== *)
(** * GLOB and LIKE of the engine (func.c), and LIKE pushed down as GLOB

    [patternCompare] matches a UTF-8 string against a GLOB or LIKE pattern.  It
    is transcribed with its three search loops and its third result, "no match in
    spite of wildcards", which cuts the search short.  A reference matcher on
    lists of characters says what a pattern means.  The extension rewrites a
    constant LIKE pattern to a GLOB pattern ([SQLiteLikeToGlob] in
    sqlite_sql_writer.cpp); the last part relates that to DuckDB's LIKE (Like.v).

    A zero-terminated string is the list of the bytes before its terminator. *)

From S2P Require Import Prelude Ctype Like Utf.

Record compareInfo : Type := { matchAll : Z; matchOne : Z; matchSet : Z; noCase : bool }.

Definition globInfo : compareInfo := {| matchAll := 42; matchOne := 63; matchSet := 91; noCase := false |}.
Definition likeInfoNorm : compareInfo := {| matchAll := 37; matchOne := 95; matchSet := 0; noCase := true |}.
Definition likeInfoAlt : compareInfo := {| matchAll := 37; matchOne := 95; matchSet := 0; noCase := false |}.

Definition SQLITE_MATCH : Z := 0.
Definition SQLITE_NOMATCH : Z := 1.
Definition SQLITE_NOWILDCARDMATCH : Z := 2.

(** [zPattern[0]] *)
Definition first_byte (z : list Z) : Z := match z with b :: _ => b | [] => 0 end.

Section PatternCompare.
Context (pInfo : compareInfo) (matchOther : Z).

(** The loop over the [*] and [?] that follow a [*]: it runs out of string, or
    stops at the next character of the pattern. *)
Inductive skipped : Type := OutOfString | Skipped (c : Z) (zPattern zString : list Z).

Fixpoint skip_loop (fuel : nat) (zPattern zString : list Z) : option skipped :=
  match fuel with
  | O => None
  | S fuel =>
      let '(c, zPattern) := Utf8Read zPattern in
      if (c =? matchAll pInfo) || ((c =? matchOne pInfo) && negb (matchOne pInfo =? 0)) then
        if c =? matchOne pInfo then
          let '(c2, zString) := sqlite3Utf8Read zString in
          if c2 =? 0 then Some OutOfString else skip_loop fuel zPattern zString
        else skip_loop fuel zPattern zString
      else Some (Skipped c zPattern zString)
  end.

(** The loop [while( c2 && c2!=']' )] over a set; [c] is the character of the
    string.  It returns [seen], the last [c2] and the pattern after it. *)
Fixpoint set_loop (fuel : nat) (c c2 prior_c : Z) (seen : bool) (zPattern : list Z)
  : option (bool * Z * list Z) :=
  match fuel with
  | O => None
  | S fuel =>
      if (c2 =? 0) || (c2 =? 93) then Some (seen, c2, zPattern)
      else if (c2 =? 45) && negb (first_byte zPattern =? 93) && negb (first_byte zPattern =? 0) && (0 <? prior_c)
      then
        let '(c2, zPattern) := sqlite3Utf8Read zPattern in
        let seen := seen || ((prior_c <=? c) && (c <=? c2)) in
        let '(c2, zPattern) := sqlite3Utf8Read zPattern in
        set_loop fuel c c2 0 seen zPattern
      else
        let seen := seen || (c =? c2) in
        let prior_c := c2 in
        let '(c2, zPattern) := sqlite3Utf8Read zPattern in
        set_loop fuel c c2 prior_c seen zPattern
  end.

(** The test of a set, after the [[]: whether [c] is accepted and the pattern
    after the set; [None] of the inner type is [return SQLITE_NOMATCH]. *)
Definition match_set (c : Z) (zPattern : list Z) : option (option (list Z)) :=
  let '(c2, zPattern) := sqlite3Utf8Read zPattern in
  let '(invert, c2, zPattern) :=
    if c2 =? 94 then let '(c2, zPattern) := sqlite3Utf8Read zPattern in (true, c2, zPattern)
    else (false, c2, zPattern) in
  let '(seen, c2, zPattern) :=
    if c2 =? 93 then let '(c2, zPattern) := sqlite3Utf8Read zPattern in (c =? 93, c2, zPattern)
    else (false, c2, zPattern) in
  r ← set_loop (S (S (length zPattern))) c c2 0 seen zPattern;
  let '(seen, c2, zPattern) := r in
  if (c2 =? 0) || negb (xorb seen invert) then Some None else Some (Some zPattern).

(** The search for a character that is a single byte: [strcspn] to a byte of
    [zStop], and a comparison of the rest. *)
Fixpoint search_byte (zStop : list Z) (compare : list Z -> option Z) (zString : list Z) : option Z :=
  match zString with
  | [] => Some SQLITE_NOWILDCARDMATCH
  | b :: zString =>
      if existsb (Z.eqb b) zStop then
        bMatch ← compare zString;
        if negb (bMatch =? SQLITE_NOMATCH) then Some bMatch else search_byte zStop compare zString
      else search_byte zStop compare zString
  end.

(** The search for another character. *)
Fixpoint search_char (fuel : nat) (c : Z) (compare : list Z -> option Z) (zString : list Z) : option Z :=
  match fuel with
  | O => None
  | S fuel =>
      let '(c2, zString) := Utf8Read zString in
      if c2 =? 0 then Some SQLITE_NOWILDCARDMATCH
      else if negb (c2 =? c) then search_char fuel c compare zString
      else
        bMatch ← compare zString;
        if negb (bMatch =? SQLITE_NOMATCH) then Some bMatch else search_char fuel c compare zString
  end.

(** The search when a set follows the [*]. *)
Fixpoint search_set (fuel : nat) (compare : list Z -> option Z) (zString : list Z) : option Z :=
  match fuel, zString with
  | _, [] => Some SQLITE_NOWILDCARDMATCH
  | O, _ => None
  | S fuel, _ =>
      bMatch ← compare zString;
      if negb (bMatch =? SQLITE_NOMATCH) then Some bMatch
      else search_set fuel compare (SQLITE_SKIP_UTF8 zString)
  end.

(** The function; a round of its loop is a call with the rest of the pattern.
    [zEscaped] is one past the last escaped character, which is where the pattern
    is only in the round that escapes. *)
Fixpoint patternCompare (fuel : nat) (zPattern zString : list Z) : option Z :=
  match fuel with
  | O => None
  | S fuel =>
      let '(c, zPattern) := Utf8Read zPattern in
      if c =? 0 then Some (match zString with [] => SQLITE_MATCH | _ => SQLITE_NOMATCH end)
      else if c =? matchAll pInfo then
        r ← skip_loop (S (length zPattern)) zPattern zString;
        match r with
        | OutOfString => Some SQLITE_NOWILDCARDMATCH
        | Skipped c zPattern zString =>
            if c =? 0 then Some SQLITE_MATCH
            else if (c =? matchOther) && negb (matchSet pInfo =? 0) then
              search_set (length zString) (patternCompare fuel (matchOther :: zPattern)) zString
            else
              let '(c, zPattern) := if c =? matchOther then sqlite3Utf8Read zPattern else (c, zPattern) in
              if c =? 0 then Some SQLITE_NOWILDCARDMATCH
              else if c <=? 0x80 then
                let zStop := if noCase pInfo then [u8 (sqlite3Toupper (u8 c)); u8 (sqlite3Tolower (u8 c))] else [u8 c] in
                search_byte zStop (patternCompare fuel zPattern) zString
              else search_char (S (length zString)) c (patternCompare fuel zPattern) zString
        end
      else if (c =? matchOther) && negb (matchSet pInfo =? 0) then
        let '(c, zString) := sqlite3Utf8Read zString in
        if c =? 0 then Some SQLITE_NOMATCH
        else
          r ← match_set c zPattern;
          match r with
          | None => Some SQLITE_NOMATCH
          | Some zPattern => patternCompare fuel zPattern zString
          end
      else
        let escaped := c =? matchOther in
        let '(c, zPattern) := if escaped then sqlite3Utf8Read zPattern else (c, zPattern) in
        if escaped && (c =? 0) then Some SQLITE_NOMATCH
        else
          let '(c2, zString) := Utf8Read zString in
          if c =? c2 then patternCompare fuel zPattern zString
          else if noCase pInfo && (sqlite3Tolower (u8 c) =? sqlite3Tolower (u8 c2)) && (c <? 0x80) && (c2 <? 0x80)
          then patternCompare fuel zPattern zString
          else if (c =? matchOne pInfo) && negb escaped && negb (c2 =? 0)
          then patternCompare fuel zPattern zString
          else Some SQLITE_NOMATCH
  end.

Definition pattern_compare (zPattern zString : list Z) : option Z :=
  patternCompare (S (length zPattern)) zPattern zString.
End PatternCompare.

Definition sqlite3_strglob (zGlobPattern zString : list Z) : option Z :=
  pattern_compare globInfo 91 zGlobPattern zString.
Definition sqlite3_strlike (zPattern zStr : list Z) (esc : Z) : option Z :=
  pattern_compare likeInfoNorm esc zPattern zStr.

(** The copy of [*pInfo] when the escape is one of the wildcards. *)
Definition escape_info (pInfo : compareInfo) (escape : Z) : compareInfo :=
  {| matchAll := if escape =? matchAll pInfo then 0 else matchAll pInfo;
     matchOne := if escape =? matchOne pInfo then 0 else matchOne pInfo;
     matchSet := matchSet pInfo; noCase := noCase pInfo |}.

(** [likeFunc], the SQL functions like and glob, on arguments that are text: the
    result, an error, or nothing set (NULL).  [limit] is the limit
    [SQLITE_LIMIT_LIKE_PATTERN_LENGTH]. *)
Inductive like_result : Type := ResultInt (b : bool) | TooComplex | BadEscape | ResultNull.

Definition likeFunc (pInfo : compareInfo) (limit : Z) (zB zA : option (list Z)) (zEsc : option (option (list Z)))
  : option like_result :=
  let nPat := match zB with Some z => Z.of_nat (length z) | None => 0 end in
  if limit <? nPat then Some TooComplex
  else
    let run pInfo escape :=
      match zA, zB with
      | Some zA, Some zB =>
          r ← pattern_compare pInfo escape zB zA; Some (ResultInt (r =? SQLITE_MATCH))
      | _, _ => Some ResultNull
      end in
    match zEsc with
    | None => run pInfo (matchSet pInfo)
    | Some None => Some ResultNull
    | Some (Some zEsc) =>
        if negb (sqlite3Utf8CharLen zEsc (-1) =? 1) then Some BadEscape
        else
          let '(escape, _) := sqlite3Utf8Read zEsc in
          run (escape_info pInfo escape) escape
    end.

(** ** The rewriting of LIKE (sqlite_sql_writer.cpp) *)

Definition glob_special (c : Z) : bool := (c =? 42) || (c =? 63) || (c =? 91).

(** [escape] is [has_escape] with the byte; [None] is [return false]. *)
Fixpoint SQLiteLikeToGlob (pattern : list Z) (escape : option Z) : option (list Z) :=
  let literal (c : Z) (result : option (list Z)) : option (list Z) :=
    r ← result; Some ((if glob_special c then [91; c; 93] else [c]) ++ r) in
  match pattern with
  | [] => Some []
  | c :: pattern =>
      if is_escape escape c then
        match pattern with
        | [] => None
        | c :: pattern => literal c (SQLiteLikeToGlob pattern escape)
        end
      else if c =? c_percent then r ← SQLiteLikeToGlob pattern escape; Some (42 :: r)
      else if c =? c_underscore then r ← SQLiteLikeToGlob pattern escape; Some (63 :: r)
      else literal c (SQLiteLikeToGlob pattern escape)
  end.

(** ** The meaning of a pattern *)

(** Characters of a string. *)
Fixpoint chars (fuel : nat) (z : list Z) : list Z :=
  match fuel, z with
  | S fuel, _ :: _ => let '(c, z) := Utf8Read z in c :: chars fuel z
  | _, _ => []
  end.
Definition decode (z : list Z) : list Z := chars (length z) z.

Inductive gtok : Type :=
| GChar (c : Z) | GOne | GAll | GSet (invert : bool) (ranges : list (Z * Z)) | GFail.

(** The ranges of a set up to its [[]]], and the rest; a [-] between two
    characters makes a range. *)
Fixpoint set_items (prior : Z) (cs : list Z) : option (list (Z * Z) * list Z) :=
  match cs with
  | [] => None
  | c2 :: cs =>
      if c2 =? 93 then Some ([], cs)
      else
        let single := match set_items c2 cs with Some (rs, rest) => Some ((c2, c2) :: rs, rest) | None => None end in
        match cs with
        | hi :: cs' =>
            if (c2 =? 45) && (0 <? prior) && negb (hi =? 93)
            then match set_items 0 cs' with Some (rs, rest) => Some ((prior, hi) :: rs, rest) | None => None end
            else single
        | [] => single
        end
  end.

Definition parse_set (cs : list Z) : option (bool * list (Z * Z) * list Z) :=
  let '(invert, cs) := match cs with c :: cs' => if c =? 94 then (true, cs') else (false, cs) | [] => (false, []) end in
  let '(rs0, cs) := match cs with c :: cs' => if c =? 93 then ([(93, 93)], cs') else ([], cs) | [] => ([], []) end in
  match set_items 0 cs with Some (rs, rest) => Some (invert, rs0 ++ rs, rest) | None => None end.

Definition in_ranges (rs : list (Z * Z)) (c : Z) : bool := existsb (fun r => (fst r <=? c) && (c <=? snd r)) rs.

Section Meaning.
Context (pInfo : compareInfo) (matchOther : Z).

Fixpoint gparse (fuel : nat) (cs : list Z) : list gtok :=
  match fuel, cs with
  | S fuel, c :: cs =>
      if c =? matchAll pInfo then GAll :: gparse fuel cs
      else if c =? matchOther then
        if matchSet pInfo =? 0 then
          match cs with [] => [GFail] | e :: cs => GChar e :: gparse fuel cs end
        else
          match parse_set cs with None => [GFail] | Some (invert, rs, cs) => GSet invert rs :: gparse fuel cs end
      else if c =? matchOne pInfo then GOne :: gparse fuel cs
      else GChar c :: gparse fuel cs
  | _, _ => []
  end.

Definition same_char (c c2 : Z) : bool :=
  (c =? c2) || (noCase pInfo && (sqlite3Tolower c =? sqlite3Tolower c2) && (c <? 0x80) && (c2 <? 0x80)).

Fixpoint gmatch (ts : list gtok) (cs : list Z) : bool :=
  match ts with
  | [] => match cs with [] => true | _ => false end
  | GChar c :: ts => match cs with c2 :: cs => same_char c c2 && gmatch ts cs | [] => false end
  | GOne :: ts => match cs with _ :: cs => gmatch ts cs | [] => false end
  | GSet invert rs :: ts =>
      match cs with c :: cs => xorb (in_ranges rs c) invert && gmatch ts cs | [] => false end
  | GFail :: _ => false
  | GAll :: ts =>
      (fix any (cs : list Z) : bool :=
         gmatch ts cs || match cs with [] => false | _ :: cs => any cs end) cs
  end.
End Meaning.

(** ** Reading characters *)

(** The bytes of a zero-terminated string. *)
Definition zbytes (z : list Z) : Prop := Forall (fun b => 0 < b < 256) z.

Lemma Utf8Read_eq z : Utf8Read z = sqlite3Utf8Read z.
Proof.
  destruct z as [|b z]; [done|]. cbn [Utf8Read sqlite3Utf8Read].
  destruct (Z.ltb_spec b 0x80); [|done]. by replace (0xc0 <=? b) with false by lia.
Qed.

Lemma cont_loop_split c z : exists m, z = m ++ snd (cont_loop c z) /\ Forall (fun b => is_cont_byte b = true) m.
Proof.
  revert c. induction z as [|b z IH]; intros c; cbn [cont_loop]; [by exists []|].
  destruct (is_cont_byte b) eqn:E; [|by exists []].
  destruct (IH (u32 (u32 (Z.shiftl c 6) + Z.land 0x3f b))) as (m & Hm & Hf). exists (b :: m). cbn [app].
  split; [by f_equal|by constructor].
Qed.

Lemma replace_invalid_big c : 0x80 <= replace_invalid c.
Proof. unfold replace_invalid. destruct (Z.ltb_spec c 0x80); cbn [orb]; [lia|]. repeat case_match; lia. Qed.

Lemma cont_bytes_big m : zbytes m -> Forall (fun b => is_cont_byte b = true) m -> Forall (fun b => 0x80 <= b) m.
Proof.
  unfold zbytes. rewrite !Forall_forall. intros H C b Hb. specialize (H b Hb). specialize (C b Hb). cbn in C.
  rewrite cont_byte in C by solve_width. lia.
Qed.

(** A character is a byte below 0x80, or comes from bytes of 0x80 and above. *)
Lemma read_split z : zbytes z -> z <> [] -> exists c m z', sqlite3Utf8Read z = (c, z') /\ z = m ++ z' /\ m <> [] /\
  (0 < c < 0x80 /\ m = [c] \/ 0x80 <= c /\ Forall (fun b => 0x80 <= b) m).
Proof.
  intros Hz Hn. destruct z as [|b z]; [done|]. inversion Hz as [|? ? Hb Hz']; subst. cbn [sqlite3Utf8Read].
  destruct (Z.leb_spec 0xc0 b).
  - destruct (cont_loop_split (nth (Z.to_nat (b - 0xc0)) sqlite3Utf8Trans1 0) z) as (m & Hm & Hf).
    destruct (cont_loop _ z) as [c z'] eqn:E. cbn [snd] in Hm. subst z.
    exists (replace_invalid c), (b :: m), z'. split; [done|]. split; [done|]. split; [done|]. right.
    split; [apply replace_invalid_big|]. constructor; [lia|]. apply cont_bytes_big; [|done].
    by apply Forall_app in Hz' as [? _].
  - exists b, [b], z. split; [done|]. split; [done|]. split; [done|].
    destruct (Z.lt_ge_cases b 0x80); [left|right]; (split; [lia|]); [done|by repeat constructor].
Qed.

Lemma chars_fuel fuel z : zbytes z -> (length z <= fuel)%nat -> chars fuel z = decode z.
Proof.
  unfold decode. remember (length z) as n eqn:En. assert (length z <= n)%nat as Hn by lia. clear En.
  revert fuel z Hn. induction n as [|n IH]; intros fuel z Hn Hz Hf.
  { destruct z; [|cbn in Hn; lia]. by destruct fuel. }
  destruct z as [|b z]; [by destruct fuel|]. destruct fuel as [|fuel]; [lia|]. cbn [chars].
  rewrite Utf8Read_eq. destruct (read_split (b :: z)) as (c & m & z' & -> & E & Hm & _); [done..|].
  assert (length z' <= n)%nat. { rewrite E, length_app in Hn. destruct m; [done|]. cbn in *. lia. }
  f_equal. rewrite E in Hz. apply Forall_app in Hz as [_ Hz].
  rewrite (IH fuel) by (done || lia). done.
Qed.

(** The two outcomes of a read, with the decoded text. *)
Lemma read_cases z : zbytes z ->
  z = [] /\ sqlite3Utf8Read z = (0, []) /\ decode z = [] \/
  exists c m z', sqlite3Utf8Read z = (c, z') /\ z = m ++ z' /\ zbytes z' /\ decode z = c :: decode z' /\
    (length z' < length z)%nat /\
    (0 < c < 0x80 /\ m = [c] \/ 0x80 <= c /\ m <> [] /\ Forall (fun b => 0x80 <= b) m).
Proof.
  intros Hz. destruct z as [|b z]; [by left|]. right.
  destruct (read_split (b :: z)) as (c & m & z' & E & Es & Hm & Hc); [done..|].
  assert (zbytes z') as Hz' by (rewrite Es in Hz; by apply Forall_app in Hz as [_ ?]).
  assert (length z' < length (b :: z))%nat by (rewrite Es, length_app; destruct m; [done|cbn; lia]).
  exists c, m, z'. split; [done|]. split; [done|]. split; [done|].
  split; [|split; [done|destruct Hc as [?|[? ?]]; auto]].
  unfold decode at 1. cbn [length chars]. rewrite Utf8Read_eq, E. f_equal.
  apply chars_fuel; [done|cbn in *; lia].
Qed.

Lemma decode_nil z : zbytes z -> decode z = [] -> z = [].
Proof. intros Hz E. destruct (read_cases z Hz) as [[? _]|(c & m & z' & _ & _ & _ & D & _)]; [done|]. by rewrite D in E. Qed.

Lemma decode_pos z : zbytes z -> Forall (fun c => 0 < c) (decode z).
Proof.
  remember (length z) as n eqn:En. revert z En.
  induction n as [n IH] using lt_wf_ind; intros z -> Hz.
  destruct (read_cases z Hz) as [(_ & _ & ->)|(c & m & z' & _ & _ & Hz' & -> & Hl & Hc)]; [done|].
  constructor; [lia|]. by apply (IH (length z')).
Qed.

Lemma skip_utf8_rest z : zbytes z -> z <> [] -> SQLITE_SKIP_UTF8 z = snd (sqlite3Utf8Read z).
Proof.
  intros Hz Hn. destruct z as [|b z]; [done|]. cbn [SQLITE_SKIP_UTF8 sqlite3Utf8Read].
  destruct (0xc0 <=? b); [|done].
  assert (forall c, skip_cont_bytes z = snd (cont_loop c z)) as E.
  { clear. induction z as [|b z IH]; intros c; cbn [skip_cont_bytes cont_loop]; [done|]. by destruct (is_cont_byte b). }
  rewrite (E (nth (Z.to_nat (b - 0xc0)) sqlite3Utf8Trans1 0)). by destruct (cont_loop _ z).
Qed.

(** What is left to read when [c] has been read and [z] follows. *)
Definition upcoming (c : Z) (z : list Z) : list Z := if c =? 0 then [] else c :: decode z.

(** The bytes that character stands for, at least. *)
Definition pending (c : Z) : nat := if c =? 0 then 0%nat else 1%nat.

Lemma read_next z : zbytes z -> exists c z', sqlite3Utf8Read z = (c, z') /\ upcoming c z' = decode z /\
  zbytes z' /\ 0 <= c /\ (length z' + pending c <= length z)%nat.
Proof.
  intros Hz. destruct (read_cases z Hz) as [(-> & -> & ->)|(c & m & z' & -> & _ & Hz' & -> & Hl & Hc)].
  - exists 0, []. repeat split; [constructor|done|done].
  - exists c, z'. unfold upcoming, pending. replace (c =? 0) with false by lia. repeat split; [done|lia|lia].
Qed.

(** ** Parsing *)

Lemma set_items_suffix prior cs rs rest : set_items prior cs = Some (rs, rest) -> exists x, x :: rest `suffix_of` cs.
Proof.
  remember (length cs) as n eqn:En. revert prior cs rs rest En.
  induction n as [n IH] using lt_wf_ind; intros prior cs rs rest -> H.
  destruct cs as [|c2 cs]; [done|]. cbn [set_items] in H. destruct (c2 =? 93); [simplify_eq; by exists c2|].
  destruct cs as [|hi cs']; [done|].
  destruct ((c2 =? 45) && (0 <? prior) && negb (hi =? 93)).
  - destruct (set_items 0 cs') as [[rs' rest']|] eqn:E; simplify_eq.
    destruct (IH (length cs') ltac:(cbn; lia) 0 cs' rs' rest eq_refl E) as [x Hx]. exists x. by do 2 apply suffix_cons_r.
  - destruct (set_items c2 (hi :: cs')) as [[rs' rest']|] eqn:E; simplify_eq.
    destruct (IH (length (hi :: cs')) ltac:(cbn; lia) c2 (hi :: cs') rs' rest eq_refl E) as [x Hx]. exists x. by apply suffix_cons_r.
Qed.

Lemma optional_suffix {A} (k : Z) (x y : A) (cs : list Z) i l :
  match cs with c :: cs' => if c =? k then (x, cs') else (y, cs) | [] => (y, []) end = (i, l) -> l `suffix_of` cs.
Proof. destruct cs as [|c cs]; [by intros [= _ <-]|]. destruct (c =? k); intros [= _ <-]; [by apply suffix_cons_r|done]. Qed.

Lemma parse_set_suffix cs invert rs rest : parse_set cs = Some (invert, rs, rest) -> exists x, x :: rest `suffix_of` cs.
Proof.
  unfold parse_set. intros H.
  destruct (match cs with c :: cs' => if c =? 94 then (true, cs') else (false, cs) | [] => (false, []) end)
    as [i l] eqn:E1. apply optional_suffix in E1.
  destruct (match l with c :: cs' => if c =? 93 then ([(93, 93)], cs') else ([], l) | [] => ([], []) end)
    as [rs0 l'] eqn:E2. apply optional_suffix in E2.
  destruct (set_items 0 l') as [[]|] eqn:E3; simplify_eq. apply set_items_suffix in E3 as [x E3]. exists x.
  etrans; [done|]. by etrans.
Qed.

Lemma parse_set_length cs invert rs rest : parse_set cs = Some (invert, rs, rest) -> (length rest < length cs)%nat.
Proof. intros [x H%suffix_length]%parse_set_suffix. cbn in H. lia. Qed.

Lemma first_byte_bracket z : zbytes z -> (first_byte z =? 93) = (match decode z with hi :: _ => hi =? 93 | [] => false end).
Proof.
  intros Hz. destruct (read_cases z Hz) as [(-> & _ & ->)|(c & m & z' & _ & -> & _ & -> & _ & [[? ->]|(? & ? & F)])]; [done..|].
  destruct m as [|b m]; [done|]. inversion F; subst. cbn [app first_byte]. lia.
Qed.

Lemma first_byte_nul z : zbytes z -> (first_byte z =? 0) = (match decode z with [] => true | _ => false end).
Proof.
  intros Hz. destruct (read_cases z Hz) as [(-> & _ & ->)|(c & m & z' & _ & _ & _ & -> & Hl & _)]; [done|].
  destruct z as [|b z]; [cbn in Hl; lia|]. inversion Hz; subst. cbn. lia.
Qed.

Lemma in_ranges_cons lo hi rs c : in_ranges ((lo, hi) :: rs) c = (lo <=? c) && (c <=? hi) || in_ranges rs c.
Proof. done. Qed.

(** The loop over a set reads the ranges of [set_items]. *)
Lemma set_loop_spec c : forall fuel c2 prior seen z, zbytes z -> 0 <= c2 ->
  (length z + pending c2 < fuel)%nat ->
  match set_items prior (upcoming c2 z) with
  | None => exists seen' z', set_loop fuel c c2 prior seen z = Some (seen', 0, z')
  | Some (rs, rest) => exists z', set_loop fuel c c2 prior seen z = Some (seen || in_ranges rs c, 93, z') /\
      zbytes z' /\ decode z' = rest /\ (length z' <= length z)%nat
  end.
Proof.
  induction fuel as [|fuel IH]; intros c2 prior seen z Hz Hc Hf; [lia|]. cbn [set_loop]. unfold upcoming.
  destruct (Z.eqb_spec c2 0) as [->|Hc0]; [cbn; eauto|]. cbn [orb set_items].
  assert (length z < fuel)%nat by (unfold pending in Hf; destruct (Z.eqb_spec c2 0); [done|lia]). clear Hf.
  destruct (Z.eqb_spec c2 93) as [->|Hc1].
  { exists z. cbn. by rewrite orb_false_r. }
  rewrite first_byte_bracket, first_byte_nul by done.
  destruct (read_next z Hz) as (c3 & z3 & R3 & U3 & Hz3 & H3 & L3).
  (* one character *)
  assert (match set_items c2 (decode z) with
    | None => exists seen' z', set_loop fuel c c3 c2 (seen || (c =? c2)) z3 = Some (seen', 0, z')
    | Some (rs, rest) => exists z', set_loop fuel c c3 c2 (seen || (c =? c2)) z3 =
        Some (seen || in_ranges ((c2, c2) :: rs) c, 93, z') /\ zbytes z' /\ decode z' = rest /\ (length z' <= length z)%nat
    end) as Single.
  { specialize (IH c3 c2 (seen || (c =? c2)) z3 Hz3 H3). rewrite U3 in IH.
    destruct (set_items c2 (decode z)) as [[rs rest]|]; [|apply IH; lia].
    destruct IH as (z' & E & ? & ? & ?); [lia|]. exists z'. rewrite E. split; [|split; [done|split; [done|lia]]].
    rewrite in_ranges_cons, orb_assoc. do 4 f_equal. lia. }
  destruct (decode z) as [|hi cs] eqn:D.
  { cbn [negb andb]. rewrite !andb_false_r. cbn [andb]. rewrite R3. destruct (set_items c2 []) as [[]|]; exact Single. }
  cbn [negb andb]. rewrite andb_true_r.
  replace ((c2 =? 45) && (0 <? prior) && negb (hi =? 93)) with ((c2 =? 45) && negb (hi =? 93) && (0 <? prior))
    by (by destruct (c2 =? 45), (hi =? 93), (0 <? prior)).
  destruct ((c2 =? 45) && negb (hi =? 93) && (0 <? prior)).
  2: { rewrite R3. destruct (set_items c2 (hi :: cs)) as [[]|]; exact Single. }
  rewrite R3. unfold upcoming in U3. destruct (Z.eqb_spec c3 0); [done|]. injection U3 as -> <-.
  destruct (read_next z3 Hz3) as (c4 & z4 & R4 & U4 & Hz4 & H4 & L4). rewrite R4.
  specialize (IH c4 0 (seen || ((prior <=? c) && (c <=? hi))) z4 Hz4 H4). rewrite U4 in IH.
  destruct (set_items 0 (decode z3)) as [[rs rest]|]; [|apply IH; lia].
  destruct IH as (z' & E & ? & ? & ?); [lia|]. exists z'. rewrite E, in_ranges_cons, orb_assoc.
  split; [done|]. split; [done|]. split; [done|]. lia.
Qed.

(** The test of a set accepts what [parse_set] says. *)
Lemma match_set_spec c z : zbytes z -> 0 < c ->
  match parse_set (decode z) with
  | None => match_set c z = Some None
  | Some (invert, rs, rest) =>
      exists z', zbytes z' /\ decode z' = rest /\ (length z' <= length z)%nat /\
        match_set c z = Some (if xorb (in_ranges rs c) invert then Some z' else None)
  end.
Proof.
  intros Hz Hc. unfold match_set, parse_set.
  destruct (read_next z Hz) as (c2 & z2 & R2 & <- & Hz2 & H2 & L2). rewrite R2.
  set (stage1 := if c2 =? 94 then let '(c3, z3) := sqlite3Utf8Read z2 in (true, c3, z3) else (false, c2, z2)).
  assert (exists inv c3 z3, stage1 = (inv, c3, z3) /\ zbytes z3 /\ 0 <= c3 /\ (length z3 <= length z2)%nat /\
    match upcoming c2 z2 with c :: cs' => if c =? 94 then (true, cs') else (false, upcoming c2 z2) | [] => (false, []) end
      = (inv, upcoming c3 z3)) as (inv & c3 & z3 & -> & Hz3 & H3 & L3 & ->).
  { unfold stage1, upcoming at 1 2. destruct (Z.eqb_spec c2 94) as [->|].
    - destruct (read_next z2 Hz2) as (c3 & z3 & R3 & U3 & Hz3 & H3 & L3). rewrite R3.
      exists true, c3, z3. rewrite U3. split_and!; [done|done|done|lia|done].
    - exists false, c2, z2. unfold upcoming. split_and!; [done|done|done|lia|]. destruct (Z.eqb_spec c2 0); [done|].
      by destruct (Z.eqb_spec c2 94). }
  set (stage2 := if c3 =? 93 then let '(c4, z4) := sqlite3Utf8Read z3 in (c =? 93, c4, z4) else (false, c3, z3)).
  assert (exists rs0 c4 z4, stage2 = (in_ranges rs0 c, c4, z4) /\ zbytes z4 /\ 0 <= c4 /\ (length z4 <= length z3)%nat /\
    match upcoming c3 z3 with c :: cs' => if c =? 93 then ([(93, 93)], cs') else ([], upcoming c3 z3) | [] => ([], []) end
      = (rs0, upcoming c4 z4)) as (rs0 & c4 & z4 & -> & Hz4 & H4 & L4 & ->).
  { unfold stage2, upcoming at 1 2. destruct (Z.eqb_spec c3 93) as [->|].
    - destruct (read_next z3 Hz3) as (c4 & z4 & R4 & U4 & Hz4 & H4 & L4). rewrite R4.
      exists [(93, 93)], c4, z4. rewrite U4. split_and!; [|done|done|lia|done].
      rewrite in_ranges_cons, orb_false_r. by replace ((93 <=? c) && (c <=? 93)) with (c =? 93) by lia.
    - exists [], c3, z3. unfold upcoming. split_and!; [done|done|done|lia|]. destruct (Z.eqb_spec c3 0); [done|].
      by destruct (Z.eqb_spec c3 93). }
  pose proof (set_loop_spec c (S (S (length z4))) c4 0 (in_ranges rs0 c) z4 Hz4 H4) as HS.
  assert (pending c4 <= 1)%nat by (unfold pending; destruct (c4 =? 0); lia).
  destruct (set_items 0 (upcoming c4 z4)) as [[rs rest]|].
  - destruct HS as (z' & -> & ? & ? & ?); [lia|]. exists z'. split; [done|]. split; [done|].
    split; [lia|]. cbn [mbind option_bind]. change (93 =? 0) with false.
    unfold in_ranges. rewrite existsb_app. by destruct (xorb _ inv).
  - destruct HS as (s' & z' & ->); [lia|]. done.
Qed.

Section Correctness.
Context (pInfo : compareInfo) (matchOther : Z).

(** A set is introduced by an ASCII character; the special characters differ
    ([likeFunc] sets [matchAll] or [matchOne] to 0 when it is the escape). *)
Definition wf_info : Prop :=
  (matchSet pInfo = 0 \/ matchSet pInfo = matchOther /\ 0 < matchOther < 0x80) /\
  (matchOther = matchOne pInfo \/ matchAll pInfo = matchOne pInfo -> matchOne pInfo = 0).

Definition gpat (cs : list Z) : list gtok := gparse pInfo matchOther (length cs) cs.
#[local] Abbreviation gm := (gmatch pInfo).

Lemma gparse_fuel f1 : forall f2 cs, (length cs <= f1)%nat -> (length cs <= f2)%nat ->
  gparse pInfo matchOther f1 cs = gparse pInfo matchOther f2 cs.
Proof.
  induction f1 as [|f1 IH]; intros f2 cs H1 H2.
  { destruct cs; [by destruct f2|cbn in H1; lia]. }
  destruct cs as [|c cs]; [by destruct f2|]. destruct f2 as [|f2]; [cbn in H2; lia|].
  cbn [length] in *. cbn [gparse]. rewrite (IH f2 cs) by lia.
  destruct (c =? matchAll pInfo); [done|]. destruct (c =? matchOther); [|done].
  destruct (matchSet pInfo =? 0).
  - destruct cs as [|e cs]; [done|]. cbn [length] in *. by rewrite (IH f2 cs) by lia.
  - destruct (parse_set cs) as [[[i rs] rest]|] eqn:E; [|done]. apply parse_set_length in E.
    by rewrite (IH f2 rest) by lia.
Qed.

Lemma gpat_cons c cs : gpat (c :: cs) =
  if c =? matchAll pInfo then GAll :: gpat cs
  else if c =? matchOther then
    if matchSet pInfo =? 0 then match cs with [] => [GFail] | e :: cs => GChar e :: gpat cs end
    else match parse_set cs with None => [GFail] | Some (invert, rs, cs) => GSet invert rs :: gpat cs end
  else if c =? matchOne pInfo then GOne :: gpat cs
  else GChar c :: gpat cs.
Proof.
  unfold gpat at 1. cbn [length gparse]. fold (gpat cs).
  destruct (c =? matchAll pInfo); [done|]. destruct (c =? matchOther); [|done].
  destruct (matchSet pInfo =? 0).
  - destruct cs as [|e cs]; [done|]. f_equal. apply gparse_fuel; cbn; lia.
  - destruct (parse_set cs) as [[[i rs] rest]|] eqn:E; [|done]. apply parse_set_length in E.
    f_equal. apply gparse_fuel; lia.
Qed.

(** ** Matching *)

Lemma gmatch_all ts cs : gm (GAll :: ts) cs = gm ts cs || match cs with [] => false | _ :: cs => gm (GAll :: ts) cs end.
Proof. by destruct cs. Qed.

Lemma gmatch_all_suffix ts t cs : t `suffix_of` cs -> gm (GAll :: ts) t = true -> gm (GAll :: ts) cs = true.
Proof.
  intros [k ->] H. induction k as [|x k IH]; [done|].
  change ((x :: k) ++ t) with (x :: (k ++ t)). rewrite gmatch_all, IH. apply orb_true_r.
Qed.

Lemma gmatch_all_false ts t cs : t `suffix_of` cs -> gm (GAll :: ts) cs = false -> gm (GAll :: ts) t = false.
Proof. intros Hs H. destruct (gm (GAll :: ts) t) eqn:E; [|done]. by rewrite (gmatch_all_suffix _ _ _ Hs E) in H. Qed.

Lemma gmatch_all_none ts cs : (forall t, t `suffix_of` cs -> gm ts t = false) -> gm (GAll :: ts) cs = false.
Proof.
  induction cs as [|x cs IH]; intros H; rewrite gmatch_all, H by done; [done|].
  apply IH. intros t Ht. apply H. by apply suffix_cons_r.
Qed.

Lemma gmatch_all_nil cs : gm [GAll] cs = true.
Proof. induction cs as [|x cs IH]; [done|]. rewrite gmatch_all, IH. apply orb_true_r. Qed.

Lemma gmatch_all_all ts cs : gm (GAll :: GAll :: ts) cs = gm (GAll :: ts) cs.
Proof.
  induction cs as [|x cs IH]; rewrite gmatch_all; [by rewrite orb_false_r|].
  rewrite IH, (gmatch_all ts (x :: cs)). by destruct (gm ts (x :: cs)), (gm (GAll :: ts) cs).
Qed.

Lemma gmatch_all_one ts cs : gm (GAll :: GOne :: ts) cs = match cs with [] => false | _ :: cs => gm (GAll :: ts) cs end.
Proof.
  induction cs as [|x cs IH]; [done|]. rewrite gmatch_all, IH.
  change (gm (GOne :: ts) (x :: cs)) with (gm ts cs). symmetry. apply gmatch_all.
Qed.

(** What a result of the matcher says. *)
Definition agrees (ts : list gtok) (cs : list Z) (r : Z) : Prop :=
  (r = SQLITE_MATCH \/ r = SQLITE_NOMATCH \/ r = SQLITE_NOWILDCARDMATCH) /\
  (r = SQLITE_MATCH <-> gm ts cs = true) /\
  (r = SQLITE_NOWILDCARDMATCH -> forall t, t `suffix_of` cs -> gm ts t = false).

Lemma agrees_match ts cs : gm ts cs = true -> agrees ts cs SQLITE_MATCH.
Proof. intros H. split; [by left|]. split; [done|]. done. Qed.

Lemma agrees_nomatch ts cs : gm ts cs = false -> agrees ts cs SQLITE_NOMATCH.
Proof. intros H. split; [by right; left|]. rewrite H. split; [done|]. done. Qed.

Lemma agrees_nowildcard ts cs : gm (GAll :: ts) cs = false -> agrees (GAll :: ts) cs SQLITE_NOWILDCARDMATCH.
Proof.
  intros H. split; [by right; right|]. rewrite H. split; [done|]. intros _ t Ht. by eapply gmatch_all_false.
Qed.

Lemma agrees_false ts cs r : agrees ts cs r -> r <> SQLITE_MATCH -> gm ts cs = false.
Proof. intros (_ & H & _) N. destruct (gm ts cs); [|done]. by destruct N; apply H. Qed.

(** A token for one character. *)
Lemma agrees_step tok f ts x cs r :
  (forall l, gm (tok :: ts) l = match l with y :: l => f y && gm ts l | [] => false end) ->
  f x = true -> agrees ts cs r -> agrees (tok :: ts) (x :: cs) r.
Proof.
  intros Ht Hx (R & M & N). split; [done|]. rewrite Ht, Hx. split; [done|].
  intros Hr t [k Hk]. rewrite Ht. destruct t as [|y t]; [done|].
  rewrite N; [apply andb_false_r|done|]. destruct k as [|z k]; [by simplify_eq/=|].
  injection Hk as _ ->. exists (k ++ [y]). by rewrite <- app_assoc.
Qed.

(** The searches of a [*]. *)
Lemma agrees_found ts cs r : r <> SQLITE_NOMATCH -> agrees ts cs r -> agrees (GAll :: ts) cs r.
Proof.
  intros Hr ([->|[Hx | ->]] & M & N); [|done|].
  - apply agrees_match. rewrite gmatch_all. by rewrite (proj1 M).
  - apply agrees_nowildcard. by apply gmatch_all_none, N.
Qed.

Lemma agrees_missed ts x cs r : gm ts (x :: cs) = false -> agrees (GAll :: ts) cs r -> agrees (GAll :: ts) (x :: cs) r.
Proof.
  intros H A. pose proof A as ([->|[-> | ->]] & M & _).
  - apply agrees_match. by rewrite gmatch_all, (proj1 M), orb_true_r.
  - apply agrees_nomatch. by rewrite gmatch_all, H, (agrees_false _ _ _ A).
  - apply agrees_nowildcard. by rewrite gmatch_all, H, (agrees_false _ _ _ A).
Qed.

Lemma agrees_skipped ts cs ts' cs' r : gm (GAll :: ts) cs = gm (GAll :: ts') cs' ->
  agrees (GAll :: ts') cs' r -> agrees (GAll :: ts) cs r.
Proof.
  intros E A. pose proof A as ([->|[-> | ->]] & M & _).
  - apply agrees_match. rewrite E. by apply M.
  - apply agrees_nomatch. by rewrite E, (agrees_false _ _ _ A).
  - apply agrees_nowildcard. by rewrite E, (agrees_false _ _ _ A).
Qed.

Lemma agrees_char c ts x cs r : same_char pInfo c x = true -> agrees ts cs r -> agrees (GChar c :: ts) (x :: cs) r.
Proof. apply agrees_step. by intros [|]. Qed.

(** ** The searches *)

(** [compare] decides the rest of the pattern at every place in the string. *)
Definition decides (ts : list gtok) (compare : list Z -> option Z) : Prop :=
  forall z, zbytes z -> exists r, compare z = Some r /\ agrees ts (decode z) r.

Lemma same_char_big c x : 0x80 <= x \/ 0x80 <= c -> same_char pInfo c x = (c =? x).
Proof. intros H. unfold same_char. destruct (noCase pInfo); lia. Qed.

(** One round of a search at a character that may start a match. *)
Lemma search_round ts c x z again compare : decides ts compare -> zbytes z -> same_char pInfo c x = true ->
  (exists r, again = Some r /\ agrees (GAll :: GChar c :: ts) (decode z) r) ->
  exists r, (bMatch ← compare z; if negb (bMatch =? SQLITE_NOMATCH) then Some bMatch else again) = Some r /\
    agrees (GAll :: GChar c :: ts) (x :: decode z) r.
Proof.
  intros Hc Hz Hx (r2 & -> & A2). destruct (Hc z Hz) as (r & -> & A). cbn [mbind option_bind].
  destruct (Z.eqb_spec r SQLITE_NOMATCH) as [->|Hr]; cbn [negb].
  - exists r2. split; [done|]. apply agrees_missed; [|done]. cbn [gmatch]. fold gm. rewrite Hx.
    by apply (agrees_false _ _ _ A).
  - exists r. split; [done|]. apply agrees_found; [done|]. by apply agrees_char.
Qed.

Lemma search_byte_skip zStop compare m z : Forall (fun b => existsb (Z.eqb b) zStop = false) m ->
  search_byte zStop compare (m ++ z) = search_byte zStop compare z.
Proof. induction 1 as [|b m Hb _ IH]; [done|]. cbn [app search_byte]. by rewrite Hb. Qed.

Lemma search_byte_spec c zStop ts compare : c < 0x80 ->
  (forall b, 0 < b < 256 -> existsb (Z.eqb b) zStop = (b <? 0x80) && same_char pInfo c b) ->
  decides ts compare -> decides (GAll :: GChar c :: ts) (search_byte zStop compare).
Proof.
  intros Hc Hs Hd z. remember (length z) as n eqn:En. revert z En.
  induction n as [n IH] using lt_wf_ind; intros z -> Hz.
  destruct (read_cases z Hz) as [(-> & _ & ->)|(x & m & z' & _ & E & Hz' & -> & Hl & Hx)].
  { exists SQLITE_NOWILDCARDMATCH. split; [done|]. by apply agrees_nowildcard. }
  destruct (IH _ Hl z' eq_refl Hz') as (r & Hr & A). destruct Hx as [[Hx ->]|(Hx & Hm & Hf)].
  - subst z. cbn [app search_byte]. rewrite Hs by lia. replace (x <? 0x80) with true by lia. cbn [andb].
    destruct (same_char pInfo c x) eqn:Sx; [apply search_round; eauto|].
    exists r. split; [done|]. apply agrees_missed; [cbn [gmatch]; by rewrite Sx|done].
  - exists r. subst z. split.
    + rewrite search_byte_skip; [done|]. apply Forall_app in Hz as [Hmz _].
      rewrite Forall_forall in *. intros b Hb. specialize (Hf b Hb). specialize (Hmz b Hb). cbn in *.
      rewrite Hs by lia. by replace (b <? 0x80) with false by lia.
    + apply agrees_missed; [|done]. cbn [gmatch]. rewrite same_char_big by lia. by replace (c =? x) with false by lia.
Qed.

Lemma search_char_spec c ts compare : 0x80 <= c -> decides ts compare -> forall fuel z, zbytes z ->
  (length z < fuel)%nat -> exists r, search_char fuel c compare z = Some r /\ agrees (GAll :: GChar c :: ts) (decode z) r.
Proof.
  intros Hc Hd. induction fuel as [|fuel IH]; intros z Hz Hf; [lia|]. cbn [search_char]. rewrite Utf8Read_eq.
  destruct (read_cases z Hz) as [(-> & -> & ->)|(x & m & z' & -> & _ & Hz' & -> & Hl & Hx)].
  { exists SQLITE_NOWILDCARDMATCH. split; [done|]. by apply agrees_nowildcard. }
  replace (x =? 0) with false by lia.
  destruct (IH z' Hz' ltac:(lia)) as (r & Hr & A).
  destruct (Z.eqb_spec x c) as [->|Hne]; cbn [negb].
  - apply search_round; eauto. rewrite same_char_big by lia. apply Z.eqb_refl.
  - exists r. split; [done|]. apply agrees_missed; [|done]. cbn [gmatch]. rewrite same_char_big by lia.
    by replace (c =? x) with false by lia.
Qed.

Lemma search_set_spec ts compare : gm ts [] = false -> decides ts compare -> forall fuel z, zbytes z ->
  (length z <= fuel)%nat -> exists r, search_set fuel compare z = Some r /\ agrees (GAll :: ts) (decode z) r.
Proof.
  intros Hn Hd. induction fuel as [|fuel IH]; intros z Hz Hf.
  { destruct z; [|cbn in Hf; lia]. exists SQLITE_NOWILDCARDMATCH. split; [done|]. apply agrees_nowildcard. cbn. by rewrite Hn. }
  destruct z as [|b z].
  { exists SQLITE_NOWILDCARDMATCH. split; [done|]. apply agrees_nowildcard. cbn. by rewrite Hn. }
  cbn [search_set]. destruct (Hd (b :: z) Hz) as (r & -> & A). cbn [mbind option_bind].
  destruct (Z.eqb_spec r SQLITE_NOMATCH) as [->|Hr]; cbn [negb]; [|exists r; split; [done|by apply agrees_found]].
  rewrite skip_utf8_rest by done.
  destruct (read_cases (b :: z) Hz) as [(? & _)|(x & m & z' & -> & _ & Hz' & D & Hl & _)]; [done|]. cbn [snd].
  destruct (IH z' Hz' ltac:(cbn in *; lia)) as (r2 & -> & A2). exists r2. split; [done|].
  apply agrees_false in A; [|done]. rewrite D in *. by apply agrees_missed.
Qed.

(** The byte search of an ASCII character looks for the characters that match it. *)
Lemma zStop_spec c b : 0 < c < 0x80 -> 0 < b < 256 ->
  existsb (Z.eqb b) (if noCase pInfo then [u8 (sqlite3Toupper (u8 c)); u8 (sqlite3Tolower (u8 c))] else [u8 c]) =
  (b <? 0x80) && same_char pInfo c b.
Proof.
  intros Hc Hb. unfold same_char. destruct (noCase pInfo); cbn [andb existsb].
  2: { rewrite wrapu_id by solve_width. rewrite !orb_false_r. lia. }
  pose proof (all_bytes_spec (fun c => if 0x80 <=? c then true else forallb (fun b => eqb
    ((b =? u8 (sqlite3Toupper (u8 c))) || ((b =? u8 (sqlite3Tolower (u8 c))) || false))
    ((b <? 0x80) && ((c =? b) || (sqlite3Tolower c =? sqlite3Tolower b) && (c <? 0x80) && (b <? 0x80)))) all_bytes)
    c ltac:(vm_compute; reflexivity) ltac:(unfold is_byte; solve_width)) as H.
  cbn beta in H. replace (0x80 <=? c) with false in H by lia.
  apply (all_bytes_spec _ b) in H; [|unfold is_byte; solve_width]. by apply eqb_prop in H.
Qed.

(** ** The loop over [*] and [?] *)

Definition no_0x80 (cs : list Z) : Prop := Forall (fun c => c <> 0x80) cs.

Lemma skip_loop_spec : wf_info -> matchAll pInfo <> 0 -> forall fuel p s, zbytes p -> zbytes s -> no_0x80 (decode p) ->
  (length p < fuel)%nat ->
  skip_loop pInfo fuel p s = Some OutOfString /\ gm (GAll :: gpat (decode p)) (decode s) = false \/
  exists c p' s', skip_loop pInfo fuel p s = Some (Skipped c p' s') /\ zbytes p' /\ zbytes s' /\
    no_0x80 (upcoming c p') /\ (length p' + pending c <= length p)%nat /\ 0 <= c /\
    c <> matchAll pInfo /\ (c = matchOne pInfo -> c = 0) /\
    gm (GAll :: gpat (decode p)) (decode s) = gm (GAll :: gpat (upcoming c p')) (decode s').
Proof.
  intros [_ Hwf] Ha. induction fuel as [|fuel IH]; intros p s Hp Hs Hn Hf; [lia|]. cbn [skip_loop]. rewrite Utf8Read_eq.
  destruct (read_next p Hp) as (c & p' & R & U & Hp' & Hc & L). rewrite R. rewrite <- U in *.
  destruct ((c =? matchAll pInfo) || (c =? matchOne pInfo) && negb (matchOne pInfo =? 0)) eqn:E.
  2: { right. exists c, p', s. split_and!; [done|done|done|done|done|done|lia|lia|done]. }
  unfold upcoming, pending in *. destruct (Z.eqb_spec c 0); [lia|]. inversion Hn as [|? ? _ Hn']; subst.
  rewrite gpat_cons. destruct (Z.eqb_spec c (matchAll pInfo)) as [Ec|Ec].
  - rewrite gmatch_all_all. destruct (Z.eqb_spec c (matchOne pInfo)) as [Eo|Eo].
    + lia.
    + destruct (IH p' s) as [[-> ?]|(c' & p'' & s'' & E' & ? & ? & ? & ? & ? & ? & ? & ?)];
        [done..|lia|by left|right]. exists c', p'', s''. split_and!; try done. lia.
  - cbn [orb] in E. replace (c =? matchOther) with false by lia. replace (c =? matchOne pInfo) with true by lia.
    rewrite gmatch_all_one.
    destruct (read_cases s Hs) as [(-> & -> & ->)|(x & m & s' & -> & _ & Hs' & -> & Hl & Hx)]; [by left|].
    replace (x =? 0) with false by lia.
    destruct (IH p' s') as [[-> ?]|(c' & p'' & s'' & E' & ? & ? & ? & ? & ? & ? & ? & ?)];
        [done..|lia|by left|right]. exists c', p'', s''. split_and!; try done. lia.
Qed.

(** ** The matcher *)

Lemma search_spec c ts compare s : 0 < c -> c <> 0x80 -> decides ts compare -> zbytes s ->
  exists r, (if c <=? 0x80 then
      search_byte (if noCase pInfo then [u8 (sqlite3Toupper (u8 c)); u8 (sqlite3Tolower (u8 c))] else [u8 c]) compare s
    else search_char (S (length s)) c compare s) = Some r /\ agrees (GAll :: GChar c :: ts) (decode s) r.
Proof.
  intros Hc Hn Hd Hs. destruct (Z.leb_spec c 0x80).
  - eapply search_byte_spec; [lia| |done|done]. intros b Hb. apply zStop_spec; lia.
  - apply search_char_spec; (done || lia).
Qed.

Lemma fold_nul c : 0 < c < 0x80 -> (sqlite3Tolower (u8 c) =? sqlite3Tolower (u8 0)) = false.
Proof.
  intros H. unfold sqlite3Tolower. rewrite !wrapu_id by solve_width. rewrite !UpperToLower_spec by (unfold is_byte; solve_width).
  repeat case_match; lia.
Qed.

Lemma fold_same c x : (noCase pInfo && (sqlite3Tolower (u8 c) =? sqlite3Tolower (u8 x)) && (c <? 0x80) && (x <? 0x80)) =
  (noCase pInfo && (sqlite3Tolower c =? sqlite3Tolower x) && (c <? 0x80) && (x <? 0x80)) \/ c < 0 \/ x < 0.
Proof.
  destruct (Z.lt_ge_cases c 0); [auto|]. destruct (Z.lt_ge_cases x 0); [auto|]. left.
  destruct (Z.ltb_spec c 0x80), (Z.ltb_spec x 0x80); rewrite ?andb_false_r; try done.
  by rewrite !wrapu_id by solve_width.
Qed.

(** The last part of a round: a literal character or a [?]. *)
Lemma literal_round (escaped : bool) c ts compare s : 0 < c -> decides ts compare -> zbytes s ->
  exists r, (let '(c2, z) := Utf8Read s in
    if c =? c2 then compare z
    else if noCase pInfo && (sqlite3Tolower (u8 c) =? sqlite3Tolower (u8 c2)) && (c <? 0x80) && (c2 <? 0x80)
    then compare z
    else if (c =? matchOne pInfo) && negb escaped && negb (c2 =? 0) then compare z
    else Some SQLITE_NOMATCH) = Some r /\
  agrees ((if (c =? matchOne pInfo) && negb escaped then GOne else GChar c) :: ts) (decode s) r.
Proof.
  intros Hc Hd Hs. rewrite Utf8Read_eq.
  destruct (read_cases s Hs) as [(-> & -> & ->)|(x & m & s' & -> & _ & Hs' & -> & Hl & Hx)].
  - replace (c =? 0) with false by lia. exists SQLITE_NOMATCH. split; [|apply agrees_nomatch; by case_match].
    rewrite andb_false_r. destruct (Z.ltb_spec c 0x80); [|by rewrite andb_false_r].
    rewrite fold_nul by lia. by rewrite andb_false_r.
  - destruct (Hd s' Hs') as (r & E & A). rewrite !E.
    set (one := (c =? matchOne pInfo) && negb escaped).
    destruct (fold_same c x) as [->|?]; [|lia]. replace (x =? 0) with false by lia. rewrite andb_true_r.
    assert (one = true -> agrees ((if one then GOne else GChar c) :: ts) (x :: decode s') r) as One.
    { intros ->. apply (agrees_step _ (fun _ => true)); [by intros [|]|done|done]. }
    assert (same_char pInfo c x = true -> agrees ((if one then GOne else GChar c) :: ts) (x :: decode s') r) as Same.
    { intros Sx. destruct one; [by apply One|]. by apply agrees_char. }
    unfold same_char in Same. fold one.
    destruct (c =? x) eqn:Ex; [exists r; auto|]. destruct (noCase pInfo && _ && _ && _) eqn:Ef; [exists r; auto|].
    destruct one eqn:Eo; [exists r; auto|]. exists SQLITE_NOMATCH. split; [done|]. apply agrees_nomatch.
    cbn [gmatch]. unfold same_char. by rewrite Ex, Ef.
Qed.

Lemma decode_ascii c z : 0 < c < 0x80 -> decode (c :: z) = c :: decode z.
Proof. intros Hc. unfold decode at 1. cbn [length chars Utf8Read]. by replace (c <? 0x80) with true by lia. Qed.

Lemma no_0x80_suffix l cs : l `suffix_of` cs -> no_0x80 cs -> no_0x80 l.
Proof. intros [k ->] H. by apply Forall_app in H as [_ ?]. Qed.

(** The round of a [*]: what follows it is searched for. *)
Lemma star_round fuel (IH : forall p, zbytes p -> no_0x80 (decode p) -> (length p < fuel)%nat ->
    decides (gpat (decode p)) (patternCompare pInfo matchOther fuel p)) p s :
  wf_info -> matchAll pInfo <> 0 -> zbytes p -> zbytes s -> no_0x80 (decode p) -> (length p < fuel)%nat ->
  exists r, (r ← skip_loop pInfo (S (length p)) p s;
    match r with
    | OutOfString => Some SQLITE_NOWILDCARDMATCH
    | Skipped c zPattern zString =>
        if c =? 0 then Some SQLITE_MATCH
        else if (c =? matchOther) && negb (matchSet pInfo =? 0) then
          search_set (length zString) (patternCompare pInfo matchOther fuel (matchOther :: zPattern)) zString
        else
          let '(c, zPattern) := if c =? matchOther then sqlite3Utf8Read zPattern else (c, zPattern) in
          if c =? 0 then Some SQLITE_NOWILDCARDMATCH
          else if c <=? 0x80 then
            let zStop := if noCase pInfo then [u8 (sqlite3Toupper (u8 c)); u8 (sqlite3Tolower (u8 c))] else [u8 c] in
            search_byte zStop (patternCompare pInfo matchOther fuel zPattern) zString
          else search_char (S (length zString)) c (patternCompare pInfo matchOther fuel zPattern) zString
    end) = Some r /\ agrees (GAll :: gpat (decode p)) (decode s) r.
Proof.
  intros Hwf Ha Hp Hs Hn Hf.
  destruct (skip_loop_spec Hwf Ha (S (length p)) p s Hp Hs Hn ltac:(lia))
    as [[-> E]|(c & p' & s' & -> & Hp' & Hs' & Hn' & Hl & Hc & Hca & Hco & E)]; cbn [mbind option_bind].
  { exists SQLITE_NOWILDCARDMATCH. split; [done|]. by apply agrees_nowildcard. }
  assert (forall o, (exists r, o = Some r /\ agrees (GAll :: gpat (upcoming c p')) (decode s') r) ->
    exists r, o = Some r /\ agrees (GAll :: gpat (decode p)) (decode s) r) as G.
  { intros o (r & -> & A). exists r. split; [done|]. by eapply agrees_skipped. }
  apply G. clear G E. unfold upcoming, pending in *. destruct (Z.eqb_spec c 0) as [->|Hc0].
  { exists SQLITE_MATCH. split; [done|]. apply agrees_match, gmatch_all_nil. }
  rewrite ?(proj2 (Z.eqb_neq c 0) Hc0) in *. apply Forall_cons_1 in Hn' as [Hc80 Hn'']. rewrite gpat_cons. replace (c =? matchAll pInfo) with false by lia.
  destruct (Z.eqb_spec c matchOther) as [->|Hm]; cbn [andb].
  - destruct (Z.eqb_spec (matchSet pInfo) 0) as [Hset|Hset]; cbn [negb].
    + destruct (read_next p' Hp') as (e & p'' & -> & U & Hp'' & He & Le). rewrite <- U in *. unfold upcoming, pending in *.
      destruct (Z.eqb_spec e 0) as [->|He0].
      * exists SQLITE_NOWILDCARDMATCH. split; [done|]. apply agrees_nowildcard. by apply gmatch_all_none.
      * rewrite ?(proj2 (Z.eqb_neq e 0) He0) in *. apply Forall_cons_1 in Hn'' as [He80 Hn'']. apply search_spec; [lia|done| |done]. apply IH; (done || lia).
    + destruct Hwf as [[?|[_ Hot]] _]; [done|].
      assert (decides (gpat (decode (matchOther :: p'))) (patternCompare pInfo matchOther fuel (matchOther :: p'))) as D.
      { apply IH; [constructor; (done || lia)|rewrite decode_ascii by done; by constructor|cbn; lia]. }
      rewrite decode_ascii, gpat_cons, Z.eqb_refl in D by done.
      replace (matchOther =? matchAll pInfo) with false in D by lia.
      replace (matchSet pInfo =? 0) with false in D by lia.
      apply search_set_spec; [|done|done|done]. by destruct (parse_set (decode p')) as [[[] ?]|].
  - replace (c =? 0) with false by lia. replace (c =? matchOne pInfo) with false by lia.
    apply search_spec; [lia|done| |done]. apply IH; (done || lia).
Qed.

Lemma pattern_compare_decides : wf_info -> forall fuel p, zbytes p -> no_0x80 (decode p) -> (length p < fuel)%nat ->
  decides (gpat (decode p)) (patternCompare pInfo matchOther fuel p).
Proof.
  intros Hwf. induction fuel as [|fuel IH]; intros p Hp Hn Hf s Hs; [lia|]. cbn [patternCompare].
  rewrite Utf8Read_eq. destruct (read_next p Hp) as (c & p' & -> & U & Hp' & Hc & L). rewrite <- U in *. clear U.
  unfold upcoming, pending in *. destruct (Z.eqb_spec c 0) as [->|Hc0].
  { destruct (read_cases s Hs) as [(-> & _ & ->)|(x & m & s' & _ & _ & _ & -> & Hl & _)].
    - exists SQLITE_MATCH. split; [done|by apply agrees_match].
    - destruct s; [cbn in Hl; lia|]. exists SQLITE_NOMATCH. split; [done|by apply agrees_nomatch]. }
  rewrite ?(proj2 (Z.eqb_neq c 0) Hc0) in *. apply Forall_cons_1 in Hn as [Hc80 Hn']. rewrite gpat_cons.
  destruct (Z.eqb_spec c (matchAll pInfo)) as [->|Hca]; [apply star_round; (done || lia)|].
  assert (decides (gpat (decode p')) (patternCompare pInfo matchOther fuel p')) as D by (apply IH; (done || lia)).
  destruct (Z.eqb_spec c matchOther) as [->|Hm]; cbn [andb].
  2: { pose proof (literal_round false c _ _ s ltac:(lia) D Hs) as R.
       destruct R as (r & E & A). exists r. split; [exact E|]. cbn [negb] in A. rewrite andb_true_r in A.
       by destruct (c =? matchOne pInfo). }
  destruct (Z.eqb_spec (matchSet pInfo) 0) as [Hset|Hset]; cbn [negb].
  - destruct (read_next p' Hp') as (e & p'' & -> & U & Hp'' & He & Le). rewrite <- U in *. unfold upcoming, pending in *.
    destruct (Z.eqb_spec e 0) as [->|He0]; [exists SQLITE_NOMATCH; split; [done|by apply agrees_nomatch]|].
    rewrite ?(proj2 (Z.eqb_neq e 0) He0) in *. apply Forall_cons_1 in Hn' as [He80 Hn''].
    pose proof (literal_round true e (gpat (decode p'')) _ s ltac:(lia) (IH p'' Hp'' Hn'' ltac:(lia)) Hs) as R.
    destruct R as (r & E & A). exists r. split; [exact E|]. cbn [negb] in A. by rewrite andb_false_r in A.
  - destruct (read_cases s Hs) as [(-> & -> & ->)|(x & m & s' & -> & _ & Hs' & -> & Hl & Hx)].
    { exists SQLITE_NOMATCH. split; [done|]. apply agrees_nomatch. by destruct (parse_set (decode p')) as [[[] ?]|]. }
    replace (x =? 0) with false by lia. pose proof (match_set_spec x p' Hp' ltac:(lia)) as M.
    destruct (parse_set (decode p')) as [[[invert rs] rest]|] eqn:P.
    + destruct M as (p'' & Hp'' & <- & Ll & ->). cbn [mbind option_bind].
      apply parse_set_suffix in P as [y P]. apply (no_0x80_suffix _ _ P), Forall_cons_1 in Hn' as [_ Hn''].
      destruct (xorb (in_ranges rs x) invert) eqn:X.
      * destruct (IH p'' Hp'' Hn'' ltac:(lia) s' Hs') as (r & E & A). exists r. split; [done|].
        apply (agrees_step _ (fun y => xorb (in_ranges rs y) invert)); [by intros [|]|done|done].
      * exists SQLITE_NOMATCH. split; [done|]. apply agrees_nomatch. cbn [gmatch]. by rewrite X.
    + rewrite M. exists SQLITE_NOMATCH. split; [done|]. by apply agrees_nomatch.
Qed.
End Correctness.

(** ** LIKE pushed down as GLOB *)

(** A text of the theorems below: characters the reader does not replace, without NUL. *)
Definition good_char (c : Z) : Prop := exact_char c /\ 0 < c.

Lemma encode_cons c cs : encode WRITE_UTF8 (c :: cs) = WRITE_UTF8 c ++ encode WRITE_UTF8 cs.
Proof. done. Qed.

Lemma good_start cs : Forall good_char cs -> no_cont (encode WRITE_UTF8 cs).
Proof. intros H. apply encode_start. eapply Forall_impl; [exact H|]. by intros c [? _]. Qed.

Lemma encode_zbytes cs : Forall good_char cs -> zbytes (encode WRITE_UTF8 cs).
Proof.
  induction 1 as [|c cs [[Hc _] Hp] _ IH]; [constructor|]. rewrite encode_cons. apply Forall_app. split; [|exact IH].
  destruct (write_utf8_shape c Hc) as (b & l & -> & [(? & -> & ->)|(? & _)] & F); constructor; [lia|done|lia|].
  eapply Forall_impl; [exact F|]. cbn. intros x [Hu Hx]. rewrite cont_byte in Hx by done. unfold is_u in Hu. lia.
Qed.

Lemma decode_encode cs : Forall good_char cs -> decode (encode WRITE_UTF8 cs) = cs.
Proof.
  induction 1 as [|c cs [Hc Hp] Hcs IH]; [done|].
  assert (zbytes (encode WRITE_UTF8 (c :: cs))) as Hz by (apply encode_zbytes; by constructor).
  destruct (read_cases _ Hz) as [(E & _)|(c' & m & z' & R & _ & _ & -> & _)].
  { destruct (write_utf8_nonempty c) as (b & l & Ec). rewrite encode_cons, Ec in E. done. }
  rewrite encode_cons, utf8_read_write in R by (done || by apply good_start).
  injection R as <- <-. by rewrite IH.
Qed.

(** The lead byte of a character tells how many bytes it has. *)
Definition lead_length (b : Z) : nat :=
  if b <? 0x80 then 1 else if b <? 0xE0 then 2 else if b <? 0xF0 then 3 else 4.

Lemma write_utf8_length c : scalar c -> length (WRITE_UTF8 c) = lead_length (first_byte (WRITE_UTF8 c)).
Proof.
  intros [R _]. unfold WRITE_UTF8, lead_length. arith_bits.
  destruct (Z.ltb_spec c 0x80); [|destruct (Z.ltb_spec c 0x800); [|destruct (Z.ltb_spec c 0x10000)]]; cbn [first_byte length].
  - replace (c mod 256 mod 256) with c by ediv. by replace (c <? 0x80) with true by lia.
  - replace ((c / 64) mod 32 mod 256) with (c / 64) by ediv.
    replace (0xC0 + c / 64 <? 0x80) with false by ediv. by replace (0xC0 + c / 64 <? 0xE0) with true by ediv.
  - replace ((c / 4096) mod 16 mod 256) with (c / 4096) by ediv.
    replace (0xE0 + c / 4096 <? 0x80) with false by ediv. replace (0xE0 + c / 4096 <? 0xE0) with false by ediv.
    by replace (0xE0 + c / 4096 <? 0xF0) with true by ediv.
  - replace ((c / 262144) mod 8 mod 256) with (c / 262144) by ediv.
    replace (0xF0 + c / 262144 <? 0x80) with false by ediv. replace (0xF0 + c / 262144 <? 0xE0) with false by ediv.
    by replace (0xF0 + c / 262144 <? 0xF0) with false by ediv.
Qed.

(** No character's bytes begin another's. *)
Lemma write_utf8_prefix_free c x r r' : exact_char c -> exact_char x -> WRITE_UTF8 c ++ r = WRITE_UTF8 x ++ r' ->
  c = x /\ r = r'.
Proof.
  intros Hc Hx E.
  assert (length (WRITE_UTF8 c) = length (WRITE_UTF8 x)) as L.
  { rewrite !write_utf8_length by (apply Hc || apply Hx). f_equal.
    destruct (write_utf8_nonempty c) as (b & l & Ec), (write_utf8_nonempty x) as (b' & l' & Ex).
    rewrite Ec, Ex in *. by injection E as -> _. }
  apply app_inj_1 in E as [E ->]; [|done]. split; [|done].
  pose proof (utf8_read_write c [] Hc I) as Rc. rewrite E, utf8_read_write in Rc by done. by simplify_eq.
Qed.

(** The byte tokens and the GLOB characters of a pattern of characters. *)
Definition expand (t : tok) : list tok := match t with TLit c => map TLit (WRITE_UTF8 c) | t => [t] end.
Definition glob_chars (t : tok) : list Z :=
  match t with TLit c => if glob_special c then [91; c; 93] else [c] | TOne => [63] | TMany => [42] end.
Definition glob_tok (t : tok) : gtok :=
  match t with TLit c => if glob_special c then GSet false [(c, c)] else GChar c | TOne => GOne | TMany => GAll end.

Definition ascii_escape (escape : option Z) : Prop := match escape with Some e => 0 < e < 0x80 | None => True end.

Section Pushdown.
Context (escape : option Z) (Hescape : ascii_escape escape).

(** Bytes of 0x80 and above are literals on both sides. *)
Lemma high_plain b : 0x80 <= b -> is_escape escape b = false /\ (b =? c_underscore) = false /\ (b =? c_percent) = false /\
  glob_special b = false.
Proof.
  unfold ascii_escape, is_escape, c_underscore, c_percent, glob_special in *. destruct escape; intros; split_and!; lia.
Qed.

Lemma tokens_high l p : Forall (fun b => 0x80 <= b) l ->
  tokens escape (l ++ p) = (fun ts => map TLit l ++ ts) <$> tokens escape p.
Proof.
  induction 1 as [|b l Hb _ IH]; cbn [app map tokens]; [by destruct (tokens escape p)|].
  destruct (high_plain b Hb) as (-> & -> & -> & _). rewrite IH. by destruct (tokens escape p).
Qed.

Lemma glob_high l p : Forall (fun b => 0x80 <= b) l ->
  SQLiteLikeToGlob (l ++ p) escape = (fun g => l ++ g) <$> SQLiteLikeToGlob p escape.
Proof.
  induction 1 as [|b l Hb _ IH]; cbn [app SQLiteLikeToGlob]; [by destruct (SQLiteLikeToGlob p escape)|].
  destruct (high_plain b Hb) as (-> & -> & -> & ->). rewrite IH. by destruct (SQLiteLikeToGlob p escape).
Qed.

(** A character is its ASCII byte, or a high byte followed by high bytes. *)
Lemma char_bytes c : good_char c ->
  0 < c < 0x80 /\ WRITE_UTF8 c = [c] \/
  0x80 <= c /\ exists b l, WRITE_UTF8 c = b :: l /\ 0xC0 <= b /\ Forall (fun b => 0x80 <= b) (b :: l) /\
    Forall (fun b => is_cont_byte b = true) l.
Proof.
  intros [[Hc _] Hp]. destruct (write_utf8_shape c Hc) as (b & l & E & [(? & -> & ->)|(? & _ & ?)] & F); [left; split; [lia|done]|right].
  split; [done|]. exists b, l. split_and!; [done|lia| |].
  - constructor; [lia|]. eapply Forall_impl; [exact F|]. cbn. intros x [Hu Hx]. rewrite cont_byte in Hx by done. lia.
  - eapply Forall_impl; [exact F|]. by intros x [_ ?].
Qed.

Lemma tokens_encode ps : Forall good_char ps ->
  tokens escape (encode WRITE_UTF8 ps) = (fun ts => concat (map expand ts)) <$> tokens escape ps.
Proof.
  remember (length ps) as n eqn:En. revert ps En.
  induction n as [n IH] using lt_wf_ind; intros ps -> Hps. destruct ps as [|c ps]; [done|].
  apply Forall_cons_1 in Hps as [Hc Hps]. rewrite encode_cons.
  assert (forall l, (length l < length (c :: ps))%nat -> Forall good_char l ->
    tokens escape (encode WRITE_UTF8 l) = (fun ts => concat (map expand ts)) <$> tokens escape l) as IH' by (intros l Hl; apply (IH (length l) Hl l eq_refl)).
  destruct (char_bytes c Hc) as [[Ha ->]|(Hb & b & l & E & _ & F & _)].
  - cbn [app tokens]. destruct (is_escape escape c).
    + destruct ps as [|e ps]; [done|]. apply Forall_cons_1 in Hps as [He Hps]. rewrite encode_cons.
      destruct (char_bytes e He) as [[_ Ee]|(_ & b & l & Ee & _ & F & _)]; rewrite Ee.
      * cbn [app]. rewrite IH' by (done || cbn; lia). destruct (tokens escape ps); [|done].
        cbn. by rewrite Ee.
      * apply Forall_cons_1 in F as [_ F]. cbn [app]. rewrite tokens_high, IH' by (done || cbn; lia).
        destruct (tokens escape ps); [|done]. cbn. by rewrite Ee.
    + rewrite IH' by (done || cbn; lia). destruct (tokens escape ps) as [ts|]; [|done]. cbn.
      destruct (c =? c_underscore); [done|]. destruct (c =? c_percent); [done|]. cbn [expand].
      destruct (char_bytes c Hc) as [[_ ->]|]; [done|lia].
  - rewrite E. rewrite tokens_high, IH' by (done || cbn; lia). cbn [tokens].
    destruct (high_plain c Hb) as (-> & -> & -> & _). destruct (tokens escape ps); [|done]. cbn. by rewrite E.
Qed.

Lemma glob_encode ps : Forall good_char ps ->
  SQLiteLikeToGlob (encode WRITE_UTF8 ps) escape =
  (fun ts => encode WRITE_UTF8 (concat (map glob_chars ts))) <$> tokens escape ps.
Proof.
  remember (length ps) as n eqn:En. revert ps En.
  induction n as [n IH] using lt_wf_ind; intros ps -> Hps. destruct ps as [|c ps]; [done|].
  apply Forall_cons_1 in Hps as [Hc Hps]. rewrite encode_cons.
  assert (forall l, (length l < length (c :: ps))%nat -> Forall good_char l ->
    SQLiteLikeToGlob (encode WRITE_UTF8 l) escape =
    (fun ts => encode WRITE_UTF8 (concat (map glob_chars ts))) <$> tokens escape l) as IH' by (intros l Hl; apply (IH (length l) Hl l eq_refl)).
  destruct (char_bytes c Hc) as [[Ha ->]|(Hb & b & l & E & _ & F & _)].
  - cbn [app SQLiteLikeToGlob tokens]. destruct (is_escape escape c).
    + destruct ps as [|e ps]; [done|]. apply Forall_cons_1 in Hps as [He Hps]. rewrite encode_cons.
      destruct (char_bytes e He) as [[_ Ee]|(Hb & b & l & Ee & _ & F & _)]; rewrite Ee.
      * cbn [app]. rewrite IH' by (done || cbn; lia). destruct (tokens escape ps); [|done].
        cbn [fmap option_fmap option_map mbind option_bind map concat glob_chars]. destruct (glob_special e); cbn [app]; rewrite !encode_cons, ?Ee; done.
      * apply Forall_cons_1 in F as [Hbb F]. cbn [app]. rewrite glob_high, IH' by (done || cbn; lia).
        destruct (tokens escape ps); [|done]. destruct (high_plain b Hbb) as (_ & _ & _ & ->).
        cbn [fmap option_fmap option_map mbind option_bind map concat glob_chars]. destruct (high_plain e Hb) as (_ & _ & _ & ->).
        cbn [app]. rewrite encode_cons, Ee. done.
    + rewrite IH' by (done || cbn; lia). destruct (tokens escape ps) as [ts|]; [|by repeat case_match].
      destruct (c =? c_percent) eqn:Ep; [replace (c =? c_underscore) with false by (unfold c_underscore, c_percent in *; lia); done|].
      destruct (c =? c_underscore) eqn:Eu; [done|]. cbn [fmap option_fmap option_map mbind option_bind map concat glob_chars].
      destruct (char_bytes c Hc) as [[_ Ec]|]; [|lia].
      destruct (glob_special c); cbn [app]; rewrite !encode_cons, Ec; done.
  - rewrite E. rewrite glob_high, IH' by (done || cbn; lia). cbn [tokens].
    destruct (high_plain c Hb) as (-> & -> & -> & Hg). destruct (tokens escape ps); [|done].
    cbn [fmap option_fmap option_map mbind option_bind map concat glob_chars]. rewrite Hg.
    cbn [app]. by rewrite encode_cons, E.
Qed.

Lemma tokens_literals ps ts (P : Z -> Prop) : Forall P ps -> tokens escape ps = Some ts ->
  Forall (fun t => match t with TLit c => P c | _ => True end) ts.
Proof.
  remember (length ps) as n eqn:En. revert ps ts En.
  induction n as [n IH] using lt_wf_ind; intros ps ts -> Hps H. destruct ps as [|c ps]; [injection H as <-; constructor|].
  apply Forall_cons_1 in Hps as [Hc Hps]. cbn [tokens] in H. destruct (is_escape escape c).
  - destruct ps as [|e ps]; [done|]. apply Forall_cons_1 in Hps as [He Hps].
    apply bind_Some in H as (ts' & Ht & [= <-]). constructor; [done|]. eapply (IH (length ps)); eauto. cbn; lia.
  - apply bind_Some in H as (ts' & Ht & [= <-]). constructor; [by destruct (c =? c_underscore), (c =? c_percent)|].
    eapply (IH (length ps)); eauto.
Qed.
End Pushdown.

Lemma glob_special_cases c : glob_special c = true -> c = 42 \/ c = 63 \/ c = 91.
Proof. unfold glob_special. lia. Qed.

(** A special character in brackets is read back as a set of itself. *)
Lemma gpat_glob_chars ts : Forall (fun t => match t with TLit c => c <> 0 | _ => True end) ts ->
  gpat globInfo 91 (concat (map glob_chars ts)) = map glob_tok ts.
Proof.
  induction 1 as [|t ts Ht _ IH]; [done|]. cbn [map concat]. destruct t as [c| |]; cbn [glob_chars glob_tok].
  - destruct (glob_special c) eqn:E.
    + cbn [app]. rewrite gpat_cons. cbn -[Z.eqb gpat]. 
      apply glob_special_cases in E as [->|[->| ->]]; cbn -[gpat]; by rewrite IH.
    + cbn [app]. rewrite gpat_cons, IH. unfold glob_special in E. cbn [matchAll matchOne matchSet globInfo].
      replace (c =? 42) with false by lia. replace (c =? 91) with false by lia. by replace (c =? 63) with false by lia.
  - cbn [app]. by rewrite gpat_cons, IH.
  - cbn [app]. by rewrite gpat_cons, IH.
Qed.

(** ** The two matchers agree *)

Lemma lmatch_lits l ts s : lmatch (map TLit l ++ ts) (l ++ s) = lmatch ts s.
Proof. induction l as [|b l IH]; [done|]. cbn [map app lmatch]. by rewrite Z.eqb_refl. Qed.

Lemma lmatch_lits_inv l ts s : lmatch (map TLit l ++ ts) s = true -> exists s', s = l ++ s' /\ lmatch ts s' = true.
Proof.
  revert s. induction l as [|b l IH]; intros s H; [eauto|]. cbn [map app lmatch] in H. destruct s as [|c s]; [done|].
  apply andb_true_iff in H as [E%Z.eqb_eq H]. destruct (IH s H) as (s' & -> & ?). subst. eauto.
Qed.

Lemma skip_cont_all m r : Forall (fun b => is_cont_byte b = true) m -> no_cont r -> skip_cont (m ++ r) = r.
Proof.
  intros Hm Hr. induction Hm as [|b m Hb _ IH]; cbn [app skip_cont].
  - destruct r as [|b r]; [done|]. cbn [skip_cont]. cbn in Hr. change (is_cont b) with (is_cont_byte b). by rewrite Hr.
  - change (is_cont b) with (is_cont_byte b). by rewrite Hb.
Qed.

(** A match that starts inside a character also starts at the character. *)
Lemma mid_match ts b m0 m r : Forall (fun t => match t with TLit c => good_char c | _ => True end) ts ->
  Forall (fun b => is_cont_byte b = true) m0 -> m `suffix_of` m0 -> m <> [] -> no_cont r ->
  lmatch (concat (map expand ts)) (m ++ r) = true -> lmatch (concat (map expand ts)) (b :: m0 ++ r) = true.
Proof.
  intros Hts Hm0 Hm Hne Hr H. assert (Forall (fun b => is_cont_byte b = true) m) as Hmc.
  { destruct Hm as [k ->]. by apply Forall_app in Hm0 as [_ ?]. }
  destruct ts as [|[c| |] ts]; cbn [map concat expand app] in *.
  - by destruct m.
  - apply lmatch_lits_inv in H as (s' & E & _). apply Forall_cons_1 in Hts as [Hc _].
    pose proof (write_utf8_start c s' (proj1 (proj1 Hc))) as N. rewrite <- E in N. destruct m as [|x m]; [done|].
    cbn in N. apply Forall_cons_1 in Hmc as [Hx _]. congruence.
  - destruct m as [|x m]; [done|]. cbn [app lmatch] in *. apply Forall_cons_1 in Hmc as [_ Hmc].
    rewrite skip_cont_all in H by done. by rewrite skip_cont_all.
  - eapply lmatch_many_suffix; [|exact H]. apply suffix_cons_r. destruct Hm as [k ->]. exists k. by rewrite app_assoc.
Qed.

Lemma lmatch_many_char ts b l r : Forall (fun t => match t with TLit c => good_char c | _ => True end) ts ->
  Forall (fun b => is_cont_byte b = true) l -> no_cont r ->
  lmatch (TMany :: concat (map expand ts)) (b :: l ++ r) =
  lmatch (concat (map expand ts)) (b :: l ++ r) || lmatch (TMany :: concat (map expand ts)) r.
Proof.
  intros Hts Hl Hr. set (E := concat (map expand ts)).
  destruct (lmatch E (b :: l ++ r) || lmatch (TMany :: E) r) eqn:G.
  - apply orb_true_iff in G as [G|G]; [rewrite lmatch_many; by rewrite G|].
    eapply lmatch_many_suffix; [|exact G]. exists (b :: l). done.
  - apply orb_false_iff in G as [G1 G2]. destruct (lmatch (TMany :: E) (b :: l ++ r)) eqn:M; [|done].
    apply lmatch_many_true in M as (t & [k Hk] & M). destruct k as [|x k]; [cbn in Hk; subst t; congruence|].
    injection Hk as -> Hk. apply app_eq_app in Hk as [m [[-> ->]|[-> ->]]].
    + destruct m as [|y m]; [cbn in M; rewrite lmatch_many, M in G2; done|].
      rewrite <- G1. symmetry. apply (mid_match ts x (k ++ y :: m) (y :: m) r); [done|done|by exists k|done|done|exact M].
    + rewrite (lmatch_many_suffix _ _ t) in G2; [done|by eexists|]. by rewrite lmatch_many, M.
Qed.

Lemma lmatch_gmatch ts : Forall (fun t => match t with TLit c => good_char c | _ => True end) ts ->
  forall cs, Forall good_char cs ->
  lmatch (concat (map expand ts)) (encode WRITE_UTF8 cs) = gmatch globInfo (map glob_tok ts) cs.
Proof.
  induction 1 as [|t ts Ht Hts IH]; intros cs Hcs.
  { destruct cs as [|c cs]; [done|]. rewrite encode_cons. by destruct (write_utf8_nonempty c) as (b & l & ->). }
  cbn [map concat]. destruct t as [c| |]; cbn [expand glob_tok].
  - assert (gmatch globInfo ((if glob_special c then GSet false [(c, c)] else GChar c) :: map glob_tok ts) cs =
      match cs with x :: cs => (c =? x) && gmatch globInfo (map glob_tok ts) cs | [] => false end) as ->.
    { destruct cs as [|x cs]; [by destruct (glob_special c)|]. destruct (glob_special c); cbn [gmatch].
      - rewrite in_ranges_cons, orb_false_r. rewrite xorb_false_r. f_equal. lia.
      - unfold same_char. cbn [noCase globInfo andb]. by rewrite orb_false_r. }
    destruct Hcs as [|x cs Hx Hcs].
    { change (encode WRITE_UTF8 []) with (@nil Z). by destruct (write_utf8_nonempty c) as (b & l & ->). }
    rewrite encode_cons. destruct (Z.eqb_spec c x) as [->|Hne]; cbn [andb]; [rewrite lmatch_lits; by apply IH|].
    destruct (lmatch _ _) eqn:M; [|done]. apply lmatch_lits_inv in M as (s' & E & _). exfalso. apply Hne.
    symmetry in E. apply write_utf8_prefix_free in E as [? _]; [done|apply Ht|apply Hx].
  - destruct Hcs as [|x cs Hx Hcs]; [done|]. rewrite encode_cons. cbn [app gmatch]. rewrite <- IH by done.
    destruct (write_utf8_shape x (proj1 (proj1 Hx))) as (b & l & -> & _ & F). cbn [app lmatch].
    rewrite skip_cont_all; [done| |by apply good_start]. eapply Forall_impl; [exact F|]. by intros y [_ ?].
  - cbn [app]. induction Hcs as [|x cs Hx Hcs IHc].
    + change (encode WRITE_UTF8 []) with (@nil Z). rewrite lmatch_many, gmatch_all. by rewrite <- IH.
    + rewrite gmatch_all, <- IHc, <- IH by (by constructor). rewrite encode_cons.
      destruct (write_utf8_shape x (proj1 (proj1 Hx))) as (b & l & -> & _ & F). cbn [app].
      apply lmatch_many_char; [done| |by apply good_start]. eapply Forall_impl; [exact F|]. by intros y [_ ?].
Qed.

Lemma glob_chars_good ts : Forall (fun t => match t with TLit c => good_char c /\ c <> 0x80 | _ => True end) ts ->
  Forall (fun c => good_char c /\ c <> 0x80) (concat (map glob_chars ts)).
Proof.
  assert (forall c, 0 < c < 0x80 -> good_char c /\ c <> 0x80) as A.
  { intros c Hc. unfold good_char, exact_char, scalar. lia. }
  induction 1 as [|[c| |] ts Ht _ IH]; cbn [map concat glob_chars]; [done| | |].
  - apply Forall_app. split; [|done]. destruct (glob_special c); [|by constructor].
    constructor; [apply A; lia|]. constructor; [done|]. constructor; [apply A; lia|constructor].
  - constructor; [apply A; lia|done].
  - constructor; [apply A; lia|done].
Qed.

(** ** Properties *)

Lemma escape_info_wf pInfo e : In pInfo [likeInfoNorm; likeInfoAlt] -> wf_info (escape_info pInfo e) e.
Proof.
  unfold wf_info. intros [<-|[<-|[]]]; cbn [escape_info matchSet matchAll matchOne likeInfoNorm likeInfoAlt];
    (split; [by left|]); repeat case_match; lia.
Qed.

Lemma plain_info_wf pInfo : In pInfo [globInfo; likeInfoNorm; likeInfoAlt] -> wf_info pInfo (matchSet pInfo).
Proof.
  unfold wf_info. intros [<-|[<-|[<-|[]]]]; cbn; (split; [|lia]); [right; lia|by left|by left].
Qed.

Lemma pattern_compare_gmatch info e p s : wf_info info e -> zbytes p -> zbytes s -> no_0x80 (decode p) ->
  exists r, pattern_compare info e p s = Some r /\ (r =? SQLITE_MATCH) = gmatch info (gpat info e (decode p)) (decode s).
Proof.
  intros Hw Hp Hs Hn. destruct (pattern_compare_decides info e Hw (S (length p)) p Hp Hn ltac:(lia) s Hs) as (r & E & A).
  exists r. split; [exact E|]. destruct A as (_ & M & _). destruct (gmatch info _ _).
  - by rewrite (proj2 M).
  - apply Z.eqb_neq. intros ->. by pose proof (proj1 M eq_refl).
Qed.





(** The search for the next literal takes U+0080 for a single byte: a GLOB that
    looks for it after a [*] finds the last byte of another character, so that a
    LIKE pushed down with such a pattern keeps rows that do not match. *)
Lemma glob_0x80_wrong :
  SQLiteLikeToGlob [37; 194; 128] None = Some [42; 194; 128] /\
  sqlite3_strglob [42; 194; 128] [195; 128] = Some SQLITE_MATCH /\
  SQLiteLikeMatches None [195; 128] [37; 194; 128] = Some (Ok false).
Proof. by vm_compute. Qed.

(** The reader takes U+FFFE and U+FFFF for U+FFFD, DuckDB does not. *)
Lemma glob_nonchar_wrong :
  sqlite3_strglob (WRITE_UTF8 0xFFFE) (WRITE_UTF8 0xFFFF) = Some SQLITE_MATCH /\
  SQLiteLikeMatches None (WRITE_UTF8 0xFFFF) (WRITE_UTF8 0xFFFE) = Some (Ok false).
Proof. by vm_compute. Qed.
