(* ===== verification/WalIndex.v ===== *)
(** * The wal-index (wal.c of the engine)

    The shared-memory index of a write-ahead log: blocks of page numbers, one per
    frame of the log, each with a hash table of 16-bit slots.  Modelled are the
    hash functions, appending ([walIndexAppend]), the cleanup after a rollback
    ([walCleanupHash]), the search for the frame of a page
    ([sqlite3WalFindFrame]) and the parts of [sqlite3WalFrames], [sqlite3WalUndo]
    and [sqlite3WalSavepointUndo] that change the index.

    The index is abstracted to the list of the page numbers of the frames. *)

From S2P Require Import Prelude.
From stdpp Require Import gmap.

#[local] Open Scope Z_scope.
Local Open Scope c_scope.

Definition HASHTABLE_NPAGE : Z := 4096.
Definition HASHTABLE_HASH_1 : Z := 383.
Definition HASHTABLE_NSLOT : Z := 8192.
Definition WALINDEX_HDR_SIZE : Z := 136.
Definition HASHTABLE_NPAGE_ONE : Z := HASHTABLE_NPAGE - WALINDEX_HDR_SIZE / 4.

Definition walHash (iPage : Z) : Z := u32 (iPage * HASHTABLE_HASH_1) & (HASHTABLE_NSLOT - 1).
Definition walNextHash (iPriorHash : Z) : Z := (iPriorHash + 1) & (HASHTABLE_NSLOT - 1).
Definition walFramePage (iFrame : Z) : Z := u32 (iFrame + HASHTABLE_NPAGE - HASHTABLE_NPAGE_ONE - 1) / HASHTABLE_NPAGE.

(** A block of the index: the part of its page after the header. *)
Record WalBlock : Type := { aPgno : list Z; aHash : list Z }.

(** The index with the fields of [Wal] that these functions use. *)
Record Wal : Type := { apWiData : gmap Z WalBlock; mxFrame : Z; minFrame : Z; readLock : Z; bShmUnreliable : bool }.

(** An array access; every access of these functions is within the array. *)
Definition arr (l : list Z) (i : Z) : Z := nth (Z.to_nat i) l 0.
Definition set_arr (l : list Z) (i v : Z) : list Z := <[Z.to_nat i := v]> l.

(** The number of entries of a block; new shared memory is zeroed. *)
Definition block_size (iHash : Z) : Z := if iHash =? 0 then HASHTABLE_NPAGE_ONE else HASHTABLE_NPAGE.
Definition zero_block (iHash : Z) : WalBlock :=
  {| aPgno := replicate (Z.to_nat (block_size iHash)) 0; aHash := replicate (Z.to_nat HASHTABLE_NSLOT) 0 |}.
Definition block (w : Wal) (iHash : Z) : WalBlock := default (zero_block iHash) (apWiData w !! iHash).
Definition set_block (w : Wal) (iHash : Z) (b : WalBlock) : Wal :=
  {| apWiData := <[iHash := b]> (apWiData w); mxFrame := mxFrame w; minFrame := minFrame w;
     readLock := readLock w; bShmUnreliable := bShmUnreliable w |}.
Definition set_mxFrame (w : Wal) (n : Z) : Wal :=
  {| apWiData := apWiData w; mxFrame := n; minFrame := minFrame w;
     readLock := readLock w; bShmUnreliable := bShmUnreliable w |}.

Definition SQLITE_OK : Z := 0.
Definition SQLITE_CORRUPT : Z := 11.

Section WalIndex.
(** The code with which mapping a page of the shared memory returns, 0 for a page
    that is mapped already. *)
Context (shmMap : Z -> Z).

(** The block and [iZero], or the error of mapping its page. *)
Definition walHashGet (w : Wal) (iHash : Z) : res Z (WalBlock * Z) :=
  if negb (shmMap iHash =? SQLITE_OK) then Throw (shmMap iHash)
  else Ok (block w iHash, if iHash =? 0 then 0 else HASHTABLE_NPAGE_ONE + (iHash - 1) * HASHTABLE_NPAGE).

Definition walFramePgno (w : Wal) (iFrame : Z) : Z :=
  let iHash := walFramePage iFrame in
  if iHash =? 0 then arr (aPgno (block w 0)) (iFrame - 1)
  else arr (aPgno (block w iHash)) ((iFrame - 1 - HASHTABLE_NPAGE_ONE) mod HASHTABLE_NPAGE).

Definition walCleanupHash (w : Wal) : Wal :=
  if mxFrame w =? 0 then w
  else
    match walHashGet w (walFramePage (mxFrame w)) with
    | Throw _ => w
    | Ok (sLoc, iZero) =>
        let iLimit := mxFrame w - iZero in
        set_block w (walFramePage (mxFrame w))
          {| aPgno := take (Z.to_nat iLimit) (aPgno sLoc) ++ replicate (length (aPgno sLoc) - Z.to_nat iLimit) 0;
             aHash := map (fun v => if iLimit <? v then 0 else v) (aHash sLoc) |}
    end.

(** The free slot for a new entry; [None] after more than [nCollide] collisions. *)
Fixpoint append_slot (nCollide : nat) (aHash : list Z) (iKey : Z) : option Z :=
  if arr aHash iKey =? 0 then Some iKey
  else match nCollide with O => None | S nCollide => append_slot nCollide aHash (walNextHash iKey) end.

Definition walIndexAppend (w : Wal) (iFrame iPage : Z) : Z * Wal :=
  let iHash := walFramePage iFrame in
  match walHashGet w iHash with
  | Throw rc => (rc, w)
  | Ok (_, iZero) =>
      let idx := iFrame - iZero in
      let w := if idx =? 1 then set_block w iHash (zero_block iHash) else w in
      let w := if negb (arr (aPgno (block w iHash)) (idx - 1) =? 0) then walCleanupHash w else w in
      let sLoc := block w iHash in
      match append_slot (Z.to_nat idx) (aHash sLoc) (walHash iPage) with
      | None => (SQLITE_CORRUPT, w)
      | Some iKey =>
          (SQLITE_OK, set_block w iHash {| aPgno := set_arr (aPgno sLoc) (idx - 1) iPage;
                                           aHash := set_arr (aHash sLoc) iKey (u16 idx) |})
      end
  end.

(** The loop over the slots of one table; [None] is [SQLITE_CORRUPT_BKPT]. *)
Fixpoint find_loop (nCollide : nat) (sLoc : WalBlock) (iZero iLast minFrame pgno iKey iRead : Z) : option Z :=
  let iH := arr (aHash sLoc) iKey in
  if iH =? 0 then Some iRead
  else
    let iFrame := u32 (iH + iZero) in
    let iRead := if (iFrame <=? iLast) && (minFrame <=? iFrame) && (arr (aPgno sLoc) (iH - 1) =? pgno)
                 then iFrame else iRead in
    match nCollide with
    | O => None
    | S nCollide => find_loop nCollide sLoc iZero iLast minFrame pgno (walNextHash iKey) iRead
    end.

(** The loop over the tables, [n] of them from [iHash] down. *)
Fixpoint find_blocks (n : nat) (w : Wal) (iHash iLast pgno : Z) : res Z Z :=
  match n with
  | O => Ok 0
  | S n =>
      match walHashGet w iHash with
      | Throw rc => Throw rc
      | Ok (sLoc, iZero) =>
          match find_loop (Z.to_nat HASHTABLE_NSLOT) sLoc iZero iLast (minFrame w) pgno (walHash pgno) 0 with
          | None => Throw SQLITE_CORRUPT
          | Some iRead => if negb (iRead =? 0) then Ok iRead else find_blocks n w (iHash - 1) iLast pgno
          end
      end
  end.

(** The frame of the page, 0 if it is not in the log. *)
Definition sqlite3WalFindFrame (w : Wal) (pgno : Z) : res Z Z :=
  let iLast := mxFrame w in
  if (iLast =? 0) || ((readLock w =? 0) && negb (bShmUnreliable w)) then Ok 0
  else
    let iMinHash := walFramePage (minFrame w) in
    find_blocks (Z.to_nat (walFramePage iLast - iMinHash + 1)) w (walFramePage iLast) iLast pgno.

(** The loops of [sqlite3WalFrames] that append the pages just written (with
    [PGHDR_WAL_APPEND]) to the index. *)
Fixpoint append_loop (w : Wal) (iFrame : Z) (pages : list Z) : Z * Z * Wal :=
  match pages with
  | [] => (SQLITE_OK, iFrame, w)
  | p :: pages =>
      let '(rc, w) := walIndexAppend w (iFrame + 1) p in
      if rc =? SQLITE_OK then append_loop w (iFrame + 1) pages else (rc, iFrame + 1, w)
  end.

Definition WalFrames_index (w : Wal) (pages : list Z) : Z * Wal :=
  let '(rc, iFrame, w) := append_loop w (mxFrame w) pages in
  if rc =? SQLITE_OK then (rc, set_mxFrame w iFrame) else (rc, w).

(** [sqlite3WalUndo]: back to the frames of the last commit, [live]. *)
Definition WalUndo_index (w : Wal) (live : Z) : Wal :=
  let iMax := mxFrame w in
  let w := set_mxFrame w live in
  if negb (iMax =? live) then walCleanupHash w else w.

(** [sqlite3WalSavepointUndo]: [saved] and [savedCkpt] are [aWalData[0]] and
    [aWalData[3]]; a log that was restarted since is rolled back to its start. *)
Definition WalSavepointUndo_index (w : Wal) (nCkpt saved savedCkpt : Z) : Wal :=
  let saved := if negb (savedCkpt =? nCkpt) then 0 else saved in
  if saved <? mxFrame w then walCleanupHash (set_mxFrame w saved) else w.
End WalIndex.

(** ** Probing *)

(** The slot at distance [d] from the hash of a page number. *)
Definition key (p : Z) (d : nat) : Z := (walHash p + Z.of_nat d) mod HASHTABLE_NSLOT.

Lemma walHash_range p : 0 <= walHash p < HASHTABLE_NSLOT.
Proof.
  unfold walHash. change (HASHTABLE_NSLOT - 1) with (Z.ones 13). rewrite Z.land_ones by lia.
  change HASHTABLE_NSLOT with (2 ^ 13). by apply Z.mod_pos_bound.
Qed.

Lemma key_range p d : 0 <= key p d < HASHTABLE_NSLOT.
Proof. unfold key. by apply Z.mod_pos_bound. Qed.

Lemma key_0 p : key p 0 = walHash p.
Proof. unfold key. rewrite Z.add_0_r. apply Z.mod_small, walHash_range. Qed.

Lemma walNextHash_key p d : walNextHash (key p d) = key p (S d).
Proof.
  unfold walNextHash, key. change (HASHTABLE_NSLOT - 1) with (Z.ones 13). rewrite Z.land_ones by lia.
  change (2 ^ 13) with HASHTABLE_NSLOT. rewrite Zplus_mod_idemp_l. f_equal. lia.
Qed.

Lemma key_inj p d d' : (d < Z.to_nat HASHTABLE_NSLOT)%nat -> (d' < Z.to_nat HASHTABLE_NSLOT)%nat ->
  key p d = key p d' -> d = d'.
Proof.
  unfold key, HASHTABLE_NSLOT. intros. pose proof (walHash_range p) as W. unfold HASHTABLE_NSLOT in W.
  Z.to_euclidean_division_equations. lia.
Qed.

Lemma arr_set_eq l i v : 0 <= i < Z.of_nat (length l) -> arr (set_arr l i v) i = v.
Proof.
  intros H. unfold arr, set_arr. rewrite nth_lookup, list_lookup_insert_eq by lia. done.
Qed.

Lemma arr_set_ne l i j v : 0 <= i -> 0 <= j -> i <> j -> arr (set_arr l i v) j = arr l j.
Proof. intros. unfold arr, set_arr. rewrite !nth_lookup, list_lookup_insert_ne by lia. done. Qed.

(** The table of a block with the entries [l]: entry [j] is found from the hash of
    its page over entries before it. *)
Record hash_ok (h : list Z) (l : list Z) : Prop := {
  ho_range : forall k, 0 <= arr h k <= Z.of_nat (length l);
  ho_inj : forall k k', 0 <= k < HASHTABLE_NSLOT -> 0 <= k' < HASHTABLE_NSLOT ->
    arr h k = arr h k' -> arr h k <> 0 -> k = k';
  ho_found : forall i p, l !! i = Some p -> exists d, (d < Z.to_nat HASHTABLE_NSLOT)%nat /\
    arr h (key p d) = Z.of_nat (S i) /\ forall d', (d' < d)%nat -> 0 < arr h (key p d') < Z.of_nat (S i);
}.

(** Fewer entries than slots: a free slot comes after at most [length l] others. *)
Lemma free_distance h l p : hash_ok h l -> (length l < Z.to_nat HASHTABLE_NSLOT)%nat ->
  exists d, (d <= length l)%nat /\ arr h (key p d) = 0 /\ forall d', (d' < d)%nat -> arr h (key p d') <> 0.
Proof.
  intros H Hl.
  assert (exists d, (d <= length l)%nat /\ arr h (key p d) = 0) as (d & Hd & Ed).
  { destruct (decide (Exists (fun d => arr h (key p d) = 0) (seq 0 (S (length l))))) as [E|E].
    { apply Exists_exists in E as (d & Hd & ?). apply elem_of_seq in Hd. exists d. split; [lia|done]. }
    exfalso. apply not_Exists_Forall in E; [|intros ?; apply _]. rewrite Forall_forall in E.
    assert (forall d, (d <= length l)%nat -> arr h (key p d) <> 0) as N.
    { intros d Hd. apply (E d). apply elem_of_seq. lia. }
    assert (length (map (fun d => Z.to_nat (arr h (key p d))) (seq 0 (S (length l)))) <= length (seq 1 (length l)))%nat as L.
    { apply NoDup_incl_length.
      - apply NoDup_ListNoDup, NoDup_fmap_2_strong; [|apply NoDup_seq]. intros x y Hx Hy Exy.
        apply elem_of_seq in Hx, Hy. pose proof (ho_range _ _ H (key p x)). pose proof (ho_range _ _ H (key p y)).
        apply (key_inj p); [lia|lia|]. apply (ho_inj _ _ H); [apply key_range|apply key_range|lia|apply N; lia].
      - intros v Hv. apply in_map_iff in Hv as (d & <- & Hd). apply in_seq in Hd. apply in_seq.
        pose proof (ho_range _ _ H (key p d)). specialize (N d ltac:(lia)). lia. }
    rewrite length_map, !length_seq in L. lia. }
  revert Ed Hd. induction d as [d IH] using lt_wf_ind. intros Ed Hd.
  destruct (decide (Exists (fun d' => arr h (key p d') = 0) (seq 0 d))) as [E|E].
  - apply Exists_exists in E as (d' & Hd' & E'). apply elem_of_seq in Hd'. apply (IH d'); (done || lia).
  - exists d. split; [done|]. split; [done|]. intros d' Hd'. apply not_Exists_Forall in E; [|intros ?; apply _].
    rewrite Forall_forall in E. apply (E d'). apply elem_of_seq. lia.
Qed.

Lemma append_slot_spec h p d : arr h (key p d) = 0 -> (forall d', (d' < d)%nat -> arr h (key p d') <> 0) ->
  forall k n, (k <= d)%nat -> (d <= k + n)%nat -> append_slot n h (key p k) = Some (key p d).
Proof.
  intros Ed Hn k n. revert k. induction n as [|n IH]; intros k Hk Hd; cbn [append_slot].
  - assert (k = d) as -> by lia. by rewrite Ed.
  - destruct (decide (k = d)) as [->|]; [by rewrite Ed|].
    specialize (Hn k ltac:(lia)) as Nk. apply Z.eqb_neq in Nk. rewrite Nk, walNextHash_key. apply IH; lia.
Qed.

(** ** A block *)

Record block_ok (b : WalBlock) (size : nat) (l : list Z) : Prop := {
  bo_pgno : aPgno b = l ++ replicate (size - length l) 0;
  bo_size : (length l <= size <= Z.to_nat HASHTABLE_NPAGE)%nat;
  bo_pages : Forall (fun p => 0 < p < 2 ^ 32) l;
  bo_slots : length (aHash b) = Z.to_nat HASHTABLE_NSLOT;
  bo_hash : hash_ok (aHash b) l;
}.

Lemma hash_ok_zero : hash_ok (replicate (Z.to_nat HASHTABLE_NSLOT) 0) [].
Proof.
  assert (forall k, arr (replicate (Z.to_nat HASHTABLE_NSLOT) 0) k = 0) as Z0.
  { intros k. unfold arr. rewrite nth_lookup. destruct (_ !! _) eqn:E; [|done]. by apply lookup_replicate_1 in E as [-> _]. }
  split.
  - intros k. rewrite Z0. cbn. lia.
  - intros k k' _ _ _ N. by rewrite Z0 in N.
  - intros i p E. done.
Qed.

Lemma zero_block_ok iHash : block_ok (zero_block iHash) (Z.to_nat (block_size iHash)) [].
Proof.
  split; cbn [zero_block aPgno aHash length app].
  - by rewrite Nat.sub_0_r.
  - unfold block_size. change HASHTABLE_NPAGE_ONE with 4062. change HASHTABLE_NPAGE with 4096. case_match; lia.
  - constructor.
  - by rewrite length_replicate.
  - apply hash_ok_zero.
Qed.

Lemma hash_ok_append h l p d : hash_ok h l -> length h = Z.to_nat HASHTABLE_NSLOT ->
  (d <= length l < Z.to_nat HASHTABLE_NSLOT)%nat ->
  arr h (key p d) = 0 -> (forall d', (d' < d)%nat -> arr h (key p d') <> 0) ->
  hash_ok (set_arr h (key p d) (Z.of_nat (S (length l)))) (l ++ [p]).
Proof.
  intros H Hh Hd Ed Hn. pose proof (key_range p d) as Kd.
  assert (arr (set_arr h (key p d) (Z.of_nat (S (length l)))) (key p d) = Z.of_nat (S (length l))) as Enew
    by (apply arr_set_eq; lia).
  assert (forall k, 0 <= k -> k <> key p d -> arr (set_arr h (key p d) (Z.of_nat (S (length l)))) k = arr h k) as Eold
    by (intros; apply arr_set_ne; lia).
  set (h' := set_arr h (key p d) _) in *. split.
  - intros k. rewrite length_app. cbn [length]. destruct (decide (Z.to_nat k = Z.to_nat (key p d))) as [E|E].
    + assert (arr h' k = arr h' (key p d)) as -> by (unfold arr; by rewrite E). rewrite Enew. lia.
    + assert (arr h' k = arr h k) as -> by (unfold h', set_arr, arr; rewrite !nth_lookup, list_lookup_insert_ne by lia; done).
      pose proof (ho_range _ _ H k). lia.
  - intros k k' Hk Hk' E N. destruct (decide (k = key p d)) as [->|Nk], (decide (k' = key p d)) as [->|Nk']; [done|..].
    + rewrite Enew, Eold in E by lia. pose proof (ho_range _ _ H k'). lia.
    + rewrite Enew, Eold in E by lia. pose proof (ho_range _ _ H k). lia.
    + rewrite !Eold in * by lia. by apply (ho_inj _ _ H).
  - intros i q Hi. apply lookup_app_Some in Hi as [Hi|[Hge Hi]].
    + destruct (ho_found _ _ H i q Hi) as (e & He & Ee & Be). exists e.
      assert (forall d', (d' <= e)%nat -> arr h' (key q d') = arr h (key q d')) as Same.
      { intros d' Hd'. apply Eold; [apply key_range|]. intros E. rewrite <- E in Ed.
        destruct (decide (d' = e)) as [->|]; [lia|]. specialize (Be d' ltac:(lia)). lia. }
      rewrite Same by lia. split; [done|]. split; [done|]. intros d' Hd'. rewrite Same by lia. by apply Be.
    + destruct (i - length l)%nat eqn:Ei; [|done]. injection Hi as <-. assert (i = length l) as -> by lia.
      exists d. split; [lia|]. split; [done|]. intros d' Hd'.
      assert (key p d' <> key p d) by (intros E; apply key_inj in E; lia).
      rewrite Eold by (apply key_range || done). pose proof (ho_range _ _ H (key p d')). specialize (Hn d' Hd'). lia.
Qed.

Lemma block_append b size l p : block_ok b size l -> (length l < size)%nat -> 0 < p < 2 ^ 32 ->
  exists iKey, append_slot (Z.to_nat (Z.of_nat (S (length l)))) (aHash b) (walHash p) = Some iKey /\
  block_ok {| aPgno := set_arr (aPgno b) (Z.of_nat (length l)) p; aHash := set_arr (aHash b) iKey (Z.of_nat (S (length l))) |}
    size (l ++ [p]).
Proof.
  intros [Hp Hs Hf Hh Hok] Hl Hpp.
  assert (length l < Z.to_nat HASHTABLE_NSLOT)%nat by (unfold HASHTABLE_NSLOT, HASHTABLE_NPAGE in *; lia).
  destruct (free_distance _ _ p Hok) as (d & Hd & Ed & Hn); [done|]. exists (key p d). split.
  - rewrite <- key_0. apply append_slot_spec; (done || lia).
  - split; cbn [aPgno aHash].
    + rewrite Hp. unfold set_arr. rewrite Nat2Z.id, insert_app_r_alt by lia. rewrite Nat.sub_diag, length_app.
      rewrite <- app_assoc. f_equal. destruct (size - length l)%nat as [|n] eqn:En; [lia|]. cbn [replicate length].
      replace (size - (length l + 1))%nat with n by lia. done.
    + rewrite length_app. cbn [length]. lia.
    + apply Forall_app. split; [done|]. by constructor.
    + unfold set_arr. by rewrite length_insert.
    + apply hash_ok_append; (done || lia).
Qed.

Lemma arr_map f l k : f 0 = 0 -> arr (map f l) k = f (arr l k).
Proof. intros H. unfold arr. rewrite <- H at 1. apply map_nth. Qed.

Lemma hash_ok_cleanup h l extra : hash_ok h (l ++ extra) ->
  hash_ok (map (fun v => if Z.of_nat (length l) <? v then 0 else v) h) l.
Proof.
  intros H. assert (forall k, arr (map (fun v => if Z.of_nat (length l) <? v then 0 else v) h) k =
    if Z.of_nat (length l) <? arr h k then 0 else arr h k) as E.
  { intros k. rewrite arr_map; [done|]. by case_match. }
  split.
  - intros k. rewrite E. pose proof (ho_range _ _ H k). case_match; lia.
  - intros k k' Hk Hk'. rewrite !E. intros E' N. apply (ho_inj _ _ H); repeat case_match; lia.
  - intros i p Hi. destruct (ho_found _ _ H i p) as (d & Hd & Ed & Bd); [by apply lookup_app_l_Some|].
    apply lookup_lt_Some in Hi. exists d. rewrite E, Ed. split; [done|]. split; [case_match; lia|].
    intros d' Hd'. rewrite E. specialize (Bd d' Hd'). case_match; lia.
Qed.

Lemma block_cleanup b size l extra : block_ok b size (l ++ extra) ->
  block_ok {| aPgno := take (length l) (aPgno b) ++ replicate (length (aPgno b) - length l) 0;
              aHash := map (fun v => if Z.of_nat (length l) <? v then 0 else v) (aHash b) |} size l.
Proof.
  intros [Hp Hs Hf Hh Hok]. rewrite length_app in *. split; cbn [aPgno aHash].
  - rewrite Hp, <- app_assoc, take_app_length. f_equal. f_equal. rewrite !length_app, length_replicate. lia.
  - lia.
  - by apply Forall_app in Hf as [? _].
  - by rewrite length_map.
  - by eapply hash_ok_cleanup.
Qed.

Section FindLoop.
Context (b : WalBlock) (size : nat) (l : list Z) (Hb : block_ok b size l).
Context (iZero iLast mnFrame pgno : Z).

(** The entries of the block a reader wants. *)
Definition wanted (i : nat) : Prop :=
  l !! i = Some pgno /\ mnFrame <= iZero + Z.of_nat (S i) <= iLast.

(** After the slots before distance [k]. *)
Definition best (k : nat) (iRead : Z) : Prop :=
  (iRead = 0 /\ forall d i, (d < k)%nat -> arr (aHash b) (key pgno d) = Z.of_nat (S i) -> ~ wanted i) \/
  (exists i, wanted i /\ iRead = iZero + Z.of_nat (S i) /\
     forall d i', (d < k)%nat -> arr (aHash b) (key pgno d) = Z.of_nat (S i') -> wanted i' -> (i' <= i)%nat).

Lemma best_step k iRead i : (k < Z.to_nat HASHTABLE_NSLOT)%nat -> 0 <= iZero -> iZero + Z.of_nat size < 2 ^ 32 ->
  arr (aHash b) (key pgno k) = Z.of_nat (S i) -> best k iRead ->
  best (S k) (if (u32 (Z.of_nat (S i) + iZero) <=? iLast) && (mnFrame <=? u32 (Z.of_nat (S i) + iZero)) &&
    (arr (aPgno b) (Z.of_nat (S i) - 1) =? pgno) then u32 (Z.of_nat (S i) + iZero) else iRead).
Proof.
  intros Hk Hz Hzs Ek Hbest. pose proof (ho_range _ _ (bo_hash _ _ _ Hb) (key pgno k)) as R. rewrite Ek in R.
  pose proof (bo_size _ _ _ Hb) as Sz.
  rewrite wrapu_id by solve_width. assert (i < length l)%nat as Hi by lia.
  destruct (lookup_lt_is_Some_2 l i Hi) as [q Hq].
  assert (arr (aPgno b) (Z.of_nat (S i) - 1) = q) as ->.
  { unfold arr. replace (Z.to_nat (Z.of_nat (S i) - 1)) with i by lia. rewrite (bo_pgno _ _ _ Hb).
    rewrite nth_lookup, lookup_app_l by done. by rewrite Hq. }
  destruct ((Z.of_nat (S i) + iZero <=? iLast) && (mnFrame <=? Z.of_nat (S i) + iZero) && (q =? pgno)) eqn:C.
  - assert (q = pgno) as -> by lia. right. exists i. split; [split; [done|lia]|]. split; [lia|].
    intros d i' Hd Ed Hw. destruct (ho_found _ _ (bo_hash _ _ _ Hb) i pgno Hq) as (e & He & Ee & Be).
    assert (e = k) as -> by (apply (key_inj pgno); [done|done|]; apply (ho_inj _ _ (bo_hash _ _ _ Hb)); [apply key_range..|lia|lia]).
    destruct (decide (d = k)) as [->|]; [lia|]. specialize (Be d ltac:(lia)). lia.
  - assert (~ wanted i) as Nw by (intros [Hw ?]; rewrite Hq in Hw; simplify_eq; lia).
    destruct Hbest as [[-> Hb1]|(j & Hj & -> & Hb2)]; [left|right].
    + split; [done|]. intros d i' Hd Ed. destruct (decide (d = k)) as [->|]; [|apply (Hb1 d); (done || lia)].
      rewrite Ek in Ed. by replace i' with i by lia.
    + exists j. split; [done|]. split; [done|]. intros d i' Hd Ed Hw.
      destruct (decide (d = k)) as [->|]; [|apply (Hb2 d); (done || lia)].
      rewrite Ek in Ed. replace i' with i in Hw by lia. done.
Qed.

Lemma find_loop_steps d0 : arr (aHash b) (key pgno d0) = 0 -> (d0 < Z.to_nat HASHTABLE_NSLOT)%nat ->
  (forall d, (d < d0)%nat -> arr (aHash b) (key pgno d) <> 0) ->
  0 <= iZero -> iZero + Z.of_nat size < 2 ^ 32 ->
  forall n k iRead, (k <= d0)%nat -> (d0 <= k + n)%nat -> best k iRead ->
  exists r, find_loop n b iZero iLast mnFrame pgno (key pgno k) iRead = Some r /\ best d0 r.
Proof.
  intros E0 H0 Hn Hz Hzs. induction n as [|n IH]; intros k iRead Hk Hd Hbest; cbn [find_loop].
  - assert (k = d0) as -> by lia. rewrite E0. eauto.
  - destruct (decide (k = d0)) as [->|]; [rewrite E0; eauto|].
    specialize (Hn k ltac:(lia)) as Nk. pose proof (ho_range _ _ (bo_hash _ _ _ Hb) (key pgno k)) as R.
    replace (arr (aHash b) (key pgno k) =? 0) with false by lia.
    destruct (Z.to_nat (arr (aHash b) (key pgno k))) as [|i] eqn:Ei; [lia|].
    assert (arr (aHash b) (key pgno k) = Z.of_nat (S i)) as Ek by lia. rewrite Ek, walNextHash_key.
    apply IH; [lia|lia|]. apply best_step; (done || lia).
Qed.

Lemma wal_find_loop_spec : 0 <= iZero -> iZero + Z.of_nat size < 2 ^ 32 ->
  exists r, find_loop (Z.to_nat HASHTABLE_NSLOT) b iZero iLast mnFrame pgno (walHash pgno) 0 = Some r /\
    ((r = 0 /\ forall i, ~ wanted i) \/
     (exists i, wanted i /\ r = iZero + Z.of_nat (S i) /\ forall i', wanted i' -> (i' <= i)%nat)).
Proof.
  intros Hz Hzs. pose proof (bo_size _ _ _ Hb) as Sz. pose proof (bo_hash _ _ _ Hb) as Hh.
  assert (length l < Z.to_nat HASHTABLE_NSLOT)%nat by (unfold HASHTABLE_NSLOT, HASHTABLE_NPAGE in *; lia).
  destruct (free_distance _ _ pgno Hh) as (d0 & Hd0 & E0 & N0); [done|].
  destruct (find_loop_steps d0 E0 ltac:(lia) N0 Hz Hzs (Z.to_nat HASHTABLE_NSLOT) 0 0) as (r & Hr & Hbest); [lia|lia| |].
  { left. split; [done|]. intros d i Hd. lia. }
  rewrite key_0 in Hr. exists r. split; [done|].
  assert (forall i, wanted i -> exists d, (d < d0)%nat /\ arr (aHash b) (key pgno d) = Z.of_nat (S i)) as F.
  { intros i [Hi _]. destruct (ho_found _ _ Hh i pgno Hi) as (e & He & Ee & Be). exists e. split; [|done].
    destruct (decide (e < d0)%nat); [done|]. destruct (decide (e = d0)) as [->|]; [lia|].
    specialize (Be d0 ltac:(lia)). lia. }
  destruct Hbest as [[-> Hn]|(i & Hw & -> & Hm)]; [left|right].
  - split; [done|]. intros i Hw. destruct (F i Hw) as (d & Hd & Ed). by apply (Hn d i).
  - exists i. split; [done|]. split; [done|]. intros i' Hw'. destruct (F i' Hw') as (d & Hd & Ed). by apply (Hm d i').
Qed.
End FindLoop.

(** ** The index as a list of page numbers *)

(** The frames of a block: [first_frame iHash] is [iZero]. *)
Definition first_frame (iHash : Z) : Z :=
  if iHash =? 0 then 0 else HASHTABLE_NPAGE_ONE + (iHash - 1) * HASHTABLE_NPAGE.
Definition segment (pgs : list Z) (iHash : Z) : list Z :=
  take (Z.to_nat (block_size iHash)) (drop (Z.to_nat (first_frame iHash)) pgs).

(** The frames stay well below the 32-bit range. *)
Definition max_frames : Z := 2 ^ 31.
Definition pages_ok (pgs : list Z) : Prop :=
  Forall (fun p => 0 < p < 2 ^ 32) pgs /\ Z.of_nat (length pgs) < max_frames.

Ltac sizes := unfold first_frame, block_size in *; change HASHTABLE_NPAGE_ONE with 4062 in *;
  change HASHTABLE_NPAGE with 4096 in *; change HASHTABLE_NSLOT with 8192 in *; unfold max_frames in *.

Lemma frame_block f : 1 <= f <= max_frames -> 0 <= walFramePage f /\
  first_frame (walFramePage f) < f <= first_frame (walFramePage f) + block_size (walFramePage f).
Proof.
  intros H. unfold walFramePage. rewrite wrapu_id by (sizes; solve_width). sizes.
  set (q := (f + 4096 - 4062 - 1) / 4096). assert (q * 4096 <= f + 33 < q * 4096 + 4096) by (unfold q; Z.to_euclidean_division_equations; lia).
  destruct (Z.eqb_spec q 0); lia.
Qed.

Lemma block_unique f b : 1 <= f <= max_frames -> 0 <= b -> first_frame b < f <= first_frame b + block_size b ->
  b = walFramePage f.
Proof. intros H Hb Hf. destruct (frame_block f H) as [Hq Fq]. sizes. repeat case_match; lia. Qed.

Lemma block_chain b : 1 <= b -> first_frame b = first_frame (b - 1) + block_size (b - 1).
Proof. intros H. sizes. repeat case_match; lia. Qed.

Lemma block_size_pos b : 0 < block_size b <= 4096.
Proof. sizes. case_match; lia. Qed.

Lemma first_frame_nonneg b : 0 <= b -> 0 <= first_frame b.
Proof. sizes. case_match; lia. Qed.

Lemma segment_lookup pgs b i : (i < Z.to_nat (block_size b))%nat ->
  segment pgs b !! i = pgs !! (Z.to_nat (first_frame b) + i)%nat.
Proof. intros H. unfold segment. rewrite lookup_take_lt by done. apply lookup_drop. Qed.

Lemma length_segment pgs b : length (segment pgs b) =
  Nat.min (Z.to_nat (block_size b)) (length pgs - Z.to_nat (first_frame b)).
Proof. unfold segment. by rewrite length_take, length_drop. Qed.

Lemma segment_app pgs q b : segment (pgs ++ q) b = segment pgs b ++
  take (Z.to_nat (block_size b) - length (segment pgs b)) (drop (Z.to_nat (first_frame b) - length pgs) q).
Proof.
  unfold segment. rewrite drop_app, take_app, length_take, length_drop. f_equal. f_equal. lia.
Qed.

Section Index.
Context (shmMap : Z -> Z).

(** Every block with frames holds them, mapped; entries of an abandoned
    transaction may follow them.  A block without frames holds anything. *)
Definition index_ok (w : Wal) (pgs : list Z) : Prop :=
  forall b, 0 <= b -> segment pgs b <> [] -> shmMap b = SQLITE_OK /\
    exists extra, block_ok (block w b) (Z.to_nat (block_size b)) (segment pgs b ++ extra).
Definition index_clean (w : Wal) (pgs : list Z) : Prop :=
  forall b, 0 <= b -> segment pgs b <> [] -> shmMap b = SQLITE_OK /\
    block_ok (block w b) (Z.to_nat (block_size b)) (segment pgs b).

Lemma index_clean_ok w pgs : index_clean w pgs -> index_ok w pgs.
Proof. intros H b Hb Hs. destruct (H b Hb Hs) as [? ?]. split; [done|]. exists []. by rewrite app_nil_r. Qed.

Lemma index_ok_prefix w pgs q : index_ok w (pgs ++ q) -> index_ok w pgs.
Proof.
  intros H b Hb Hs. destruct (H b Hb) as [Hm [extra Hx]].
  { rewrite segment_app. by destruct (segment pgs b). }
  split; [done|]. rewrite segment_app, <- app_assoc in Hx. eauto.
Qed.

Lemma index_ok_nil w : index_ok w [].
Proof. intros b Hb Hs. unfold segment in Hs. by rewrite drop_nil, take_nil in Hs. Qed.

Lemma block_set w b b' x : block (set_block w b x) b' = if decide (b' = b) then x else block w b'.
Proof.
  unfold block, set_block. cbn [apWiData]. destruct (decide (b' = b)) as [->|].
  - by rewrite lookup_insert_eq.
  - by rewrite lookup_insert_ne by done.
Qed.

(** A full block has no abandoned entries. *)
Lemma block_ok_full b size l extra : block_ok b size (l ++ extra) -> length l = size -> block_ok b size l.
Proof.
  intros H Hl. destruct extra as [|x extra]; [by rewrite app_nil_r in H|].
  pose proof (bo_size _ _ _ H) as S. rewrite length_app in S. cbn [length] in S. lia.
Qed.

(** No abandoned entries when the next place is empty. *)
Lemma block_ok_no_extra b size l extra : block_ok b size (l ++ extra) -> arr (aPgno b) (Z.of_nat (length l)) = 0 ->
  block_ok b size l.
Proof.
  intros H E. destruct extra as [|x extra]; [by rewrite app_nil_r in H|]. exfalso.
  pose proof (bo_pages _ _ _ H) as F. apply Forall_app in F as [_ F]. apply Forall_cons_1 in F as [F _].
  rewrite (bo_pgno _ _ _ H) in E. unfold arr in E. rewrite Nat2Z.id, <- app_assoc, nth_lookup in E.
  rewrite lookup_app_r, Nat.sub_diag in E by lia. cbn in E. lia.
Qed.

Lemma cleanup_block w b iLimit : walFramePage (mxFrame w) = b -> mxFrame w <> 0 -> shmMap b = SQLITE_OK ->
  mxFrame w = first_frame b + Z.of_nat iLimit ->
  walCleanupHash shmMap w = set_block w b
    {| aPgno := take iLimit (aPgno (block w b)) ++ replicate (length (aPgno (block w b)) - iLimit) 0;
       aHash := map (fun v => if Z.of_nat iLimit <? v then 0 else v) (aHash (block w b)) |}.
Proof.
  intros Hb Hm Hs Hf. unfold walCleanupHash, walHashGet. rewrite Hb, Hs.
  change (negb (SQLITE_OK =? SQLITE_OK)) with false. cbv iota. fold (first_frame b).
  replace (mxFrame w =? 0) with false by lia.
  replace (mxFrame w - first_frame b) with (Z.of_nat iLimit) by lia. by rewrite Nat2Z.id.
Qed.

Lemma block_ok_next_zero b size l : block_ok b size l -> arr (aPgno b) (Z.of_nat (length l)) = 0.
Proof.
  intros H. unfold arr. rewrite (bo_pgno _ _ _ H), Nat2Z.id, nth_lookup, lookup_app_r, Nat.sub_diag by lia.
  by destruct (size - length l)%nat.
Qed.

Lemma segment_other pgs p b : 0 <= b -> Z.of_nat (length pgs) + 1 <= max_frames ->
  b <> walFramePage (Z.of_nat (length pgs) + 1) -> segment (pgs ++ [p]) b = segment pgs b.
Proof.
  intros Hb Hl Hne. rewrite segment_app, length_segment. pose proof (block_size_pos b). pose proof (first_frame_nonneg b Hb).
  destruct (decide (first_frame b <= Z.of_nat (length pgs))) as [Hf|Hf].
  - assert (first_frame b + block_size b <= Z.of_nat (length pgs)) as Hfull.
    { destruct (decide (first_frame b + block_size b <= Z.of_nat (length pgs))); [done|]. exfalso. apply Hne, block_unique; lia. }
    replace (Z.to_nat (block_size b) - _)%nat with 0%nat by lia. by rewrite take_0, app_nil_r.
  - rewrite (drop_ge [p]) by (cbn; lia). by rewrite take_nil, app_nil_r.
Qed.

Lemma segment_last pgs p : Z.of_nat (length pgs) + 1 <= max_frames ->
  let b := walFramePage (Z.of_nat (length pgs) + 1) in
  segment (pgs ++ [p]) b = segment pgs b ++ [p] /\ Z.of_nat (length (segment pgs b)) = Z.of_nat (length pgs) - first_frame b.
Proof.
  intros Hl b. destruct (frame_block (Z.of_nat (length pgs) + 1)) as [Hb Hf]; [lia|]. fold b in Hb, Hf.
  pose proof (block_size_pos b). pose proof (first_frame_nonneg b Hb). rewrite segment_app, length_segment. split; [|lia].
  f_equal. replace (Z.to_nat (first_frame b) - length pgs)%nat with 0%nat by lia. rewrite drop_0.
  destruct (Z.to_nat (block_size b) - _)%nat eqn:E; [lia|]. by destruct n.
Qed.

(** A block with frames other than the last one is full. *)
Lemma segment_full pgs b : 0 <= b -> Z.of_nat (length pgs) + 1 <= max_frames -> segment pgs b <> [] ->
  b <> walFramePage (Z.of_nat (length pgs) + 1) -> length (segment pgs b) = Z.to_nat (block_size b).
Proof.
  intros Hb Hl Hs Hne. pose proof (block_size_pos b). pose proof (first_frame_nonneg b Hb).
  assert (length (segment pgs b) <> 0)%nat as Hn by (by destruct (segment pgs b)). rewrite length_segment in *.
  destruct (decide (first_frame b + block_size b <= Z.of_nat (length pgs))); [lia|]. exfalso. apply Hne, block_unique; lia.
Qed.

Definition same_fields (w w' : Wal) : Prop :=
  mxFrame w' = mxFrame w /\ minFrame w' = minFrame w /\ readLock w' = readLock w /\ bShmUnreliable w' = bShmUnreliable w.

(** The block a frame goes to, zeroed or cleaned first. *)
Lemma append_prepare w pgs : index_ok w pgs -> Z.of_nat (length pgs) + 1 <= max_frames ->
  Z.of_nat (length pgs) = mxFrame w \/ index_clean w pgs ->
  let iFrame := Z.of_nat (length pgs) + 1 in let b := walFramePage iFrame in let idx := iFrame - first_frame b in
  shmMap b = SQLITE_OK ->
  let w1 := if idx =? 1 then set_block w b (zero_block b) else w in
  let w2 := if negb (arr (aPgno (block w1 b)) (idx - 1) =? 0) then walCleanupHash shmMap w1 else w1 in
  block_ok (block w2 b) (Z.to_nat (block_size b)) (segment pgs b) /\
  (forall b', b' <> b -> block w2 b' = block w b') /\ same_fields w w2.
Proof.
  intros Hok Hl Hc iFrame b idx Hm w1. destruct (segment_last pgs 0 Hl) as [_ Hn]. fold iFrame b in Hn.
  destruct (frame_block iFrame) as [Hb Hf]; [lia|]. fold b in Hb, Hf.
  destruct (decide (segment pgs b = [])) as [Es|Ns].
  - rewrite Es in *. cbn [length] in Hn. assert (idx = 1) as Hi by lia. unfold w1. rewrite Hi. change (1 =? 1) with true.
    cbv iota zeta. rewrite !block_set, !decide_True by done.
    assert (arr (aPgno (zero_block b)) (1 - 1) = 0) as ->.
    { unfold arr. cbn [zero_block aPgno]. rewrite nth_lookup. destruct (_ !! _) eqn:E; [|done]. by apply lookup_replicate_1 in E as [-> _]. }
    change (negb (0 =? 0)) with false. cbv iota. rewrite block_set, decide_True by done. split; [apply zero_block_ok|].
    split; [|by repeat split]. intros b' Hb'. by rewrite block_set, decide_False.
  - assert (length (segment pgs b) <> 0)%nat by (by destruct (segment pgs b)).
    unfold w1. replace (idx =? 1) with false by lia. cbv iota zeta. replace (idx - 1) with (Z.of_nat (length (segment pgs b))) by lia.
    destruct (Hok b Hb Ns) as [_ [extra Hx]].
    destruct (Z.eqb_spec (arr (aPgno (block w b)) (Z.of_nat (length (segment pgs b)))) 0) as [E0|N0]; cbn [negb].
    + split; [by eapply block_ok_no_extra|]. by repeat split.
    + destruct Hc as [Hc|Hc]; [|destruct (Hc b Hb Ns) as [_ Hc']; by apply block_ok_next_zero in Hc'].
      pose proof (first_frame_nonneg b Hb). assert (walFramePage (mxFrame w) = b) as Hb2.
      { symmetry. apply block_unique; lia. }
      rewrite (cleanup_block w b (length (segment pgs b))) by (done || lia).
      rewrite block_set, decide_True by done. split; [by eapply block_cleanup|].
      split; [|by repeat split]. intros b' Hb'. by rewrite block_set, decide_False.
Qed.

Lemma append_spec w pgs p : index_ok w pgs -> pages_ok (pgs ++ [p]) ->
  Z.of_nat (length pgs) = mxFrame w \/ index_clean w pgs ->
  let iFrame := Z.of_nat (length pgs) + 1 in
  (exists w', walIndexAppend shmMap w iFrame p = (SQLITE_OK, w') /\ index_clean w' (pgs ++ [p]) /\ same_fields w w') \/
  (exists rc, walIndexAppend shmMap w iFrame p = (rc, w) /\ rc <> SQLITE_OK /\ shmMap (walFramePage iFrame) <> SQLITE_OK).
Proof.
  intros Hok [Hp Hl] Hc iFrame. rewrite length_app in Hl. cbn [length] in Hl.
  assert (Z.of_nat (length pgs) + 1 <= max_frames) as Hl' by lia.
  pose proof (append_prepare w pgs Hok Hl' Hc) as Prep. cbv zeta in Prep. fold iFrame in Prep.
  unfold walIndexAppend, walHashGet. set (b := walFramePage iFrame) in *.
  destruct (Z.eqb_spec (shmMap b) SQLITE_OK) as [Hm|Hm]; cbn [negb]; [left|right; eauto].
  specialize (Prep Hm). fold (first_frame b). set (idx := iFrame - first_frame b) in *.
  set (w1 := if idx =? 1 then set_block w b (zero_block b) else w) in *.
  set (w2 := if negb (arr (aPgno (block w1 b)) (idx - 1) =? 0) then walCleanupHash shmMap w1 else w1) in *.
  destruct Prep as (Hbl & Hother & Hsame). destruct (segment_last pgs p Hl') as [Es Hn]. fold iFrame b in Es, Hn.
  destruct (frame_block iFrame) as [Hb Hf]; [lia|]. fold b in Hb, Hf.
  assert (0 < p < 2 ^ 32) as Hpp by (apply Forall_app in Hp as [_ Hp]; by apply Forall_cons_1 in Hp as [? _]).
  destruct (block_append _ _ _ p Hbl) as (iKey & E & Hbl'); [lia|done|].
  replace (Z.of_nat (S (length (segment pgs b)))) with idx in * by lia. rewrite E.
  replace (Z.of_nat (length (segment pgs b))) with (idx - 1) in Hbl' by lia.
  pose proof (block_size_pos b). rewrite wrapu_id by solve_width.
  eexists. split; [reflexivity|]. split; [|exact Hsame].
  intros b' Hb' Hs'. rewrite block_set. destruct (decide (b' = b)) as [->|Hne]; [rewrite Es; auto|].
  rewrite segment_other in * by done. rewrite Hother by done.
  destruct (Hok b' Hb' Hs') as [Hm' [extra Hx]]. split; [done|]. eapply block_ok_full; [exact Hx|]. by apply segment_full.
Qed.

Lemma append_loop_spec pages : forall w pgs, index_ok w pgs -> pages_ok (pgs ++ pages) ->
  Z.of_nat (length pgs) = mxFrame w \/ index_clean w pgs ->
  exists rc w' n, append_loop shmMap w (Z.of_nat (length pgs)) pages = (rc, n, w') /\ same_fields w w' /\
    (rc = SQLITE_OK /\ index_ok w' (pgs ++ pages) /\ n = Z.of_nat (length (pgs ++ pages)) \/
     rc <> SQLITE_OK /\ index_ok w' pgs).
Proof.
  induction pages as [|p pages IH]; intros w pgs Hok Hp Hc; cbn [append_loop].
  { exists SQLITE_OK, w, (Z.of_nat (length pgs)). split; [done|]. split; [by repeat split|]. left. by rewrite app_nil_r. }
  assert (pages_ok (pgs ++ [p])) as Hp1.
  { destruct Hp as [Hf Hl]. rewrite cons_middle, app_assoc in Hf. apply Forall_app in Hf as [Hf _]. split; [done|].
    rewrite length_app in *. cbn [length] in *. lia. }
  destruct (append_spec w pgs p Hok Hp1 Hc) as [(w1 & -> & Hc1 & S1)|(rc & -> & Hrc & _)].
  - change (SQLITE_OK =? SQLITE_OK) with true. cbv iota.
    destruct (IH w1 (pgs ++ [p])) as (rc & w' & n & E & S2 & R); [by apply index_clean_ok|by rewrite <- app_assoc|by right|].
    rewrite length_app in E. cbn [length] in E. replace (Z.of_nat (length pgs + 1)) with (Z.of_nat (length pgs) + 1) in E by lia.
    rewrite E. exists rc, w', n. split; [done|]. split; [unfold same_fields in *; intuition congruence|].
    rewrite <- app_assoc in R. destruct R as [R|[Hrc R]]; [by left|right; split; [done|]]. by eapply index_ok_prefix.
  - replace (rc =? SQLITE_OK) with false by lia. exists rc, w, (Z.of_nat (length pgs) + 1). split; [done|]. split; [by repeat split|]. by right.
Qed.

(** ** Rollback *)

Lemma cleanup_spec w pgs : index_ok w pgs -> Z.of_nat (length pgs) = mxFrame w -> Z.of_nat (length pgs) < max_frames ->
  index_ok (walCleanupHash shmMap w) pgs /\ same_fields w (walCleanupHash shmMap w).
Proof.
  intros Hok Hm Hl. destruct (decide (mxFrame w = 0)) as [E|N].
  { unfold walCleanupHash. rewrite E. change (0 =? 0) with true. cbv iota. split; [done|by repeat split]. }
  destruct (frame_block (mxFrame w)) as [Hb Hf]; [lia|]. set (b := walFramePage (mxFrame w)) in *.
  pose proof (first_frame_nonneg b Hb).
  assert (Z.of_nat (length (segment pgs b)) = mxFrame w - first_frame b) as Hn by (rewrite length_segment; lia).
  assert (segment pgs b <> []) as Hs by (intros E; rewrite E in Hn; cbn in Hn; lia).
  destruct (Hok b Hb Hs) as [Hmap [extra Hx]].
  rewrite (cleanup_block w b (length (segment pgs b))) by (done || lia). split; [|by repeat split].
  intros b' Hb' Hs'. rewrite block_set. destruct (decide (b' = b)) as [->|]; [|by apply Hok].
  split; [done|]. exists []. rewrite app_nil_r. by eapply block_cleanup.
Qed.

Lemma index_ok_fields w w' pgs : apWiData w' = apWiData w -> index_ok w pgs -> index_ok w' pgs.
Proof. intros E H b Hb Hs. unfold block. rewrite E. by apply H. Qed.

Lemma take_index_ok w pgs n : index_ok w pgs -> index_ok w (take n pgs).
Proof. intros H. rewrite <- (take_drop n pgs) in H. by eapply index_ok_prefix. Qed.

(** ** Finding a frame *)

(** The page of frame [f]; frames are numbered from 1. *)
Definition frame (pgs : list Z) (f : Z) : option Z := pgs !! Z.to_nat (f - 1).

(** The last of the frames [lo] to [hi] that holds page [p], 0 if there is none. *)
Fixpoint last_frame (pgs : list Z) (p lo : Z) (hi : nat) : Z :=
  match hi with
  | O => 0
  | S k =>
      if Z.of_nat hi <? lo then 0
      else if bool_decide (frame pgs (Z.of_nat hi) = Some p) then Z.of_nat hi
      else last_frame pgs p lo k
  end.

Lemma last_frame_spec pgs p lo hi : 1 <= lo ->
  let r := last_frame pgs p lo hi in
  (r = 0 /\ forall f, lo <= f <= Z.of_nat hi -> frame pgs f <> Some p) \/
  (lo <= r <= Z.of_nat hi /\ frame pgs r = Some p /\ forall f, r < f <= Z.of_nat hi -> frame pgs f <> Some p).
Proof.
  intros Hlo. induction hi as [|k IH]; cbv zeta; cbn [last_frame].
  { left. split; [done|]. intros f Hf. cbn in Hf. lia. }
  cbv zeta in IH. destruct (Z.ltb_spec (Z.of_nat (S k)) lo) as [Hk|Hk]; [left; split; [done|]; intros; lia|].
  case_bool_decide as E.
  - right. split; [lia|]. split; [done|]. intros. lia.
  - destruct IH as [[-> IH]|(H1 & H2 & H3)]; [left|right].
    + split; [done|]. intros f Hf. destruct (decide (f = Z.of_nat (S k))) as [->|]; [done|]. apply IH. lia.
    + split; [lia|]. split; [done|]. intros f Hf. destruct (decide (f = Z.of_nat (S k))) as [->|]; [done|]. apply H3. lia.
Qed.

Lemma last_frame_unique pgs p lo hi r : 1 <= lo ->
  (r = 0 /\ forall f, lo <= f <= Z.of_nat hi -> frame pgs f <> Some p) \/
  (lo <= r <= Z.of_nat hi /\ frame pgs r = Some p /\ forall f, r < f <= Z.of_nat hi -> frame pgs f <> Some p) ->
  r = last_frame pgs p lo hi.
Proof.
  intros Hlo H. pose proof (last_frame_spec pgs p lo hi Hlo) as S. cbv zeta in S. set (q := last_frame pgs p lo hi) in *.
  destruct H as [[-> H]|(H1 & H2 & H3)], S as [[-> S]|(S1 & S2 & S3)]; [done| | |].
  - by destruct (H q S1).
  - by destruct (S r H1).
  - destruct (Z.lt_trichotomy r q) as [L|[?|L]]; [|done|].
    + by destruct (H3 q ltac:(lia)).
    + by destruct (S3 r ltac:(lia)).
Qed.

Lemma find_blocks_spec w pgs p hi : index_ok w pgs -> (hi <= length pgs)%nat -> Z.of_nat (length pgs) < max_frames ->
  1 <= minFrame w <= max_frames -> (1 <= hi)%nat ->
  forall n b, n = Z.to_nat (b - walFramePage (minFrame w) + 1) -> walFramePage (minFrame w) - 1 <= b ->
  b <= walFramePage (Z.of_nat hi) ->
  (forall f, first_frame b + block_size b < f <= Z.of_nat hi -> minFrame w <= f -> frame pgs f <> Some p) ->
  find_blocks shmMap n w b (Z.of_nat hi) p = Ok (last_frame pgs p (minFrame w) hi).
Proof.
  intros Hok Hhi Hmax Hmin Hhi1. destruct (frame_block (minFrame w) Hmin) as [Hmb Hmf].
  destruct (frame_block (Z.of_nat hi)) as [Hhb Hhf]; [lia|].
  induction n as [|n IH]; intros b Hn Hb1 Hb2 Hnone; cbn [find_blocks].
  { f_equal. apply last_frame_unique; [lia|]. left. split; [done|]. intros f Hf. apply Hnone; [|lia].
    assert (b = walFramePage (minFrame w) - 1) as -> by lia.
    destruct (decide (walFramePage (minFrame w) = 0)) as [E|]; [|rewrite <- block_chain by lia; lia].
    rewrite E in *. replace (first_frame (0 - 1) + block_size (0 - 1)) with (-34) by reflexivity. lia. }
  assert (0 <= b) as Hb by lia. pose proof (first_frame_nonneg b Hb). pose proof (block_size_pos b).
  assert (first_frame b < Z.of_nat hi) as Hfb.
  { destruct (decide (b = walFramePage (Z.of_nat hi))) as [->|]; [lia|].
    pose proof (block_chain (b + 1) ltac:(lia)) as C. replace (b + 1 - 1) with b in C by lia. clear - C Hhf Hb2 n0 Hhb Hb H0. sizes. repeat case_match; lia. }
  assert (segment pgs b <> []) as Hs.
  { intros E. apply (f_equal length) in E. rewrite length_segment in E. cbn in E. lia. }
  destruct (Hok b Hb Hs) as [Hmap [extra Hx]]. unfold walHashGet. rewrite Hmap.
  change (negb (SQLITE_OK =? SQLITE_OK)) with false. cbv iota. fold (first_frame b).
  assert (first_frame b + Z.of_nat (Z.to_nat (block_size b)) < 2 ^ 32) as Hr by (unfold max_frames in *; lia).
  destruct (wal_find_loop_spec _ _ _ Hx (first_frame b) (Z.of_nat hi) (minFrame w) p H Hr) as (r & -> & R).
  (* the entries wanted are the frames of this block *)
  assert (forall f, first_frame b < f <= first_frame b + block_size b -> minFrame w <= f <= Z.of_nat hi ->
    frame pgs f = Some p -> wanted (segment pgs b ++ extra) (first_frame b) (Z.of_nat hi) (minFrame w) p (Z.to_nat (f - 1 - first_frame b)))
    as Want.
  { intros f Hf1 Hf2 Ef. split; [|lia]. apply lookup_app_l_Some. rewrite segment_lookup by lia. unfold frame in Ef.
    rewrite <- Ef. f_equal. lia. }
  assert (forall i, wanted (segment pgs b ++ extra) (first_frame b) (Z.of_nat hi) (minFrame w) p i ->
    frame pgs (first_frame b + Z.of_nat (S i)) = Some p /\ first_frame b + Z.of_nat (S i) <= first_frame b + block_size b) as Conv.
  { intros i [Hi Hf]. pose proof (bo_size _ _ _ Hx) as Sz. apply lookup_lt_Some in Hi as Hi'.
    assert (i < length (segment pgs b))%nat as Hil by (rewrite length_segment; lia).
    rewrite lookup_app_l, segment_lookup in Hi by (done || lia). split; [|lia]. unfold frame. rewrite <- Hi. f_equal. lia. }
  destruct R as [[-> R]|(i & Hw & -> & Hmaxi)].
  - change (negb (0 =? 0)) with false. cbv iota. apply IH; [lia|lia|lia|]. intros f Hf Hmf' Ef.
    destruct (decide (f <= first_frame b + block_size b)) as [Hle|Hgt]; [|apply (Hnone f); (done || lia)].
    assert (first_frame b < f) as Hlt.
    { destruct (decide (b = 0)) as [->|]; [change (first_frame 0) with 0; lia|]. rewrite (block_chain b) by lia. lia. }
    apply (R (Z.to_nat (f - 1 - first_frame b))), Want; [lia|lia|exact Ef].
  - destruct (Conv i Hw) as [Ef Hle]. replace (first_frame b + Z.of_nat (S i) =? 0) with false by lia. cbn [negb].
    f_equal. apply last_frame_unique; [lia|]. right. split; [destruct Hw; lia|]. split; [done|]. intros f Hf Ef'.
    destruct (decide (f <= first_frame b + block_size b)) as [Hle'|]; [|apply (Hnone f); (done || destruct Hw; lia)].
    specialize (Hmaxi _ (Want f ltac:(lia) ltac:(destruct Hw; lia) Ef')). lia.
Qed.

Lemma find_frame_spec w pgs p hi : index_ok w pgs -> (hi <= length pgs)%nat -> Z.of_nat (length pgs) < max_frames ->
  mxFrame w = Z.of_nat hi -> 1 <= minFrame w <= max_frames -> readLock w <> 0 ->
  sqlite3WalFindFrame shmMap w p = Ok (last_frame pgs p (minFrame w) hi).
Proof.
  intros Hok Hhi Hmax Hm Hmin Hr. unfold sqlite3WalFindFrame. rewrite Hm.
  destruct hi as [|k]; [done|]. set (hi := S k) in *.
  replace (Z.of_nat hi =? 0) with false by lia. replace (readLock w =? 0) with false by lia. cbn [orb andb].
  destruct (decide (walFramePage (minFrame w) - 1 <= walFramePage (Z.of_nat hi))) as [Hle|Hgt].
  - eapply find_blocks_spec; try done; [lia|]. intros f Hf. destruct (frame_block (Z.of_nat hi)) as [_ ?]; lia.
  - replace (Z.to_nat _) with 0%nat by lia. cbn [find_blocks]. f_equal. apply last_frame_unique; [lia|]. left.
    split; [done|]. intros f Hf. exfalso. destruct (frame_block (minFrame w) Hmin) as [? ?], (frame_block (Z.of_nat hi)) as [? ?]; [lia|].
    clear - Hgt Hf H H0 H1 H2. sizes. repeat case_match; lia.
Qed.
End Index.

(** ** Properties *)

(** What writers do to the index: frames appended and then published, a rollback
    of the transaction or to a savepoint, a writer that dies after writing frames
    (the next one starts from the [live] header), a restart of the log. *)
Inductive index_op : Type :=
| Frames (pages : list Z)
| Undo (live : nat)
| SavepointUndo (nCkpt saved savedCkpt : Z)
| Abandon (live : nat)
| Restart.

Section Runs.
Context (shmMap : Z -> Z).

(** An operation on the index, and on the page numbers of the frames. *)
Definition run_op (s : Wal * list Z) (op : index_op) : Wal * list Z :=
  let '(w, pgs) := s in
  match op with
  | Frames pages =>
      let '(rc, w') := WalFrames_index shmMap w pages in (w', if rc =? SQLITE_OK then pgs ++ pages else pgs)
  | Undo live => (WalUndo_index shmMap w (Z.of_nat live), take live pgs)
  | SavepointUndo nCkpt saved savedCkpt =>
      (WalSavepointUndo_index shmMap w nCkpt saved savedCkpt,
       if savedCkpt =? nCkpt then take (Z.to_nat saved) pgs else [])
  | Abandon live => (set_mxFrame w (Z.of_nat live), take live pgs)
  | Restart => (set_mxFrame w 0, [])
  end.

Definition op_ok (pgs : list Z) (op : index_op) : Prop :=
  match op with
  | Frames pages => pages_ok (pgs ++ pages)
  | Undo live | Abandon live => (live <= length pgs)%nat
  | SavepointUndo nCkpt saved savedCkpt => 0 <= saved /\ (savedCkpt = nCkpt -> saved <= Z.of_nat (length pgs))
  | Restart => True
  end.

Inductive reachable : Wal * list Z -> Prop :=
| reach_init w : mxFrame w = 0 -> reachable (w, [])
| reach_op w pgs op : reachable (w, pgs) -> op_ok pgs op -> reachable (run_op (w, pgs) op).

Definition run_inv (s : Wal * list Z) : Prop :=
  index_ok shmMap (fst s) (snd s) /\ mxFrame (fst s) = Z.of_nat (length (snd s)) /\ pages_ok (snd s).

Lemma pages_ok_take n pgs : pages_ok pgs -> pages_ok (take n pgs).
Proof. intros [Hf Hl]. split; [by apply Forall_take|]. rewrite length_take. lia. Qed.

(** Moving [mxFrame] back, with and without the cleanup. *)
Lemma back_inv w pgs n : run_inv (w, pgs) -> (n <= length pgs)%nat ->
  run_inv (set_mxFrame w (Z.of_nat n), take n pgs) /\
  run_inv (walCleanupHash shmMap (set_mxFrame w (Z.of_nat n)), take n pgs).
Proof.
  intros (Hok & Hm & Hp) Hn. cbn [fst snd] in *.
  assert (index_ok shmMap (set_mxFrame w (Z.of_nat n)) (take n pgs)) as Hok'
    by (eapply index_ok_fields, take_index_ok, Hok; done).
  assert (Z.of_nat (length (take n pgs)) = mxFrame (set_mxFrame w (Z.of_nat n))) as El
    by (rewrite length_take; cbn [set_mxFrame mxFrame]; lia).
  pose proof (pages_ok_take n pgs Hp) as Hpt.
  split; [split; [done|split; [done|done]]|].
  destruct (cleanup_spec shmMap _ _ Hok' El (proj2 Hpt)) as [Hc (Hmx & _)].
  split; [done|]. split; [|done]. cbn [fst snd]. rewrite Hmx. done.
Qed.

Lemma run_op_inv w pgs op : run_inv (w, pgs) -> op_ok pgs op -> run_inv (run_op (w, pgs) op).
Proof.
  intros Hi Ho. pose proof Hi as (Hok & Hm & Hp). cbn [fst snd] in *. destruct op as [pages|live|nCkpt saved savedCkpt|live|]; cbn [run_op op_ok] in *.
  - unfold WalFrames_index. rewrite Hm.
    destruct (append_loop_spec shmMap pages w pgs Hok Ho) as (rc & w' & n & -> & (Hmx & _) & R); [by left|].
    destruct R as [(-> & R1 & ->)|[Hrc R1]].
    + change (SQLITE_OK =? SQLITE_OK) with true. cbv iota.
      split; [cbn [fst snd]; by eapply index_ok_fields|]. split; [done|exact Ho].
    + assert ((rc =? SQLITE_OK) = false) as E by lia. rewrite E. cbv iota beta. rewrite E.
      split; [done|]. split; [cbn [fst snd]; lia|done].
  - destruct (back_inv w pgs live Hi Ho) as [B1 B2]. unfold WalUndo_index. by destruct (negb _).
  - destruct Ho as [Hs Hc]. unfold WalSavepointUndo_index.
    assert (exists n, (n <= length pgs)%nat /\ (if negb (savedCkpt =? nCkpt) then 0 else saved) = Z.of_nat n /\
      (if savedCkpt =? nCkpt then take (Z.to_nat saved) pgs else []) = take n pgs) as (n & Hn & -> & ->).
    { destruct (Z.eqb_spec savedCkpt nCkpt) as [E|]; [exists (Z.to_nat saved)|by exists 0%nat; split; [lia|]].
      specialize (Hc E). split; [lia|]. split; [cbn [negb]; lia|done]. }
    destruct (back_inv w pgs n Hi Hn) as [_ B]. destruct (Z.ltb_spec (Z.of_nat n) (mxFrame w)); [done|].
    rewrite take_ge by lia. done.
  - by destruct (back_inv w pgs live Hi Ho).
  - split; [by apply index_ok_nil|]. split; [done|]. split; [constructor|done].
Qed.

Lemma wal_reachable_inv s : reachable s -> run_inv s.
Proof.
  induction 1 as [w Hm|w pgs op _ IH Ho]; [|by apply run_op_inv].
  split; [by apply index_ok_nil|]. split; [done|]. split; [constructor|done].
Qed.

Lemma frame_pgno_spec w pgs f : index_ok shmMap w pgs -> 1 <= f <= Z.of_nat (length pgs) -> Z.of_nat (length pgs) < max_frames ->
  frame pgs f = Some (walFramePgno w f).
Proof.
  intros Hok Hf Hl. destruct (frame_block f) as [Hb Hfb]; [lia|]. set (b := walFramePage f) in *.
  pose proof (first_frame_nonneg b Hb). pose proof (block_size_pos b).
  assert (segment pgs b <> []) as Hs.
  { intros E. apply (f_equal length) in E. rewrite length_segment in E. cbn in E. lia. }
  destruct (Hok b Hb Hs) as [_ [extra Hx]].
  assert (arr (aPgno (block w b)) (f - 1 - first_frame b) = walFramePgno w f) as <-.
  { unfold walFramePgno. fold b. destruct (Z.eqb_spec b 0) as [->|Hb0].
    - f_equal. change (first_frame 0) with 0. lia.
    - f_equal. sizes. destruct (Z.eqb_spec b 0); [done|]. Z.to_euclidean_division_equations. lia. }
  assert (Z.to_nat (f - 1 - first_frame b) < length (segment pgs b))%nat as Hi by (rewrite length_segment; lia).
  unfold arr. rewrite (bo_pgno _ _ _ Hx), <- app_assoc, nth_lookup, lookup_app_l, segment_lookup by (done || lia).
  unfold frame. replace (Z.to_nat (first_frame b) + Z.to_nat (f - 1 - first_frame b))%nat with (Z.to_nat (f - 1)) by lia.
  destruct (pgs !! Z.to_nat (f - 1)) eqn:E; [done|]. apply lookup_ge_None in E. lia.
Qed.

(** C13. The wal-index implements the list of the page numbers of the frames.  Start
    from shared memory with any content and an empty log; let writers append
    frames, roll back to a savepoint or the last commit, fail to map a page, die
    with frames appended that were never published, and restart the log.  Then a
    reader whose snapshot ends at any frame [iLast] of the log finds through the
    hash tables, for every page, the last frame from [minFrame] to [iLast] that
    holds it or none, whatever frames were appended after its snapshot; it never
    reports corruption and never runs out of slots.  [walFramePgno] is the page of
    each frame. *)
Theorem wal_index_correct (w : Wal) (pgs : list Z) : reachable (w, pgs) ->
  mxFrame w = Z.of_nat (length pgs) /\
  (forall iLast mnFrame lock p, (iLast <= length pgs)%nat -> 1 <= mnFrame <= max_frames -> lock <> 0 ->
     sqlite3WalFindFrame shmMap {| apWiData := apWiData w; mxFrame := Z.of_nat iLast; minFrame := mnFrame;
       readLock := lock; bShmUnreliable := false |} p = Ok (last_frame pgs p mnFrame iLast)) /\
  (forall f, 1 <= f <= Z.of_nat (length pgs) -> frame pgs f = Some (walFramePgno w f)).
Proof.
  intros H. destruct (wal_reachable_inv _ H) as (Hok & Hm & Hp & Hl). cbn [fst snd] in *.
  split; [done|]. split.
  - intros iLast mnFrame lock p Hi Hmn Hlock. by apply find_frame_spec.
  - intros f Hf. by apply frame_pgno_spec.
Qed.
End Runs.

(** Two transactions, the second of them overwriting page 7 and abandoned after
    frame 4, and then another writer. *)
Definition example_ops : list index_op := [Frames [7; 8]; Frames [7; 15]; Abandon 3; Frames [8199; 7]].
Definition empty_wal : Wal := {| apWiData := ∅; mxFrame := 0; minFrame := 1; readLock := 1; bShmUnreliable := false |}.

Definition run (ops : list index_op) : Wal * list Z := fold_left (run_op (fun _ => 0)) ops (empty_wal, []).

Lemma run_reachable ops op pgs : reachable (fun _ => 0) (run ops) -> snd (run ops) = pgs -> op_ok pgs op ->
  reachable (fun _ => 0) (run (ops ++ [op])).
Proof.
  unfold run. rewrite fold_left_app. cbn [fold_left]. generalize (fold_left (run_op (fun _ => 0)) ops (empty_wal, [])).
  intros [w l] R E Ho. cbn [snd] in E. subst l. by apply reach_op.
Qed.

Lemma wal_index_correct_witness :
  sqlite3WalFindFrame (fun _ => 0) {| apWiData := apWiData (fst (run example_ops)); mxFrame := 4; minFrame := 2;
    readLock := 1; bShmUnreliable := false |} 7 = Ok 3.
Proof.
  assert (reachable (fun _ => 0) (run [])) as R0 by (apply reach_init; reflexivity).
  assert (reachable (fun _ => 0) (run [Frames [7; 8]])) as R1.
  { apply (run_reachable [] (Frames [7; 8]) []); [exact R0|reflexivity|]. split; [repeat constructor; lia|reflexivity]. }
  assert (reachable (fun _ => 0) (run [Frames [7; 8]; Frames [7; 15]])) as R2.
  { apply (run_reachable [Frames [7; 8]] (Frames [7; 15]) [7; 8]); [exact R1|vm_compute; reflexivity|].
    split; [repeat constructor; lia|reflexivity]. }
  assert (reachable (fun _ => 0) (run [Frames [7; 8]; Frames [7; 15]; Abandon 3])) as R3.
  { apply (run_reachable [Frames [7; 8]; Frames [7; 15]] (Abandon 3) [7; 8; 7; 15]); [exact R2|vm_compute; reflexivity|cbn; lia]. }
  assert (reachable (fun _ => 0) (run example_ops)) as R4.
  { apply (run_reachable [Frames [7; 8]; Frames [7; 15]; Abandon 3] (Frames [8199; 7]) [7; 8; 7]); [exact R3|vm_compute; reflexivity|].
    split; [repeat constructor; lia|reflexivity]. }
  assert (snd (run example_ops) = [7; 8; 7; 8199; 7]) as E by (vm_compute; reflexivity).
  revert R4 E. generalize (run example_ops). intros [w l] R4 E. cbn [snd fst] in *. subst l.
  destruct (wal_index_correct (fun _ => 0) w [7; 8; 7; 8199; 7] R4) as (_ & F & _).
  assert (last_frame [7; 8; 7; 8199; 7] 7 2 4 = 3) as <- by reflexivity.
  apply (F 4%nat 2 1 7); [cbn; lia|unfold max_frames; lia|lia].
Defined.
