(* ===== verification/WalCheckpoint.v ===== *)
(** * Checkpoints of the write-ahead log (wal.c of the engine)

    The merge sort of the frames of a block by page number ([walMerge],
    [walMergesort]), the iterator over the pages of the log in ascending order with
    their last frames ([walIteratorInit], [walIteratorNext]), and [walCheckpoint],
    which copies frames to the database file while readers use both.

    The sublists of the merge sort are disjoint parts of one array, the left one
    followed by the right one, and a merge writes its result over both; they are
    modelled as separate lists. *)

From S2P Require Import Prelude WalIndex.
From stdpp Require Import gmap.
From Stdlib Require Import Sorted.

#[local] Open Scope Z_scope.
Local Open Scope c_scope.

(** [aContent[i]] *)
Definition content (aContent : list Z) (i : Z) : Z := arr aContent i.

Definition SQLITE_BUSY : Z := 5.
Definition SQLITE_NOMEM : Z := 7.
Definition SQLITE_INTERRUPT : Z := 9.
Definition SQLITE_CHECKPOINT_PASSIVE : Z := 0.
Definition SQLITE_CHECKPOINT_RESTART : Z := 2.
Definition SQLITE_CHECKPOINT_TRUNCATE : Z := 3.
Definition READMARK_NOT_USED : Z := 0xffffffff.
Definition WAL_NREADER : Z := 5.

Section Sort.
Context (aContent : list Z).

(** [if( iLeft<nLeft && aContent[aLeft[iLeft]]==dbpage ) iLeft++;] *)
Definition skip_same (aLeft : list Z) (dbpage : Z) : list Z :=
  match aLeft with
  | x :: aLeft' => if content aContent x =? dbpage then aLeft' else aLeft
  | [] => []
  end.

(** The loop of [walMerge]: what is left of the two lists. *)
Fixpoint walMerge (fuel : nat) (aLeft aRight : list Z) : list Z :=
  match fuel with
  | O => []
  | S fuel =>
      match aLeft, aRight with
      | [], [] => []
      | x :: aLeft', [] => x :: walMerge fuel (skip_same aLeft' (content aContent x)) []
      | [], y :: aRight' => y :: walMerge fuel [] aRight'
      | x :: aLeft', y :: aRight' =>
          if content aContent x <? content aContent y
          then x :: walMerge fuel (skip_same aLeft' (content aContent x)) aRight
          else y :: walMerge fuel (skip_same aLeft (content aContent y)) aRight'
      end
  end.

Definition merge (aLeft aRight : list Z) : list Z := walMerge (length aLeft + length aRight) aLeft aRight.

(** [iList & (1<<iSub)] *)
Definition bit (iList : Z) (iSub : nat) : bool := negb (iList & (1 << Z.of_nat iSub) =? 0).

(** The number of sublists, [ArraySize(aSub)]. *)
Definition NSUB : nat := 13.

(** [for(iSub=0; iList & (1<<iSub); iSub++)] *)
Fixpoint sub_loop (fuel : nat) (aSub : list (list Z)) (iList : Z) (iSub : nat) (aMerge : list Z) : list Z * nat :=
  match fuel with
  | O => (aMerge, iSub)
  | S fuel =>
      if bit iList iSub then sub_loop fuel aSub iList (S iSub) (merge (nth iSub aSub []) aMerge)
      else (aMerge, iSub)
  end.

(** [for(iList=0; iList<nList; iList++)], with [k] rounds left. *)
Fixpoint list_loop (aList : list Z) (iList : Z) (aSub : list (list Z)) (aMerge : list Z) (iSub : nat)
  : list (list Z) * list Z * nat :=
  match aList with
  | [] => (aSub, aMerge, iSub)
  | x :: aList =>
      let '(aMerge, iSub) := sub_loop NSUB aSub iList 0 [x] in
      list_loop aList (iList + 1) (<[iSub := aMerge]> aSub) aMerge iSub
  end.

(** [for(iSub++; iSub<ArraySize(aSub); iSub++)] *)
Fixpoint final_loop (fuel : nat) (aSub : list (list Z)) (nList : Z) (iSub : nat) (aMerge : list Z) : list Z :=
  match fuel with
  | O => aMerge
  | S fuel =>
      if (iSub <? NSUB)%nat then
        final_loop fuel aSub nList (S iSub)
          (if bit nList iSub then merge (nth iSub aSub []) aMerge else aMerge)
      else aMerge
  end.

Definition walMergesort (aList : list Z) : list Z :=
  let '(aSub, aMerge, iSub) := list_loop aList 0 (replicate NSUB []) [] 0 in
  final_loop NSUB aSub (Z.of_nat (length aList)) (S iSub) aMerge.
End Sort.

(** ** The iterator *)

(** A segment, with its entries from [iNext] on. *)
Record WalSegment : Type := { aIndex : list Z; seg_aPgno : list Z; iZero : Z }.
Record WalIterator : Type := { iPrior : Z; aSegment : list WalSegment }.

(** The inner loop of [walIteratorNext]: entries up to [iMin] are passed over. *)
Fixpoint seg_skip (aPgno : list Z) (iMin : Z) (aIndex : list Z) : list Z :=
  match aIndex with
  | i :: aIndex' => if iMin <? arr aPgno i then aIndex else seg_skip aPgno iMin aIndex'
  | [] => []
  end.

Definition seg_advance (iMin : Z) (s : WalSegment) : WalSegment :=
  {| aIndex := seg_skip (seg_aPgno s) iMin (aIndex s); seg_aPgno := seg_aPgno s; iZero := iZero s |}.

(** The outer loop, from the last segment to the first: [iRet] and [*piFrame]. *)
Definition seg_pick (s : WalSegment) (acc : Z * Z) : Z * Z :=
  let '(iRet, iFrame) := acc in
  match aIndex s with
  | i :: _ => let iPg := arr (seg_aPgno s) i in if iPg <? iRet then (iPg, iZero s + i) else (iRet, iFrame)
  | [] => (iRet, iFrame)
  end.

(** The next page and its frame; [None] when the iterator is at its end. *)
Definition walIteratorNext (p : WalIterator) : option (Z * Z * WalIterator) :=
  let segs := map (seg_advance (iPrior p)) (aSegment p) in
  let '(iRet, iFrame) := foldr seg_pick (0xFFFFFFFF, 0) segs in
  if iRet =? 0xFFFFFFFF then None
  else Some (iRet, iFrame, {| iPrior := iRet; aSegment := segs |}).

Section Checkpoint.
Context (shmMap : Z -> Z) {Page : Type}.

Definition empty_segment : WalSegment := {| aIndex := []; seg_aPgno := []; iZero := 0 |}.

Definition init_segment (w : Wal) (nSegment i : Z) : res Z WalSegment :=
  match walHashGet shmMap w i with
  | Throw rc => Throw rc
  | Ok (sLoc, iZero) =>
      let nEntry := if i + 1 =? nSegment then mxFrame w - iZero else block_size i in
      Ok {| aIndex := walMergesort (aPgno sLoc) (seqZ 0 nEntry); seg_aPgno := aPgno sLoc; iZero := iZero + 1 |}
  end.

(** The loop over the segments from [i] on, [n] of them. *)
Fixpoint init_loop (n : nat) (w : Wal) (nSegment i : Z) : res Z (list WalSegment) :=
  match n with
  | O => Ok []
  | S n =>
      match init_segment w nSegment i with
      | Throw rc => Throw rc
      | Ok s => match init_loop n w nSegment (i + 1) with Throw rc => Throw rc | Ok l => Ok (s :: l) end
      end
  end.

(** [alloc]: both allocations succeed.  Segments before that of frame
    [nBackfill+1] stay zeroed. *)
Definition walIteratorInit (alloc : bool) (w : Wal) (nBackfill : Z) : res Z WalIterator :=
  if negb alloc then Throw SQLITE_NOMEM
  else
    let nSegment := walFramePage (mxFrame w) + 1 in
    let i := walFramePage (nBackfill + 1) in
    match init_loop (Z.to_nat (nSegment - i)) w nSegment i with
    | Throw rc => Throw rc
    | Ok l => Ok {| iPrior := 0; aSegment := replicate (Z.to_nat i) empty_segment ++ l |}
    end.

(** ** The checkpoint *)

(** The database file by page, and the checkpoint information of the wal-index. *)
Record Ckpt : Type := {
  db : gmap Z Page;
  nBackfill : Z;
  nBackfillAttempted : Z;
  aReadMark : list Z;
  hdr_mxFrame : Z;
}.

(** What the checkpointer meets: the answers of its attempts to lock the readers'
    locks (each by itself, and all of them together), of the file system, and of
    the interrupt flag before each page; [torn] is what a failed write of a page
    leaves in the file. *)
Record Env : Type := {
  busyLock : Z -> Z;
  busyLockAll : Z;
  alloc : bool;
  syncWal : Z;
  fileSize : res Z Z;
  interrupted : Z -> bool;
  readRc : Z -> Z;
  writeRc : Z -> Z;
  torn : Z -> option Page;
  truncateRc : Z;
  syncDb : Z;
  truncateWal : Z;
  mallocFailed : bool;
  liveMxFrame : Z;
}.

Context (env : Env).

Definition mark (m : list Z) (i : Z) : Z := arr m i.

(** The loop over the read marks from [i] on: the marks, [mxSafeFrame] and the
    last code; [None] is [goto walcheckpoint_out]. *)
Fixpoint mark_loop (n : nat) (i : Z) (aReadMark : list Z) (mxSafeFrame rc : Z) : list Z * Z * Z * bool :=
  match n with
  | O => (aReadMark, mxSafeFrame, rc, true)
  | S n =>
      let y := mark aReadMark i in
      if y <? mxSafeFrame then
        let rc := busyLock env i in
        if rc =? SQLITE_OK then
          let iMark := if i =? 1 then mxSafeFrame else READMARK_NOT_USED in
          mark_loop n (i + 1) (set_arr aReadMark i iMark) mxSafeFrame rc
        else if rc =? SQLITE_BUSY then mark_loop n (i + 1) aReadMark y rc
        else (aReadMark, mxSafeFrame, rc, false)
      else mark_loop n (i + 1) aReadMark mxSafeFrame rc
  end.

(** The loop that copies pages; [None]: out of fuel. *)
Fixpoint copy_loop (fuel : nat) (wal : list Page) (nBackfill mxSafeFrame mxPage : Z) (it : WalIterator) (db : gmap Z Page)
  : option (Z * gmap Z Page) :=
  match fuel with
  | O => None
  | S fuel =>
      match walIteratorNext it with
      | None => Some (SQLITE_OK, db)
      | Some (iDbpage, iFrame, it) =>
          if interrupted env iDbpage then Some (if mallocFailed env then SQLITE_NOMEM else SQLITE_INTERRUPT, db)
          else if (iFrame <=? nBackfill) || (mxSafeFrame <? iFrame) || (mxPage <? iDbpage)
          then copy_loop fuel wal nBackfill mxSafeFrame mxPage it db
          else if negb (readRc env iFrame =? SQLITE_OK) then Some (readRc env iFrame, db)
          else if negb (writeRc env iDbpage =? SQLITE_OK) then
            Some (writeRc env iDbpage,
                  match torn env iDbpage with Some x => <[iDbpage := x]> db | None => delete iDbpage db end)
          else
            let db := match wal !! Z.to_nat (iFrame - 1) with Some x => <[iDbpage := x]> db | None => db end in
            copy_loop fuel wal nBackfill mxSafeFrame mxPage it db
      end
  end.

(** [sqlite3OsTruncate] to [n] pages. *)
Definition truncate (n : Z) (d : gmap Z Page) : gmap Z Page := filter (fun kv => fst kv <= n) d.

(** The part between the locks on [WAL_READ_LOCK(0)]. *)
Definition backfill (w : Wal) (wal : list Page) (szPage nPage mxSafeFrame : Z) (it : WalIterator) (c : Ckpt)
  : option (Z * Ckpt) :=
  let set d nb := {| db := d; nBackfill := nb; nBackfillAttempted := mxSafeFrame; aReadMark := aReadMark c;
                     hdr_mxFrame := hdr_mxFrame c |} in
  let rc :=
    if negb (syncWal env =? SQLITE_OK) then syncWal env
    else
      match fileSize env with
      | Throw rc => rc
      | Ok nSize =>
          let nReq := nPage * szPage in
          if (nSize <? nReq) && (nSize + 65536 + mxFrame w * szPage <? nReq) then SQLITE_CORRUPT else SQLITE_OK
      end in
  r ← (if rc =? SQLITE_OK
       then copy_loop (S (length wal)) wal (nBackfill c) mxSafeFrame nPage it (db c)
       else Some (rc, db c));
  let '(rc, d) := r in
  if negb (rc =? SQLITE_OK) then Some (rc, set d (nBackfill c))
  else
    let '(rc, d) :=
      if mxSafeFrame =? liveMxFrame env then
        if truncateRc env =? SQLITE_OK then (syncDb env, truncate nPage d) else (truncateRc env, d)
      else (SQLITE_OK, d) in
    Some (rc, set d (if rc =? SQLITE_OK then mxSafeFrame else nBackfill c)).

(** [walRestartHdr], as far as the wal-index goes. *)
Definition walRestartHdr (c : Ckpt) : Ckpt :=
  {| db := db c; nBackfill := 0; nBackfillAttempted := 0;
     aReadMark := arr (aReadMark c) 0 :: 0 :: replicate 3 READMARK_NOT_USED; hdr_mxFrame := 0 |}.

(** The first part of [walCheckpoint]: the code, whether [walcheckpoint_out] was
    reached early, and the state. *)
Definition ckpt_copy (w : Wal) (wal : list Page) (szPage nPage : Z) (c : Ckpt) : option (Z * bool * Ckpt) :=
  if negb (nBackfill c <? mxFrame w) then Some (SQLITE_OK, true, c)
  else
    let '(marks, mxSafeFrame, rc, go) := mark_loop 4 1 (aReadMark c) (mxFrame w) SQLITE_OK in
    let c := {| db := db c; nBackfill := nBackfill c; nBackfillAttempted := nBackfillAttempted c; aReadMark := marks;
                hdr_mxFrame := hdr_mxFrame c |} in
    if negb go then Some (rc, false, c)
    else
      let pIter := if nBackfill c <? mxSafeFrame then Some (walIteratorInit (alloc env) w (nBackfill c)) else None in
      r ← match pIter with
          | None => Some (rc, c)
          | Some (Throw rc) => Some (rc, c)
          | Some (Ok it) =>
              if busyLock env 0 =? SQLITE_OK then backfill w wal szPage nPage mxSafeFrame it c
              else Some (busyLock env 0, c)
          end;
      let '(rc, c) := r in
      Some (if rc =? SQLITE_BUSY then SQLITE_OK else rc, true, c).

Definition walCheckpoint (w : Wal) (wal : list Page) (szPage nPage eMode : Z) (c : Ckpt) : option (Z * Ckpt) :=
  r ← ckpt_copy w wal szPage nPage c;
  let '(rc, go, c) := r in
  if go && (rc =? SQLITE_OK) && negb (eMode =? SQLITE_CHECKPOINT_PASSIVE) then
    if nBackfill c <? mxFrame w then Some (SQLITE_BUSY, c)
    else if SQLITE_CHECKPOINT_RESTART <=? eMode then
      if busyLockAll env =? SQLITE_OK then
        if eMode =? SQLITE_CHECKPOINT_TRUNCATE then Some (truncateWal env, walRestartHdr c) else Some (SQLITE_OK, c)
      else Some (busyLockAll env, c)
    else Some (SQLITE_OK, c)
  else Some (rc, c).
End Checkpoint.
Arguments Ckpt Page : clear implicits.
Arguments Env Page : clear implicits.

(** ** The merge sort *)

Section SortProofs.
Context (aContent : list Z).
#[local] Abbreviation c := (content aContent).
#[local] Abbreviation ascending := (StronglySorted (fun i j => c i < c j)).

Lemma skip_same_above L p : Forall (fun x => p < c x) L -> skip_same aContent L p = L.
Proof. destruct 1 as [|x L Hx _]; [done|]. cbn [skip_same]. by replace (c x =? p) with false by lia. Qed.

Lemma skip_same_sub L p x : In x (skip_same aContent L p) -> In x L.
Proof. destruct L as [|y L]; [done|]. cbn [skip_same]. case_match; [by right|done]. Qed.

Lemma skip_same_sorted L p : ascending L -> ascending (skip_same aContent L p).
Proof. destruct 1; cbn [skip_same]; [constructor|]. case_match; [done|by constructor]. Qed.

(** Of two entries with the same page the right one is kept. *)
Definition kept (L R : list Z) (x : Z) : Prop := In x R \/ In x L /\ forall y, In y R -> c y <> c x.

Lemma walMerge_spec fuel : forall L R, ascending L -> ascending R -> (length L + length R <= fuel)%nat ->
  ascending (walMerge aContent fuel L R) /\ forall x, In x (walMerge aContent fuel L R) <-> kept L R x.
Proof.
  unfold kept. induction fuel as [|fuel IH]; intros L R HL HR Hf.
  { destruct L, R; cbn in Hf; try lia. split; [constructor|]. cbn. tauto. }
  destruct HL as [|x L HL HxL], HR as [|y R HR HyR]; cbn [walMerge].
  - split; [constructor|]. cbn. tauto.
  - destruct (IH [] R) as [S M]; [constructor|done|cbn in *; lia|]. split.
    + constructor; [done|]. apply List.Forall_forall. intros z Hz. apply M in Hz. rewrite List.Forall_forall in HyR.
      destruct Hz as [Hz|[[] _]]. by apply HyR.
    + intros z. cbn [In]. rewrite M. cbn [In]. tauto.
  - rewrite skip_same_above by done. destruct (IH L []) as [S M]; [done|constructor|cbn in *; lia|]. split.
    + constructor; [done|]. apply List.Forall_forall. intros z Hz. apply M in Hz. rewrite List.Forall_forall in HxL.
      destruct Hz as [[]|[Hz _]]. by apply HxL.
    + intros z. cbn [In]. rewrite M. cbn [In]. intuition.
  - destruct (Z.ltb_spec (c x) (c y)) as [Hxy|Hxy].
    + rewrite skip_same_above by done.
      destruct (IH L (y :: R)) as [S M]; [done|by constructor|cbn in *; lia|].
      assert (forall z, In z (y :: R) -> c x < c z) as Above.
      { intros z [<-|Hz]; [done|]. rewrite List.Forall_forall in HyR. specialize (HyR z Hz). cbn in HyR. lia. }
      split.
      * constructor; [done|]. apply List.Forall_forall. intros z Hz. apply M in Hz as [Hz|[Hz _]]; [by apply Above|].
        rewrite List.Forall_forall in HxL. by apply HxL.
      * intros z. change (In z (x :: walMerge aContent fuel L (y :: R))) with (x = z \/ In z (walMerge aContent fuel L (y :: R))).
        rewrite M. change (In z (x :: L)) with (x = z \/ In z L). split; [|tauto].
        intros [<-|[?|[? ?]]]; [|tauto|tauto]. right. split; [by left|]. intros w Hw. specialize (Above w Hw). lia.
    + set (L' := skip_same aContent (x :: L) (c y)).
      assert (ascending (x :: L)) as HxL' by (by constructor).
      assert (forall z, In z L' <-> In z (x :: L) /\ c z <> c y) as HL'.
      { intros z. unfold L'. cbn [skip_same]. rewrite List.Forall_forall in HxL. destruct (Z.eqb_spec (c x) (c y)) as [E|E].
        - split; [|by intros [[<-|Hz] ?]]. intros Hz. split; [by right|]. specialize (HxL z Hz). cbn in HxL. lia.
        - split; [|tauto]. intros Hz. split; [done|]. destruct Hz as [<-|Hz]; [done|]. specialize (HxL z Hz). cbn in HxL. lia. }
      destruct (IH L' R) as [S M]; [by apply skip_same_sorted|done| |].
      { assert (length L' <= length (x :: L))%nat by (unfold L'; cbn [skip_same]; case_match; cbn; lia). cbn in *. lia. }
      assert (forall z, In z L' -> c y < c z) as AboveL.
      { intros z Hz. apply HL' in Hz as [Hz Hne]. rewrite List.Forall_forall in HxL. destruct Hz as [<-|Hz]; [lia|].
        specialize (HxL z Hz). cbn in HxL. lia. }
      rewrite List.Forall_forall in HyR. split.
      * constructor; [done|]. apply List.Forall_forall. intros z Hz. apply M in Hz as [Hz|[Hz _]]; [by apply HyR|by apply AboveL].
      * intros z. change (In z (y :: walMerge aContent fuel L' R)) with (y = z \/ In z (walMerge aContent fuel L' R)).
        change (In z (y :: R)) with (y = z \/ In z R). rewrite M, HL'. split.
        -- intros [?|[?|[[Hz Hne] Hr]]]; [tauto|tauto|]. right. split; [done|]. intros w [<-|Hw]; [congruence|by apply Hr].
        -- intros [[?|?]|[Hz Hr]]; [tauto|tauto|]. right. right. split; [split; [done|]|].
           ++ intros E. by apply (Hr y (or_introl eq_refl)).
           ++ intros w Hw. apply Hr. by right.
Qed.

(** The list holds, in order of their pages, the last entries of the pages among
    the entries [a] to [b-1]. *)
Record lasts (a b : Z) (l : list Z) : Prop := {
  la_sorted : ascending l;
  la_in : forall i, In i l <-> a <= i < b /\ forall j, i < j < b -> c j <> c i;
}.

Lemma lasts_cover a b l j : lasts a b l -> a <= j < b -> exists i, In i l /\ c i = c j /\ j <= i.
Proof.
  intros H. remember (Z.to_nat (b - j)) as n eqn:En. revert j En. induction n as [n IH] using lt_wf_ind. intros j En Hj.
  destruct (decide (Exists (fun k => c (j + 1 + k) = c j) (seqZ 0 (b - j - 1)))) as [E|E].
  - apply Exists_exists in E as (k & Hk & Ek). apply elem_of_seqZ in Hk.
    destruct (IH (Z.to_nat (b - (j + 1 + k))) ltac:(lia) (j + 1 + k) eq_refl ltac:(lia)) as (i & Hi & Ei & Li).
    exists i. split; [done|]. split; [congruence|lia].
  - exists j. split; [|split; [done|lia]]. apply (la_in _ _ _ H). split; [done|]. intros k Hk Ek.
    apply E, Exists_exists. exists (k - j - 1). split; [apply elem_of_seqZ; lia|]. cbn beta. by replace (j + 1 + (k - j - 1)) with k by lia.
Qed.

Lemma lasts_merge a m b L R : lasts a m L -> lasts m b R -> a <= m <= b -> lasts a b (merge aContent L R).
Proof.
  intros HL HR Hm. destruct (walMerge_spec (length L + length R) L R (la_sorted _ _ _ HL) (la_sorted _ _ _ HR) ltac:(lia)) as [S M].
  split; [done|]. intros i. unfold merge. rewrite M. unfold kept. rewrite (la_in _ _ _ HL), (la_in _ _ _ HR). split.
  - intros [[Hi Hj]|[[Hi Hj] Hk]]; (split; [lia|]); intros j Hij; [apply Hj; lia|].
    destruct (decide (j < m)); [apply Hj; lia|].
    destruct (lasts_cover m b R j HR ltac:(lia)) as (y & Hy & Ey & _). rewrite <- Ey. by apply Hk.
  - intros [Hi Hj]. destruct (decide (i < m)); [right|left; split; [lia|done]].
    split; [split; [lia|]; intros j Hij; apply Hj; lia|].
    intros y Hy. apply (la_in _ _ _ HR) in Hy as [Hy _]. apply Hj. lia.
Qed.

Lemma lasts_single k : lasts k (k + 1) [k].
Proof.
  split; [repeat constructor|]. intros i. cbn [In]. split.
  - intros [<-|[]]. split; [lia|]. intros j Hj. lia.
  - intros [Hi _]. left. lia.
Qed.

(** *** The binary counter of sublists *)

Lemma bit_spec k i : 0 <= k -> bit k i = Z.testbit k (Z.of_nat i).
Proof.
  intros Hk. unfold bit. destruct (Z.testbit k (Z.of_nat i)) eqn:E.
  - apply negb_true_iff, Z.eqb_neq. intros H. apply (f_equal (fun z => Z.testbit z (Z.of_nat i))) in H.
    rewrite Z.land_spec, E, Z.shiftl_spec, Z.sub_diag, Z.bits_0 in H by lia. done.
  - apply negb_false_iff, Z.eqb_eq. apply Z.bits_inj'. intros n Hn. rewrite Z.land_spec, Z.bits_0, Z.shiftl_spec by done.
    destruct (decide (n = Z.of_nat i)) as [->|Hne]; [by rewrite E|].
    destruct (decide (n < Z.of_nat i)); [rewrite (Z.testbit_neg_r 1) by lia; apply andb_false_r|].
    rewrite (Z.bits_above_log2 1) by (cbn; lia). apply andb_false_r.
Qed.

(** The quotient by the next power of two. *)
Lemma bit_quot k i : 0 <= k -> k / 2 ^ Z.of_nat i = 2 * (k / 2 ^ Z.of_nat (S i)) + if bit k i then 1 else 0.
Proof.
  intros Hk. rewrite bit_spec by done. pose proof (Z.testbit_spec' k (Z.of_nat i) ltac:(lia)) as B.
  replace (2 ^ Z.of_nat (S i)) with (2 ^ Z.of_nat i * 2) by (rewrite Nat2Z.inj_succ, Z.pow_succ_r by lia; lia).
  rewrite <- Z.div_div by lia. pose proof (Z.div_mod (k / 2 ^ Z.of_nat i) 2 ltac:(lia)).
  destruct (Z.testbit k (Z.of_nat i)); cbn [Z.b2z] in B; lia.
Qed.

Lemma pow_S i : 2 ^ Z.of_nat (S i) = 2 * 2 ^ Z.of_nat i /\ 0 < 2 ^ Z.of_nat i.
Proof. rewrite Nat2Z.inj_succ, Z.pow_succ_r by lia. split; [done|]. apply Z.pow_pos_nonneg; lia. Qed.

(** The start of the part of the first [k] entries that sublist [i] holds. *)
Definition base (k : Z) (i : nat) : Z := 2 ^ Z.of_nat i * (k / 2 ^ Z.of_nat i).

Definition subs_ok (k : Z) (aSub : list (list Z)) : Prop :=
  length aSub = NSUB /\
  forall i, (i < NSUB)%nat -> bit k i = true -> lasts (base k (S i)) (base k (S i) + 2 ^ Z.of_nat i) (nth i aSub []).

Lemma base_bit k i : 0 <= k -> base k i = base k (S i) + if bit k i then 2 ^ Z.of_nat i else 0.
Proof. intros Hk. unfold base. rewrite (bit_quot k i Hk). destruct (pow_S i) as [-> ?]. case_match; lia. Qed.

Lemma sub_loop_spec k aSub : 0 <= k < 4096 -> subs_ok k aSub -> forall fuel j aMerge,
  (12 < fuel + j)%nat -> (j <= 12)%nat -> base k j = k + 1 - 2 ^ Z.of_nat j -> lasts (k + 1 - 2 ^ Z.of_nat j) (k + 1) aMerge ->
  exists aM j', sub_loop aContent fuel aSub k j aMerge = (aM, j') /\ (j' <= 12)%nat /\ bit k j' = false /\
    base k j' = k + 1 - 2 ^ Z.of_nat j' /\ lasts (k + 1 - 2 ^ Z.of_nat j') (k + 1) aM.
Proof.
  intros Hk [Hlen Hsub]. induction fuel as [|fuel IH]; intros j aMerge Hf Hj Hb Hl; [lia|]. cbn [sub_loop].
  pose proof (base_bit k j ltac:(lia)) as Bb. destruct (pow_S j) as [Pj Pp]. destruct (bit k j) eqn:Eb.
  - assert (j <> 12%nat) as H12.
    { intros ->. pose proof (bit_quot k 12 ltac:(lia)) as Q. rewrite Eb in Q. change (2 ^ Z.of_nat 12) with 4096 in Q.
      rewrite Z.div_small in Q by lia. lia. }
    apply IH; [lia|lia|lia|]. eapply (lasts_merge _ (k + 1 - 2 ^ Z.of_nat j)); [|done|lia].
    specialize (Hsub j ltac:(unfold NSUB; lia) Eb).
    replace (k + 1 - 2 ^ Z.of_nat (S j)) with (base k (S j)) by lia.
    replace (k + 1 - 2 ^ Z.of_nat j) with (base k (S j) + 2 ^ Z.of_nat j) by lia. done.
  - exists aMerge, j. done.
Qed.

(** Adding one entry is a carry into bit [j]. *)
Lemma counter_carry k j : 0 <= k -> bit k j = false -> base k j = k + 1 - 2 ^ Z.of_nat j ->
  (forall i, (i < j)%nat -> bit (k + 1) i = false) /\ bit (k + 1) j = true /\ base (k + 1) (S j) = k + 1 - 2 ^ Z.of_nat j /\
  forall i, (j < i)%nat -> bit (k + 1) i = bit k i /\ base (k + 1) (S i) = base k (S i).
Proof.
  intros Hk Eb Hb. destruct (pow_S j) as [Pj Pp]. unfold base in Hb.
  assert ((k + 1) / 2 ^ Z.of_nat j = k / 2 ^ Z.of_nat j + 1) as Q.
  { symmetry. apply (Z.div_unique_pos (k + 1) (2 ^ Z.of_nat j) _ 0); lia. }
  assert ((k + 1) / 2 ^ Z.of_nat (S j) = k / 2 ^ Z.of_nat (S j)) as QS.
  { pose proof (bit_quot k j Hk) as B. rewrite Eb in B. rewrite Pj, Z.mul_comm, <- !Z.div_div, Q by lia.
    rewrite Pj, Z.mul_comm, <- Z.div_div in B by lia. set (q := k / 2 ^ Z.of_nat j) in *. Z.to_euclidean_division_equations. lia. }
  assert (forall i, (j < i)%nat -> (k + 1) / 2 ^ Z.of_nat i = k / 2 ^ Z.of_nat i) as QI.
  { intros i Hi. replace (Z.of_nat i) with (Z.of_nat (S j) + Z.of_nat (i - S j)) by lia.
    rewrite Z.pow_add_r, <- !Z.div_div, QS by (try apply Z.pow_nonzero; try apply Z.pow_pos_nonneg; lia). done. }
  split; [|split; [|split]].
  - intros i Hi. pose proof (bit_quot (k + 1) i ltac:(lia)) as B. destruct (bit (k + 1) i); [|done]. exfalso.
    assert (exists m, k + 1 = 2 ^ Z.of_nat (S i) * m) as [m Hm].
    { exists (2 ^ Z.of_nat (j - S i) * (k / 2 ^ Z.of_nat j + 1)). rewrite Z.mul_assoc, <- Z.pow_add_r by lia.
      replace (Z.of_nat (S i) + Z.of_nat (j - S i)) with (Z.of_nat j) by lia. lia. }
    destruct (pow_S i) as [Pi Ppi].
    assert ((k + 1) / 2 ^ Z.of_nat (S i) = m) as D1 by (rewrite Hm, Z.mul_comm; apply Z.div_mul; lia).
    assert ((k + 1) / 2 ^ Z.of_nat i = 2 * m) as D2.
    { rewrite Hm, Pi. replace (2 * 2 ^ Z.of_nat i * m) with (2 * m * 2 ^ Z.of_nat i) by lia. apply Z.div_mul. lia. }
    lia.
  - pose proof (bit_quot (k + 1) j ltac:(lia)) as B. pose proof (bit_quot k j Hk) as B'. rewrite Eb in B'. destruct (bit (k + 1) j); [done|].
    rewrite Q, QS in B. lia.
  - unfold base. rewrite QS. pose proof (bit_quot k j Hk) as B'. rewrite Eb in B'. rewrite B' in Hb.
    set (q := k / 2 ^ Z.of_nat (S j)) in *. rewrite Pj. lia.
  - intros i Hi. unfold base. rewrite QI by lia. split; [|done].
    pose proof (bit_quot (k + 1) i ltac:(lia)) as B. pose proof (bit_quot k i Hk) as B'. rewrite !QI in B by lia.
    destruct (bit (k + 1) i), (bit k i); (done || lia).
Qed.

Lemma subs_ok_step k aSub aM j : 0 <= k -> subs_ok k aSub -> (j <= 12)%nat -> bit k j = false ->
  base k j = k + 1 - 2 ^ Z.of_nat j -> lasts (k + 1 - 2 ^ Z.of_nat j) (k + 1) aM ->
  subs_ok (k + 1) (<[j := aM]> aSub).
Proof.
  intros Hk [Hlen Hsub] Hj Eb Hb Hl. destruct (counter_carry k j Hk Eb Hb) as (C1 & C2 & C3 & C4).
  split; [by rewrite length_insert|]. intros i Hi Hbit. rewrite nth_lookup.
  destruct (lt_eq_lt_dec i j) as [[Hlt| ->]|Hgt].
  - rewrite C1 in Hbit by done. done.
  - rewrite list_lookup_insert_eq by (unfold NSUB in *; lia). cbn [default]. rewrite C3.
    replace (k + 1 - 2 ^ Z.of_nat j + 2 ^ Z.of_nat j) with (k + 1) by lia. done.
  - rewrite list_lookup_insert_ne by lia. rewrite <- nth_lookup. destruct (C4 i Hgt) as [E1 ->]. rewrite E1 in Hbit. by apply Hsub.
Qed.

Lemma list_loop_spec m : forall k aSub aMerge iSub, 0 <= k -> k + Z.of_nat m <= 4096 -> subs_ok k aSub ->
  (0 < m)%nat -> exists aSub' aM j, list_loop aContent (seqZ k (Z.of_nat m)) k aSub aMerge iSub = (aSub', aM, j) /\
    subs_ok (k + Z.of_nat m) aSub' /\ (j <= 12)%nat /\ lasts (base (k + Z.of_nat m) (S j)) (k + Z.of_nat m) aM.
Proof.
  induction m as [|m IH]; intros k aSub aMerge iSub Hk Hm Hs Hpos; [lia|].
  rewrite seqZ_cons by lia. cbn [list_loop].
  destruct (sub_loop_spec k aSub ltac:(lia) Hs NSUB 0 [k]) as (aM & j & -> & Hj & Eb & Hb & Hl);
    [unfold NSUB; lia|lia|unfold base; change (2 ^ Z.of_nat 0) with 1; rewrite Z.div_1_r; lia|
     change (2 ^ Z.of_nat 0) with 1; replace (k + 1 - 1) with k by lia; apply lasts_single|].
  pose proof (subs_ok_step k aSub aM j Hk Hs Hj Eb Hb Hl) as Hs'.
  destruct (counter_carry k j Hk Eb Hb) as (_ & _ & C3 & _).
  replace (Z.succ k) with (k + 1) by lia. replace (Z.pred (Z.of_nat (S m))) with (Z.of_nat m) by lia.
  destruct m as [|m].
  - cbn [list_loop Z.of_nat]. exists (<[j:=aM]> aSub), aM, j. split; [done|]. change (Z.of_nat 1) with 1. rewrite C3. done.
  - destruct (IH (k + 1) (<[j:=aM]> aSub) aM j) as (aSub' & aM' & j' & E & R); [lia|lia|done|lia|].
    exists aSub', aM', j'. split; [done|]. by replace (k + Z.of_nat (S (S m))) with (k + 1 + Z.of_nat (S m)) by lia.
Qed.

Lemma final_loop_spec N aSub : 0 <= N <= 4096 -> subs_ok N aSub -> forall fuel i aMerge,
  (NSUB <= fuel + i)%nat -> (i <= NSUB)%nat -> lasts (base N i) N aMerge ->
  lasts 0 N (final_loop aContent fuel aSub N i aMerge).
Proof.
  intros HN [Hlen Hsub]. assert (base N NSUB = 0) as B13.
  { unfold base, NSUB. change (2 ^ Z.of_nat 13) with 8192. rewrite Z.div_small by lia. lia. }
  induction fuel as [|fuel IH]; intros i aMerge Hf Hi Hl; cbn [final_loop].
  { assert (i = NSUB) as -> by lia. by rewrite B13 in Hl. }
  destruct (Nat.ltb_spec i NSUB) as [Hlt|Hge]; [|assert (i = NSUB) as -> by lia; by rewrite B13 in Hl].
  apply IH; [lia|lia|]. pose proof (base_bit N i ltac:(lia)) as Bb. destruct (bit N i) eqn:Eb.
  - assert (base N i <= N) by (unfold base; destruct (pow_S i); apply Z.mul_div_le; lia). destruct (pow_S i).
    eapply lasts_merge; [|exact Hl|lia]. rewrite Bb. by apply Hsub.
  - by rewrite Bb, Z.add_0_r in Hl.
Qed.

(** The sort keeps, in order of their pages, the last entries of the pages. *)
Lemma walMergesort_spec n : (1 <= n <= 4096)%nat -> lasts 0 (Z.of_nat n) (walMergesort aContent (seqZ 0 (Z.of_nat n))).
Proof.
  intros Hn. unfold walMergesort.
  destruct (list_loop_spec n 0 (replicate NSUB []) [] 0) as (aSub & aM & j & E & Hs & Hj & Hl); [lia|lia| |lia|].
  { split; [by rewrite length_replicate|]. intros i _ Hb. by unfold bit in Hb. }
  rewrite E. rewrite length_seqZ, Z2Nat.id by lia. cbn [Z.add] in *. apply final_loop_spec; (done || unfold NSUB in *; lia).
Qed.
End SortProofs.

(** ** The iterator *)

Definition MAX_PGNO : Z := 0xFFFFFFFF.

(** A segment over the entries [0] to [n-1] of a block: of the last entries of the
    pages it still has at least those of pages after [prior]. *)
Record seg_ok (s : WalSegment) (n prior : Z) : Prop := {
  so_sorted : StronglySorted (fun i j => content (seg_aPgno s) i < content (seg_aPgno s) j) (aIndex s);
  so_last : forall i, In i (aIndex s) -> 0 <= i < n /\
    forall j, i < j < n -> content (seg_aPgno s) j <> content (seg_aPgno s) i;
  so_rest : forall j, 0 <= j < n -> prior < content (seg_aPgno s) j ->
    exists i, In i (aIndex s) /\ content (seg_aPgno s) i = content (seg_aPgno s) j;
}.

Lemma seg_ok_lasts aP l z n prior : lasts aP 0 n l -> seg_ok {| aIndex := l; seg_aPgno := aP; iZero := z |} n prior.
Proof.
  intros H. split; cbn [aIndex seg_aPgno].
  - apply H.
  - intros i Hi. by apply (la_in _ _ _ _ H).
  - intros j Hj _. destruct (lasts_cover aP 0 n l j H Hj) as (i & ? & ? & _). eauto.
Qed.

Lemma seg_skip_spec aP prior l : StronglySorted (fun i j => content aP i < content aP j) l ->
  StronglySorted (fun i j => content aP i < content aP j) (seg_skip aP prior l) /\
  forall i, In i (seg_skip aP prior l) <-> In i l /\ prior < content aP i.
Proof.
  induction 1 as [|x l Hl IH Hx]; cbn [seg_skip]; [split; [constructor|cbn; tauto]|]. fold (content aP x).
  destruct (Z.ltb_spec prior (content aP x)) as [Hp|Hp].
  - split; [by constructor|]. intros i. split; [|tauto]. intros Hi. split; [done|]. rewrite List.Forall_forall in Hx.
    destruct Hi as [<-|Hi]; [done|]. specialize (Hx i Hi). cbn in Hx. lia.
  - destruct IH as [S M]. split; [done|]. intros i. rewrite M. split; [intros [? ?]; split; [by right|done]|].
    intros [[<-|?] ?]; [lia|done].
Qed.

Lemma seg_advance_ok s n prior : seg_ok s n prior ->
  seg_ok (seg_advance prior s) n prior /\ forall i, In i (aIndex (seg_advance prior s)) -> prior < content (seg_aPgno s) i.
Proof.
  intros [Hs Hl Hr]. destruct (seg_skip_spec (seg_aPgno s) prior (aIndex s) Hs) as [S M].
  split; [|intros i Hi; by apply M in Hi as [_ ?]]. split; cbn [seg_advance aIndex seg_aPgno]; [done| |].
  - intros i Hi. apply M in Hi as [Hi _]. by apply Hl.
  - intros j Hj Hp. destruct (Hr j Hj Hp) as (i & Hi & Ei). exists i. split; [|done]. apply M. split; [done|lia].
Qed.

Lemma seg_ok_mono s n prior prior' : prior <= prior' -> seg_ok s n prior -> seg_ok s n prior'.
Proof. intros Hp [Hs Hl Hr]. split; [done|done|]. intros j Hj Hj'. apply Hr; [done|lia]. Qed.

(** The first entry of a segment. *)
Definition head (s : WalSegment) : option (Z * Z) :=
  match aIndex s with i :: _ => Some (arr (seg_aPgno s) i, iZero s + i) | [] => None end.

Lemma seg_pick_head s acc : seg_pick s acc =
  match head s with Some (p, f) => if p <? fst acc then (p, f) else acc | None => acc end.
Proof. unfold seg_pick, head. destruct acc as [r f]. by destruct (aIndex s). Qed.

(** The smallest first page, from the last segment that has it. *)
Lemma pick_spec segs : Forall (fun s => forall p f, head s = Some (p, f) -> p < MAX_PGNO) segs ->
  let '(r, f) := foldr seg_pick (MAX_PGNO, 0) segs in
  (r = MAX_PGNO /\ Forall (fun s => head s = None) segs) \/
  (r < MAX_PGNO /\ exists k s, segs !! k = Some s /\ head s = Some (r, f) /\
    forall k' s' p' f', segs !! k' = Some s' -> head s' = Some (p', f') -> r <= p' /\ ((k < k')%nat -> p' <> r)).
Proof.
  induction 1 as [|s segs Hs _ IH]; cbn [foldr]; [left; by split|].
  destruct (foldr seg_pick (MAX_PGNO, 0) segs) as [r f] eqn:E. rewrite seg_pick_head. cbn [fst].
  destruct (head s) as [[p g]|] eqn:Eh.
  - specialize (Hs p g eq_refl). destruct (Z.ltb_spec p r) as [Hpr|Hpr].
    + right. split; [done|]. exists 0%nat, s. split; [done|]. split; [done|].
      intros k' s' p' f' Hk' Hh'. destruct k' as [|k']; [cbn in Hk'; simplify_eq; split; lia|]. cbn in Hk'.
      destruct IH as [[-> IH]|(_ & k & t & Hk & Ht & IH)].
      * rewrite Forall_forall in IH. specialize (IH s' ltac:(by eapply list_elem_of_lookup_2)). cbn in IH. congruence.
      * destruct (IH k' s' p' f' Hk' Hh') as [? _]. split; lia.
    + destruct IH as [[-> IH]|(Hr & k & t & Hk & Ht & IH)]; [lia|]. right. split; [done|]. exists (S k), t.
      split; [done|]. split; [done|]. intros k' s' p' f' Hk' Hh'. destruct k' as [|k'].
      * cbn in Hk'. simplify_eq. split; lia.
      * cbn in Hk'. destruct (IH k' s' p' f' Hk' Hh') as [? Hne]. split; [done|]. intros ?. apply Hne. lia.
  - destruct IH as [[-> IH]|(Hr & k & t & Hk & Ht & IH)]; [left; split; [done|by constructor]|]. right. split; [done|].
    exists (S k), t. split; [done|]. split; [done|]. intros k' s' p' f' Hk' Hh'. destruct k' as [|k'].
    + cbn in Hk'. simplify_eq.
    + cbn in Hk'. destruct (IH k' s' p' f' Hk' Hh') as [? Hne]. split; [done|]. intros ?. apply Hne. lia.
Qed.

(** The iterator over the frames [lo+1] to [hi] of a log. *)
Section Iterator.
Context (pgs : list Z) (b0 hi : Z).
Context (Hb0 : 0 <= b0) (Hhi : 1 <= hi <= Z.of_nat (length pgs)) (Hmax : Z.of_nat (length pgs) < max_frames).
Context (Hpages : Forall (fun p => 0 < p < MAX_PGNO) pgs).
Context (Hb0hi : b0 <= walFramePage hi).

(** The number of entries of segment [b]. *)
Definition entries (b : Z) : Z := Z.min (block_size b) (hi - first_frame b).

Record iter_ok (it : WalIterator) (prior : Z) : Prop := {
  it_prior : iPrior it = prior;
  it_segs : length (aSegment it) = Z.to_nat (walFramePage hi + 1);
  it_zero : forall k s, aSegment it !! k = Some s -> Z.of_nat k < b0 -> aIndex s = [];
  it_seg : forall k s, aSegment it !! k = Some s -> b0 <= Z.of_nat k ->
    seg_ok s (entries (Z.of_nat k)) prior /\ iZero s = first_frame (Z.of_nat k) + 1 /\
    forall j, 0 <= j < entries (Z.of_nat k) -> frame pgs (first_frame (Z.of_nat k) + 1 + j) = Some (content (seg_aPgno s) j);
}.

Lemma frame_some f p : frame pgs f = Some p -> 0 < p < MAX_PGNO.
Proof. intros H. apply list_elem_of_lookup_2 in H. rewrite Forall_forall in Hpages. by apply Hpages. Qed.

(** A frame lies in a segment. *)
Lemma frame_segment it prior f : iter_ok it prior -> first_frame b0 < f <= hi ->
  exists s, aSegment it !! Z.to_nat (walFramePage f) = Some s /\ b0 <= walFramePage f /\
    0 <= f - 1 - first_frame (walFramePage f) < entries (walFramePage f).
Proof.
  intros Hi Hf. pose proof (first_frame_nonneg b0 Hb0). destruct (frame_block f) as [Hb Hfb]; [lia|].
  destruct (frame_block hi) as [Hbh Hfh]; [lia|].
  assert (b0 <= walFramePage f <= walFramePage hi) as Hle.
  { revert Hfb Hfh Hb Hbh. generalize (walFramePage f) (walFramePage hi). intros b b' Hfb Hfh Hb Hbh. sizes. repeat case_match; lia. }
  destruct (lookup_lt_is_Some_2 (aSegment it) (Z.to_nat (walFramePage f))) as [s Hs]; [rewrite (it_segs _ _ Hi); lia|].
  exists s. split; [done|]. split; [lia|]. unfold entries. lia.
Qed.

Lemma advance_ok it prior : iter_ok it prior ->
  iter_ok {| iPrior := prior; aSegment := map (seg_advance prior) (aSegment it) |} prior /\
  forall k s i, map (seg_advance prior) (aSegment it) !! k = Some s -> In i (aIndex s) -> prior < content (seg_aPgno s) i.
Proof.
  intros Hi. assert (forall k s, map (seg_advance prior) (aSegment it) !! k = Some s ->
    exists t, aSegment it !! k = Some t /\ s = seg_advance prior t) as L.
  { intros k s Hs. rewrite list_lookup_fmap in Hs. apply fmap_Some in Hs as (t & ? & ->). eauto. }
  split.
  - split; cbn [iPrior aSegment].
    + done.
    + rewrite length_map. apply Hi.
    + intros k s Hs Hk. destruct (L k s Hs) as (t & Ht & ->). cbn [seg_advance aIndex]. by rewrite (it_zero _ _ Hi k t Ht Hk).
    + intros k s Hs Hk. destruct (L k s Hs) as (t & Ht & ->). destruct (it_seg _ _ Hi k t Ht Hk) as (S1 & S2 & S3).
      split; [by apply seg_advance_ok|]. split; [done|]. exact S3.
  - intros k s i Hs Hin. destruct (L k s Hs) as (t & Ht & ->). destruct (decide (Z.of_nat k < b0)) as [Hk|Hk].
    + cbn [seg_advance aIndex] in Hin. by rewrite (it_zero _ _ Hi k t Ht Hk) in Hin.
    + destruct (it_seg _ _ Hi k t Ht ltac:(lia)) as (S1 & _). by apply (seg_advance_ok t _ _ S1).
Qed.

Lemma head_in s p f : head s = Some (p, f) -> exists i, In i (aIndex s) /\ p = content (seg_aPgno s) i /\ f = iZero s + i.
Proof. unfold head, content. destruct (aIndex s) as [|i l]; [done|]. intros [= <- <-]. exists i. split; [by left|done]. Qed.

Lemma head_least s n prior i : seg_ok s n prior -> In i (aIndex s) ->
  exists p f, head s = Some (p, f) /\ p <= content (seg_aPgno s) i.
Proof.
  intros [Hs _ _] Hi. unfold head, content in *. destruct (aIndex s) as [|x l]; [done|]. eexists _, _. split; [done|].
  destruct Hi as [<-|Hi]; [lia|]. apply StronglySorted_inv in Hs as [_ Hs]. rewrite List.Forall_forall in Hs. specialize (Hs i Hi).
  cbn in Hs. lia.
Qed.

(** The next page is the smallest after [prior], with its last frame. *)
Lemma next_spec it prior : iter_ok it prior ->
  match walIteratorNext it with
  | None => forall f p, first_frame b0 < f <= hi -> frame pgs f = Some p -> p <= prior
  | Some (p, f, it') => iter_ok it' p /\ prior < p /\ first_frame b0 < f <= hi /\ frame pgs f = Some p /\
      (forall f', f < f' <= hi -> frame pgs f' <> Some p) /\
      forall f' p', first_frame b0 < f' <= hi -> frame pgs f' = Some p' -> prior < p' -> p <= p'
  end.
Proof.
  intros Hi. unfold walIteratorNext. rewrite (it_prior _ _ Hi).
  destruct (advance_ok it prior Hi) as [Ha Hgt]. set (segs := map (seg_advance prior) (aSegment it)) in *.
  pose proof (first_frame_nonneg b0 Hb0) as Hz.
  assert (forall k s i, segs !! k = Some s -> In i (aIndex s) -> b0 <= Z.of_nat k /\
    frame pgs (iZero s + i) = Some (content (seg_aPgno s) i) /\ first_frame (Z.of_nat k) < iZero s + i <= first_frame (Z.of_nat k) + entries (Z.of_nat k)) as Entry.
  { intros k s i Hk Hin. destruct (decide (Z.of_nat k < b0)) as [Hlt|].
    { by rewrite (it_zero _ _ Ha k s Hk Hlt) in Hin. }
    destruct (it_seg _ _ Ha k s Hk ltac:(lia)) as (S1 & S2 & S3). destruct (so_last _ _ _ S1 i Hin) as [Hr _].
    split; [lia|]. rewrite S2. split; [by apply S3|lia]. }
  assert (Forall (fun s => forall p f, head s = Some (p, f) -> p < MAX_PGNO) segs) as Hheads.
  { apply Forall_forall. intros s Hs p f Hh. apply list_elem_of_lookup in Hs as [k Hk].
    apply head_in in Hh as (i & Hin & -> & _). destruct (Entry k s i Hk Hin) as (_ & E & _). by apply frame_some in E as [_ ?]. }
  (* a frame of a later page is reached through the head of its segment *)
  assert (forall f p, first_frame b0 < f <= hi -> frame pgs f = Some p -> prior < p ->
    exists s q g, segs !! Z.to_nat (walFramePage f) = Some s /\ head s = Some (q, g) /\ q <= p) as Reach.
  { intros f p Hf Ef Hp. destruct (frame_segment _ prior f Ha Hf) as (s & Hs & Hb & Hj). cbn [aSegment] in Hs.
    assert (0 <= walFramePage f) as Hw by (destruct (frame_block f); lia).
    destruct (it_seg _ _ Ha _ s Hs ltac:(lia)) as (S1 & S2 & S3). rewrite Z2Nat.id in * by done.
    specialize (S3 _ Hj). replace (first_frame (walFramePage f) + 1 + (f - 1 - first_frame (walFramePage f))) with f in S3 by lia.
    rewrite Ef in S3. injection S3 as ->.
    destruct (so_rest _ _ _ S1 _ Hj Hp) as (i & Hin & Ei). destruct (head_least _ _ _ _ S1 Hin) as (q & g & Hh & Hq).
    exists s, q, g. split; [done|]. split; [done|]. lia. }
  pose proof (pick_spec segs Hheads) as P. change 0xFFFFFFFF with MAX_PGNO.
  destruct (foldr seg_pick (MAX_PGNO, 0) segs) as [r f] eqn:E.
  destruct P as [[-> P]|(Hr & k & s & Hk & Hh & P)].
  - rewrite Z.eqb_refl. intros f' p Hf Ef. destruct (decide (prior < p)) as [Hp|]; [|lia].
    destruct (Reach f' p Hf Ef Hp) as (s & q & g & Hs & Hh & _). rewrite Forall_forall in P.
    specialize (P s ltac:(by eapply list_elem_of_lookup_2)). cbn in P. congruence.
  - replace (r =? MAX_PGNO) with false by lia. apply head_in in Hh as Hh'. destruct Hh' as (i & Hin & -> & ->).
    pose proof (Hgt k s i Hk Hin) as Hprior. destruct (Entry k s i Hk Hin) as (Hbk & Ef & Hrange).
    destruct (it_seg _ _ Ha k s Hk Hbk) as (S1 & S2 & S3). destruct (so_last _ _ _ S1 i Hin) as [Hir Hlast].
    assert (first_frame b0 <= first_frame (Z.of_nat k)) as Hmono by (clear - Hbk Hb0; sizes; repeat case_match; lia).
    split_and!; [|done|lia|unfold entries in Hrange; lia|done| |].
    + split; cbn [iPrior aSegment]; [done|apply Ha|apply Ha|]. intros k' s' Hk' Hb'.
      destruct (it_seg _ _ Ha k' s' Hk' Hb') as (T1 & T2 & T3). split; [|by split]. eapply seg_ok_mono; [|exact T1]. lia.
    + intros f' Hf' Ef'. destruct (frame_segment _ prior f' Ha ltac:(lia)) as (s' & Hs' & Hb' & Hj'). cbn [aSegment] in Hs'.
      destruct (frame_block f') as [Hw Hfb]; [lia|].
      destruct (decide (walFramePage f' = Z.of_nat k)) as [Ek|Nk].
      * (* a later frame of the same block *)
        rewrite Ek in *. apply (Hlast (f' - 1 - first_frame (Z.of_nat k))); [lia|].
        specialize (S3 (f' - 1 - first_frame (Z.of_nat k)) ltac:(lia)).
        replace (first_frame (Z.of_nat k) + 1 + (f' - 1 - first_frame (Z.of_nat k))) with f' in S3 by lia. congruence.
      * assert (Z.of_nat k < walFramePage f') as Hkk.
        { clear - Hf' Hfb Hrange Nk Hw S2. unfold entries in *. sizes. repeat case_match; lia. }
        destruct (Reach f' _ ltac:(lia) Ef' Hprior) as (s2 & q & g & Hs2 & Hh2 & Hq).
        destruct (P _ s2 q g Hs2 Hh2) as [Hle Hne]. apply Hne; lia.
    + intros f' p' Hf' Ef' Hp'. destruct (Reach f' p' Hf' Ef' Hp') as (s2 & q & g & Hs2 & Hh2 & Hq).
      destruct (P _ s2 q g Hs2 Hh2) as [Hle _]. lia.
Qed.
End Iterator.

(** The iterator starts with the sorted entries of every block. *)
Section Init.
Context (shmMap : Z -> Z) (w : Wal) (pgs : list Z) (hi : Z).
Context (Hok : index_ok shmMap w pgs) (Hmx : mxFrame w = hi).
Context (Hhi : 1 <= hi <= Z.of_nat (length pgs)) (Hmax : Z.of_nat (length pgs) < max_frames).

Definition seg_init (b : Z) (s : WalSegment) : Prop :=
  seg_ok s (entries hi b) 0 /\ iZero s = first_frame b + 1 /\
  forall j, 0 <= j < entries hi b -> frame pgs (first_frame b + 1 + j) = Some (content (seg_aPgno s) j).

Lemma init_segment_spec b : 0 <= b <= walFramePage hi ->
  exists s, init_segment shmMap w (walFramePage hi + 1) b = Ok s /\ seg_init b s.
Proof.
  intros Hb. destruct (frame_block hi) as [Hh Hf]; [lia|]. pose proof (block_size_pos b). pose proof (first_frame_nonneg b ltac:(lia)).
  assert (first_frame b < hi /\ (b <> walFramePage hi -> first_frame b + block_size b < hi)) as [Hfb Hfull].
  { clear - Hb Hf Hh. sizes. repeat case_match; lia. }
  assert (segment pgs b <> []) as Hs.
  { intros E. apply (f_equal length) in E. rewrite length_segment in E. cbn in E. lia. }
  destruct (Hok b ltac:(lia) Hs) as [Hm [extra Hx]].
  unfold init_segment, walHashGet. rewrite Hm. change (negb (SQLITE_OK =? SQLITE_OK)) with false. cbv iota.
  fold (first_frame b). rewrite Hmx.
  replace (if b + 1 =? walFramePage hi + 1 then hi - first_frame b else block_size b) with (entries hi b).
  2: { unfold entries. destruct (Z.eqb_spec (b + 1) (walFramePage hi + 1)) as [E|E].
       - replace b with (walFramePage hi) in * by lia. lia.
       - specialize (Hfull ltac:(lia)). lia. }
  eexists. split; [reflexivity|]. assert (1 <= entries hi b <= 4096) as He by (unfold entries; lia).
  split; [|split; [done|]].
  - apply seg_ok_lasts. replace (entries hi b) with (Z.of_nat (Z.to_nat (entries hi b))) by lia. apply walMergesort_spec. lia.
  - intros j Hj. cbn [seg_aPgno]. unfold content, arr. rewrite (bo_pgno _ _ _ Hx), <- app_assoc, nth_lookup.
    assert (Z.to_nat j < length (segment pgs b))%nat as Hjl by (rewrite length_segment; unfold entries in Hj; lia).
    rewrite lookup_app_l, segment_lookup by (done || (unfold entries in Hj; lia)). unfold frame.
    replace (Z.to_nat (first_frame b) + Z.to_nat j)%nat with (Z.to_nat (first_frame b + 1 + j - 1)) by lia.
    destruct (pgs !! Z.to_nat (first_frame b + 1 + j - 1)) eqn:E; [done|]. apply lookup_ge_None in E. unfold entries in Hj. lia.
Qed.

Lemma init_loop_spec n : forall b, 0 <= b -> b + Z.of_nat n = walFramePage hi + 1 ->
  exists l, init_loop shmMap n w (walFramePage hi + 1) b = Ok l /\ length l = n /\
    forall k s, l !! k = Some s -> seg_init (b + Z.of_nat k) s.
Proof.
  induction n as [|n IH]; intros b Hb Hn; cbn [init_loop]; [by exists []|].
  destruct (init_segment_spec b) as (s & -> & Hs); [lia|]. destruct (IH (b + 1)) as (l & -> & Hl & HL); [lia|lia|].
  exists (s :: l). split; [done|]. split; [cbn; lia|]. intros k s' Hk. destruct k as [|k]; cbn in Hk.
  - simplify_eq. by rewrite Z.add_0_r.
  - specialize (HL k s' Hk). by replace (b + Z.of_nat (S k)) with (b + 1 + Z.of_nat k) by lia.
Qed.

Lemma init_spec nBackfill : 0 <= nBackfill < hi ->
  exists it, walIteratorInit shmMap true w nBackfill = Ok it /\ iter_ok pgs (walFramePage (nBackfill + 1)) hi it 0.
Proof.
  intros Hnb. unfold walIteratorInit. cbn [negb]. rewrite Hmx. set (b0 := walFramePage (nBackfill + 1)).
  destruct (frame_block (nBackfill + 1)) as [Hb0 Hfb]; [lia|]. destruct (frame_block hi) as [Hh Hfh]; [lia|]. fold b0 in Hb0, Hfb.
  assert (b0 <= walFramePage hi) as Hle by (clear - Hfb Hfh Hb0 Hh Hnb; sizes; repeat case_match; lia).
  destruct (init_loop_spec (Z.to_nat (walFramePage hi + 1 - b0)) b0) as (l & -> & Hl & HL); [lia|lia|].
  eexists. split; [reflexivity|]. split; cbn [iPrior aSegment].
  - done.
  - rewrite length_app, length_replicate. lia.
  - intros k s Hk Hlt. rewrite lookup_app_l in Hk by (rewrite length_replicate; lia). by apply lookup_replicate_1 in Hk as [-> _].
  - intros k s Hk Hge. rewrite lookup_app_r in Hk by (rewrite length_replicate; lia). rewrite length_replicate in Hk.
    specialize (HL _ _ Hk). by replace (b0 + Z.of_nat (k - Z.to_nat b0)) with (Z.of_nat k) in HL by lia.
Qed.
End Init.

(** ** The views of readers *)

Section Views.
Context {Page : Type} (env : Env Page).

(** What a reader of the frames [lo] to [hi] reads for a page. *)
Definition view (pgs : list Z) (wal : list Page) (d : gmap Z Page) (lo : Z) (hi : nat) (p : Z) : option Page :=
  let f := last_frame pgs p lo hi in if f =? 0 then d !! p else wal !! Z.to_nat (f - 1).

Context (pgs : list Z) (wal : list Page) (b0 hi nb mxSafe mxPage : Z).
Context (Hlen : length wal = length pgs) (Hb0 : 0 <= b0) (Hhi : 1 <= hi <= Z.of_nat (length pgs)).
Context (Hmax : Z.of_nat (length pgs) < max_frames) (Hpages : Forall (fun p => 0 < p < MAX_PGNO) pgs).
Context (Hb0hi : b0 <= walFramePage hi).

(** The pages a checkpoint copies, and the frame it copies them from. *)
Definition copied (p f : Z) : Prop :=
  first_frame b0 < f <= hi /\ frame pgs f = Some p /\ (forall f', f < f' <= hi -> frame pgs f' <> Some p) /\
  nb < f <= mxSafe /\ p <= mxPage.

(** What the loop has done to the file when it ends with [rc]. *)
Definition copy_done (prior rc : Z) (d d' : gmap Z Page) : Prop :=
  (forall p, d' !! p = d !! p \/ exists f, copied p f) /\
  (rc = SQLITE_OK -> forall p f, prior < p -> copied p f -> d' !! p = wal !! Z.to_nat (f - 1)) /\
  (forall p, p <= prior -> d' !! p = d !! p).

(** The frames of pages the iterator has not come to. *)
Definition remaining (prior : Z) : nat := length (List.filter (Z.ltb prior) (take (Z.to_nat hi) pgs)).

Lemma filter_shrinks prior p l : prior < p -> p ∈ l ->
  (length (List.filter (Z.ltb p) l) < length (List.filter (Z.ltb prior) l))%nat.
Proof.
  intros Hp. assert (forall l, length (List.filter (Z.ltb p) l) <= length (List.filter (Z.ltb prior) l))%nat as Le.
  { intros k. induction k as [|z k IHk]; [done|]. cbn [List.filter]. destruct (Z.ltb_spec p z).
    + replace (prior <? z) with true by lia. cbn. lia.
    + destruct (prior <? z); cbn; lia. }
  induction l as [|y l IH]; [by intros ?%elem_of_nil|]. intros [->|Hin]%elem_of_cons; cbn [List.filter].
  - replace (prior <? y) with true by lia. rewrite Z.ltb_irrefl. cbn [length]. specialize (Le l). lia.
  - specialize (IH Hin). destruct (Z.ltb_spec p y).
    + replace (prior <? y) with true by lia. cbn. lia.
    + destruct (prior <? y); cbn; lia.
Qed.

Lemma copy_loop_spec : forall fuel it prior d, iter_ok pgs b0 hi it prior -> (remaining prior < fuel)%nat ->
  exists rc d', copy_loop env fuel wal nb mxSafe mxPage it d = Some (rc, d') /\ copy_done prior rc d d'.
Proof.
  induction fuel as [|fuel IH]; intros it prior d Hi Hf; [lia|]. cbn [copy_loop].
  pose proof (next_spec pgs b0 hi Hb0 Hhi Hmax Hpages Hb0hi it prior Hi) as N. destruct (walIteratorNext it) as [[[p f] it']|].
  2: { exists SQLITE_OK, d. split; [done|]. split; [by left|]. split; [|done]. intros _ q g Hq (Hg1 & Hg2 & _).
       specialize (N g q Hg1 Hg2). lia. }
  destruct N as (Hi' & Hp & Hf1 & Ef & Hlast & Hleast).
  assert (forall rc, rc <> SQLITE_OK -> copy_done prior rc d d) as Stop by (intros rc Hrc; split; [by left|split; [done|done]]).
  assert (remaining p < fuel)%nat as Hm.
  { pose proof (filter_shrinks prior p (take (Z.to_nat hi) pgs) Hp) as Sh. unfold remaining in *.
    assert (p ∈ take (Z.to_nat hi) pgs) as Hin.
    { apply (list_elem_of_lookup_2 _ (Z.to_nat (f - 1))). pose proof (first_frame_nonneg b0 Hb0). rewrite lookup_take_lt by lia. done. }
    specialize (Sh Hin). lia. }
  destruct (interrupted env p); [eexists _, d; split; [done|]; apply Stop; by destruct (mallocFailed env)|].
  destruct ((f <=? nb) || (mxSafe <? f) || (mxPage <? p)) eqn:Skip.
  - destruct (IH it' p d Hi' Hm) as (rc & d' & E & D1 & D2 & D3). exists rc, d'. split; [done|]. split; [done|]. split.
    + intros Hrc q g Hq Hc. destruct (Z.lt_trichotomy q p) as [L|[->|L]]; [| |by apply D2].
      * destruct Hc as (Hg1 & Hg2 & _). specialize (Hleast g q Hg1 Hg2 Hq). lia.
      * exfalso. destruct Hc as (Hg1 & Hg2 & Hg3 & Hg4 & Hg5).
        destruct (Z.lt_trichotomy f g) as [L|[->|L]]; [exact (Hlast g ltac:(lia) Hg2)|lia|exact (Hg3 f ltac:(lia) Ef)].
    + intros q Hq. apply D3. lia.
  - assert (copied p f) as Hcp by (split_and!; (done || lia)).
    destruct (Z.eqb_spec (readRc env f) SQLITE_OK) as [Er|Er]; cbn [negb]; [|eexists _, d; split; [done|]; by apply Stop].
    destruct (Z.eqb_spec (writeRc env p) SQLITE_OK) as [Ew|Ew]; cbn [negb].
    2: { eexists _, _. split; [done|]. split; [|split; [done|]].
         - intros q. destruct (decide (q = p)) as [->|]; [right; eauto|left].
           destruct (torn env p); [by rewrite lookup_insert_ne|by rewrite lookup_delete_ne].
         - intros q Hq. destruct (torn env p); [rewrite lookup_insert_ne by lia; done|rewrite lookup_delete_ne by lia; done]. }
    pose proof (first_frame_nonneg b0 Hb0).
    destruct (lookup_lt_is_Some_2 wal (Z.to_nat (f - 1))) as [x Hx]; [lia|]. rewrite Hx.
    destruct (IH it' p (<[p:=x]> d) Hi' Hm) as (rc & d' & E & D1 & D2 & D3). exists rc, d'. split; [done|]. split; [|split].
    + intros q. destruct (decide (q = p)) as [->|Hne]; [right; eauto|]. destruct (D1 q) as [Dq|?]; [left|by right].
      by rewrite Dq, lookup_insert_ne.
    + intros Hrc q g Hq Hc. destruct (Z.lt_trichotomy q p) as [L|[->|L]]; [| |by apply D2].
      * destruct Hc as (Hg1 & Hg2 & _). specialize (Hleast g q Hg1 Hg2 Hq). lia.
      * rewrite D3, lookup_insert_eq by lia. destruct Hc as (Hg1 & Hg2 & Hg3 & _).
        destruct (Z.lt_trichotomy f g) as [L|[->|L]]; [destruct (Hlast g ltac:(lia) Hg2)|done|destruct (Hg3 f ltac:(lia) Ef)].
    + intros q Hq. rewrite D3, lookup_insert_ne by lia. done.
Qed.
End Views.

(** ** What a checkpoint leaves *)

Lemma last_frame_ge pgs p lo hi f : 1 <= lo -> lo <= f <= Z.of_nat hi -> frame pgs f = Some p -> f <= last_frame pgs p lo hi.
Proof.
  intros Hlo Hf Ef. destruct (last_frame_spec pgs p lo hi Hlo) as [[_ H]|(H1 & H2 & H3)]; [by destruct (H f Hf)|].
  destruct (Z.lt_ge_cases (last_frame pgs p lo hi) f) as [L|L]; [|lia]. by destruct (H3 f ltac:(lia)).
Qed.

(** A later start of the window. *)
Lemma last_frame_shift pgs p lo lo' hi : 1 <= lo <= lo' ->
  last_frame pgs p lo' hi = if lo' <=? last_frame pgs p lo hi then last_frame pgs p lo hi else 0.
Proof.
  intros Hlo. symmetry. apply last_frame_unique; [lia|]. destruct (last_frame_spec pgs p lo hi ltac:(lia)) as [[-> H]|(H1 & H2 & H3)].
  - replace (lo' <=? 0) with false by lia. left. split; [done|]. intros f Hf. apply H. lia.
  - destruct (Z.leb_spec lo' (last_frame pgs p lo hi)); [right; split; [lia|done]|left].
    split; [done|]. intros f Hf. apply H3. lia.
Qed.

Section Outcome.
Context {Page : Type} (env : Env Page).

Lemma mark_loop_spec n : forall i m mx rc m' mx' rc' go, 0 <= i -> (i + Z.of_nat n <= Z.of_nat (length m)) ->
  mark_loop env n i m mx rc = (m', mx', rc', go) ->
  mx' <= mx /\ (go = true -> forall k, i <= k < i + Z.of_nat n -> busyLock env k <> SQLITE_OK -> mx' <= arr m k) /\
  ((forall k, busyLock env k = SQLITE_OK) -> go = true /\ mx' = mx).
Proof.
  induction n as [|n IH]; intros i m mx rc m' mx' rc' go Hi Hl E; cbn [mark_loop] in E.
  { simplify_eq. split; [lia|]. split; [intros _ k; lia|done]. }
  unfold mark in E. destruct (Z.ltb_spec (arr m i) mx) as [Hy|Hy].
  - destruct (Z.eqb_spec (busyLock env i) SQLITE_OK) as [Eb|Eb]; [|destruct (busyLock env i =? SQLITE_BUSY) eqn:Ebb].
    + apply IH in E as (A & B & C); [|lia|unfold set_arr; rewrite length_insert; lia]. split; [done|]. split; [|done].
      intros Hgo k Hk Hn. specialize (B Hgo k). rewrite arr_set_ne in B by (lia || (intros ->; done)).
      apply B; [|done]. destruct (decide (k = i)) as [->|]; [done|lia].
    + apply IH in E as (A & B & C); [|lia|lia]. split; [lia|]. split.
      * intros Hgo k Hk Hn. destruct (decide (k = i)) as [->|]; [done|]. apply B; (done || lia).
      * intros All. by rewrite All in Eb.
    + simplify_eq. split; [lia|]. split; [done|]. intros All. by rewrite All in Eb.
  - apply IH in E as (A & B & C); [|lia|lia]. split; [done|]. split; [|done].
    intros Hgo k Hk Hn. destruct (decide (k = i)) as [->|]; [lia|]. apply B; (done || lia).
Qed.

Lemma copy_loop_ok fuel wal nb mxSafe mxPage : forall it d rc d',
  (forall p, interrupted env p = false) -> (forall f, readRc env f = SQLITE_OK) -> (forall p, writeRc env p = SQLITE_OK) ->
  copy_loop env fuel wal nb mxSafe mxPage it d = Some (rc, d') -> rc = SQLITE_OK.
Proof.
  induction fuel as [|fuel IH]; intros it d rc d' Hi Hr Hw E; [done|]. cbn [copy_loop] in E.
  destruct (walIteratorNext it) as [[[p f] it']|]; [|by simplify_eq]. rewrite Hi, Hr, Hw in E.
  change (negb (SQLITE_OK =? SQLITE_OK)) with false in E. case_match; by eapply IH.
Qed.

Context (pgs : list Z) (wal : list Page) (M nPage : Z).

(** The file and the number of copied frames after the first part. *)
Definition outcome (c c1 : Ckpt Page) (mxSafe : Z) : Prop :=
  hdr_mxFrame c1 = hdr_mxFrame c /\
  (db c1 = db c /\ nBackfill c1 = nBackfill c \/
   busyLock env 0 = SQLITE_OK /\ nBackfill c < mxSafe <= M /\
   exists rc d, copy_done pgs wal (walFramePage (nBackfill c + 1)) M (nBackfill c) mxSafe nPage 0 rc (db c) d /\
     (db c1 = d \/ mxSafe = liveMxFrame env /\ db c1 = truncate nPage d) /\
     (nBackfill c1 = nBackfill c \/ rc = SQLITE_OK /\ nBackfill c1 = mxSafe)).

Context (shmMap : Z -> Z) (w : Wal).
Context (Hok : index_ok shmMap w pgs) (Hmx : mxFrame w = M) (Hlen : length wal = length pgs).
Context (HM : 0 <= M <= Z.of_nat (length pgs)) (Hmax : Z.of_nat (length pgs) < max_frames).
Context (Hpages : Forall (fun p => 0 < p < MAX_PGNO) pgs).

(** Nothing fails. *)
Definition env_ok (szPage : Z) : Prop :=
  (forall i, busyLock env i = SQLITE_OK) /\ alloc env = true /\ syncWal env = SQLITE_OK /\
  (exists n, fileSize env = Ok n /\ nPage * szPage <= n) /\
  (forall p, interrupted env p = false) /\ (forall f, readRc env f = SQLITE_OK) /\ (forall p, writeRc env p = SQLITE_OK) /\
  truncateRc env = SQLITE_OK /\ syncDb env = SQLITE_OK.

Lemma backfill_spec szPage mxSafe it c : 0 <= nBackfill c < mxSafe -> mxSafe <= M -> busyLock env 0 = SQLITE_OK ->
  iter_ok pgs (walFramePage (nBackfill c + 1)) M it 0 ->
  exists rc c1, backfill env w wal szPage nPage mxSafe it c = Some (rc, c1) /\ outcome c c1 mxSafe /\
    (env_ok szPage -> rc = SQLITE_OK /\ nBackfill c1 = mxSafe).
Proof.
  intros Hnb Hsafe H0 Hit. unfold backfill.
  destruct (frame_block (nBackfill c + 1)) as [Hb Hf]; [lia|]. destruct (frame_block M) as [HbM HfM]; [lia|].
  assert (walFramePage (nBackfill c + 1) <= walFramePage M) as Hle.
  { clear - Hf HfM Hb HbM Hnb Hsafe. revert Hf HfM Hb HbM. generalize (walFramePage (nBackfill c + 1)) (walFramePage M).
    intros b b' Hf HfM Hb HbM. sizes. repeat case_match; lia. }
  set (rc0 := if negb (syncWal env =? SQLITE_OK) then _ else _).
  assert (env_ok szPage -> rc0 = SQLITE_OK) as Hrc0.
  { intros (_ & _ & Es & (n & En & Hn) & _). unfold rc0. rewrite Es, En. change (negb (SQLITE_OK =? SQLITE_OK)) with false.
    by replace (n <? nPage * szPage) with false by lia. }
  destruct (Z.eqb_spec rc0 SQLITE_OK) as [E0|E0]; cbn [mbind option_bind].
  2: { replace (negb (rc0 =? SQLITE_OK)) with true by lia. eexists _, _. split; [done|]. split; [|intros He; by rewrite Hrc0 in E0].
       split; [done|]. by left. }
  destruct (copy_loop_spec env pgs wal (walFramePage (nBackfill c + 1)) M (nBackfill c) mxSafe nPage Hlen Hb ltac:(lia) Hmax
    Hpages Hle (S (length wal)) it 0 (db c) Hit) as (rc & d & Ecl & D).
  { unfold remaining. pose proof (List.filter_length_le (Z.ltb 0) (take (Z.to_nat M) pgs)) as L. rewrite length_take in L. lia. }
  rewrite Ecl. cbn [mbind option_bind].
  assert (forall nb' d', (d' = d \/ mxSafe = liveMxFrame env /\ d' = truncate nPage d) ->
    nb' = nBackfill c \/ rc = SQLITE_OK /\ nb' = mxSafe ->
    outcome c {| db := d'; nBackfill := nb'; nBackfillAttempted := mxSafe; aReadMark := aReadMark c; hdr_mxFrame := hdr_mxFrame c |} mxSafe) as O.
  { intros nb' d' Hd' Hnb'. split; [done|]. right. split; [done|]. split; [lia|]. exists rc, d. by split_and!. }
  destruct (Z.eqb_spec rc SQLITE_OK) as [Erc|Erc]; cbn [negb].
  - destruct (Z.eqb_spec mxSafe (liveMxFrame env)) as [El|El].
    + destruct (Z.eqb_spec (truncateRc env) SQLITE_OK) as [Et|Et].
      * eexists _, _. split; [done|]. split; [|intros He; destruct He as (_ & _ & _ & _ & _ & _ & _ & _ & ->); done].
        apply O; [by right|]. destruct (syncDb env =? SQLITE_OK); [by right|by left].
      * eexists _, _. split; [done|]. split; [|intros He; by destruct He as (_ & _ & _ & _ & _ & _ & _ & He & _)].
        replace (truncateRc env =? SQLITE_OK) with false by lia. apply O; by left.
    + eexists _, _. split; [done|]. split; [|done]. change (SQLITE_OK =? SQLITE_OK) with true. apply O; [by left|by right].
  - eexists _, _. split; [done|]. split; [apply O; by left|]. intros (_ & _ & _ & _ & Hi & Hr & Hw & _).
    destruct Erc. by eapply copy_loop_ok.
Qed.

(** The first part: the frames up to [mxSafe], which no reader with a lock on the
    log needs in the file as it was. *)
Lemma ckpt_copy_spec szPage c : 0 <= nBackfill c <= M -> length (aReadMark c) = 5%nat ->
  exists rc go c1 mxSafe, ckpt_copy shmMap env w wal szPage nPage c = Some (rc, go, c1) /\ outcome c c1 mxSafe /\
    (forall k, 1 <= k <= 4 -> busyLock env k <> SQLITE_OK -> db c1 = db c \/ mxSafe <= arr (aReadMark c) k) /\
    (env_ok szPage -> rc = SQLITE_OK /\ go = true /\ nBackfill c1 = M).
Proof.
  intros Hnb Hlm. unfold ckpt_copy. rewrite Hmx. destruct (Z.ltb_spec (nBackfill c) M) as [Hlt|Hge]; cbn [negb].
  2: { exists SQLITE_OK, true, c, 0. split; [done|]. split; [by split; [|left]|]. split; [by left|]. intros _. split_and!; [done|done|lia]. }
  destruct (mark_loop env 4 1 (aReadMark c) M SQLITE_OK) as [[[marks mxSafe] rc] go] eqn:Em.
  apply mark_loop_spec in Em as (M1 & M2 & M3); [|lia|lia].
  assert (forall c1, db c1 = db c -> nBackfill c1 = nBackfill c -> hdr_mxFrame c1 = hdr_mxFrame c -> outcome c c1 mxSafe) as Same
    by (intros; split; [done|by left]).
  destruct go; cbn [negb].
  2: { eexists _, _, _, mxSafe. split; [done|]. split; [by apply Same|]. split; [by left|]. intros (All & _). by destruct (M3 All). }
  set (c0 := {| db := db c; nBackfill := nBackfill c; nBackfillAttempted := nBackfillAttempted c; aReadMark := marks;
                hdr_mxFrame := hdr_mxFrame c |}).
  assert (forall k, 1 <= k <= 4 -> busyLock env k <> SQLITE_OK -> mxSafe <= arr (aReadMark c) k) as Safe
    by (intros; apply M2; (done || lia)).
  change (nBackfill c0) with (nBackfill c). destruct (Z.ltb_spec (nBackfill c) mxSafe) as [Hs|Hs].
  2: { cbn [mbind option_bind]. eexists _, _, _, mxSafe. split; [done|]. split; [by apply Same|]. split; [by left|].
       intros (All & _). destruct (M3 All) as [_ ->]. lia. }
  destruct (alloc env) eqn:Ea.
  2: { cbn [mbind option_bind walIteratorInit negb]. eexists _, _, _, mxSafe. split; [done|]. split; [by apply Same|]. split; [by left|].
       intros (_ & ? & _). congruence. }
  destruct (init_spec shmMap w pgs M Hok Hmx ltac:(lia) Hmax (nBackfill c) ltac:(lia)) as (it & -> & Hit).
  destruct (Z.eqb_spec (busyLock env 0) SQLITE_OK) as [E0|E0].
  2: { cbn [mbind option_bind]. eexists _, _, _, mxSafe. split; [done|]. split; [by apply Same|]. split; [by left|].
       intros (All & _). by rewrite All in E0. }
  destruct (backfill_spec szPage mxSafe it c0) as (rc' & c1 & -> & O & Oe); [cbn; lia|lia|done|done|].
  cbn [mbind option_bind]. eexists _, _, c1, mxSafe. split; [done|]. split; [exact O|]. split; [by right; apply Safe|].
  intros He. destruct (Oe He) as [-> ->]. split; [done|]. split; [done|]. by destruct (M3 (proj1 He)).
Qed.

(** *** Views *)

Lemma truncate_lookup (d : gmap Z Page) p : p <= nPage -> truncate nPage d !! p = d !! p.
Proof.
  intros Hp. unfold truncate. destruct (d !! p) as [x|] eqn:E.
  - by apply map_lookup_filter_Some.
  - apply map_lookup_filter_None. by left.
Qed.

Lemma outcome_pages c c1 mxSafe p : outcome c c1 mxSafe -> p <= nPage \/ mxSafe <> liveMxFrame env ->
  db c1 !! p = db c !! p \/ exists f, copied pgs (walFramePage (nBackfill c + 1)) M (nBackfill c) mxSafe nPage p f.
Proof.
  intros (_ & [[-> _]|(_ & _ & rc & d & (D1 & _) & Hd & _)]) Hp; [by left|].
  destruct Hd as [->|[El ->]]; [apply D1|]. destruct Hp as [Hp|]; [|done]. rewrite truncate_lookup by done. apply D1.
Qed.

(** A page in the window of a reader is read from the log. *)
Lemma view_from_log d d' lo hi p f : 1 <= lo -> lo <= f <= Z.of_nat hi -> frame pgs f = Some p ->
  view pgs wal d lo hi p = view pgs wal d' lo hi p.
Proof.
  intros Hlo Hf Ef. pose proof (last_frame_ge pgs p lo hi f Hlo Hf Ef). unfold view.
  by replace (last_frame pgs p lo hi =? 0) with false by lia.
Qed.

Lemma view_old_reader c c1 mxSafe lo hi p : outcome c c1 mxSafe -> 1 <= lo <= nBackfill c + 1 -> mxSafe <= Z.of_nat hi ->
  p <= nPage \/ mxSafe <> liveMxFrame env -> view pgs wal (db c1) lo hi p = view pgs wal (db c) lo hi p.
Proof.
  intros O Hlo Hhi Hp. destruct (outcome_pages c c1 mxSafe p O Hp) as [E|(f & Hf)]; [unfold view; by rewrite E|].
  destruct Hf as (_ & Ef & _ & Hf & _). apply (view_from_log _ _ _ _ _ f); (done || lia).
Qed.

Lemma view_new_reader c c1 mxSafe hi p : outcome c c1 mxSafe -> 0 <= nBackfill c <= M -> M <= Z.of_nat hi ->
  p <= nPage \/ M < last_frame pgs p 1 hi ->
  view pgs wal (db c1) (nBackfill c1 + 1) hi p = view pgs wal (db c) (nBackfill c + 1) hi p.
Proof.
  intros O Hnb Hhi Hp.
  assert (nBackfill c <= nBackfill c1 <= M) as Hnb1.
  { destruct O as (_ & [[_ ->]|(_ & ? & rc & d & _ & _ & [->|[_ ->]])]); lia. }
  destruct Hp as [Hp|Hp].
  2: { unfold view. rewrite (last_frame_shift pgs p 1 (nBackfill c1 + 1)), (last_frame_shift pgs p 1 (nBackfill c + 1)) by lia.
       replace (nBackfill c1 + 1 <=? last_frame pgs p 1 hi) with true by lia.
       replace (nBackfill c + 1 <=? last_frame pgs p 1 hi) with true by lia.
       by replace (last_frame pgs p 1 hi =? 0) with false by lia. }
  pose proof (outcome_pages c c1 mxSafe p O ltac:(by left)) as Op.
  destruct O as (_ & [[E1 E2]|(_ & Hsafe & rc & d & (D1 & D2 & _) & Hd & [En|[Erc En]])]); [by rewrite E1, E2| |].
  - rewrite En. destruct Op as [E|(f & _ & Ef & _ & Hf & _)]; [unfold view; by rewrite E|].
    apply (view_from_log _ _ _ _ _ f); (done || lia).
  - rewrite En. unfold view. rewrite (last_frame_shift pgs p (nBackfill c + 1) (mxSafe + 1)) by lia.
    destruct (last_frame_spec pgs p (nBackfill c + 1) hi ltac:(lia)) as [[-> Hn]|(H1 & H2 & H3)].
    + replace (mxSafe + 1 <=? 0) with false by lia. change (0 =? 0) with true. cbv iota.
      destruct Op as [E|(f & _ & Ef & _ & Hf & _)]; [done|]. by destruct (Hn f ltac:(lia)).
    + set (r := last_frame pgs p (nBackfill c + 1) hi) in *. destruct (Z.leb_spec (mxSafe + 1) r); [by replace (r =? 0) with false by lia|].
      change (0 =? 0) with true. replace (r =? 0) with false by lia. cbv iota.
      assert (db c1 !! p = d !! p) as -> by (destruct Hd as [->|[_ ->]]; [done|by apply truncate_lookup]).
      destruct (frame_block (nBackfill c + 1)) as [_ Hfb]; [lia|].
      apply (D2 Erc p r).
      * apply list_elem_of_lookup_2 in H2. rewrite Forall_forall in Hpages. by apply Hpages in H2 as [? _].
      * split_and!; [lia|lia|done|intros f' Hf'; apply H3; lia|lia|lia|done].
Qed.
End Outcome.

(** ** Properties *)

Section Post.
Context {Page : Type} (env : Env Page) (pgs : list Z) (wal : list Page) (M szPage nPage eMode : Z) (c : Ckpt Page).

(** What the theorem says of the result. *)
Definition ckpt_post (rc : Z) (c' : Ckpt Page) : Prop :=
    (forall lock lo hi p, 1 <= lock <= 4 -> busyLock env lock <> SQLITE_OK ->
       arr (aReadMark c) lock <= Z.of_nat hi <= liveMxFrame env -> 1 <= lo <= nBackfill c + 1 ->
       p <= nPage \/ Z.of_nat hi <> M ->
       view pgs wal (db c') lo hi p = view pgs wal (db c) lo hi p) /\
    (busyLock env 0 <> SQLITE_OK -> db c' = db c) /\
    (forall hi p, hdr_mxFrame c' <> 0 -> M <= Z.of_nat hi -> p <= nPage \/ M < last_frame pgs p 1 hi ->
       view pgs wal (db c') (nBackfill c' + 1) hi p = view pgs wal (db c) (nBackfill c + 1) hi p) /\
    (forall p, hdr_mxFrame c' = 0 -> p <= nPage ->
       db c' !! p = view pgs wal (db c) (nBackfill c + 1) (Z.to_nat M) p) /\
    (eMode = SQLITE_CHECKPOINT_PASSIVE -> env_ok env nPage szPage -> rc = SQLITE_OK /\ nBackfill c' = M).

Context (Hnb : 0 <= nBackfill c <= M) (Hlive : M <= liveMxFrame env <= Z.of_nat (length pgs)).
Context (Hhdr : hdr_mxFrame c = liveMxFrame env) (Hmax : Z.of_nat (length pgs) < max_frames).
Context (Hpages : Forall (fun p => 0 < p < MAX_PGNO) pgs) (Hlen : length wal = length pgs).

Lemma outcome_post rc c1 mxSafe : outcome env pgs wal M nPage c c1 mxSafe ->
  (forall k, 1 <= k <= 4 -> busyLock env k <> SQLITE_OK -> db c1 = db c \/ mxSafe <= arr (aReadMark c) k) ->
  (eMode = SQLITE_CHECKPOINT_PASSIVE -> env_ok env nPage szPage -> rc = SQLITE_OK /\ nBackfill c1 = M) ->
  ckpt_post rc c1.
Proof.
  intros O Safe Full. split_and!; [| | | |done].
  - intros lock lo hi p Hlock Hbusy Hmark Hlo Hpp. destruct (Safe lock Hlock Hbusy) as [->|Hs]; [done|].
    destruct (decide (mxSafe <= M)) as [HsM|HsM].
    + eapply view_old_reader; (eassumption || lia).
    + destruct O as (_ & [[-> _]|(_ & ? & _)]); [done|lia].
  - intros H0. by destruct O as (_ & [[? _]|(? & _)]).
  - intros hi p _ Hhi Hpp. eapply view_new_reader; try eassumption; lia.
  - intros p H0 Hpp. destruct O as (Oh & Oc). assert (M = 0) as HM0 by (rewrite Oh in H0; lia).
    destruct Oc as [[-> _]|(_ & ? & _)]; [by rewrite HM0|lia].
Qed.

(** Once every frame is copied the log can be restarted. *)
Lemma restart_post rc rc' c1 : eMode <> SQLITE_CHECKPOINT_PASSIVE -> M <= nBackfill c1 <= M ->
  hdr_mxFrame c1 = hdr_mxFrame c -> ckpt_post rc c1 -> ckpt_post rc' (walRestartHdr c1).
Proof.
  intros Hm Hn Hh (P1 & P2 & P3 & P4 & _). split_and!; [done|done|done| |done].
  intros p _ Hp. cbn [walRestartHdr db]. destruct (decide (hdr_mxFrame c1 = 0)) as [E|E]; [by apply P4|].
  rewrite <- (P3 (Z.to_nat M) p E ltac:(lia) (or_introl Hp)). unfold view.
  destruct (last_frame_spec pgs p (nBackfill c1 + 1) (Z.to_nat M) ltac:(lia)) as [[-> _]|(? & _)]; [done|lia].
Qed.
End Post.

(** C12. A checkpoint changes no reader's view of the database.  The checkpointer
    works with a header of [M] frames while the log may have grown beyond; its
    locks, reads, writes, synchronisations, allocations may fail and it may be
    interrupted at any page, leaving the page it was writing torn.  It always ends, and
    - a reader that holds a lock on a read mark up to its last frame [hi], and for
      which the log starts at [lo], reads every page as before;
    - while a reader holds the lock of those that ignore the log, the file is not
      changed;
    - a reader that starts afterwards, with the new number of copied frames, reads
      every page as one that had started before;
    - when the log is restarted, the file alone holds the state it had with the log;
    - when nothing fails and no reader holds a lock, all frames are copied. *)
Theorem checkpoint_preserves_views {Page : Type} (shmMap : Z -> Z) (env : Env Page) (w : Wal) (pgs : list Z)
    (wal : list Page) (M szPage nPage eMode : Z) (c : Ckpt Page) :
  reachable shmMap (w, pgs) -> Forall (fun p => p < MAX_PGNO) pgs -> length wal = length pgs ->
  0 <= nBackfill c <= M -> M <= liveMxFrame env <= Z.of_nat (length pgs) -> hdr_mxFrame c = liveMxFrame env ->
  length (aReadMark c) = 5%nat ->
  exists rc c', walCheckpoint shmMap env (set_mxFrame w M) wal szPage nPage eMode c = Some (rc, c') /\
    (forall lock lo hi p, 1 <= lock <= 4 -> busyLock env lock <> SQLITE_OK ->
       arr (aReadMark c) lock <= Z.of_nat hi <= liveMxFrame env -> 1 <= lo <= nBackfill c + 1 ->
       p <= nPage \/ Z.of_nat hi <> M ->
       view pgs wal (db c') lo hi p = view pgs wal (db c) lo hi p) /\
    (busyLock env 0 <> SQLITE_OK -> db c' = db c) /\
    (forall hi p, hdr_mxFrame c' <> 0 -> M <= Z.of_nat hi -> p <= nPage \/ M < last_frame pgs p 1 hi ->
       view pgs wal (db c') (nBackfill c' + 1) hi p = view pgs wal (db c) (nBackfill c + 1) hi p) /\
    (forall p, hdr_mxFrame c' = 0 -> p <= nPage ->
       db c' !! p = view pgs wal (db c) (nBackfill c + 1) (Z.to_nat M) p) /\
    (eMode = SQLITE_CHECKPOINT_PASSIVE -> env_ok env nPage szPage -> rc = SQLITE_OK /\ nBackfill c' = M).
Proof.
  change (reachable shmMap (w, pgs) -> Forall (fun p => p < MAX_PGNO) pgs -> length wal = length pgs ->
    0 <= nBackfill c <= M -> M <= liveMxFrame env <= Z.of_nat (length pgs) -> hdr_mxFrame c = liveMxFrame env ->
    length (aReadMark c) = 5%nat -> exists rc c', walCheckpoint shmMap env (set_mxFrame w M) wal szPage nPage eMode c = Some (rc, c') /\
    ckpt_post env pgs wal M szPage nPage eMode c rc c').
  intros R Hp Hl Hnb Hlive Hhdr Hlm. destruct (wal_reachable_inv shmMap _ R) as (Hok & _ & Hpo & Hmax). cbn [fst snd] in *.
  assert (Forall (fun p => 0 < p < MAX_PGNO) pgs) as Hpages.
  { rewrite Forall_forall in *. intros p Hin. specialize (Hp p Hin). specialize (Hpo p Hin). cbn in *. lia. }
  assert (index_ok shmMap (set_mxFrame w M) pgs) as Hok' by (by eapply index_ok_fields).
  destruct (ckpt_copy_spec env pgs wal M nPage shmMap (set_mxFrame w M) Hok' eq_refl Hl ltac:(lia) Hmax Hpages szPage c Hnb Hlm)
    as (rc & go & c1 & mxSafe & E & O & Safe & Full).
  unfold walCheckpoint. rewrite E. cbn [mbind option_bind set_mxFrame mxFrame].
  assert (forall rc', (eMode = SQLITE_CHECKPOINT_PASSIVE -> env_ok env nPage szPage -> rc' = SQLITE_OK /\ nBackfill c1 = M) ->
    ckpt_post env pgs wal M szPage nPage eMode c rc' c1) as Post by (intros; by apply (outcome_post _ _ _ _ _ _ _ c Hnb Hlive Hhdr Hmax Hpages Hl _ c1 mxSafe)).
  destruct (Z.eqb_spec eMode SQLITE_CHECKPOINT_PASSIVE) as [Em|Em]; cbn [negb].
  { rewrite andb_false_r. exists rc, c1. split; [done|]. apply Post. intros _ He. by destruct (Full He) as (? & _ & ?). }
  rewrite andb_true_r. destruct (go && (rc =? SQLITE_OK)); [|exists rc, c1; split; [done|]; by apply Post].
  destruct (Z.ltb_spec (nBackfill c1) M) as [Hlt|Hge]; [exists SQLITE_BUSY, c1; split; [done|]; by apply Post|].
  destruct (SQLITE_CHECKPOINT_RESTART <=? eMode); [|exists SQLITE_OK, c1; split; [done|]; by apply Post].
  destruct (busyLockAll env =? SQLITE_OK); [|eexists _, c1; split; [done|]; by apply Post].
  destruct (eMode =? SQLITE_CHECKPOINT_TRUNCATE); [|exists SQLITE_OK, c1; split; [done|]; by apply Post].
  eexists _, _. split; [done|]. destruct O as (Oh & Oc). eapply (restart_post _ _ _ _ _ _ _ _ Hnb Hlive Hhdr Hl SQLITE_OK); [done| |done|by apply Post].
  destruct Oc as [[_ ?]|(_ & ? & _ & _ & _ & _ & [?|[_ ?]])]; lia.
Qed.

(** Three frames for pages 1, 2, 1; the second read mark is held by a reader of
    the first two, the others are free. *)
Definition example_env : Env Z :=
  {| busyLock := fun k => if k =? 2 then SQLITE_BUSY else SQLITE_OK; busyLockAll := SQLITE_OK; alloc := true;
     syncWal := SQLITE_OK; fileSize := Ok 8192; interrupted := fun _ => false; readRc := fun _ => SQLITE_OK;
     writeRc := fun _ => SQLITE_OK; torn := fun _ => None; truncateRc := SQLITE_OK; syncDb := SQLITE_OK;
     truncateWal := SQLITE_OK; mallocFailed := false; liveMxFrame := 3 |}.

Definition example_ckpt : Ckpt Z :=
  {| db := <[1 := 100]> (<[2 := 200]> ∅); nBackfill := 0; nBackfillAttempted := 0;
     aReadMark := [0; 3; 2; READMARK_NOT_USED; READMARK_NOT_USED]; hdr_mxFrame := 3 |}.

Lemma checkpoint_preserves_views_witness :
  exists rc c', walCheckpoint (fun _ => 0) example_env (set_mxFrame (fst (run [Frames [1; 2; 1]])) 3) [101; 201; 102] 4096 2
      SQLITE_CHECKPOINT_PASSIVE example_ckpt = Some (rc, c') /\
    view [1; 2; 1] [101; 201; 102] (db c') 1 2 1 = Some 101 /\
    (hdr_mxFrame c' <> 0 -> view [1; 2; 1] [101; 201; 102] (db c') (nBackfill c' + 1) 3 1 = Some 102).
Proof.
  assert (reachable (fun _ => 0) (run [])) as R0 by (apply reach_init; reflexivity).
  assert (reachable (fun _ => 0) (run [Frames [1; 2; 1]])) as R1.
  { apply (run_reachable [] (Frames [1; 2; 1]) []); [exact R0|reflexivity|]. split; [repeat constructor; lia|reflexivity]. }
  assert (snd (run [Frames [1; 2; 1]]) = [1; 2; 1]) as E by (vm_compute; reflexivity).
  revert R1 E. generalize (run [Frames [1; 2; 1]]). intros [w l] R E. cbn [snd fst] in *. subst l.
  destruct (checkpoint_preserves_views (fun _ => 0) example_env w [1; 2; 1] [101; 201; 102] 3 4096 2 SQLITE_CHECKPOINT_PASSIVE
    example_ckpt) as (rc & c' & Ec & P1 & P2 & P3 & P4 & P5).
  - exact R.
  - repeat constructor; vm_compute; reflexivity.
  - reflexivity.
  - cbn. lia.
  - cbn. lia.
  - reflexivity.
  - reflexivity.
  - exists rc, c'. split; [exact Ec|]. split.
    + rewrite (P1 2 1 2%nat 1); [reflexivity|lia|discriminate|split; intros [=]|split; intros [=]|left; lia].
    + intros Eh. rewrite (P3 3%nat 1 Eh); [reflexivity|lia|lia].
Defined.
