(* ===== verification/WalLog.v ===== *)
(** * The log file of write-ahead logging (wal.c of the engine)

    Checksums ([walChecksumBytes]), the header and the frames of the file
    ([walEncodeFrame], [walDecodeFrame]), writing ([sqlite3WalFrames] with
    [walRestartLog], [walRewriteChecksums], padding and size limit), rolling back
    ([sqlite3WalUndo], [sqlite3WalEndWriteTransaction]).

    The file is a list of bytes.  Every call of the operating system takes its
    result code from [io_rc]; a write that fails leaves any prefix of its bytes,
    which is also what an interruption during that write leaves. *)

From S2P Require Import Prelude Bits Varint WalIndex.
From stdpp Require Import gmap.

#[local] Open Scope Z_scope.
Local Open Scope c_scope.

Definition WAL_MAGIC : Z := 0x377f0682.
Definition WAL_MAX_VERSION : Z := 3007000.
Definition WALINDEX_MAX_VERSION : Z := 3007000.
Definition WAL_HDRSIZE : Z := 32.
Definition WAL_FRAME_HDRSIZE : Z := 24.
Definition SQLITE_BUSY : Z := 5.
Definition SQLITE_NOMEM : Z := 7.
Definition SQLITE_IOERR_SHORT_READ : Z := 522.

Definition walFrameOffset (iFrame szPage : Z) : Z := WAL_HDRSIZE + (iFrame - 1) * (szPage + WAL_FRAME_HDRSIZE).

(** [sqlite3Get4byte(&a[i])], and [n] bytes of [a] from [i]. *)
Definition Get4byte (a : list Z) (i : nat) : Z := Reader.sqlite3Get4byte (fun j => nth (i + j) a 0).
Definition Put4byte (v : Z) : list Z := Writer.sqlite3Put4byte v.
Definition slice (a : list Z) (i n : nat) : list Z := take n (drop i a).

(** ** Checksums *)

(** A word in memory, by the byte order of the machine. *)
Definition native_u32 (big : bool) (b0 b1 b2 b3 : Z) : Z :=
  if big then (b0 << 24) ||| (b1 << 16) ||| (b2 << 8) ||| b3 else (b3 << 24) ||| (b2 << 16) ||| (b1 << 8) ||| b0.
Definition native_bytes (big : bool) (v : Z) : list Z :=
  if big then [u8 (v >> 24); u8 (v >> 16); u8 (v >> 8); u8 v] else [u8 v; u8 (v >> 8); u8 (v >> 16); u8 (v >> 24)].
Definition BYTESWAP32 (x : Z) : Z :=
  u32 ((x & 0xFF) << 24) + ((x & 0xFF00) << 8) + ((x & 0xFF0000) >> 8) + ((x & 0xFF000000) >> 24).

Definition cksum : Type := Z * Z.

(** Both loops of [walChecksumBytes]; the length is a multiple of 8. *)
Fixpoint walChecksumBytes (SQLITE_BIGENDIAN nativeCksum : bool) (a : list Z) (aIn : cksum) : cksum :=
  match a with
  | b0 :: b1 :: b2 :: b3 :: b4 :: b5 :: b6 :: b7 :: a =>
      let word (x : Z) := if nativeCksum then x else BYTESWAP32 x in
      let s1 := u32 (fst aIn + u32 (word (native_u32 SQLITE_BIGENDIAN b0 b1 b2 b3) + snd aIn)) in
      let s2 := u32 (snd aIn + u32 (word (native_u32 SQLITE_BIGENDIAN b4 b5 b6 b7) + s1)) in
      walChecksumBytes SQLITE_BIGENDIAN nativeCksum a (s1, s2)
  | _ => aIn
  end.

(** ** The header of the wal-index, and a connection to the log *)

Record WalIndexHdr : Type := {
  iVersion : Z; unused : Z; iChange : Z; isInit : Z; bigEndCksum : bool; hdr_szPage : Z;
  hdr_mxFrame : Z; nPage : Z; aFrameCksum : cksum; aSalt : list Z; aCksum : cksum }.

#[export] Instance WalIndexHdr_eq_dec : EqDecision WalIndexHdr.
Proof. solve_decision. Defined.

(** [live] is the header in shared memory, [shm] the rest of the wal-index, [file]
    the log file; [io] counts the calls of the operating system. *)
Record Log : Type := {
  hdr : WalIndexHdr; live : WalIndexHdr; shm : gmap Z WalBlock; file : list Z; szPage : Z; nCkpt : Z;
  iReCksum : Z; truncateOnCommit : bool; log_minFrame : Z; log_readLock : Z;
  nBackfill : Z; nBackfillAttempted : Z; aReadMark : list Z; io : nat }.

(** The operating system and the settings of the connection. *)
Record Env : Type := {
  SQLITE_BIGENDIAN : bool;
  io_rc : nat -> Z;                (* result of each call *)
  io_part : nat -> nat;            (* bytes written by a write that fails *)
  io_junk : nat -> list Z;         (* buffer after a read that fails *)
  randomness : nat -> list Z;
  shmMap : Z -> Z;                 (* result of mapping a page of the wal-index *)
  alloc : bool;
  begin_read : Z -> Z;             (* the read lock [walTryBeginRead] takes *)
  sectorSize : Z;
  mxWalSize : Z; padToSectorBoundary : bool; syncHeader : bool }.

Definition set_hdr (l : Log) (h : WalIndexHdr) : Log :=
  {| hdr := h; live := live l; shm := shm l; file := file l; szPage := szPage l; nCkpt := nCkpt l; iReCksum := iReCksum l;
     truncateOnCommit := truncateOnCommit l; log_minFrame := log_minFrame l; log_readLock := log_readLock l;
     nBackfill := nBackfill l; nBackfillAttempted := nBackfillAttempted l; aReadMark := aReadMark l; io := io l |}.
Definition set_live (l : Log) (h : WalIndexHdr) : Log :=
  {| hdr := hdr l; live := h; shm := shm l; file := file l; szPage := szPage l; nCkpt := nCkpt l; iReCksum := iReCksum l;
     truncateOnCommit := truncateOnCommit l; log_minFrame := log_minFrame l; log_readLock := log_readLock l;
     nBackfill := nBackfill l; nBackfillAttempted := nBackfillAttempted l; aReadMark := aReadMark l; io := io l |}.
Definition set_shm (l : Log) (m : gmap Z WalBlock) : Log :=
  {| hdr := hdr l; live := live l; shm := m; file := file l; szPage := szPage l; nCkpt := nCkpt l; iReCksum := iReCksum l;
     truncateOnCommit := truncateOnCommit l; log_minFrame := log_minFrame l; log_readLock := log_readLock l;
     nBackfill := nBackfill l; nBackfillAttempted := nBackfillAttempted l; aReadMark := aReadMark l; io := io l |}.
Definition set_file (l : Log) (f : list Z) : Log :=
  {| hdr := hdr l; live := live l; shm := shm l; file := f; szPage := szPage l; nCkpt := nCkpt l; iReCksum := iReCksum l;
     truncateOnCommit := truncateOnCommit l; log_minFrame := log_minFrame l; log_readLock := log_readLock l;
     nBackfill := nBackfill l; nBackfillAttempted := nBackfillAttempted l; aReadMark := aReadMark l; io := io l |}.
Definition set_size (l : Log) (sz ckpt : Z) : Log :=
  {| hdr := hdr l; live := live l; shm := shm l; file := file l; szPage := sz; nCkpt := ckpt; iReCksum := iReCksum l;
     truncateOnCommit := truncateOnCommit l; log_minFrame := log_minFrame l; log_readLock := log_readLock l;
     nBackfill := nBackfill l; nBackfillAttempted := nBackfillAttempted l; aReadMark := aReadMark l; io := io l |}.
Definition set_txn (l : Log) (k : Z) (t : bool) : Log :=
  {| hdr := hdr l; live := live l; shm := shm l; file := file l; szPage := szPage l; nCkpt := nCkpt l; iReCksum := k;
     truncateOnCommit := t; log_minFrame := log_minFrame l; log_readLock := log_readLock l;
     nBackfill := nBackfill l; nBackfillAttempted := nBackfillAttempted l; aReadMark := aReadMark l; io := io l |}.
Definition set_lock (l : Log) (mn lock : Z) : Log :=
  {| hdr := hdr l; live := live l; shm := shm l; file := file l; szPage := szPage l; nCkpt := nCkpt l; iReCksum := iReCksum l;
     truncateOnCommit := truncateOnCommit l; log_minFrame := mn; log_readLock := lock;
     nBackfill := nBackfill l; nBackfillAttempted := nBackfillAttempted l; aReadMark := aReadMark l; io := io l |}.
Definition set_ckpt (l : Log) (bf att : Z) (marks : list Z) : Log :=
  {| hdr := hdr l; live := live l; shm := shm l; file := file l; szPage := szPage l; nCkpt := nCkpt l; iReCksum := iReCksum l;
     truncateOnCommit := truncateOnCommit l; log_minFrame := log_minFrame l; log_readLock := log_readLock l;
     nBackfill := bf; nBackfillAttempted := att; aReadMark := marks; io := io l |}.
Definition tick (l : Log) : Log :=
  {| hdr := hdr l; live := live l; shm := shm l; file := file l; szPage := szPage l; nCkpt := nCkpt l; iReCksum := iReCksum l;
     truncateOnCommit := truncateOnCommit l; log_minFrame := log_minFrame l; log_readLock := log_readLock l;
     nBackfill := nBackfill l; nBackfillAttempted := nBackfillAttempted l; aReadMark := aReadMark l; io := S (io l) |}.

Definition with_cksum (h : WalIndexHdr) (c : cksum) : WalIndexHdr :=
  {| iVersion := iVersion h; unused := unused h; iChange := iChange h; isInit := isInit h; bigEndCksum := bigEndCksum h;
     hdr_szPage := hdr_szPage h; hdr_mxFrame := hdr_mxFrame h; nPage := nPage h; aFrameCksum := c; aSalt := aSalt h;
     aCksum := aCksum h |}.

(** The fields of [Wal] that the index uses. *)
Definition to_wal (l : Log) : Wal :=
  {| apWiData := shm l; mxFrame := hdr_mxFrame (hdr l); minFrame := log_minFrame l; readLock := log_readLock l;
     bShmUnreliable := false |}.

(** ** Calls of the operating system

    A computation that may stop with an error code; the log keeps what was done
    until then. *)
Definition M (A : Type) : Type := Log -> res Z A * Log.
#[export] Instance M_ret : MRet M := fun A a l => (Ok a, l).
#[export] Instance M_bind : MBind M := fun A B k m l =>
  let '(r, l) := m l in match r with Ok a => k a l | Throw rc => (Throw rc, l) end.

Definition mget : M Log := fun l => (Ok l, l).
Definition mput (f : Log -> Log) : M unit := fun l => (Ok tt, f l).
Definition raise {A} (rc : Z) : M A := fun l => (Throw rc, l).

(** Writing [a] at offset [o] of a file. *)
Definition write_at (f : list Z) (o : nat) (a : list Z) : list Z :=
  if (length a =? 0)%nat then f else take o f ++ replicate (o - length f) 0 ++ a ++ drop (o + length a) f.

Section Log.
Context (env : Env).

Definition os_call : M Z := fun l => (Ok (io_rc env (io l)), tick l).
Definition OsSync : M unit := rc ← os_call; if rc =? SQLITE_OK then mret tt else raise rc.
Definition OsWrite (a : list Z) (iOffset : Z) : M unit :=
  l ← mget; rc ← os_call;
  if rc =? SQLITE_OK then mput (fun l => set_file l (write_at (file l) (Z.to_nat iOffset) a))
  else
    mput (fun l' => set_file l' (write_at (file l') (Z.to_nat iOffset) (take (io_part env (io l)) a)));;
    raise rc.
(** The result code and the buffer. *)
Definition OsRead (iAmt : nat) (iOffset : Z) : M (Z * list Z) :=
  l ← mget; rc ← os_call;
  if negb (rc =? SQLITE_OK) then mret (rc, io_junk env (io l))
  else
    let a := slice (file l) (Z.to_nat iOffset) iAmt in
    if (length a <? iAmt)%nat then mret (SQLITE_IOERR_SHORT_READ, a ++ replicate (iAmt - length a) 0)
    else mret (SQLITE_OK, a).

(** ** The shared header *)

(** The bytes of the header before [aCksum]. *)
Definition index_hdr_bytes (h : WalIndexHdr) : list Z :=
  let w := native_bytes (SQLITE_BIGENDIAN env) in
  let b := if SQLITE_BIGENDIAN env then [u8 (hdr_szPage h >> 8); u8 (hdr_szPage h)]
           else [u8 (hdr_szPage h); u8 (hdr_szPage h >> 8)] in
  w (iVersion h) ++ w (unused h) ++ w (iChange h) ++ [isInit h; Z.b2z (bigEndCksum h)] ++ b ++ w (hdr_mxFrame h) ++
  w (nPage h) ++ w (fst (aFrameCksum h)) ++ w (snd (aFrameCksum h)) ++ aSalt h.

Definition walIndexWriteHdr (l : Log) : Log :=
  let h := hdr l in
  let h := {| iVersion := WALINDEX_MAX_VERSION; unused := unused h; iChange := iChange h; isInit := 1;
              bigEndCksum := bigEndCksum h; hdr_szPage := hdr_szPage h; hdr_mxFrame := hdr_mxFrame h; nPage := nPage h;
              aFrameCksum := aFrameCksum h; aSalt := aSalt h; aCksum := aCksum h |} in
  let h := {| iVersion := iVersion h; unused := unused h; iChange := iChange h; isInit := isInit h;
              bigEndCksum := bigEndCksum h; hdr_szPage := hdr_szPage h; hdr_mxFrame := hdr_mxFrame h; nPage := nPage h;
              aFrameCksum := aFrameCksum h; aSalt := aSalt h;
              aCksum := walChecksumBytes (SQLITE_BIGENDIAN env) true (index_hdr_bytes h) (0, 0) |} in
  set_live (set_hdr l h) h.

(** ** Frames *)

Definition walEncodeFrame (l : Log) (iPage nTruncate : Z) (aData : list Z) : list Z * Log :=
  let h8 := Put4byte iPage ++ Put4byte nTruncate in
  if iReCksum l =? 0 then
    let nativeCksum := Bool.eqb (bigEndCksum (hdr l)) (SQLITE_BIGENDIAN env) in
    let c := walChecksumBytes (SQLITE_BIGENDIAN env) nativeCksum h8 (aFrameCksum (hdr l)) in
    let c := walChecksumBytes (SQLITE_BIGENDIAN env) nativeCksum aData c in
    (h8 ++ aSalt (hdr l) ++ Put4byte (fst c) ++ Put4byte (snd c), set_hdr l (with_cksum (hdr l) c))
  else (h8 ++ replicate 16 0, l).

(** Page number and size after commit, and the log with the checksum so far. *)
Definition walDecodeFrame (l : Log) (aFrame aData : list Z) : option (Z * Z) * Log :=
  if negb (bool_decide (slice aFrame 8 8 = aSalt (hdr l))) then (None, l)
  else
    let pgno := Get4byte aFrame 0 in
    if pgno =? 0 then (None, l)
    else
      let nativeCksum := Bool.eqb (bigEndCksum (hdr l)) (SQLITE_BIGENDIAN env) in
      let c := walChecksumBytes (SQLITE_BIGENDIAN env) nativeCksum (slice aFrame 0 8) (aFrameCksum (hdr l)) in
      let c := walChecksumBytes (SQLITE_BIGENDIAN env) nativeCksum aData c in
      let l := set_hdr l (with_cksum (hdr l) c) in
      if negb (fst c =? Get4byte aFrame 16) || negb (snd c =? Get4byte aFrame 20) then (None, l)
      else (Some (pgno, Get4byte aFrame 4), l).

(** A dirty page. *)
Record PgHdr : Type := { pgno : Z; pData : list Z }.

(** [iSyncPoint] is the offset at which to sync, 0 for none. *)
Definition walWriteToLog (iSyncPoint : Z) (pContent : list Z) (iOffset : Z) : M unit :=
  let iAmt := Z.of_nat (length pContent) in
  if (iOffset <? iSyncPoint) && (iSyncPoint <=? iOffset + iAmt) then
    let iFirstAmt := iSyncPoint - iOffset in
    OsWrite (take (Z.to_nat iFirstAmt) pContent) iOffset;;
    let iOffset := iOffset + iFirstAmt in
    let iAmt := iAmt - iFirstAmt in
    let pContent := drop (Z.to_nat iFirstAmt) pContent in
    OsSync;;
    if iAmt =? 0 then mret tt else OsWrite pContent iOffset
  else OsWrite pContent iOffset.

Definition walWriteOneFrame (iSyncPoint : Z) (pPage : PgHdr) (nTruncate iOffset : Z) : M unit :=
  l ← mget;
  let '(aFrame, l) := walEncodeFrame l (pgno pPage) nTruncate (pData pPage) in
  mput (fun _ => l);;
  walWriteToLog iSyncPoint aFrame iOffset;;
  walWriteToLog iSyncPoint (pData pPage) (iOffset + WAL_FRAME_HDRSIZE).

Fixpoint rewrite_loop (n : nat) (iRead : Z) : M unit :=
  match n with
  | O => mret tt
  | S n =>
      l ← mget;
      let iOff := walFrameOffset iRead (szPage l) in
      r ← OsRead (Z.to_nat (szPage l + WAL_FRAME_HDRSIZE)) iOff;
      let '(rc, aBuf) := r in
      if negb (rc =? SQLITE_OK) then raise rc
      else
        let iPgno := Get4byte aBuf 0 in
        let nDbSize := Get4byte aBuf 4 in
        l ← mget;
        let '(aFrame, l) := walEncodeFrame l iPgno nDbSize (slice aBuf 24 (Z.to_nat (szPage l))) in
        mput (fun _ => l);;
        OsWrite aFrame iOff;;
        rewrite_loop n (iRead + 1)
  end.

Definition walRewriteChecksums (iLast : Z) : M unit :=
  if negb (alloc env) then raise SQLITE_NOMEM
  else
    l ← mget;
    let iCksumOff := if iReCksum l =? 1 then 24 else walFrameOffset (iReCksum l - 1) (szPage l) + 16 in
    r ← OsRead 8 iCksumOff;
    let '(rc, aBuf) := r in
    mput (fun l => set_hdr l (with_cksum (hdr l) (Get4byte aBuf 0, Get4byte aBuf 4)));;
    let iRead := iReCksum l in
    mput (fun l => set_txn l 0 (truncateOnCommit l));;
    if negb (rc =? SQLITE_OK) then raise rc
    else rewrite_loop (Z.to_nat (iLast - iRead + 1)) iRead.

(** ** Restarting the log *)

Definition walRestartHdr (salt1 : list Z) (l : Log) : Log :=
  let h := hdr l in
  let l := set_size l (szPage l) (u32 (nCkpt l + 1)) in
  let l := set_hdr l {| iVersion := iVersion h; unused := unused h; iChange := iChange h; isInit := isInit h;
                        bigEndCksum := bigEndCksum h; hdr_szPage := hdr_szPage h; hdr_mxFrame := 0; nPage := nPage h;
                        aFrameCksum := aFrameCksum h;
                        aSalt := Put4byte (u32 (1 + Get4byte (aSalt h) 0)) ++ take 4 salt1; aCksum := aCksum h |} in
  let l := walIndexWriteHdr l in
  set_ckpt l 0 0 (arr (aReadMark l) 0 :: 0 :: replicate 3 0xffffffff).

(** The exclusive lock fails when a reader still uses the log.  Then a read lock
    on the current end of the log is taken ([walTryBeginRead]). *)
Definition walRestartLog : M unit :=
  l ← mget;
  if log_readLock l =? 0 then
    (if 0 <? nBackfill l then
       rc ← os_call;
       if rc =? SQLITE_OK then mput (walRestartHdr (randomness env (io l)))
       else if negb (rc =? SQLITE_BUSY) then raise rc else mret tt
     else mret tt);;
    rc ← os_call;
    if negb (rc =? SQLITE_OK) then mput (fun l => set_lock l (log_minFrame l) (-1));; raise rc
    else mput (fun l => set_lock l (nBackfill l + 1) (begin_read env (hdr_mxFrame (hdr l))))
  else mret tt.

(** ** [sqlite3WalFrames] *)

(** The header of the file, before the first frame is written. *)
Definition write_wal_header (sz : Z) : M unit :=
  l ← mget;
  let salt := if nCkpt l =? 0 then take 8 (randomness env (io l)) else aSalt (hdr l) in
  let aWalHdr := Put4byte (WAL_MAGIC ||| Z.b2z (SQLITE_BIGENDIAN env)) ++ Put4byte WAL_MAX_VERSION ++ Put4byte sz ++
                 Put4byte (nCkpt l) ++ salt in
  let aCk := walChecksumBytes (SQLITE_BIGENDIAN env) true aWalHdr (0, 0) in
  mput (fun l =>
    let h := hdr l in
    set_txn (set_size (set_hdr l
      {| iVersion := iVersion h; unused := unused h; iChange := iChange h; isInit := isInit h;
         bigEndCksum := SQLITE_BIGENDIAN env; hdr_szPage := hdr_szPage h; hdr_mxFrame := hdr_mxFrame h; nPage := nPage h;
         aFrameCksum := aCk; aSalt := salt; aCksum := aCksum h |}) sz (nCkpt l)) (iReCksum l) true);;
  OsWrite (aWalHdr ++ Put4byte (fst aCk) ++ Put4byte (snd aCk)) 0;;
  if syncHeader env then OsSync else mret tt.

(** The loop over the dirty pages: a page that the transaction has written
    before is overwritten in place, except a last page that commits.  The result is
    the last frame, the next offset and the pages that were appended. *)
Fixpoint write_frames (iFirst : Z) (isCommit : bool) (nTruncate : Z) (pList : list PgHdr) (iFrame iOffset : Z)
    (appended : list PgHdr) : M (Z * Z * list PgHdr) :=
  match pList with
  | [] => mret (iFrame, iOffset, appended)
  | p :: pDirty =>
      l ← mget;
      let last := match pDirty with [] => true | _ => false end in
      let iWrite :=
        if negb (iFirst =? 0) && (negb last || negb isCommit) then
          match sqlite3WalFindFrame (shmMap env) (to_wal l) (pgno p) with Ok iWrite => iWrite | Throw _ => 0 end
        else 0 in
      if negb (iFirst =? 0) && (negb last || negb isCommit) && (iFirst <=? iWrite) then
        let iOff := walFrameOffset iWrite (szPage l) + WAL_FRAME_HDRSIZE in
        mput (fun l => if (iReCksum l =? 0) || (iWrite <? iReCksum l) then set_txn l iWrite (truncateOnCommit l) else l);;
        OsWrite (pData p) iOff;;
        write_frames iFirst isCommit nTruncate pDirty iFrame iOffset appended
      else
        let nDbSize := if isCommit && last then nTruncate else 0 in
        walWriteOneFrame 0 p nDbSize iOffset;;
        write_frames iFirst isCommit nTruncate pDirty (iFrame + 1) (iOffset + (szPage l + WAL_FRAME_HDRSIZE))
          (appended ++ [p])
  end.

(** Copies of the last frame up to the next sector boundary. *)
Fixpoint pad_loop (fuel : nat) (iSyncPoint : Z) (pLast : PgHdr) (nTruncate iOffset : Z) (nExtra : nat) : M nat :=
  match fuel with
  | O => mret nExtra
  | S fuel =>
      if iOffset <? iSyncPoint then
        l ← mget;
        walWriteOneFrame iSyncPoint pLast nTruncate iOffset;;
        pad_loop fuel iSyncPoint pLast nTruncate (iOffset + (szPage l + WAL_FRAME_HDRSIZE)) (S nExtra)
      else mret nExtra
  end.

(** The result of the sync is looked at only later. *)
Definition pad_and_sync (sync : bool) (pLast : PgHdr) (nTruncate iOffset : Z) : M (Z * nat) :=
  if negb sync then mret (SQLITE_OK, 0%nat)
  else
    let iSyncPoint := if padToSectorBoundary env then (iOffset + sectorSize env - 1) / sectorSize env * sectorSize env
                      else iOffset in
    nExtra ← pad_loop (Z.to_nat (iSyncPoint - iOffset)) iSyncPoint pLast nTruncate iOffset 0;
    rc ← (if iSyncPoint =? iOffset then os_call else mret SQLITE_OK);
    mret (rc, nExtra).

Definition walLimitSize (nMax : Z) : M unit :=
  rx ← os_call;
  l ← mget;
  if (rx =? SQLITE_OK) && (nMax <? Z.of_nat (length (file l))) then
    rx ← os_call;
    if rx =? SQLITE_OK then mput (fun l => set_file l (take (Z.to_nat nMax) (file l))) else mret tt
  else mret tt.

Definition limit_size (iFrame : Z) : M unit :=
  l ← mget;
  if truncateOnCommit l && (0 <=? mxWalSize env) then
    let sz := walFrameOffset (iFrame + 1) (szPage l) in
    walLimitSize (if mxWalSize env <? sz then sz else mxWalSize env);;
    mput (fun l => set_txn l (iReCksum l) false)
  else mret tt.

(** The header after the frames were added to the index. *)
Definition publish (iFrame nTruncate : Z) (isCommit : bool) (l : Log) : Log :=
  let h := hdr l in
  let l := set_hdr l
    {| iVersion := iVersion h; unused := unused h; iChange := if isCommit then u32 (iChange h + 1) else iChange h;
       isInit := isInit h; bigEndCksum := bigEndCksum h; hdr_szPage := u16 ((szPage l & 0xff00) ||| (szPage l >> 16));
       hdr_mxFrame := iFrame; nPage := if isCommit then nTruncate else nPage h; aFrameCksum := aFrameCksum h;
       aSalt := aSalt h; aCksum := aCksum h |} in
  if isCommit then walIndexWriteHdr l else l.

(** The rest of [sqlite3WalFrames], after the header; [sync] is
    [WAL_SYNC_FLAGS(sync_flags) != 0]. *)
Definition frames_tail (iFirst iFrame sz : Z) (pList : list PgHdr) (nTruncate : Z) (isCommit sync : bool) : M unit :=
  r ← write_frames iFirst isCommit nTruncate pList iFrame (walFrameOffset (iFrame + 1) sz) [];
  let '(iFrame, iOffset, appended) := r in
  l ← mget;
  (if isCommit && negb (iReCksum l =? 0) then walRewriteChecksums iFrame else mret tt);;
  let pLast := default {| pgno := 0; pData := [] |} (last appended) in
  r ← pad_and_sync (isCommit && sync) pLast nTruncate iOffset;
  let '(rc, nExtra) := r in
  (if isCommit then limit_size (iFrame + Z.of_nat nExtra) else mret tt);;
  if negb (rc =? SQLITE_OK) then raise rc
  else
    l ← mget;
    let '(rc, w) := WalFrames_index (shmMap env) (to_wal l) (map pgno (appended ++ replicate nExtra pLast)) in
    mput (fun l => set_shm l (apWiData w));;
    if rc =? SQLITE_OK then mput (publish (mxFrame w) nTruncate isCommit) else raise rc.

Definition sqlite3WalFrames (sz : Z) (pList : list PgHdr) (nTruncate : Z) (isCommit sync : bool) : M unit :=
  l ← mget;
  let iFirst := if bool_decide (hdr l = live l) then 0 else hdr_mxFrame (live l) + 1 in
  walRestartLog;;
  l ← mget;
  let iFrame := hdr_mxFrame (hdr l) in
  (if iFrame =? 0 then write_wal_header sz else mret tt);;
  frames_tail iFirst iFrame sz pList nTruncate isCommit sync.

(** ** Rolling back

    [sqlite3WalUndo]: the callbacks only expel pages from the cache. *)
Definition sqlite3WalUndo (l : Log) : Log :=
  let iMax := hdr_mxFrame (hdr l) in
  let l := set_hdr l (live l) in
  if negb (iMax =? hdr_mxFrame (hdr l)) then set_shm l (apWiData (walCleanupHash (shmMap env) (to_wal l))) else l.

Definition sqlite3WalEndWriteTransaction (l : Log) : Log := set_txn l 0 false.
End Log.

(** ** Bytes of a file *)

Definition bytes_at (f : list Z) (o : nat) (a : list Z) : Prop := forall i b, a !! i = Some b -> f !! (o + i)%nat = Some b.

(** [f'] is [f] outside of [m] bytes from [o]. *)
Definition wrote (f : list Z) (o m : nat) (f' : list Z) : Prop :=
  forall i b, (i < o \/ o + m <= i)%nat -> f !! i = Some b -> f' !! i = Some b.

Lemma bytes_at_app f o a b : bytes_at f o (a ++ b) <-> bytes_at f o a /\ bytes_at f (o + length a) b.
Proof.
  split.
  - intros H. split; intros i x Hi.
    + apply H. by apply lookup_app_l_Some.
    + rewrite <- Nat.add_assoc. apply H. rewrite lookup_app_r by lia. by replace (length a + i - length a)%nat with i by lia.
  - intros [Ha Hb] i x Hi. apply lookup_app_Some in Hi as [Hi|[Hl Hi]]; [by apply Ha|].
    apply Hb in Hi. by replace (o + length a + (i - length a))%nat with (o + i)%nat in Hi by lia.
Qed.

Lemma bytes_at_slice f o a : bytes_at f o a -> slice f o (length a) = a.
Proof.
  intros H. unfold slice. apply list_eq. intros i. destruct (decide (i < length a)%nat) as [Hi|Hi].
  - destruct (lookup_lt_is_Some_2 a i Hi) as [x Hx]. rewrite lookup_take_lt, lookup_drop, Hx by done. by apply H.
  - rewrite lookup_take_ge by lia. by rewrite lookup_ge_None_2 by lia.
Qed.

Lemma slice_bytes_at f o n : bytes_at f o (slice f o n).
Proof. intros i b Hi. unfold slice in Hi. apply lookup_take_Some in Hi as [Hi _]. by rewrite lookup_drop in Hi. Qed.

Lemma bytes_at_wrote f o a o' m f' : bytes_at f o a -> wrote f o' m f' ->
  (o + length a <= o' \/ o' + m <= o)%nat -> bytes_at f' o a.
Proof.
  intros Ha Hw Hd i b Hi. pose proof (lookup_lt_Some _ _ _ Hi). apply Hw; [lia|by apply Ha].
Qed.

Lemma wrote_refl f o m : wrote f o m f.
Proof. by intros i b _ Hi. Qed.

Lemma wrote_trans f o m f' o' m' f'' p q : wrote f o m f' -> wrote f' o' m' f'' ->
  (p <= o)%nat -> (o + m <= p + q)%nat -> (p <= o')%nat -> (o' + m' <= p + q)%nat -> wrote f p q f''.
Proof. intros H1 H2 ? ? ? ? i b Hi Hf. apply H2; [lia|]. apply H1; [lia|done]. Qed.

Lemma write_lookup_in f o a i b : a !! i = Some b -> write_at f o a !! (o + i)%nat = Some b.
Proof.
  intros Hi. unfold write_at. pose proof (lookup_lt_Some _ _ _ Hi). case_match eqn:E; [apply Nat.eqb_eq in E; lia|].
  rewrite app_assoc, lookup_app_r by (rewrite length_app, length_take, length_replicate; lia).
  rewrite length_app, length_take, length_replicate. replace (o + i - (o `min` length f + (o - length f)))%nat with i by lia.
  by apply lookup_app_l_Some.
Qed.

Lemma write_at_bytes f o a : bytes_at (write_at f o a) o a.
Proof. intros i b. apply write_lookup_in. Qed.

Lemma write_at_wrote f o a : wrote f o (length a) (write_at f o a).
Proof.
  intros i b Hi Hf. pose proof (lookup_lt_Some _ _ _ Hf). unfold write_at. case_match; [done|]. destruct Hi as [Hi|Hi].
  - rewrite lookup_app_l by (rewrite length_take; lia). by rewrite lookup_take_lt.
  - rewrite app_assoc, app_assoc, lookup_app_r by (rewrite !length_app, length_take, length_replicate; lia).
    rewrite !length_app, length_take, length_replicate, lookup_drop. by replace (_ + _)%nat with i by lia.
Qed.

Lemma bytes_at_length f o a : bytes_at f o a -> a <> [] -> (o + length a <= length f)%nat.
Proof.
  intros H Ha. destruct (lookup_lt_is_Some_2 a (length a - 1)) as [x Hx]; [destruct a; cbn; [done|lia]|].
  apply H, lookup_lt_Some in Hx. destruct a; cbn in *; [done|lia].
Qed.

Lemma Get4_Put4 a i v : bytes_at a i (Put4byte v) -> is_u 32 v -> Get4byte a i = v.
Proof.
  intros H Hv. unfold Get4byte, Reader.sqlite3Get4byte.
  assert (forall j b, Put4byte v !! j = Some b -> nth (i + j) a 0 = b) as N.
  { intros j b Hb. rewrite nth_lookup. by rewrite (H j b Hb). }
  rewrite (N 0%nat _ eq_refl), (N 1%nat _ eq_refl), (N 2%nat _ eq_refl), (N 3%nat _ eq_refl). bv_decide [(v, 32)].
Qed.

Lemma length_Put4 v : length (Put4byte v) = 4%nat.
Proof. done. Qed.

Lemma Put4_bytes v : Forall is_byte (Put4byte v).
Proof. repeat constructor; apply wrapu_range; lia. Qed.

(** ** The checksum does not depend on the machine *)

Lemma swap_word b0 b1 b2 b3 big : is_byte b0 -> is_byte b1 -> is_byte b2 -> is_byte b3 ->
  BYTESWAP32 (native_u32 big b0 b1 b2 b3) = native_u32 (negb big) b0 b1 b2 b3.
Proof.
  assert (forall a b c d, is_byte a -> is_byte b -> is_byte c -> is_byte d ->
    BYTESWAP32 ((a << 24) ||| (b << 16) ||| (c << 8) ||| d) = (d << 24) ||| (c << 16) ||| (b << 8) ||| a) as K.
  { intros a b c d Ha Hb Hc Hd. unfold BYTESWAP32.
    assert (u32 ((((a << 24) ||| (b << 16) ||| (c << 8) ||| d) & 0xFF) << 24) = d << 24) as ->
      by (bv_decide [(a, 8); (b, 8); (c, 8); (d, 8)]).
    assert ((((a << 24) ||| (b << 16) ||| (c << 8) ||| d) & 0xFF00) << 8 = c << 16) as ->
      by (bv_decide [(a, 8); (b, 8); (c, 8); (d, 8)]).
    assert ((((a << 24) ||| (b << 16) ||| (c << 8) ||| d) & 0xFF0000) >> 8 = b << 8) as ->
      by (bv_decide [(a, 8); (b, 8); (c, 8); (d, 8)]).
    assert ((((a << 24) ||| (b << 16) ||| (c << 8) ||| d) & 0xFF000000) >> 24 = a) as ->
      by (bv_decide [(a, 8); (b, 8); (c, 8); (d, 8)]).
    assert ((d << 24) ||| (c << 16) ||| (b << 8) ||| a = (d * 2 ^ 16 ||| (c * 2 ^ 8 ||| b)) * 2 ^ 8 ||| a) as ->
      by (rewrite <- !Z.shiftl_mul_pow2 by lia; bv_decide [(a, 8); (b, 8); (c, 8); (d, 8)]).
    unfold is_u in *. rewrite !Z.shiftl_mul_pow2 by lia. rewrite (lor_add c 8 b) by lia.
    rewrite (lor_add d 16) by lia. rewrite (lor_add _ 8 a) by lia. lia. }
  intros H0 H1 H2 H3. destruct big; unfold native_u32; cbn [negb]; by apply K.
Qed.

(** The checksum in the byte order [be] of the log. *)
Definition ck (be : bool) (a : list Z) (c : cksum) : cksum := walChecksumBytes be true a c.

Lemma checksum_native big be a : Forall is_byte a -> forall c,
  walChecksumBytes big (Bool.eqb be big) a c = ck be a c.
Proof.
  unfold ck. intros Ha. destruct (Bool.eqb_spec be big) as [->|Hne]; [done|].
  remember (length a) as n eqn:Hn. revert a Hn Ha. induction n as [n IH] using lt_wf_ind. intros a Hn Ha c.
  assert (be = negb big) as -> by (by destruct be, big).
  do 8 (destruct a as [|? a]; [done|]). repeat (apply Forall_cons_1 in Ha as [? Ha]). cbn [walChecksumBytes].
  rewrite !swap_word by done. eapply IH; [|reflexivity|done]. cbn [length] in Hn. lia.
Qed.

Definition is_cksum (c : cksum) : Prop := is_u 32 (fst c) /\ is_u 32 (snd c).

Lemma ck_range be a : forall c, is_cksum c -> is_cksum (ck be a c).
Proof.
  unfold ck. remember (length a) as n eqn:Hn. revert a Hn. induction n as [n IH] using lt_wf_ind. intros a Hn c Hc.
  do 8 (destruct a as [|? a]; [done|]). cbn [walChecksumBytes]. eapply IH; [|reflexivity|].
  - cbn [length] in Hn. lia.
  - split; apply wrapu_range; lia.
Qed.

(** ** The format of the file *)

Record Frame : Type := { f_pgno : Z; f_trunc : Z; f_data : list Z }.

Definition head8 (f : Frame) : list Z := Put4byte (f_pgno f) ++ Put4byte (f_trunc f).
Definition step (be : bool) (c : cksum) (f : Frame) : cksum := ck be (f_data f) (ck be (head8 f) c).
Definition chain (be : bool) (c : cksum) (fs : list Frame) : cksum := fold_left (step be) fs c.
Definition put_ck (c : cksum) : list Z := Put4byte (fst c) ++ Put4byte (snd c).

Definition frame_wf (sz : nat) (f : Frame) : Prop :=
  0 < f_pgno f < 2 ^ 32 /\ is_u 32 (f_trunc f) /\ length (f_data f) = sz /\ Forall is_byte (f_data f).

Lemma chain_snoc be c fs f : chain be c (fs ++ [f]) = step be (chain be c fs) f.
Proof. unfold chain. by rewrite fold_left_app. Qed.

Lemma chain_range be fs : forall c, is_cksum c -> is_cksum (chain be c fs).
Proof. induction fs as [|f fs IH]; intros c Hc; [done|]. apply IH. by apply ck_range, ck_range. Qed.

(** The offset of the frame with the index [i] from 0. *)
Definition foff (sz i : nat) : nat := (32 + i * (sz + 24))%nat.

Lemma foff_lt sz i j : (i < j)%nat -> (foff sz i + 24 + sz <= foff sz j)%nat.
Proof. unfold foff. nia. Qed.
Lemma foff_S sz i : foff sz (S i) = (foff sz i + 24 + sz)%nat.
Proof. unfold foff. lia. Qed.

Lemma walFrameOffset_foff sz i : walFrameOffset (Z.of_nat (S i)) (Z.of_nat sz) = Z.of_nat (foff sz i).
Proof. unfold walFrameOffset, foff, WAL_HDRSIZE, WAL_FRAME_HDRSIZE. nia. Qed.

Section Format.
Context (be : bool) (salt : list Z) (sz : nat) (ckpt : Z).

Definition header24 : list Z :=
  Put4byte (WAL_MAGIC ||| Z.b2z be) ++ Put4byte WAL_MAX_VERSION ++ Put4byte (Z.of_nat sz) ++ Put4byte ckpt ++ salt.
Definition header_ck : cksum := ck be header24 (0, 0).

(** The frame at the index [i]: its first 8 bytes and its data, and the salt and
    the checksum of all frames up to it. *)
Definition raw_at (file : list Z) (i : nat) (f : Frame) : Prop :=
  bytes_at file (foff sz i) (head8 f) /\ bytes_at file (foff sz i + 24) (f_data f).
Definition sums_at (fs : list Frame) (file : list Z) (i : nat) : Prop :=
  bytes_at file (foff sz i + 8) (salt ++ put_ck (chain be header_ck (take (S i) fs))).

(** The file holds the frames [fs], the first [k] of them with right checksums. *)
Record log_file (fs : list Frame) (k : nat) (file : list Z) : Prop := {
  lf_header : bytes_at file 0 (header24 ++ put_ck header_ck);
  lf_salt : length salt = 8%nat /\ Forall is_byte salt;
  lf_wf : Forall (frame_wf sz) fs;
  lf_raw : forall i f, fs !! i = Some f -> raw_at file i f;
  lf_sums : forall i, (i < k)%nat -> sums_at fs file i }.

Lemma header_ck_range : is_cksum header_ck.
Proof. apply ck_range. split; unfold is_u; cbn; lia. Qed.

Lemma length_header : length salt = 8%nat -> length (header24 ++ put_ck header_ck) = 32%nat.
Proof. intros H. unfold header24, put_ck. rewrite !length_app, !length_Put4, H. done. Qed.

Lemma length_head8 f : length (head8 f) = 8%nat.
Proof. done. Qed.

Lemma frame_at fs i f : Forall (frame_wf sz) fs -> fs !! i = Some f -> frame_wf sz f.
Proof. intros H Hi. by apply (Forall_lookup_1 _ _ _ _ H Hi). Qed.

(** Writing elsewhere keeps the frames. *)
Lemma raw_wrote file i f o m file' : frame_wf sz f -> raw_at file i f -> wrote file o m file' ->
  (foff sz (S i) <= o \/ o + m <= foff sz i)%nat -> raw_at file' i f.
Proof.
  intros (_ & _ & Hd & _) [H1 H2] Hw Ho. rewrite foff_S in Ho.
  split; (eapply bytes_at_wrote; [eassumption|exact Hw|rewrite ?length_head8, ?Hd; lia]).
Qed.

Lemma sums_wrote fs file i o m file' : length salt = 8%nat -> sums_at fs file i -> wrote file o m file' ->
  (foff sz (S i) <= o \/ o + m <= foff sz i)%nat -> sums_at fs file' i.
Proof.
  intros Hs H Hw Ho. rewrite foff_S in Ho. eapply bytes_at_wrote; [exact H|exact Hw|].
  unfold put_ck. rewrite !length_app, !length_Put4, Hs. lia.
Qed.

Lemma log_file_header fs k file o m file' : log_file fs k file -> wrote file o m file' -> (32 <= o)%nat ->
  bytes_at file' 0 (header24 ++ put_ck header_ck).
Proof.
  intros H Hw Ho. eapply bytes_at_wrote; [apply (lf_header _ _ _ H)|exact Hw|].
  rewrite length_header by apply (lf_salt _ _ _ H). lia.
Qed.

Lemma log_file_wrote fs k file o m file' : log_file fs k file -> (k <= length fs)%nat -> wrote file o m file' ->
  (foff sz (length fs) <= o)%nat -> log_file fs k file'.
Proof.
  intros H Hk Hw Ho. pose proof (lf_salt _ _ _ H) as [Hs _].
  split; [|apply (lf_salt _ _ _ H)|apply (lf_wf _ _ _ H)| |].
  - eapply log_file_header; [exact H|exact Hw|]. unfold foff in Ho. lia.
  - intros i f Hi. pose proof (lookup_lt_Some _ _ _ Hi). eapply raw_wrote; [by eapply frame_at, Hi; apply (lf_wf _ _ _ H)|by apply (lf_raw _ _ _ H)|exact Hw|].
    left. etrans; [|exact Ho]. unfold foff. nia.
  - intros i Hi. eapply sums_wrote; [done|by apply (lf_sums _ _ _ H)|exact Hw|]. left. etrans; [|exact Ho]. unfold foff. nia.
Qed.

Lemma log_file_take fs k file n : log_file fs k file -> (n <= k)%nat -> log_file (take n fs) n file.
Proof.
  intros H Hn. split; [apply (lf_header _ _ _ H)|apply (lf_salt _ _ _ H)| | |].
  - apply Forall_take, (lf_wf _ _ _ H).
  - intros i f Hi. apply lookup_take_Some in Hi as [Hi _]. by apply (lf_raw _ _ _ H).
  - intros i Hi. unfold sums_at. rewrite take_take, Nat.min_l by lia. apply (lf_sums _ _ _ H). lia.
Qed.

Lemma log_file_le fs k k' file : log_file fs k file -> (k' <= k)%nat -> log_file fs k' file.
Proof.
  intros H Hk. split; [apply (lf_header _ _ _ H)|apply (lf_salt _ _ _ H)|apply (lf_wf _ _ _ H)|apply (lf_raw _ _ _ H)|].
  intros i Hi. apply (lf_sums _ _ _ H). lia.
Qed.

Lemma log_file_snoc fs k file f file' : log_file fs k file -> (k <= length fs)%nat -> frame_wf sz f ->
  wrote file (foff sz (length fs)) (24 + sz) file' -> raw_at file' (length fs) f -> log_file (fs ++ [f]) k file'.
Proof.
  intros H Hk Hf Hw Hr. assert (log_file fs k file') as H' by (eapply log_file_wrote; [exact H|done|exact Hw|lia]).
  split; [apply (lf_header _ _ _ H')|apply (lf_salt _ _ _ H)| | |].
  - apply Forall_app. split; [apply (lf_wf _ _ _ H)|by constructor].
  - intros i g Hi. apply lookup_app_Some in Hi as [Hi|[Hl Hi]]; [by apply (lf_raw _ _ _ H')|].
    apply list_lookup_singleton_Some in Hi as [Hi <-]. by replace i with (length fs) by lia.
  - intros i Hi. unfold sums_at. rewrite take_app_le by lia. by apply (lf_sums _ _ _ H').
Qed.

Lemma log_file_sum fs k file f file' : log_file fs k file -> fs !! k = Some f ->
  wrote file (foff sz k) 24 file' -> bytes_at file' (foff sz k) (head8 f) ->
  bytes_at file' (foff sz k + 8) (salt ++ put_ck (chain be header_ck (take (S k) fs))) -> log_file fs (S k) file'.
Proof.
  intros H Hk Hw H8 H16. pose proof (lf_salt _ _ _ H) as [Hs _].
  split; [|apply (lf_salt _ _ _ H)|apply (lf_wf _ _ _ H)| |].
  - eapply log_file_header; [exact H|exact Hw|]. unfold foff. lia.
  - intros i g Hi. pose proof (frame_at _ _ _ (lf_wf _ _ _ H) Hi) as Hwf. destruct (decide (i = k)) as [->|Hne].
    + replace g with f in * by congruence. split; [done|]. eapply bytes_at_wrote; [by apply (lf_raw _ _ _ H)|exact Hw|]. lia.
    + eapply raw_wrote; [done|by apply (lf_raw _ _ _ H)|exact Hw|]. destruct (decide (i < k)%nat).
      * left. unfold foff. nia.
      * right. pose proof (foff_lt sz k i). lia.
  - intros i Hi. destruct (decide (i = k)) as [->|Hne]; [done|].
    eapply sums_wrote; [done|apply (lf_sums _ _ _ H); lia|exact Hw|]. left. unfold foff. nia.
Qed.

(** Overwriting the data of a frame spoils its checksum and the later ones. *)
Lemma log_file_overwrite fs k file j f d file' : log_file fs k file -> fs !! j = Some f -> (k <= j)%nat ->
  length d = sz -> Forall is_byte d -> wrote file (foff sz j + 24) sz file' -> bytes_at file' (foff sz j + 24) d ->
  log_file (<[j := {| f_pgno := f_pgno f; f_trunc := f_trunc f; f_data := d |}]> fs) k file'.
Proof.
  intros H Hj Hk Hd Hb Hw Hdata. pose proof (lf_salt _ _ _ H) as [Hs _]. pose proof (frame_at _ _ _ (lf_wf _ _ _ H) Hj) as Hf.
  split; [|apply (lf_salt _ _ _ H)| | |].
  - eapply log_file_header; [exact H|exact Hw|]. unfold foff. lia.
  - apply Forall_insert; [apply (lf_wf _ _ _ H)|]. by destruct Hf as (? & ? & _).
  - intros i g Hi. destruct (decide (i = j)) as [->|Hne].
    + rewrite list_lookup_insert_eq in Hi by (by eapply lookup_lt_Some). injection Hi as <-. split; [|done].
      eapply bytes_at_wrote; [apply (lf_raw _ _ _ H _ _ Hj)|exact Hw|]. rewrite length_head8. lia.
    + rewrite list_lookup_insert_ne in Hi by done. eapply raw_wrote; [by eapply frame_at, Hi; apply (lf_wf _ _ _ H)|by apply (lf_raw _ _ _ H)|exact Hw|].
      destruct (decide (i < j)%nat); [left; pose proof (foff_lt sz i j); rewrite foff_S; lia|].
      right. pose proof (foff_lt sz j i). lia.
  - intros i Hi. unfold sums_at. rewrite take_insert_ge by lia. eapply sums_wrote; [done|by apply (lf_sums _ _ _ H)|exact Hw|].
    left. pose proof (foff_lt sz i j). rewrite foff_S. lia.
Qed.
End Format.
