(* ===== verification/WalWrite.v ===== *)
(** * Writing the log file: what a writer keeps and what it publishes

    A small program logic for the computations of [WalLog], and the specification
    of [sqlite3WalFrames] by the frames of the log: the committed ones, which no
    failure touches, and those of the transaction being written. *)

From S2P Require Import Prelude Bits Varint WalIndex WalLog.

#[local] Open Scope Z_scope.
Local Open Scope c_scope.

(** ** Reasoning about runs

    [m] started in [l] ends with a result and a log that satisfy [Q], or with an
    error code and a log that satisfies [E]. *)
Definition wp {A} (m : M A) (Q : A -> Log -> Prop) (E : Log -> Prop) (l : Log) : Prop :=
  match m l with (Ok a, l') => Q a l' | (Throw _, l') => E l' end.

Lemma wp_bind {A B} (m : M A) (k : A -> M B) Q E l : wp m (fun a => wp (k a) Q E) E l -> wp (m ≫= k) Q E l.
Proof. unfold wp, mbind, M_bind. by destruct (m l) as [[a|e] l']. Qed.

Lemma wp_mono {A} (m : M A) (Q Q' : A -> Log -> Prop) (E E' : Log -> Prop) l : wp m Q E l ->
  (forall a l', Q a l' -> Q' a l') -> (forall l', E l' -> E' l') -> wp m Q' E' l.
Proof. unfold wp. destruct (m l) as [[a|e] l']; auto. Qed.

Lemma wp_get Q E l : Q l l -> wp mget Q E l.
Proof. done. Qed.
Lemma wp_put f (Q : unit -> Log -> Prop) E l : Q tt (f l) -> wp (mput f) Q E l.
Proof. done. Qed.
Lemma wp_ret {A} (a : A) (Q : A -> Log -> Prop) E l : Q a l -> wp (mret a) Q E l.
Proof. done. Qed.
Lemma wp_throw {A} rc (Q : A -> Log -> Prop) (E : Log -> Prop) l : E l -> wp (raise rc) Q E l.
Proof. done. Qed.

Ltac wp_step :=
  lazymatch goal with
  | |- wp (mbind _ _) _ _ _ => apply wp_bind
  | |- wp mget _ _ _ => apply wp_get
  | |- wp (mput _) _ _ _ => apply wp_put
  | |- wp (mret _) _ _ _ => apply wp_ret
  | |- wp (raise _) _ _ _ => apply wp_throw
  end; cbv beta.
Ltac wp_steps := repeat wp_step.

(** [l] with another content of the file and another count of calls. *)
Definition os_state (l : Log) (f : list Z) (n : nat) : Log :=
  {| hdr := hdr l; live := live l; shm := shm l; file := f; szPage := szPage l; nCkpt := nCkpt l; iReCksum := iReCksum l;
     truncateOnCommit := truncateOnCommit l; log_minFrame := log_minFrame l; log_readLock := log_readLock l;
     nBackfill := nBackfill l; nBackfillAttempted := nBackfillAttempted l; aReadMark := aReadMark l; io := n |}.

Section Runs.
Context (env : Env).

Lemma os_call_spec (Q : Z -> Log -> Prop) E l : (forall rc, Q rc (os_state l (file l) (S (io l)))) -> wp (os_call env) Q E l.
Proof. intros H. apply H. Qed.

Lemma OsWrite_spec a o Q (E : Log -> Prop) l :
  (forall n, Q tt (os_state l (write_at (file l) (Z.to_nat o) a) n)) ->
  (forall n f, wrote (file l) (Z.to_nat o) (length a) f -> E (os_state l f n)) -> wp (OsWrite env a o) Q E l.
Proof.
  intros HQ HE. unfold OsWrite. wp_steps. apply os_call_spec. intros rc.
  destruct (rc =? SQLITE_OK); [wp_step; apply HQ|]. wp_steps. apply HE. cbn [file].
  intros i b Hi Hf. apply (write_at_wrote (file l) (Z.to_nat o) (take (io_part env (io l)) a)); [|done].
  rewrite length_take. lia.
Qed.

Lemma OsSync_spec Q (E : Log -> Prop) l : (forall n, Q tt (os_state l (file l) n)) ->
  (forall n, E (os_state l (file l) n)) -> wp (OsSync env) Q E l.
Proof. intros HQ HE. unfold OsSync. wp_steps. apply os_call_spec. intros rc. case_match; wp_step; auto. Qed.

Lemma OsRead_spec a o Q (E : Log -> Prop) l : bytes_at (file l) (Z.to_nat o) a ->
  (forall rc buf n, rc = SQLITE_OK /\ buf = a \/ rc <> SQLITE_OK -> Q (rc, buf) (os_state l (file l) n)) ->
  wp (OsRead env (length a) o) Q E l.
Proof.
  intros Ha HQ. unfold OsRead. wp_steps. apply os_call_spec. intros rc.
  destruct (Z.eqb_spec rc SQLITE_OK) as [->|Hrc]; cbn [negb]; [|wp_step; apply HQ; by right].
  rewrite (bytes_at_slice _ _ _ Ha), Nat.ltb_irrefl. wp_step. apply HQ. by left.
Qed.

Lemma walWriteToLog_spec sp a o Q (E : Log -> Prop) l : 0 <= o ->
  (forall n f, wrote (file l) (Z.to_nat o) (length a) f -> bytes_at f (Z.to_nat o) a -> Q tt (os_state l f n)) ->
  (forall n f, wrote (file l) (Z.to_nat o) (length a) f -> E (os_state l f n)) -> wp (walWriteToLog env sp a o) Q E l.
Proof.
  intros Ho HQ HE. unfold walWriteToLog. destruct (_ && _) eqn:C.
  - apply andb_true_iff in C as [C1 C2]. set (m := Z.to_nat (sp - o)). assert (m <= length a)%nat as Hm by lia.
    replace (Z.to_nat (o + (sp - o))) with (Z.to_nat o + m)%nat by lia.
    wp_step. apply OsWrite_spec; rewrite ?length_take.
    2: { intros n f Hw. apply HE. intros i b Hi. apply Hw. lia. }
    intros n1. wp_step. apply OsSync_spec; cbn [file os_state].
    2: { intros n. apply HE. intros i b Hi. apply write_at_wrote. rewrite length_take. lia. }
    intros n2. set (f1 := write_at _ _ _). destruct (Z.eqb_spec (Z.of_nat (length a) - (sp - o)) 0) as [Hz|Hz].
    + wp_step. apply HQ; subst f1; rewrite (take_ge a) by lia; [apply write_at_wrote|apply write_at_bytes].
    + apply OsWrite_spec; cbn [file os_state]; replace (Z.to_nat (o + (sp - o))) with (Z.to_nat o + m)%nat by lia.
      * intros n3. apply HQ.
        -- eapply wrote_trans; [apply write_at_wrote|apply write_at_wrote|lia..|rewrite length_take, ?length_drop; lia| |]; rewrite ?length_drop; lia.
        -- rewrite <- (take_drop m a) at 2. apply bytes_at_app. rewrite length_take, Nat.min_l by lia. split; [|apply write_at_bytes].
           eapply bytes_at_wrote; [apply write_at_bytes|apply write_at_wrote|]. rewrite length_take. lia.
      * intros n3 f Hw. apply HE. eapply wrote_trans; [apply write_at_wrote|exact Hw|lia..|rewrite length_take; lia| |]; rewrite ?length_drop; lia.
  - apply OsWrite_spec; [|done]. intros n. apply HQ; [apply write_at_wrote|apply write_at_bytes].
Qed.
End Runs.

(** ** What a writer keeps *)

(** Nothing before the frame with the index [n] changes, nor anything of the
    connection but its running checksum, [iReCksum] and [truncateOnCommit]. *)
Record kept (sz n : nat) (l l' : Log) : Prop := {
  kp_live : live l' = live l;
  kp_shm : shm l' = shm l;
  kp_hdr : with_cksum (hdr l') (0, 0) = with_cksum (hdr l) (0, 0);
  kp_size : szPage l' = szPage l;
  kp_ckpt : nCkpt l' = nCkpt l;
  kp_lock : log_minFrame l' = log_minFrame l /\ log_readLock l' = log_readLock l /\ nBackfill l' = nBackfill l;
  kp_file : forall i b, (i < foff sz n)%nat -> file l !! i = Some b -> file l' !! i = Some b }.

Lemma kept_refl sz n l : kept sz n l l.
Proof. by split. Qed.

Lemma kept_trans sz n l l1 l2 : kept sz n l l1 -> kept sz n l1 l2 -> kept sz n l l2.
Proof.
  intros H1 H2. split; [rewrite (kp_live _ _ _ _ H2); apply H1|rewrite (kp_shm _ _ _ _ H2); apply H1
    |rewrite (kp_hdr _ _ _ _ H2); apply H1|rewrite (kp_size _ _ _ _ H2); apply H1|rewrite (kp_ckpt _ _ _ _ H2); apply H1| |].
  - destruct (kp_lock _ _ _ _ H1) as (? & ? & ?), (kp_lock _ _ _ _ H2) as (? & ? & ?). repeat split; congruence.
  - intros i b Hi Hb. apply (kp_file _ _ _ _ H2); [done|]. by apply (kp_file _ _ _ _ H1).
Qed.

Lemma kept_write sz n l o m f k : wrote (file l) o m f -> (foff sz n <= o)%nat -> kept sz n l (os_state l f k).
Proof. intros Hw Ho. split; try done. intros i b Hi Hb. apply Hw; [lia|done]. Qed.

Lemma kept_read sz n l k : kept sz n l (os_state l (file l) k).
Proof. by split. Qed.

Lemma kept_cksum sz n l c : kept sz n l (set_hdr l (with_cksum (hdr l) c)).
Proof. by split. Qed.

Lemma kept_txn sz n l k t : kept sz n l (set_txn l k t).
Proof. by split. Qed.

Lemma kept_fields sz n l l' : kept sz n l l' -> bigEndCksum (hdr l') = bigEndCksum (hdr l) /\
  aSalt (hdr l') = aSalt (hdr l) /\ hdr_mxFrame (hdr l') = hdr_mxFrame (hdr l).
Proof.
  intros H. pose proof (kp_hdr _ _ _ _ H) as E. unfold with_cksum in E. injection E. intros. by repeat split.
Qed.

(** The number of frames with right checksums. *)
Definition checked (l : Log) (all : list Frame) : nat :=
  if iReCksum l =? 0 then length all else Z.to_nat (iReCksum l - 1).

(** The file holds the frames [all] of the log, the first [n] of them committed. *)
Record on_file (sz n : nat) (l : Log) (all : list Frame) : Prop := {
  of_size : szPage l = Z.of_nat sz;
  of_len : (n <= length all)%nat;
  of_rec : iReCksum l <> 0 -> Z.of_nat n < iReCksum l <= Z.of_nat (length all);
  of_file : exists ckpt, log_file (bigEndCksum (hdr l)) (aSalt (hdr l)) sz ckpt all (checked l all) (file l) /\
    (iReCksum l = 0 -> aFrameCksum (hdr l) =
       chain (bigEndCksum (hdr l)) (header_ck (bigEndCksum (hdr l)) (aSalt (hdr l)) sz ckpt) all) }.

Lemma of_checked sz n l all : on_file sz n l all -> (n <= checked l all <= length all)%nat.
Proof.
  intros H. unfold checked. destruct (Z.eqb_spec (iReCksum l) 0) as [E|N].
  - pose proof (of_len _ _ _ _ H). lia.
  - pose proof (of_rec _ _ _ _ H N). lia.
Qed.

Lemma of_wf sz n l all : on_file sz n l all -> Forall (frame_wf sz) all.
Proof. intros H. destruct (of_file _ _ _ _ H) as (? & H' & _). apply H'. Qed.

(** ** Writing frames *)

Section Frames.
Context (env : Env) (sz : nat).

Lemma head8_bytes f : Forall is_byte (head8 f).
Proof. apply Forall_app. split; apply Put4_bytes. Qed.

Lemma encode_checked l f : iReCksum l = 0 -> Forall is_byte (f_data f) ->
  let c := step (bigEndCksum (hdr l)) (aFrameCksum (hdr l)) f in
  walEncodeFrame env l (f_pgno f) (f_trunc f) (f_data f) =
  (head8 f ++ aSalt (hdr l) ++ put_ck c, set_hdr l (with_cksum (hdr l) c)).
Proof.
  intros Hr Hb c. unfold walEncodeFrame. rewrite Hr. change (0 =? 0) with true. cbv iota zeta.
  rewrite !checksum_native by (done || apply head8_bytes). reflexivity.
Qed.

(** The 24 bytes before the data of a new frame, with the checksums when they
    are up to date. *)
Lemma encode_spec n l all f : on_file sz n l all -> frame_wf sz f ->
  exists aFrame l1, walEncodeFrame env l (f_pgno f) (f_trunc f) (f_data f) = (aFrame, l1) /\
    length aFrame = 24%nat /\ file l1 = file l /\ iReCksum l1 = iReCksum l /\ kept sz n l l1 /\
    forall file' k, wrote (file l) (foff sz (length all)) (24 + sz) file' -> bytes_at file' (foff sz (length all)) aFrame ->
      bytes_at file' (foff sz (length all) + 24) (f_data f) -> on_file sz n (os_state l1 file' k) (all ++ [f]).
Proof.
  intros H Hf. destruct (of_file _ _ _ _ H) as (ckpt & Hlog & Hc). pose proof (of_checked _ _ _ _ H) as Hk.
  pose proof (lf_salt _ _ _ _ _ _ _ Hlog) as [Hs _]. pose proof Hf as (_ & _ & _ & Hb).
  destruct (Z.eqb_spec (iReCksum l) 0) as [E|N].
  - rewrite encode_checked by done. eexists _, _. split; [reflexivity|]. unfold put_ck.
    split; [rewrite !length_app, !length_Put4, length_head8, Hs; done|]. do 2 (split; [done|]). split; [apply kept_cksum|].
    intros file' k Hw Ha Hd. apply bytes_at_app in Ha as [Ha1 Ha2]. rewrite length_head8 in Ha2.
    split; [apply H|rewrite length_app; pose proof (of_len _ _ _ _ H); lia|done|]. exists ckpt.
    unfold os_state. cbn [hdr set_hdr with_cksum bigEndCksum aSalt file aFrameCksum]. unfold checked, os_state.
    cbn [iReCksum set_hdr]. rewrite E. change (0 =? 0) with true. cbv iota. rewrite length_app. cbn [length].
    unfold checked in Hlog. rewrite E in Hlog. change (0 =? 0) with true in Hlog. cbv iota in Hlog. rewrite (Hc E) in *. rewrite chain_snoc.
    split; [|done]. pose proof (log_file_snoc _ _ _ _ _ _ _ f file' Hlog ltac:(lia) Hf Hw (conj Ha1 Hd)) as H2.
    rewrite Nat.add_1_r. split; [apply (lf_header _ _ _ _ _ _ _ H2)|apply (lf_salt _ _ _ _ _ _ _ H2)|apply (lf_wf _ _ _ _ _ _ _ H2)|apply (lf_raw _ _ _ _ _ _ _ H2)|].
    intros i Hi. destruct (decide (i = length all)) as [->|Hne]; [|apply (lf_sums _ _ _ _ _ _ _ H2); lia].
    unfold sums_at. rewrite take_ge, chain_snoc by (rewrite length_app; cbn; lia). done.
  - unfold walEncodeFrame. rewrite (proj2 (Z.eqb_neq _ _) N). eexists _, _. split; [reflexivity|].
    split; [rewrite !length_app, length_replicate, !length_Put4; done|]. do 2 (split; [done|]). split; [apply kept_refl|].
    intros file' k Hw Ha Hd. apply bytes_at_app in Ha as [Ha1 _].
    split; [apply H|rewrite length_app; pose proof (of_len _ _ _ _ H); lia| |].
    { intros N'. pose proof (of_rec _ _ _ _ H N). rewrite length_app. cbn [os_state iReCksum]. lia. }
    exists ckpt. split; [|by intros]. unfold checked in *. cbn [os_state iReCksum hdr file].
    rewrite (proj2 (Z.eqb_neq _ _) N) in *. eapply log_file_snoc; [exact Hlog|lia|done|exact Hw|done].
Qed.

Lemma write_one_spec n l all f sp Q (E : Log -> Prop) : on_file sz n l all -> frame_wf sz f ->
  (forall l', on_file sz n l' (all ++ [f]) -> iReCksum l' = iReCksum l -> kept sz n l l' -> Q tt l') ->
  (forall l', kept sz n l l' -> E l') ->
  wp (walWriteOneFrame env sp {| pgno := f_pgno f; pData := f_data f |} (f_trunc f) (Z.of_nat (foff sz (length all)))) Q E l.
Proof.
  intros H Hf HQ HE. unfold walWriteOneFrame. wp_steps. cbn [pgno pData].
  destruct (encode_spec n l all f H Hf) as (aFrame & l1 & -> & Hlen & Hfile & Hrec & Hk & Hon). pose proof (of_len _ _ _ _ H).
  assert (foff sz n <= foff sz (length all))%nat as Hoff by (unfold foff; nia). pose proof Hf as (_ & _ & Hd & _).
  wp_steps. apply walWriteToLog_spec; [lia| |]; rewrite ?Nat2Z.id, Hlen, Hfile.
  2: { intros k f1 Hw. apply HE. eapply kept_trans; [exact Hk|]. eapply kept_write; [rewrite Hfile; exact Hw|lia]. }
  intros k f1 Hw1 Hb1. unfold WAL_FRAME_HDRSIZE.
  apply walWriteToLog_spec; [lia| |]; replace (Z.to_nat (Z.of_nat (foff sz (length all)) + 24)) with (foff sz (length all) + 24)%nat by lia;
    cbn [os_state file]; rewrite Hd; intros k2 f2 Hw2;
    assert (wrote (file l) (foff sz (length all)) (24 + sz) f2) as Hw by (eapply wrote_trans; [exact Hw1|exact Hw2|lia..]).
  - intros Hb2. apply HQ.
    + apply (Hon f2 k2 Hw); [|done]. eapply bytes_at_wrote; [exact Hb1|exact Hw2|]. lia.
    + done.
    + eapply kept_trans; [exact Hk|]. eapply (kept_write _ _ l1); [rewrite Hfile; exact Hw|lia].
  - apply HE. eapply kept_trans; [exact Hk|]. eapply (kept_write _ _ l1); [rewrite Hfile; exact Hw|lia].
Qed.

(** The content of the pages that frames hold, the last frame of a page counting. *)
Definition latest (fs : list Frame) : gmap Z (list Z) := fold_left (fun m f => <[f_pgno f := f_data f]> m) fs ∅.
Definition overlay (pages : list PgHdr) (m : gmap Z (list Z)) : gmap Z (list Z) :=
  fold_left (fun m p => <[pgno p := pData p]> m) pages m.

Lemma latest_snoc fs f : latest (fs ++ [f]) = <[f_pgno f := f_data f]> (latest fs).
Proof. unfold latest. by rewrite fold_left_app. Qed.

Lemma latest_overwrite fs : forall j f d, fs !! j = Some f ->
  (forall i g, (j < i)%nat -> fs !! i = Some g -> f_pgno g <> f_pgno f) ->
  latest (<[j := {| f_pgno := f_pgno f; f_trunc := f_trunc f; f_data := d |}]> fs) = <[f_pgno f := d]> (latest fs).
Proof.
  induction fs as [|g fs IH] using rev_ind; intros j f d Hj Hl; [done|].
  apply lookup_app_Some in Hj as [Hj|[Hge Hj]].
  - rewrite insert_app_l by (eapply lookup_lt_Some; exact Hj). rewrite !latest_snoc, (IH j f d Hj).
    + apply insert_insert_ne. apply (Hl (length fs)); [eapply lookup_lt_Some; exact Hj|]. by rewrite lookup_app_r, Nat.sub_diag by lia.
    + intros i g' Hi Hg. apply (Hl i); [done|]. by apply lookup_app_l_Some.
  - apply list_lookup_singleton_Some in Hj as [Hj ->]. replace j with (length fs) in * by lia.
    rewrite insert_app_r_alt, Nat.sub_diag by lia. cbn [list_insert insert]. rewrite !latest_snoc. cbn [f_pgno f_data].
    by rewrite insert_insert_eq.
Qed.

Definition page_ok (p : PgHdr) : Prop := 0 < pgno p < 2 ^ 32 /\ length (pData p) = sz /\ Forall is_byte (pData p).
Definition to_frame (nTruncate : Z) (p : PgHdr) : Frame := {| f_pgno := pgno p; f_trunc := nTruncate; f_data := pData p |}.

Lemma to_frame_wf n p : is_u 32 n -> page_ok p -> frame_wf sz (to_frame n p).
Proof. intros Hn (? & ? & ?). by split; [|split; [|split]]. Qed.

Lemma overwrite_spec n l all j f d Q (E : Log -> Prop) : on_file sz n l all -> all !! j = Some f -> (n <= j)%nat ->
  length d = sz -> Forall is_byte d ->
  (forall l', on_file sz n l' (<[j := {| f_pgno := f_pgno f; f_trunc := f_trunc f; f_data := d |}]> all) ->
    kept sz n l l' -> Q tt l') -> (forall l', kept sz n l l' -> E l') ->
  wp (OsWrite env d (Z.of_nat (foff sz j) + 24)) Q E
    (if (iReCksum l =? 0) || (Z.of_nat (S j) <? iReCksum l) then set_txn l (Z.of_nat (S j)) (truncateOnCommit l) else l).
Proof.
  intros H Hj Hn Hd Hb HQ HE. set (l1 := if _ : bool then _ else l).
  assert (iReCksum l1 <> 0 /\ iReCksum l1 <= Z.of_nat (S j) /\ Z.of_nat n < iReCksum l1 /\
          file l1 = file l /\ hdr l1 = hdr l /\ szPage l1 = szPage l /\ kept sz n l l1 /\
          (Z.to_nat (iReCksum l1 - 1) <= checked l all)%nat) as (R1 & R2 & R3 & Rf & Rh & Rs & Rk & Rc).
  { pose proof (of_rec _ _ _ _ H). pose proof (lookup_lt_Some _ _ _ Hj). unfold l1, checked.
    destruct (Z.eqb_spec (iReCksum l) 0), (Z.ltb_spec (Z.of_nat (S j)) (iReCksum l)); cbn [orb set_txn iReCksum];
      repeat split; try done; lia. }
  clearbody l1. assert (foff sz n <= foff sz j)%nat by (unfold foff; nia).
  apply OsWrite_spec; rewrite ?Rf, ?Hd; replace (Z.to_nat (Z.of_nat (foff sz j) + 24)) with (foff sz j + 24)%nat by lia.
  2: { intros k f1 Hw. apply HE. eapply kept_trans; [exact Rk|]. eapply (kept_write _ _ l1); [rewrite Rf; exact Hw|lia]. }
  intros k. pose proof (write_at_wrote (file l) (foff sz j + 24) d) as Hw. rewrite Hd in Hw.
  apply HQ; [|eapply kept_trans; [exact Rk|]; eapply (kept_write _ _ l1); [rewrite Rf; exact Hw|lia]].
  destruct (of_file _ _ _ _ H) as (ckpt & Hlog & _). pose proof (lookup_lt_Some _ _ _ Hj).
  split; [unfold os_state; cbn [szPage]; rewrite Rs; apply H|by rewrite length_insert; apply H|rewrite length_insert; cbn [os_state iReCksum]; lia|].
  exists ckpt. split; [|by intros]. unfold checked in *. cbn [os_state hdr iReCksum file]. rewrite Rh, (proj2 (Z.eqb_neq _ _) R1).
  eapply log_file_overwrite; [eapply log_file_le; [exact Hlog|exact Rc]|done|lia|done|done|exact Hw|apply write_at_bytes].
Qed.

(** The frames of a set of pages, the last of them the commit. *)
Definition added (isCommit : bool) (nTruncate : Z) (app : list PgHdr) (us : list Frame) : Prop :=
  if isCommit then exists app0 p, app = app0 ++ [p] /\ us = map (to_frame 0) app0 ++ [to_frame nTruncate p]
  else us = map (to_frame 0) app.

(** The part of the state that the writing loop reads and keeps. *)
Record loop_ok (iFirst : Z) (fs : list Frame) (pgs : list Z) (l : Log) : Prop := {
  lo_index : index_ok (shmMap env) (to_wal l) pgs;
  lo_pages : Z.of_nat (length pgs) < max_frames;
  lo_mx : hdr_mxFrame (hdr l) = Z.of_nat (length pgs);
  lo_first : iFirst = 0 \/ iFirst = Z.of_nat (length fs) + 1 /\
    1 <= log_minFrame l <= Z.of_nat (length fs) + 1 /\ log_readLock l <> 0;
  lo_len : (length fs <= length pgs)%nat }.

Lemma loop_ok_kept iFirst fs pgs n l l' : loop_ok iFirst fs pgs l -> kept sz n l l' -> loop_ok iFirst fs pgs l'.
Proof.
  intros H Hk. destruct (kept_fields _ _ _ _ Hk) as (_ & _ & Hm).
  split; try apply H.
  - eapply index_ok_fields; [|apply H]. cbn. apply Hk.
  - rewrite Hm. apply H.
  - destruct (kp_lock _ _ _ _ Hk) as (-> & -> & _). apply H.
Qed.

(** What the search of the index tells the loop: a frame of the transaction that
    holds the page and is the last one to do so. *)
Lemma find_own_frame iFirst fs pgs l p : loop_ok iFirst fs pgs l -> iFirst <> 0 ->
  match sqlite3WalFindFrame (shmMap env) (to_wal l) p with
  | Ok iWrite => iFirst <= iWrite -> exists j, iWrite = Z.of_nat (S j) /\ (length fs <= j)%nat /\ pgs !! j = Some p /\
      forall i, (j < i)%nat -> pgs !! i <> Some p
  | Throw _ => True
  end.
Proof.
  intros H Hn. destruct (lo_first _ _ _ _ H) as [?|(-> & Hmin & Hlock)]; [done|]. pose proof (lo_len _ _ _ _ H).
  pose proof (lo_pages _ _ _ _ H).
  rewrite (find_frame_spec _ _ pgs p (length pgs)) by (try apply H; cbn [to_wal minFrame readLock mxFrame]; try apply H; (done || lia)).
  intros Hle. pose proof (last_frame_spec pgs p (log_minFrame l) (length pgs) ltac:(lia)) as S. cbv zeta in S.
  cbn [to_wal minFrame] in *. set (r := last_frame _ _ _ _) in *. destruct S as [[-> _]|(Hr & Hf & Hl)]; [lia|].
  exists (Z.to_nat (r - 1)). split; [lia|]. split; [lia|]. split; [exact Hf|].
  intros i Hi E. pose proof (lookup_lt_Some _ _ _ E). apply (Hl (Z.of_nat i + 1)); [lia|]. unfold frame.
  by replace (Z.to_nat (Z.of_nat i + 1 - 1)) with i by lia.
Qed.

Definition same_frames (ts ts' : list Frame) : Prop := map f_pgno ts' = map f_pgno ts /\ map f_trunc ts' = map f_trunc ts.

Definition loop_post (l : Log) (isCommit : bool) (nTruncate : Z) (pages : list PgHdr) (fs ts us : list Frame)
    (r : Z * Z * list PgHdr) (l' : Log) : Prop :=
  let '(iFrame, iOffset, app) := r in
  exists ts' us', on_file sz (length fs) l' (fs ++ ts' ++ us') /\ kept sz (length fs) l l' /\ same_frames ts ts' /\
    added isCommit nTruncate app us' /\ (length us' <= length us + length pages)%nat /\ latest (fs ++ ts' ++ us') = overlay pages (latest (fs ++ ts ++ us)) /\
    iFrame = Z.of_nat (length (fs ++ ts' ++ us')) /\ iOffset = Z.of_nat (foff sz (length (fs ++ ts' ++ us'))).

Lemma insert_txn fs ts us j f f' : (fs ++ ts) !! j = Some f -> (length fs <= j)%nat -> f_pgno f' = f_pgno f ->
  f_trunc f' = f_trunc f -> exists ts', <[j := f']> (fs ++ ts ++ us) = fs ++ ts' ++ us /\ same_frames ts ts'.
Proof.
  intros Hj Hl Hp Ht. rewrite lookup_app_r in Hj by done. exists (<[(j - length fs)%nat := f']> ts). split.
  - rewrite insert_app_r_alt by done. f_equal. apply insert_app_l. eapply lookup_lt_Some, Hj.
  - split.
    + change (f_pgno <$> <[(j - length fs)%nat := f']> ts = f_pgno <$> ts). rewrite list_fmap_insert, Hp.
      apply list_insert_id. by rewrite list_lookup_fmap, Hj.
    + change (f_trunc <$> <[(j - length fs)%nat := f']> ts = f_trunc <$> ts). rewrite list_fmap_insert, Ht.
      apply list_insert_id. by rewrite list_lookup_fmap, Hj.
Qed.

Lemma same_frames_trans ts ts1 ts2 : same_frames ts ts1 -> same_frames ts1 ts2 -> same_frames ts ts2.
Proof. unfold same_frames. intuition congruence. Qed.

Lemma same_frames_length ts ts' : same_frames ts ts' -> length ts' = length ts.
Proof. intros [H _]. apply (f_equal length) in H. by rewrite !length_map in H. Qed.

Lemma latest_in_txn fs ts us j f d : (fs ++ ts) !! j = Some f ->
  (forall i, (j < i)%nat -> map f_pgno (fs ++ ts) !! i <> Some (f_pgno f)) -> f_pgno f ∉ map f_pgno us ->
  latest (<[j := {| f_pgno := f_pgno f; f_trunc := f_trunc f; f_data := d |}]> (fs ++ ts ++ us)) =
  <[f_pgno f := d]> (latest (fs ++ ts ++ us)).
Proof.
  intros Hj Hl Hu. rewrite app_assoc. apply latest_overwrite; [by apply lookup_app_l_Some|].
  intros i g Hi Hg E. apply lookup_app_Some in Hg as [Hg|[_ Hg]].
  - apply (Hl i Hi). change (map f_pgno (fs ++ ts)) with (f_pgno <$> (fs ++ ts)). by rewrite list_lookup_fmap, Hg, <- E.
  - apply Hu. rewrite <- E. apply list_elem_of_fmap. exists g. split; [done|]. by eapply list_elem_of_lookup_2.
Qed.

Lemma loop_post_step l l1 isCommit nTruncate p pages fs ts ts1 us us1 r l' : kept sz (length fs) l l1 -> same_frames ts ts1 ->
  (length us1 <= S (length us))%nat -> latest (fs ++ ts1 ++ us1) = <[pgno p := pData p]> (latest (fs ++ ts ++ us)) ->
  loop_post l1 isCommit nTruncate pages fs ts1 us1 r l' -> loop_post l isCommit nTruncate (p :: pages) fs ts us r l'.
Proof.
  intros Hk Hs Hu He. destruct r as [[iFrame iOffset] app]. intros (ts' & us' & H1 & H2 & H3 & H4 & Hl & H5 & H6).
  exists ts', us'. split; [done|]. split; [by eapply kept_trans|]. split; [by eapply same_frames_trans|]. split; [done|].
  split; [cbn [length]; lia|]. split; [|done]. rewrite H5, He. done.
Qed.

(** The loop does its work from any state it can be in. *)
Definition loop_correct (iFirst : Z) (isCommit : bool) (nTruncate : Z) (fs : list Frame) (E : Log -> Prop) (pages : list PgHdr) : Prop :=
  forall l ts app Q, let us := map (to_frame 0) app in
  on_file sz (length fs) l (fs ++ ts ++ us) -> loop_ok iFirst fs (map f_pgno (fs ++ ts)) l ->
  is_u 32 nTruncate -> Forall page_ok pages -> NoDup (map pgno pages) ->
  Forall (fun p => pgno p ∉ map f_pgno us) pages -> (isCommit = true -> pages <> []) ->
  (forall r l', loop_post l isCommit nTruncate pages fs ts us r l' -> Q r l') ->
  (forall l', kept sz (length fs) l l' -> E l') ->
  wp (write_frames env iFirst isCommit nTruncate pages (Z.of_nat (length (fs ++ ts ++ us)))
        (Z.of_nat (foff sz (length (fs ++ ts ++ us)))) app) Q E l.

(** A page overwritten in place. *)
Lemma loop_overwrite iFirst isCommit nTruncate fs (E : Log -> Prop) p pages l ts app j (Q : Z * Z * list PgHdr -> Log -> Prop) :
  loop_correct iFirst isCommit nTruncate fs E pages -> let us := map (to_frame 0) app in
  on_file sz (length fs) l (fs ++ ts ++ us) -> loop_ok iFirst fs (map f_pgno (fs ++ ts)) l -> is_u 32 nTruncate ->
  page_ok p -> Forall page_ok pages -> NoDup (map pgno pages) -> pgno p ∉ map f_pgno us ->
  Forall (fun p => pgno p ∉ map f_pgno us) pages -> (isCommit = true -> pages <> []) ->
  (length fs <= j)%nat -> map f_pgno (fs ++ ts) !! j = Some (pgno p) -> (forall i, (j < i)%nat -> map f_pgno (fs ++ ts) !! i <> Some (pgno p)) ->
  (forall r l', loop_post l isCommit nTruncate (p :: pages) fs ts us r l' -> Q r l') ->
  (forall l', kept sz (length fs) l l' -> E l') ->
  wp (OsWrite env (pData p) (Z.of_nat (foff sz j) + WAL_FRAME_HDRSIZE))
    (fun _ => wp (write_frames env iFirst isCommit nTruncate pages (Z.of_nat (length (fs ++ ts ++ us)))
                    (Z.of_nat (foff sz (length (fs ++ ts ++ us)))) app) Q E) E
    (if (iReCksum l =? 0) || (Z.of_nat (S j) <? iReCksum l) then set_txn l (Z.of_nat (S j)) (truncateOnCommit l) else l).
Proof.
  intros IH us H Hlo Hnt (_ & Hp2 & Hp3) Hpg Hnd Hpn Hnew Hne Hj Hpj Hlast HQ HE.
  change (map f_pgno (fs ++ ts)) with (f_pgno <$> (fs ++ ts)) in Hpj. rewrite list_lookup_fmap in Hpj.
  destruct ((fs ++ ts) !! j) as [f|] eqn:Ef; [|done]. injection Hpj as Hpf.
  eapply overwrite_spec; [exact H|rewrite app_assoc; by apply lookup_app_l_Some|done|done|done| |done].
  intros l1 Hon Hk. destruct (insert_txn fs ts us j f {| f_pgno := f_pgno f; f_trunc := f_trunc f; f_data := pData p |})
    as (ts1 & E1 & Hs); [done..|]. pose proof (same_frames_length _ _ Hs) as Hlen.
  pose proof (latest_in_txn fs ts us j f (pData p) Ef) as L. rewrite Hpf in L. specialize (L Hlast Hpn).
  rewrite <- Hpf, E1 in L. rewrite E1 in Hon. rewrite Hpf in L.
  replace (length (fs ++ ts ++ us)) with (length (fs ++ ts1 ++ us)) by (rewrite !length_app; lia).
  apply (IH l1 ts1 app); try done.
  - rewrite map_app. destruct Hs as [-> _]. rewrite <- map_app. by eapply loop_ok_kept.
  - intros r l' Hpost. apply HQ. eapply (loop_post_step l l1); [done|done| |exact L|exact Hpost]. lia.
  - intros l' Hk'. apply HE. by eapply kept_trans.
Qed.

(** A page appended; [lst] is whether it is the last one. *)
Lemma loop_append iFirst isCommit nTruncate fs (E : Log -> Prop) p pages lst l ts app (Q : Z * Z * list PgHdr -> Log -> Prop) :
  loop_correct iFirst isCommit nTruncate fs E pages -> lst = (match pages with [] => true | _ => false end) ->
  let us := map (to_frame 0) app in let f := to_frame (if isCommit && lst then nTruncate else 0) p in
  loop_ok iFirst fs (map f_pgno (fs ++ ts)) l -> is_u 32 nTruncate -> Forall page_ok pages -> NoDup (map pgno (p :: pages)) ->
  Forall (fun p => pgno p ∉ map f_pgno us) pages ->
  (forall r l', loop_post l isCommit nTruncate (p :: pages) fs ts us r l' -> Q r l') ->
  (forall l', kept sz (length fs) l l' -> E l') ->
  forall l1, on_file sz (length fs) l1 (fs ++ ts ++ us ++ [f]) -> kept sz (length fs) l l1 ->
  wp (write_frames env iFirst isCommit nTruncate pages (Z.of_nat (length (fs ++ ts ++ us ++ [f])))
        (Z.of_nat (foff sz (length (fs ++ ts ++ us ++ [f])))) (app ++ [p])) Q E l1.
Proof.
  intros IH Elst us f Hlo Hnt Hpg Hnd Hnew HQ HE l1 Hon Hk. apply NoDup_cons in Hnd as [Hnin Hnd].
  assert (latest (fs ++ ts ++ us ++ [f]) = <[pgno p := pData p]> (latest (fs ++ ts ++ us))) as L
    by (rewrite !app_assoc, latest_snoc; by rewrite <- !app_assoc).
  destruct (isCommit && lst) eqn:Cl.
  - apply andb_true_iff in Cl as [-> ->]. destruct pages; [|done]. cbn [write_frames]. wp_steps. apply HQ.
    exists ts, (us ++ [f]). do 3 (split; [done|]). split; [by exists app, p|].
    split; [rewrite length_app; cbn [length]; lia|]. split; [exact L|done].
  - assert (us ++ [f] = map (to_frame 0) (app ++ [p])) as Eu by (by rewrite map_app).
    rewrite Eu in *. apply (IH l1 ts (app ++ [p])); try done.
    + by eapply loop_ok_kept.
    + rewrite <- Eu, map_app. rewrite Forall_forall in Hnew |- *. intros q Hq. rewrite elem_of_app.
      intros [Hu|Hu]; [by apply (Hnew q)|]. apply Hnin. apply list_elem_of_singleton in Hu. cbn in Hu. rewrite <- Hu.
      apply list_elem_of_fmap. by exists q.
    + intros -> ->. subst lst. done.
    + intros r l' Hpost. apply HQ. eapply (loop_post_step l l1); [done|done| |exact L|exact Hpost].
      rewrite <- Eu, length_app. cbn [length]. lia.
    + intros l' Hk'. apply HE. by eapply kept_trans.
Qed.

Lemma write_frames_spec iFirst isCommit nTruncate fs (E : Log -> Prop) pages : loop_correct iFirst isCommit nTruncate fs E pages.
Proof.
  induction pages as [|p pages IH]; intros l ts app Q us H Hlo Hnt Hpg Hnd Hnew Hne HQ HE; cbn [write_frames].
  { wp_step. apply HQ. exists ts, us. split; [done|]. split; [apply kept_refl|]. split; [done|]. split; [|cbn [length]; by split; [lia|]].
    destruct isCommit; [by destruct (Hne eq_refl)|done]. }
  apply Forall_cons_1 in Hpg as [Hp Hpg]. pose proof Hnd as Hnd0. apply NoDup_cons in Hnd as [_ Hnd].
  apply Forall_cons_1 in Hnew as [Hpn Hnew].
  wp_steps. set (lst := match pages with [] => true | _ => false end).
  set (w := if negb (iFirst =? 0) && (negb lst || negb isCommit) then _ else 0).
  destruct (negb (iFirst =? 0) && (negb lst || negb isCommit) && (iFirst <=? w)) eqn:C.
  - apply andb_true_iff in C as [C Cw]. apply andb_true_iff in C as [C0 C1].
    assert (iFirst <> 0) as Hi0 by lia. pose proof (find_own_frame _ _ _ _ (pgno p) Hlo Hi0) as F.
    unfold w in *. rewrite C0, C1 in *. cbn [andb] in *. clear w.
    destruct (sqlite3WalFindFrame _ _ _) as [w|e]; [|destruct (lo_first _ _ _ _ Hlo) as [?|[? _]]; lia].
    destruct (F ltac:(lia)) as (j & -> & Hj & Hpj & Hlast). rewrite (of_size _ _ _ _ H), walFrameOffset_foff.
    wp_steps. apply loop_overwrite; try done. intros ->. unfold lst in C1. by destruct pages.
  - clear C w. set (nDb := if isCommit && lst then nTruncate else 0).
    assert (is_u 32 nDb) as Hdb by (unfold nDb; case_match; [done|unfold is_u; lia]).
    pose proof (to_frame_wf nDb p Hdb Hp) as Hf. rewrite (of_size _ _ _ _ H).
    wp_steps. replace (walWriteOneFrame env 0 p nDb _) with
      (walWriteOneFrame env 0 {| pgno := f_pgno (to_frame nDb p); pData := f_data (to_frame nDb p) |}
        (f_trunc (to_frame nDb p)) (Z.of_nat (foff sz (length (fs ++ ts ++ us))))) by (by destruct p).
    apply write_one_spec with (n := length fs); [done|done| |done]. intros l1 Hon _ Hk. rewrite <- !app_assoc in Hon.
    assert (length (fs ++ ts ++ us ++ [to_frame nDb p]) = S (length (fs ++ ts ++ us))) as Hlen by (rewrite !length_app; cbn; lia).
    replace (Z.of_nat (length (fs ++ ts ++ us)) + 1) with (Z.of_nat (length (fs ++ ts ++ us ++ [to_frame nDb p]))) by lia.
    replace (Z.of_nat (foff sz (length (fs ++ ts ++ us))) + (Z.of_nat sz + WAL_FRAME_HDRSIZE))
      with (Z.of_nat (foff sz (length (fs ++ ts ++ us ++ [to_frame nDb p])))) by (rewrite Hlen, foff_S; unfold WAL_FRAME_HDRSIZE; lia).
    by apply (loop_append iFirst isCommit nTruncate fs E p pages lst l ts app Q).
Qed.

(** ** Computing checksums again *)

Lemma bytes_at_sub f o n i b : bytes_at f (o + i) b -> (i + length b <= n)%nat -> bytes_at (slice f o n) i b.
Proof.
  intros H Hn j x Hj. pose proof (lookup_lt_Some _ _ _ Hj). unfold slice. rewrite lookup_take_lt, lookup_drop by lia.
  rewrite Nat.add_assoc. by apply H.
Qed.

Lemma put_ck_read c : is_cksum c -> Get4byte (put_ck c) 0 = fst c /\ Get4byte (put_ck c) 4 = snd c.
Proof.
  intros [H1 H2]. assert (bytes_at (put_ck c) 0 (put_ck c)) as H by (by intros i b).
  apply bytes_at_app in H as [Ha Hb]. by split; apply Get4_Put4.
Qed.

Lemma salt_sums_at be salt c0 fs file i : length salt = 8%nat -> sums_at be salt sz c0 fs file i ->
  bytes_at file (foff sz i + 16) (put_ck (chain be (header_ck be salt sz c0) (take (S i) fs))).
Proof.
  intros Hs H. unfold sums_at in H. apply bytes_at_app in H as [_ H]. rewrite Hs in H.
  by replace (foff sz i + 16)%nat with (foff sz i + 8 + 8)%nat by lia.
Qed.

(** The running checksum covers the frames before the index [i]. *)
Record redone (n ckpt : Z) (l : Log) (all : list Frame) (i : nat) : Prop := {
  rd_size : szPage l = Z.of_nat sz;
  rd_rec : iReCksum l = 0;
  rd_log : log_file (bigEndCksum (hdr l)) (aSalt (hdr l)) sz ckpt all i (file l);
  rd_cksum : aFrameCksum (hdr l) =
    chain (bigEndCksum (hdr l)) (header_ck (bigEndCksum (hdr l)) (aSalt (hdr l)) sz ckpt) (take i all) }.

Lemma redone_step n ckpt l all i f m Q (E : Log -> Prop) : redone n ckpt l all i -> all !! i = Some f -> (0 < sz)%nat ->
  0 <= n <= Z.of_nat i ->
  (forall l', redone n ckpt l' all (S i) -> kept sz (Z.to_nat n) l l' -> wp (rewrite_loop env m (Z.of_nat (S i) + 1)) Q E l') ->
  (forall l', kept sz (Z.to_nat n) l l' -> E l') -> wp (rewrite_loop env (S m) (Z.of_nat (S i))) Q E l.
Proof.
  intros H Hi Hsz Hn HQ HE. pose proof (rd_log _ _ _ _ _ H) as Hlog. pose proof (lf_raw _ _ _ _ _ _ _ Hlog i f Hi) as [Hr1 Hr2].
  pose proof (frame_at _ _ _ _ (lf_wf _ _ _ _ _ _ _ Hlog) Hi) as (Hp & Ht & Hd & Hb).
  pose proof (lf_salt _ _ _ _ _ _ _ Hlog) as [Hs _].
  set (a := slice (file l) (foff sz i) (24 + sz)).
  assert (length a = 24 + sz)%nat as Ha.
  { pose proof (bytes_at_length _ _ _ Hr2) as L. rewrite Hd in L. unfold a, slice. rewrite length_take, length_drop.
    assert (f_data f <> []) by (intros E0; rewrite E0 in Hd; cbn in Hd; lia). specialize (L ltac:(done)). lia. }
  cbn [rewrite_loop]. wp_steps. rewrite (rd_size _ _ _ _ _ H), walFrameOffset_foff.
  replace (Z.to_nat (Z.of_nat sz + WAL_FRAME_HDRSIZE)) with (length a) by (unfold WAL_FRAME_HDRSIZE; lia).
  apply OsRead_spec; [rewrite Nat2Z.id; apply slice_bytes_at|]. intros rc buf k [[-> ->]|Hrc].
  2: { rewrite (proj2 (Z.eqb_neq _ _) Hrc). cbn [negb]. wp_steps. apply HE, kept_read. }
  change (negb (SQLITE_OK =? SQLITE_OK)) with false. cbv iota. wp_steps. unfold os_state at 2. cbn [szPage].
  rewrite (rd_size _ _ _ _ _ H), Nat2Z.id.
  apply bytes_at_app in Hr1 as [Hr1 Hr1'].
  rewrite (Get4_Put4 a 0 (f_pgno f)) by (first [apply bytes_at_sub; [by rewrite Nat.add_0_r|cbn; lia] | unfold is_u; lia]).
  rewrite (Get4_Put4 a 4 (f_trunc f)) by (first [apply bytes_at_sub; [done|cbn; lia] | done]).
  assert (slice a 24 sz = f_data f) as -> by (rewrite <- Hd at 1; apply bytes_at_slice, bytes_at_sub; [done|lia]).
  rewrite encode_checked by (try apply H; done). cbn [os_state hdr].
  rewrite (rd_cksum _ _ _ _ _ H). set (c := step _ _ f).
  assert (c = chain (bigEndCksum (hdr l)) (header_ck (bigEndCksum (hdr l)) (aSalt (hdr l)) sz ckpt) (take (S i) all)) as Ec.
  { by rewrite (take_S_r _ _ f Hi), chain_snoc. }
  assert (length (head8 f ++ aSalt (hdr l) ++ put_ck c) = 24%nat) as L24.
  { unfold put_ck. rewrite !length_app, !length_Put4, length_head8, Hs. done. }
  assert (foff sz (Z.to_nat n) <= foff sz i)%nat as Hoff by (unfold foff; nia).
  wp_steps. apply OsWrite_spec; rewrite ?Nat2Z.id, ?L24; cbn [os_state set_hdr file].
  2: { intros k2 f2 Hw. apply HE. split; try done. intros j x Hj Hx. cbn. apply Hw; [lia|done]. }
  intros k2. pose proof (write_at_wrote (file l) (foff sz i) (head8 f ++ aSalt (hdr l) ++ put_ck c)) as Hw. rewrite L24 in Hw.
  pose proof (write_at_bytes (file l) (foff sz i) (head8 f ++ aSalt (hdr l) ++ put_ck c)) as Hwb.
  set (f2 := write_at _ _ _) in *. apply HQ.
  - split; unfold os_state; cbn [szPage iReCksum hdr set_hdr with_cksum bigEndCksum aSalt file aFrameCksum]; try apply H; [|exact Ec].
    apply bytes_at_app in Hwb as [Hb1 Hb2]. eapply log_file_sum; [exact Hlog|exact Hi|exact Hw|exact Hb1|]. by rewrite <- Ec.
  - split; try done. intros j x Hj Hx. cbn. apply Hw; [lia|done].
Qed.

Lemma rewrite_loop_spec n ckpt all (Q : unit -> Log -> Prop) (E : Log -> Prop) m : forall l i, redone n ckpt l all i ->
  (0 < sz)%nat -> 0 <= n <= Z.of_nat i -> (i + m = length all)%nat ->
  (forall l', redone n ckpt l' all (length all) -> kept sz (Z.to_nat n) l l' -> Q tt l') ->
  (forall l', kept sz (Z.to_nat n) l l' -> E l') -> wp (rewrite_loop env m (Z.of_nat (S i))) Q E l.
Proof.
  induction m as [|m IH]; intros l i H Hsz Hn Hm HQ HE.
  - cbn [rewrite_loop]. wp_steps. apply HQ; [|apply kept_refl]. by replace (length all) with i by lia.
  - destruct (lookup_lt_is_Some_2 all i) as [f Hf]; [lia|]. eapply redone_step; [exact H|exact Hf|done|done| |done].
    intros l1 H1 Hk. replace (Z.of_nat (S i) + 1) with (Z.of_nat (S (S i))) by lia. apply IH; [done|done|lia|lia| |].
    + intros l' H' Hk'. apply HQ; [done|by eapply kept_trans].
    + intros l' Hk'. apply HE. by eapply kept_trans.
Qed.

(** Where the checksum of the frames before the index [k] is stored. *)
Lemma cksum_offset l n all ckpt : on_file sz n l all -> iReCksum l <> 0 ->
  log_file (bigEndCksum (hdr l)) (aSalt (hdr l)) sz ckpt all (checked l all) (file l) ->
  bytes_at (file l) (Z.to_nat (if iReCksum l =? 1 then 24 else walFrameOffset (iReCksum l - 1) (szPage l) + 16))
    (put_ck (chain (bigEndCksum (hdr l)) (header_ck (bigEndCksum (hdr l)) (aSalt (hdr l)) sz ckpt) (take (checked l all) all))).
Proof.
  intros H N Hlog. pose proof (of_rec _ _ _ _ H N). pose proof (lf_salt _ _ _ _ _ _ _ Hlog) as [Hs _].
  pose proof (of_checked _ _ _ _ H) as Hk. unfold checked in *. rewrite (proj2 (Z.eqb_neq _ _) N) in *.
  destruct (Z.eqb_spec (iReCksum l) 1) as [E|N1].
  - rewrite E. cbn [Z.sub Z.to_nat take chain fold_left]. pose proof (lf_header _ _ _ _ _ _ _ Hlog) as Hh.
    apply bytes_at_app in Hh as [_ Hh]. replace (0 + _)%nat with 24%nat in Hh; [exact Hh|].
    unfold header24. rewrite !length_app, !length_Put4, Hs. done.
  - destruct (Z.to_nat (iReCksum l - 1)) as [|k] eqn:Ek; [lia|].
    replace (iReCksum l - 1) with (Z.of_nat (S k)) by lia. rewrite (of_size _ _ _ _ H), walFrameOffset_foff.
    replace (Z.to_nat (Z.of_nat (foff sz k) + 16)) with (foff sz k + 16)%nat by lia.
    apply salt_sums_at; [done|]. apply (lf_sums _ _ _ _ _ _ _ Hlog). lia.
Qed.

Lemma rewrite_spec n l all (Q : unit -> Log -> Prop) (E : Log -> Prop) : on_file sz n l all -> iReCksum l <> 0 -> (0 < sz)%nat ->
  (forall l', on_file sz n l' all -> iReCksum l' = 0 -> kept sz n l l' -> Q tt l') -> (forall l', kept sz n l l' -> E l') ->
  wp (walRewriteChecksums env (Z.of_nat (length all))) Q E l.
Proof.
  intros H N Hsz HQ HE. unfold walRewriteChecksums. destruct (alloc env); cbn [negb]; [|wp_steps; apply HE, kept_refl].
  destruct (of_file _ _ _ _ H) as (ckpt & Hlog & _). pose proof (cksum_offset _ _ _ _ H N Hlog) as Hb.
  pose proof (of_checked _ _ _ _ H) as Hk. pose proof (of_rec _ _ _ _ H N) as Hr.
  set (c := chain _ _ _) in Hb. assert (is_cksum c) as Hc by (apply chain_range, header_ck_range).
  wp_steps. replace 8%nat with (length (put_ck c)) by done. apply OsRead_spec; [exact Hb|]. intros rc buf k Hbuf.
  wp_steps. destruct Hbuf as [[-> ->]|Hrc].
  2: { rewrite (proj2 (Z.eqb_neq _ _) Hrc). cbn [negb]. wp_steps. apply HE. by split. }
  change (negb (SQLITE_OK =? SQLITE_OK)) with false. cbv iota. destruct (put_ck_read c Hc) as [-> ->].
  rewrite <- surjective_pairing. set (i := checked l all) in *.
  assert (iReCksum l = Z.of_nat (S i)) as Ei by (unfold i, checked; rewrite (proj2 (Z.eqb_neq _ _) N); lia).
  rewrite Ei. replace (Z.to_nat _) with (length all - i)%nat by lia.
  apply (rewrite_loop_spec (Z.of_nat n) ckpt all).
  - split; [apply H|done|exact Hlog|done].
  - done.
  - lia.
  - lia.
  - rewrite Nat2Z.id. intros l' Hd Hk'. apply HQ; [|apply Hd|eapply kept_trans; [|exact Hk']; by split].
    pose proof (kept_fields _ _ _ _ Hk') as (_ & _ & _). split; [apply Hd|apply H|rewrite (rd_rec _ _ _ _ _ Hd); done|].
    exists ckpt. unfold checked. rewrite (rd_rec _ _ _ _ _ Hd). change (0 =? 0) with true. cbv iota.
    split; [apply Hd|]. intros _. rewrite (rd_cksum _ _ _ _ _ Hd). by rewrite take_ge by lia.
  - rewrite Nat2Z.id. intros l' Hk'. apply HE. eapply kept_trans; [|exact Hk']. by split.
Qed.

(** ** Padding and the size limit *)

Lemma latest_repeat fs f m : latest ((fs ++ [f]) ++ replicate m f) = latest (fs ++ [f]).
Proof.
  induction m as [|m IH] using nat_ind; [by rewrite app_nil_r|].
  rewrite replicate_S_end, app_assoc, latest_snoc, IH, latest_snoc. by rewrite insert_insert_eq.
Qed.

(** The loop ends at the sync point: it has one round per byte to go. *)
Lemma pad_loop_spec sp n p nTruncate (Q : nat -> Log -> Prop) (E : Log -> Prop) : page_ok p -> is_u 32 nTruncate ->
  forall fuel l all k, on_file sz n l all -> (Z.to_nat (sp - Z.of_nat (foff sz (length all))) <= fuel)%nat ->
  (forall m l', on_file sz n l' (all ++ replicate m (to_frame nTruncate p)) -> (m <= fuel)%nat -> iReCksum l' = iReCksum l ->
     sp <= Z.of_nat (foff sz (length all + m)) -> kept sz n l l' -> Q (k + m)%nat l') ->
  (forall l', kept sz n l l' -> E l') ->
  wp (pad_loop env fuel sp p nTruncate (Z.of_nat (foff sz (length all))) k) Q E l.
Proof.
  intros Hp Hnt fuel. induction fuel as [|fuel IH]; intros l all k H Hf HQ HE; cbn [pad_loop].
  { wp_steps. rewrite <- (Nat.add_0_r k). apply HQ; rewrite ?app_nil_r, ?Nat.add_0_r; first [done | lia | apply kept_refl]. }
  case_match eqn:C.
  2: { wp_steps. rewrite <- (Nat.add_0_r k). apply HQ; rewrite ?app_nil_r, ?Nat.add_0_r; first [done | lia | apply kept_refl]. }
  wp_steps. replace (walWriteOneFrame env sp p nTruncate _) with
    (walWriteOneFrame env sp {| pgno := f_pgno (to_frame nTruncate p); pData := f_data (to_frame nTruncate p) |}
      (f_trunc (to_frame nTruncate p)) (Z.of_nat (foff sz (length all)))) by (by destruct p).
  apply write_one_spec with (n := n); [done|by apply to_frame_wf| |done].
  intros l1 Hon Hr Hk. rewrite (of_size _ _ _ _ H).
  replace (Z.of_nat (foff sz (length all)) + (Z.of_nat sz + WAL_FRAME_HDRSIZE))
    with (Z.of_nat (foff sz (length (all ++ [to_frame nTruncate p])))).
  2: { rewrite length_app, Nat.add_1_r, foff_S. unfold WAL_FRAME_HDRSIZE. lia. }
  apply IH; [done| | |].
  - rewrite length_app, Nat.add_1_r, foff_S. lia.
  - intros m l' H1 H2 H3 H4 H5. rewrite Nat.add_succ_comm. apply HQ.
    + rewrite <- app_assoc in H1. exact H1.
    + lia.
    + congruence.
    + rewrite length_app in H4. cbn [length] in H4. by replace (length all + S m)%nat with (length all + 1 + m)%nat by lia.
    + by eapply kept_trans.
  - intros l' Hk'. apply HE. by eapply kept_trans.
Qed.

Lemma pad_and_sync_spec sync n l all p nTruncate (Q : Z * nat -> Log -> Prop) (E : Log -> Prop) : page_ok p -> is_u 32 nTruncate ->
  0 < sectorSize env -> on_file sz n l all ->
  (forall rc m l', on_file sz n l' (all ++ replicate m (to_frame nTruncate p)) -> (m <= Z.to_nat (sectorSize env))%nat ->
     iReCksum l' = iReCksum l -> kept sz n l l' -> Q (rc, m) l') ->
  (forall l', kept sz n l l' -> E l') ->
  wp (pad_and_sync env sync p nTruncate (Z.of_nat (foff sz (length all)))) Q E l.
Proof.
  intros Hp Hnt Hs H HQ HE. unfold pad_and_sync. destruct sync; cbn [negb].
  2: { wp_steps. apply HQ; [by rewrite app_nil_r|lia|done|apply kept_refl]. }
  set (o := foff sz (length all)). set (sp := if padToSectorBoundary env then _ else _).
  assert (sp - Z.of_nat o <= sectorSize env) as Hsp.
  { unfold sp. case_match; [|lia]. pose proof (Z.mul_div_le (Z.of_nat o + sectorSize env - 1) (sectorSize env) Hs). lia. }
  wp_steps. apply pad_loop_spec with (n := n); [done|done|done|fold o; lia| |done].
  intros m l1 H1 Hm Hr _ Hk. fold o in Hm. wp_steps. rewrite Nat.add_0_l. case_match; wp_steps.
  - apply os_call_spec. intros rc. wp_steps. apply HQ; [|lia|done|eapply kept_trans; [exact Hk|apply kept_read]].
    destruct (of_file _ _ _ _ H1) as (ckpt & Hlog). split; [apply H1|apply H1|apply H1|]. exists ckpt. apply Hlog.
  - apply HQ; [done|lia|done|done].
Qed.

Lemma on_file_write sz' n l all o m f k : on_file sz' n l all -> wrote (file l) o m f -> (foff sz' (length all) <= o)%nat ->
  on_file sz' n (os_state l f k) all.
Proof.
  intros H Hw Ho. destruct (of_file _ _ _ _ H) as (ckpt & Hlog & Hc). split; [apply H|apply H|apply H|]. exists ckpt.
  split; [|done]. change (checked (os_state l f k) all) with (checked l all).
  eapply log_file_wrote; [exact Hlog|by apply (of_checked _ _ _ _ H)|exact Hw|done].
Qed.

Lemma limit_size_spec n l all (Q : unit -> Log -> Prop) (E : Log -> Prop) : on_file sz n l all ->
  (forall l', on_file sz n l' all -> iReCksum l' = iReCksum l -> kept sz n l l' -> Q tt l') ->
  wp (limit_size env (Z.of_nat (length all))) Q E l.
Proof.
  intros H HQ. assert (forall l1 t, on_file sz n l1 all -> iReCksum l1 = iReCksum l -> kept sz n l l1 -> Q tt (set_txn l1 (iReCksum l1) t)) as HQ'.
  { intros l1 t H1 Hr Hk. apply HQ; [|done|eapply kept_trans; [exact Hk|apply kept_txn]].
    destruct (of_file _ _ _ _ H1) as (ckpt & Hlog). split; [apply H1|apply H1|apply H1|]. exists ckpt. apply Hlog. }
  assert (foff sz n <= foff sz (length all))%nat as Hoff by (pose proof (of_len _ _ _ _ H); unfold foff; nia).
  assert (forall f k, wrote (file l) (foff sz (length all)) (length (file l)) f -> forall t,
    Q tt (set_txn (os_state l f k) (iReCksum (os_state l f k)) t)) as HQ2.
  { intros f k Hw t. apply HQ'; [eapply on_file_write; [done|exact Hw|lia]|done|eapply kept_write; [exact Hw|lia]]. }
  unfold limit_size. wp_steps. case_match; wp_steps; [|apply HQ; [done|done|apply kept_refl]].
  replace (Z.of_nat (length all) + 1) with (Z.of_nat (S (length all))) by lia. rewrite (of_size _ _ _ _ H), walFrameOffset_foff.
  set (nMax := if _ : bool then _ else mxWalSize env). assert (Z.of_nat (foff sz (length all)) <= nMax) as Hmax by (unfold nMax; case_match; lia).
  unfold walLimitSize. wp_steps. apply os_call_spec. intros rx. wp_steps. case_match.
  2: { wp_steps. apply HQ2, wrote_refl. }
  wp_steps. apply os_call_spec. intros rx2. case_match; wp_steps; [|apply HQ2, wrote_refl].
  cbn [file os_state]. apply (HQ2 (take (Z.to_nat nMax) (file l)) _). intros i b Hi Hb.
  pose proof (lookup_lt_Some _ _ _ Hb). rewrite lookup_take_lt by lia. done.
Qed.

(** ** The states of a log

    [fs] are the committed frames, [ts] those of the transaction being written. *)
Definition salt_ok (salt : list Z) : Prop := length salt = 8%nat /\ Forall is_byte salt.

Record committed (l : Log) (fs : list Frame) : Prop := {
  cm_mx : hdr_mxFrame (live l) = Z.of_nat (length fs);
  cm_file : fs <> [] -> szPage l = Z.of_nat sz /\ exists ckpt,
    log_file (bigEndCksum (live l)) (aSalt (live l)) sz ckpt fs (length fs) (file l) /\
    aFrameCksum (live l) = chain (bigEndCksum (live l)) (header_ck (bigEndCksum (live l)) (aSalt (live l)) sz ckpt) fs;
  cm_salt : salt_ok (aSalt (live l));
  cm_index : index_ok (shmMap env) (to_wal l) (map f_pgno fs);
  cm_len : Z.of_nat (length fs) < max_frames;
  cm_last : fs <> [] -> exists f, last fs = Some f /\ f_trunc f <> 0 }.

Record writing (l : Log) (fs ts : list Frame) : Prop := {
  wr_committed : committed l fs;
  wr_mx : hdr_mxFrame (hdr l) = Z.of_nat (length (fs ++ ts));
  wr_file : fs ++ ts <> [] -> on_file sz (length fs) l (fs ++ ts);
  wr_empty : fs ++ ts = [] -> iReCksum l = 0;
  wr_hdr : fs <> [] -> bigEndCksum (hdr l) = bigEndCksum (live l) /\ aSalt (hdr l) = aSalt (live l);
  wr_salt : salt_ok (aSalt (hdr l));
  wr_index : index_ok (shmMap env) (to_wal l) (map f_pgno (fs ++ ts));
  wr_len : Z.of_nat (length (fs ++ ts)) < max_frames;
  wr_trunc : Forall (fun f => f_trunc f = 0) ts;
  wr_lock : log_readLock l <> 0 /\ 1 <= log_minFrame l <= Z.of_nat (length fs) + 1 \/
            log_readLock l = 0 /\ hdr l = live l /\ nBackfill l = hdr_mxFrame (hdr l) }.

(** Between transactions. *)
Definition idle (l : Log) (fs : list Frame) : Prop := committed l fs /\ hdr l = live l /\ iReCksum l = 0.

Lemma cm_wf l fs : committed l fs -> Forall (frame_wf sz) fs.
Proof.
  intros H. destruct (decide (fs = [])) as [->|N]; [constructor|]. destruct (cm_file _ _ H N) as (_ & ckpt & Hlog & _). apply Hlog.
Qed.

Lemma committed_kept l l' fs : committed l fs -> kept sz (length fs) l l' -> committed l' fs.
Proof.
  intros H Hk. pose proof (kp_live _ _ _ _ Hk) as El. split; rewrite ?El; try apply H.
  - intros N. destruct (cm_file _ _ H N) as (Hs & ckpt & Hlog & Hc). rewrite (kp_size _ _ _ _ Hk). split; [done|]. exists ckpt.
    split; [|done]. eapply (log_file_wrote _ _ _ _ _ _ _ (foff sz (length fs)) (length (file l))); [exact Hlog|done| |done].
    intros i b Hi Hb. pose proof (lookup_lt_Some _ _ _ Hb). apply (kp_file _ _ _ _ Hk); [lia|done].
  - eapply index_ok_fields; [|apply H]. apply Hk.
Qed.

Lemma committed_nil l : hdr_mxFrame (live l) = 0 -> salt_ok (aSalt (live l)) -> committed l [].
Proof. intros Hm Hs. split; [done|done|done|apply index_ok_nil|done|done]. Qed.

Lemma on_file_committed l fs : committed l fs -> fs <> [] -> hdr l = live l -> iReCksum l = 0 -> on_file sz (length fs) l fs.
Proof.
  intros H N Eh Er. destruct (cm_file _ _ H N) as (Hs & ckpt & Hlog & Hc). split; [done|done|by rewrite Er|]. exists ckpt.
  unfold checked. by rewrite Eh, Er.
Qed.

Lemma idle_writing l fs : idle l fs -> log_readLock l <> 0 /\ 1 <= log_minFrame l <= Z.of_nat (length fs) + 1 \/
    log_readLock l = 0 /\ hdr l = live l /\ nBackfill l = hdr_mxFrame (hdr l) -> writing l fs [].
Proof.
  intros (H & Eh & Er) Hlock. split; rewrite ?app_nil_r; try apply H; try done.
  - rewrite Eh. apply H.
  - intros N. by apply on_file_committed.
  - by rewrite Eh.
  - rewrite Eh. apply H.
Qed.

(** Rolling back. *)
Lemma undo_spec l fs : committed l fs -> idle (sqlite3WalEndWriteTransaction (sqlite3WalUndo env l)) fs.
Proof.
  intros H. unfold sqlite3WalUndo, sqlite3WalEndWriteTransaction. cbv zeta.
  assert (forall m, index_ok (shmMap env) (to_wal (set_shm (set_hdr l (live l)) m)) (map f_pgno fs) ->
    idle (set_txn (set_shm (set_hdr l (live l)) m) 0 false) fs) as K.
  { intros m Hi. split; [|done]. split; try apply H. eapply index_ok_fields; [|exact Hi]. done. }
  case_match; [|apply (K (shm l)), (index_ok_fields _ (to_wal l)); [done|apply H]].
  apply K. destruct (cleanup_spec (shmMap env) (to_wal (set_hdr l (live l))) (map f_pgno fs)) as [Hi _].
  - eapply index_ok_fields; [|apply H]. done.
  - rewrite length_map. cbn. symmetry. apply H.
  - rewrite length_map. apply H.
  - eapply index_ok_fields; [|exact Hi]. done.
Qed.

(** ** Restart and header *)

Hypothesis random_ok : forall k, (8 <= length (randomness env k))%nat /\ Forall is_byte (randomness env k).
Hypothesis begin_ok : forall n, begin_read env n <> 0.

Lemma writing_rec l fs ts : writing l fs ts -> hdr l = live l -> ts = [] /\ iReCksum l = 0.
Proof.
  intros H Eh. pose proof (wr_mx _ _ _ H) as Hm. pose proof (cm_mx _ _ (wr_committed _ _ _ H)) as Hc. rewrite Eh, Hc, length_app in Hm.
  assert (ts = []) as -> by (destruct ts; [done|cbn in Hm; lia]). split; [done|].
  destruct (decide (fs = [])) as [->|N]; [by apply (wr_empty _ _ _ H)|].
  pose proof (wr_file _ _ _ H) as F. rewrite app_nil_r in F. pose proof (of_rec _ _ _ _ (F N)).
  destruct (Z.eq_dec (iReCksum l) 0); [done|]. lia.
Qed.

Definition restarted (l l' : Log) (fs : list Frame) : list Frame := if nCkpt l' =? nCkpt l then fs else [].

Lemma walRestartHdr_idle l salt1 : salt_ok (aSalt (hdr l)) -> (4 <= length salt1)%nat -> Forall is_byte salt1 -> iReCksum l = 0 ->
  exists l', walRestartHdr env salt1 l = l' /\ idle l' [] /\ nBackfill l' = 0 /\ nCkpt l' = u32 (nCkpt l + 1).
Proof.
  intros Hs H4 Hb Er. set (l' := walRestartHdr env salt1 l). assert (salt_ok (aSalt (hdr l'))) as Hs'.
  { assert (aSalt (hdr l') = Put4byte (u32 (1 + Get4byte (aSalt (hdr l)) 0)) ++ take 4 salt1) as -> by done.
    split; [rewrite length_app, length_take, length_Put4; lia|]. apply Forall_app. split; [apply Put4_bytes|by apply Forall_take]. }
  exists l'. split; [done|]. split; [|done]. split; [|done]. by apply committed_nil.
Qed.

Lemma nCkpt_next n : u32 (n + 1) <> n.
Proof. unfold wrapu. intros E. Z.to_euclidean_division_equations. lia. Qed.

Lemma set_lock_writing l fs lock : idle l fs -> lock <> 0 -> 0 <= nBackfill l <= Z.of_nat (length fs) ->
  writing (set_lock l (nBackfill l + 1) lock) fs [].
Proof.
  intros [H [Eh Er]] Hl Hn. apply idle_writing; [|left; cbn; split; [done|lia]]. split; [|done]. by split; apply H.
Qed.

Lemma restarted_eq l l1 l2 x : nCkpt l2 = nCkpt l1 -> restarted l l2 x = restarted l l1 x.
Proof. unfold restarted. by intros ->. Qed.

Lemma restarted_nil l l1 : restarted l l1 [] = [].
Proof. unfold restarted. by case_match. Qed.

(** The end of [walRestartLog]: a read lock on the whole log. *)
Lemma restart_lock l l1 fs fs1 (Q : unit -> Log -> Prop) (E : Log -> Prop) : idle l1 fs1 -> 0 <= nBackfill l1 <= Z.of_nat (length fs1) ->
  restarted l l1 fs = fs1 -> (forall l', writing l' (restarted l l' fs) [] -> log_readLock l' <> 0 -> Q tt l') ->
  (forall l', committed l' (restarted l l' fs) -> E l') ->
  wp (rc ← os_call env;
      if negb (rc =? SQLITE_OK) then mput (fun l => set_lock l (log_minFrame l) (-1));; raise rc
      else mput (fun l => set_lock l (nBackfill l + 1) (begin_read env (hdr_mxFrame (hdr l))))) Q E l1.
Proof.
  intros Hid Hn Hre HQ HE. wp_steps. apply os_call_spec. intros rc. set (l2 := os_state _ _ _).
  assert (idle l2 fs1) as Hid'.
  { destruct Hid as (Hc1 & ? & ?). split; [|done]. eapply committed_kept; [exact Hc1|apply kept_read]. }
  assert (nCkpt l2 = nCkpt l1 /\ nBackfill l2 = nBackfill l1) as [En Eb] by done. clearbody l2.
  case_match; wp_steps.
  - apply HE. rewrite (restarted_eq l l1) by done. rewrite Hre. destruct Hid' as (Hc1 & _). by split; apply Hc1.
  - apply HQ; [|apply begin_ok]. rewrite (restarted_eq l l1) by done. rewrite Hre. rewrite <- Eb in Hn.
    exact (set_lock_writing _ _ _ Hid' (begin_ok _) Hn).
Qed.

Lemma restart_spec l fs ts (Q : unit -> Log -> Prop) (E : Log -> Prop) : writing l fs ts ->
  (forall l', writing l' (restarted l l' fs) (restarted l l' ts) -> log_readLock l' <> 0 -> (hdr l <> live l -> l' = l) -> Q tt l') ->
  (forall l', committed l' (restarted l l' fs) -> E l') -> wp (walRestartLog env) Q E l.
Proof.
  intros H HQ HE. unfold walRestartLog. wp_steps. destruct (Z.eqb_spec (log_readLock l) 0) as [Hl|Hl].
  2: { wp_steps. apply HQ; unfold restarted; by rewrite ?Z.eqb_refl. }
  destruct (wr_lock _ _ _ H) as [[? _]|(_ & Eh & Hbf)]; [done|]. destruct (writing_rec _ _ _ H Eh) as [-> Er].
  pose proof (wr_mx _ _ _ H) as Hm. rewrite app_nil_r in Hm. pose proof (wr_committed _ _ _ H) as Hc. pose proof (wr_salt _ _ _ H) as Hs.
  assert (forall l', writing l' (restarted l l' fs) [] -> log_readLock l' <> 0 -> Q tt l') as HQ'.
  { intros l' ? ?. apply HQ; [by rewrite restarted_nil|done|by intros []]. }
  clear H HQ. wp_steps. assert (forall l1, nCkpt l1 = nCkpt l -> restarted l l1 fs = fs) as Hsame
    by (intros l1 E1; unfold restarted; by rewrite E1, Z.eqb_refl).
  destruct (0 <? nBackfill l) eqn:Cb.
  2: { wp_steps. apply (restart_lock l l fs fs); [done|lia|by apply Hsame|done|done]. }
  wp_steps. apply os_call_spec. intros rc. pose proof (random_ok (io l)) as [R1 R2]. revert R1 R2. generalize (randomness env (io l)) as salt1. intros salt1 R1 R2.
  assert (idle (os_state l (file l) (S (io l))) fs) as Hid0 by (split; [eapply committed_kept; [exact Hc|apply kept_read]|done]).
  assert (nCkpt (os_state l (file l) (S (io l))) = nCkpt l /\ nBackfill (os_state l (file l) (S (io l))) = nBackfill l /\
    hdr (os_state l (file l) (S (io l))) = hdr l /\ iReCksum (os_state l (file l) (S (io l))) = 0) as (En & Eb & Ehd & Er0) by done.
  revert Hid0 En Eb Ehd Er0. generalize (os_state l (file l) (S (io l))) as l0. intros l0 Hid0 En Eb Ehd Er0.
  destruct (rc =? SQLITE_OK).
  - wp_steps. destruct (walRestartHdr_idle l0 salt1) as (l1 & -> & I1 & I2 & I5); [by rewrite Ehd|lia|done|done|].
    apply (restart_lock l l1 fs []); [done|cbn [length]; lia| |done|done]. unfold restarted. rewrite I5, En.
    by rewrite (proj2 (Z.eqb_neq _ _) (nCkpt_next (nCkpt l))).
  - destruct (negb (rc =? SQLITE_BUSY)); wp_steps.
    + apply HE. rewrite Hsame by done. apply Hid0.
    + apply (restart_lock l l0 fs fs); [done|lia|by apply Hsame|done|done].
Qed.

(** What writing the header of an empty log keeps. *)
Definition header_kept (l l' : Log) : Prop :=
  live l' = live l /\ shm l' = shm l /\ hdr_mxFrame (hdr l') = hdr_mxFrame (hdr l) /\ nCkpt l' = nCkpt l /\
  iReCksum l' = iReCksum l /\ log_minFrame l' = log_minFrame l /\ log_readLock l' = log_readLock l.

Lemma header_spec l (Q : unit -> Log -> Prop) (E : Log -> Prop) : salt_ok (aSalt (hdr l)) -> iReCksum l = 0 ->
  (forall l', on_file sz 0 l' [] -> salt_ok (aSalt (hdr l')) -> header_kept l l' -> Q tt l') ->
  (forall l', header_kept l l' -> E l') -> wp (write_wal_header env (Z.of_nat sz)) Q E l.
Proof.
  intros Hs Hr HQ HE. unfold write_wal_header. wp_steps. set (salt := if nCkpt l =? 0 then _ else _).
  assert (salt_ok salt) as Hsalt.
  { unfold salt. case_match; [|done]. destruct (random_ok (io l)). split; [rewrite length_take; lia|by apply Forall_take]. }
  fold (header24 (SQLITE_BIGENDIAN env) salt sz (nCkpt l)). set (h24 := header24 _ _ _ _).
  change (walChecksumBytes (SQLITE_BIGENDIAN env) true h24 (0, 0)) with (header_ck (SQLITE_BIGENDIAN env) salt sz (nCkpt l)).
  set (c := header_ck _ _ _ _). change (Put4byte (fst c) ++ Put4byte (snd c)) with (put_ck c).
  apply OsWrite_spec; [|by intros; apply HE].
  intros k. cbn [os_state set_txn set_size set_hdr file]. set (f1 := write_at _ _ _).
  set (h := {| iVersion := _ |}).
  assert (forall k2, on_file sz 0 (os_state (set_txn (set_size (set_hdr l h) (Z.of_nat sz) (nCkpt l)) (iReCksum l) true) f1 k2) []) as Hon.
  { intros k2. split; [done|done|by rewrite Hr|]. exists (nCkpt l). unfold checked, os_state. cbn [set_txn set_size set_hdr hdr iReCksum file].
    rewrite Hr. change (0 =? 0) with true. cbv iota. split; [|done]. split; [apply (write_at_bytes _ 0)|done|constructor|done|intros i Hi; cbn in Hi; lia]. }
  destruct (syncHeader env).
  - apply OsSync_spec; intros k2; [|by apply HE]. apply HQ; [apply Hon|done|done].
  - wp_steps. apply HQ; [apply Hon|done|done].
Qed.

(** ** The index and the header after writing *)

Lemma frame_wf_page n p : frame_wf sz (to_frame n p) -> page_ok p.
Proof. by intros (? & _ & ? & ?). Qed.

Lemma WalFrames_index_spec w pgs pages : index_ok (shmMap env) w pgs -> mxFrame w = Z.of_nat (length pgs) -> pages_ok (pgs ++ pages) ->
  exists rc w', WalFrames_index (shmMap env) w pages = (rc, w') /\
    (rc = SQLITE_OK /\ index_ok (shmMap env) w' (pgs ++ pages) /\ mxFrame w' = Z.of_nat (length (pgs ++ pages)) \/
     rc <> SQLITE_OK /\ index_ok (shmMap env) w' pgs).
Proof.
  intros Hi Hm Hp. unfold WalFrames_index. rewrite Hm.
  destruct (append_loop_spec (shmMap env) pages w pgs Hi Hp) as (rc & w' & n & -> & _ & R); [by left|].
  destruct R as [(-> & R & ->)|[Hrc R]].
  - eexists _, _. split; [reflexivity|]. left. split; [done|]. split; [|done]. eapply index_ok_fields; [|exact R]. done.
  - rewrite (proj2 (Z.eqb_neq _ _) Hrc). eexists _, _. split; [reflexivity|]. by right.
Qed.

Lemma committed_txn l l' fs m : committed l fs -> kept sz (length fs) l l' -> index_ok (shmMap env) (to_wal (set_shm l' m)) (map f_pgno fs) ->
  committed (set_shm l' m) fs.
Proof. intros H Hk Hi. pose proof (committed_kept _ _ _ H Hk) as H'. by split; try apply H'. Qed.

Lemma publish_spill l l4 fs ts ts2 m nTruncate : writing l fs ts -> log_readLock l <> 0 -> kept sz (length fs) l l4 ->
  on_file sz (length fs) l4 (fs ++ ts2) -> index_ok (shmMap env) (to_wal (set_shm l4 m)) (map f_pgno (fs ++ ts2)) ->
  Z.of_nat (length (fs ++ ts2)) < max_frames -> Forall (fun f => f_trunc f = 0) ts2 ->
  writing (publish env (Z.of_nat (length (fs ++ ts2))) nTruncate false (set_shm l4 m)) fs ts2.
Proof.
  intros H Hl Hk Hon Hi Hlen Ht. destruct (kept_fields _ _ _ _ Hk) as (Kb & Ks & _).
  destruct (kp_lock _ _ _ _ Hk) as (Kl & Kr & _). unfold publish. split.
  - assert (committed (set_shm l4 m) fs) as Hc.
    { apply (committed_txn l l4); [apply H|done|]. rewrite map_app in Hi. by eapply index_ok_prefix. }
    by split; apply Hc.
  - done.
  - intros _. by split; apply Hon.
  - intros E. cbn. destruct (Z.eq_dec (iReCksum l4) 0) as [|N]; [done|]. pose proof (of_rec _ _ _ _ Hon N) as R.
    rewrite E in R. cbn in R. lia.
  - intros N. cbn. rewrite Kb, Ks, (kp_live _ _ _ _ Hk). by apply (wr_hdr _ _ _ H).
  - cbn. rewrite Ks. apply H.
  - eapply index_ok_fields; [|exact Hi]. done.
  - done.
  - done.
  - left. cbn. rewrite Kl, Kr. split; [done|]. destruct (wr_lock _ _ _ H) as [[_ ?]|[? _]]; done.
Qed.

Lemma publish_commit l l4 fs ts ts2 m nTruncate f : writing l fs ts -> log_readLock l <> 0 -> kept sz (length fs) l l4 ->
  on_file sz (length fs) l4 (fs ++ ts2) -> iReCksum l4 = 0 ->
  index_ok (shmMap env) (to_wal (set_shm l4 m)) (map f_pgno (fs ++ ts2)) ->
  Z.of_nat (length (fs ++ ts2)) < max_frames -> last ts2 = Some f -> f_trunc f <> 0 ->
  idle (publish env (Z.of_nat (length (fs ++ ts2))) nTruncate true (set_shm l4 m)) (fs ++ ts2).
Proof.
  intros H Hl Hk Hon Hr Hi Hlen Hlast Hf. destruct (kept_fields _ _ _ _ Hk) as (Kb & Ks & _).
  destruct (kp_lock _ _ _ _ Hk) as (Kl & Kr & _). destruct (of_file _ _ _ _ Hon) as (ckpt & Hlog & Hc).
  assert (ts2 <> []) as N2 by (by intros ->). pose proof (wr_salt _ _ _ H) as Hs. rewrite <- Ks in Hs.
  split; [|done].
  - split; [done| |done| |done|].
    + intros N. split; [apply Hon|]. exists ckpt. unfold checked in Hlog. rewrite Hr in Hlog. split; [exact Hlog|exact (Hc Hr)].
    + eapply index_ok_fields; [|exact Hi]. done.
    + intros _. exists f. rewrite last_app, Hlast. done.
Qed.

Definition after_frames (isCommit : bool) (l : Log) (fs ts : list Frame) : Prop :=
  if isCommit then idle l (fs ++ ts) else writing l fs ts.

Definition txn_end (isCommit : bool) (l : Log) (ts : list Frame) : Prop :=
  if isCommit then iReCksum l = 0 /\ exists f, last ts = Some f /\ f_trunc f <> 0 else Forall (fun f => f_trunc f = 0) ts.

Lemma finish_spec isCommit l l4 fs ts ts2 added nTruncate (Q : unit -> Log -> Prop) (E : Log -> Prop) :
  writing l fs ts -> log_readLock l <> 0 -> kept sz (length fs) l l4 -> on_file sz (length fs) l4 (fs ++ ts2) ->
  map f_pgno (fs ++ ts2) = map f_pgno (fs ++ ts) ++ map pgno added -> Z.of_nat (length (fs ++ ts2)) < max_frames ->
  txn_end isCommit l4 ts2 ->
  (forall l', after_frames isCommit l' fs ts2 -> nCkpt l' = nCkpt l -> Q tt l') ->
  (forall l', committed l' fs -> nCkpt l' = nCkpt l -> E l') ->
  wp (l ← mget;
      let '(rc, w) := WalFrames_index (shmMap env) (to_wal l) (map pgno added) in
      mput (fun l => set_shm l (apWiData w));;
      if rc =? SQLITE_OK then mput (publish env (mxFrame w) nTruncate isCommit) else raise rc) Q E l4.
Proof.
  intros H Hl Hk Hon Hmap Hlen Hend HQ HE. wp_steps. destruct (kept_fields _ _ _ _ Hk) as (_ & _ & Km).
  assert (pages_ok (map f_pgno (fs ++ ts) ++ map pgno added)) as Hp.
  { rewrite <- Hmap. split; [|by rewrite length_map]. apply Forall_map. eapply Forall_impl; [apply (of_wf _ _ _ _ Hon)|]. by intros f [? _]. }
  destruct (WalFrames_index_spec (to_wal l4) (map f_pgno (fs ++ ts)) (map pgno added)) as (rc & w & -> & R); [| |done|].
  - eapply index_ok_fields; [|apply H]. apply Hk.
  - cbn. rewrite Km, length_map. apply H.
  - wp_steps. pose proof (kp_ckpt _ _ _ _ Hk) as Kc. destruct R as [(-> & R & Hm)|[Hrc R]].
    + change (SQLITE_OK =? SQLITE_OK) with true. cbv iota. wp_steps. rewrite <- Hmap in R, Hm. rewrite length_map in Hm. rewrite Hm.
      assert (index_ok (shmMap env) (to_wal (set_shm l4 (apWiData w))) (map f_pgno (fs ++ ts2))) as Hi
        by (eapply index_ok_fields; [|exact R]; done).
      apply HQ; [|by destruct isCommit]. destruct isCommit; unfold after_frames, txn_end in *.
      * destruct Hend as (Hr & f & Hf & Ht). by eapply publish_commit.
      * by eapply publish_spill.
    + rewrite (proj2 (Z.eqb_neq _ _) Hrc). wp_steps. apply HE; [|done]. apply (committed_txn l l4); [apply H|done|].
      rewrite map_app in R. eapply index_ok_fields; [|eapply index_ok_prefix, R]. done.
Qed.

Lemma same_frames_trunc ts ts' : same_frames ts ts' -> Forall (fun f => f_trunc f = 0) ts -> Forall (fun f => f_trunc f = 0) ts'.
Proof.
  intros [_ E] H. assert (Forall (fun t => t = 0) (map f_trunc ts)) as H' by (by apply Forall_map). rewrite <- E in H'.
  by apply Forall_map in H'.
Qed.

(** The pages written by a call, and room for the padding. *)
Record call_ok (fs ts : list Frame) (pages : list PgHdr) (nTruncate : Z) (isCommit : bool) : Prop := {
  co_pages : Forall page_ok pages;
  co_nodup : NoDup (map pgno pages);
  co_ne : pages <> [];
  co_trunc : is_u 32 nTruncate /\ (isCommit = true <-> nTruncate <> 0);
  co_len : Z.of_nat (length (fs ++ ts) + length pages) + sectorSize env < max_frames }.

Hypothesis size_pos : (0 < sz)%nat.
Hypothesis sector_pos : 0 < sectorSize env.

Lemma map_pgno_frames n app : map f_pgno (map (to_frame n) app) = map pgno app.
Proof. rewrite map_map. done. Qed.

Lemma frames_tail_spill iFirst l fs ts pages nTruncate sync (Q : unit -> Log -> Prop) (E : Log -> Prop) :
  writing l fs ts -> on_file sz (length fs) l (fs ++ ts) -> loop_ok iFirst fs (map f_pgno (fs ++ ts)) l -> log_readLock l <> 0 ->
  call_ok fs ts pages nTruncate false ->
  (forall l' ts', writing l' fs ts' -> nCkpt l' = nCkpt l -> latest (fs ++ ts') = overlay pages (latest (fs ++ ts)) -> Q tt l') ->
  (forall l', committed l' fs -> nCkpt l' = nCkpt l -> E l') ->
  wp (frames_tail env iFirst (Z.of_nat (length (fs ++ ts))) (Z.of_nat sz) pages nTruncate false sync) Q E l.
Proof.
  intros H Hon Hlo Hl [Hpg Hnd Hne [Hnt _] Hlen] HQ HE. unfold frames_tail. wp_steps.
  replace (Z.of_nat (length (fs ++ ts)) + 1) with (Z.of_nat (S (length (fs ++ ts)))) by lia. rewrite walFrameOffset_foff.
  pose proof (write_frames_spec iFirst false nTruncate fs E pages l ts []) as W. cbn [map] in W. rewrite app_nil_r in W.
  apply W; clear W; try done.
  { apply Forall_forall. intros p _. apply not_elem_of_nil. }
  2: { intros l' Hk. apply HE; [eapply committed_kept; [apply H|done]|apply Hk]. }
  intros [[iFrame iOffset] app] l1 (ts' & us & Hon1 & Hk & Hsf & Had & Hlu & Hlat & -> & ->). unfold added in Had. subst us.
  rewrite app_nil_r in Hlat.
  wp_steps. cbn [andb]. unfold pad_and_sync. cbn [negb]. wp_steps. cbn [replicate].
  change (negb (SQLITE_OK =? SQLITE_OK)) with false. cbv iota. rewrite app_nil_r. rewrite length_map in Hlu. cbn [length Nat.add] in Hlu.
  pose proof (same_frames_length _ _ Hsf) as Hlt.
  eapply (finish_spec false l l1 fs ts (ts' ++ map (to_frame 0) app) app); try done.
  - destruct Hsf as [Hsf _]. by rewrite !map_app, Hsf, map_pgno_frames, app_assoc.
  - rewrite !length_app, length_map in *. rewrite Hlt. lia.
  - apply Forall_app. split; [eapply same_frames_trunc; [done|apply H]|]. apply Forall_map, Forall_true. done.
  - intros l' Hw Hc. by eapply HQ.
Qed.

Lemma frames_tail_commit iFirst l fs ts pages nTruncate sync (Q : unit -> Log -> Prop) (E : Log -> Prop) :
  writing l fs ts -> on_file sz (length fs) l (fs ++ ts) -> loop_ok iFirst fs (map f_pgno (fs ++ ts)) l -> log_readLock l <> 0 ->
  call_ok fs ts pages nTruncate true ->
  (forall l' ts', idle l' (fs ++ ts') -> nCkpt l' = nCkpt l -> latest (fs ++ ts') = overlay pages (latest (fs ++ ts)) -> Q tt l') ->
  (forall l', committed l' fs -> nCkpt l' = nCkpt l -> E l') ->
  wp (frames_tail env iFirst (Z.of_nat (length (fs ++ ts))) (Z.of_nat sz) pages nTruncate true sync) Q E l.
Proof.
  intros H Hon Hlo Hl [Hpg Hnd Hne [Hnt Hc] Hlen] HQ HE.
  assert (forall l', kept sz (length fs) l l' -> E l') as HE'.
  { intros l' Hk. apply HE; [eapply committed_kept; [apply H|done]|apply Hk]. }
  unfold frames_tail. wp_steps.
  replace (Z.of_nat (length (fs ++ ts)) + 1) with (Z.of_nat (S (length (fs ++ ts)))) by lia. rewrite walFrameOffset_foff.
  pose proof (write_frames_spec iFirst true nTruncate fs E pages l ts []) as W. cbn [map] in W. rewrite app_nil_r in W.
  apply W; clear W; try done.
  { apply Forall_forall. intros p _. apply not_elem_of_nil. }
  intros [[iFrame iOffset] app] l1 (ts' & us & Hon1 & Hk1 & Hsf & Had & Hlu & Hlat & -> & ->).
  rewrite app_nil_r in Hlat. destruct Had as (app0 & p & -> & ->). cbn [length Nat.add] in Hlu.
  pose proof (same_frames_length _ _ Hsf) as Hlt. set (all := fs ++ ts' ++ _) in *. set (f := to_frame nTruncate p) in *.
  assert (frame_wf sz f) as Hf.
  { pose proof (of_wf _ _ _ _ Hon1) as F. apply Forall_app in F as [_ F]. apply Forall_app in F as [_ F].
    apply Forall_app in F as [_ F]. by apply Forall_cons_1 in F as [F _]. }
  rewrite last_snoc. cbn [default from_option].
  wp_steps. set (m1 := if true && _ then walRewriteChecksums env _ else mret tt).
  assert (forall Q', (forall l2, on_file sz (length fs) l2 all -> iReCksum l2 = 0 -> kept sz (length fs) l l2 -> Q' tt l2) -> wp m1 Q' E l1) as Hm1.
  { intros Q' HQ'. unfold m1. cbn [andb]. destruct (Z.eqb_spec (iReCksum l1) 0) as [Er|Nr]; cbn [negb].
    - wp_steps. by apply HQ'.
    - apply (rewrite_spec (length fs) l1 all); [done|done|done| |intros l' ?; by apply HE', (kept_trans _ _ _ l1)].
      intros l2 ? ? ?. apply HQ'; [done|done|by apply (kept_trans _ _ _ l1)]. }
  apply Hm1. clear Hm1 m1. intros l2 Hon2 Hr2 Hk2. wp_steps.
  apply (pad_and_sync_spec _ (length fs) l2 all p nTruncate); [by eapply frame_wf_page|done|done|done| |
    intros l' ?; by apply HE', (kept_trans _ _ _ l2)].
  intros rc m l3 Hon3 Hm Hr3 Hk3. fold f in Hon3. wp_steps.
  replace (Z.of_nat (length all) + Z.of_nat m) with (Z.of_nat (length (all ++ replicate m f))) by (rewrite length_app, length_replicate; lia).
  apply (limit_size_spec (length fs) l3 (all ++ replicate m f)); [done|]. intros l4 Hon4 Hr4 Hk4.
  assert (kept sz (length fs) l l4) as Hk by (eapply kept_trans, Hk4; by eapply kept_trans, Hk3).
  destruct (negb (rc =? SQLITE_OK)); [wp_steps; by apply HE'|].
  assert (all ++ replicate m f = fs ++ (ts' ++ (map (to_frame 0) app0 ++ [f]) ++ replicate m f)) as Eall by (unfold all; by rewrite <- !app_assoc).
  rewrite Eall in Hon4. eapply (finish_spec true l l4 fs ts _ ((app0 ++ [p]) ++ replicate m p)); try done.
  - destruct Hsf as [Hsf _]. rewrite !map_app, Hsf, map_pgno_frames, <- !app_assoc. do 4 f_equal. clear. by induction m as [|m IH]; [|cbn; rewrite IH].
  - rewrite <- Eall. unfold all in *. rewrite !length_app, length_map, length_replicate in *. cbn [length] in *. rewrite Hlt. lia.
  - split; [congruence|]. exists f. split; [|by apply Hc]. rewrite !last_app. clear. induction m as [|m IH]; [done|].
    rewrite replicate_S_end, last_snoc. done.
  - intros l' Hw Hn. eapply HQ; [exact Hw|done|]. rewrite <- Eall, <- Hlat. unfold all.
    rewrite !app_assoc. apply latest_repeat.
Qed.

Lemma restarted_length l l' x : (length (restarted l l' x) <= length x)%nat.
Proof. unfold restarted. case_match; cbn [length]; lia. Qed.

Lemma writing_header l l' : writing l [] [] -> log_readLock l <> 0 -> salt_ok (aSalt (hdr l')) -> header_kept l l' -> writing l' [] [].
Proof.
  intros H Hl Hs (E1 & E2 & E3 & E4 & E5 & E6 & E7). pose proof (wr_committed _ _ _ H) as Hc. split; try done.
  - apply committed_nil; rewrite E1; apply Hc.
  - rewrite E3. apply H.
  - intros _. rewrite E5. by apply (wr_empty _ _ _ H).
  - apply index_ok_nil.
  - left. rewrite E6, E7. destruct (wr_lock _ _ _ H) as [?|[? _]]; done.
Qed.

Lemma frames_tail_spec iFirst l fs ts pages nTruncate isCommit sync (Q : unit -> Log -> Prop) (E : Log -> Prop) :
  writing l fs ts -> on_file sz (length fs) l (fs ++ ts) -> iFirst = 0 \/ iFirst = Z.of_nat (length fs) + 1 -> log_readLock l <> 0 ->
  call_ok fs ts pages nTruncate isCommit ->
  (forall l' ts', after_frames isCommit l' fs ts' -> nCkpt l' = nCkpt l -> latest (fs ++ ts') = overlay pages (latest (fs ++ ts)) -> Q tt l') ->
  (forall l', committed l' fs -> nCkpt l' = nCkpt l -> E l') ->
  wp (frames_tail env iFirst (Z.of_nat (length (fs ++ ts))) (Z.of_nat sz) pages nTruncate isCommit sync) Q E l.
Proof.
  intros H Hon Hi Hl Hcall HQ HE. assert (loop_ok iFirst fs (map f_pgno (fs ++ ts)) l) as Hlo.
  { split; [apply H|rewrite length_map; apply H|rewrite length_map; apply H| |rewrite length_map, length_app; lia].
    destruct Hi as [Hi|Hi]; [by left|right]. split; [done|]. destruct (wr_lock _ _ _ H) as [[? ?]|[? _]]; done. }
  destruct isCommit; [by apply (frames_tail_commit _ l fs ts)|by apply (frames_tail_spill _ l fs ts)].
Qed.

(** [sqlite3WalFrames] overlays the pages on the log, or leaves the committed frames
    as they were; it may have restarted a log whose frames are all in the
    database. *)
Lemma frames_spec l fs ts pages nTruncate isCommit sync (Q : unit -> Log -> Prop) (E : Log -> Prop) :
  writing l fs ts -> call_ok fs ts pages nTruncate isCommit ->
  (forall l' ts', let fs0 := restarted l l' fs in after_frames isCommit l' fs0 ts' ->
     latest (fs0 ++ ts') = overlay pages (latest (fs0 ++ restarted l l' ts)) -> Q tt l') ->
  (forall l', committed l' (restarted l l' fs) -> E l') ->
  wp (sqlite3WalFrames env (Z.of_nat sz) pages nTruncate isCommit sync) Q E l.
Proof.
  intros H Hcall HQ HE. unfold sqlite3WalFrames. wp_steps. apply (restart_spec l fs ts); [done| |done].
  intros l1 H1 Hl1 Hnr. wp_steps. set (iFirst := if bool_decide _ then _ else _).
  set (fs1 := restarted l l1 fs) in *. set (ts1 := restarted l l1 ts) in *.
  assert (iFirst = 0 \/ iFirst = Z.of_nat (length fs1) + 1) as Hi.
  { unfold iFirst. case_bool_decide as Eh; [by left|right]. unfold fs1, restarted. rewrite (Hnr Eh), Z.eqb_refl.
    by rewrite (cm_mx _ _ (wr_committed _ _ _ H)). }
  assert (call_ok fs1 ts1 pages nTruncate isCommit) as Hcall1.
  { split; try apply Hcall. pose proof (co_len _ _ _ _ _ Hcall). rewrite length_app in *.
    pose proof (restarted_length l l1 fs). pose proof (restarted_length l l1 ts). unfold fs1, ts1. lia. }
  assert (forall l2, nCkpt l2 = nCkpt l1 -> writing l2 fs1 ts1 -> on_file sz (length fs1) l2 (fs1 ++ ts1) -> log_readLock l2 <> 0 ->
    wp (frames_tail env iFirst (Z.of_nat (length (fs1 ++ ts1))) (Z.of_nat sz) pages nTruncate isCommit sync) Q E l2) as Tail.
  { intros l2 Hn Hw2 Hon2 Hlk. apply (frames_tail_spec _ l2 fs1 ts1); try done.
    - intros l' ts' Ha Hn' Hlat. assert (nCkpt l' = nCkpt l1) as En by congruence. apply (HQ l' ts');
        rewrite !(restarted_eq l l1 l' _ En); done.
    - intros l' Hc Hn'. apply HE. rewrite (restarted_eq l l1) by congruence. done. }
  rewrite (wr_mx _ _ _ H1). destruct (Z.eqb_spec (Z.of_nat (length (fs1 ++ ts1))) 0) as [E0|N0].
  - assert (fs1 = [] /\ ts1 = []) as [Ef Et].
    { destruct fs1; [|rewrite length_app in E0; cbn in E0; lia]. split; [done|]. destruct ts1; [done|cbn in E0; lia]. }
    rewrite Ef, Et in *. apply (header_spec l1); [apply H1|by apply (wr_empty _ _ _ H1)| |].
    + intros l2 Hon2 Hs2 Hk2. pose proof Hk2 as (_ & _ & _ & Kn & _ & _ & Kl). apply Tail; [done|by eapply writing_header|done|by rewrite Kl].
    + intros l2 Hk2. pose proof Hk2 as (Kl & _ & _ & Kn & _). apply HE. rewrite (restarted_eq l l1) by done. fold fs1. rewrite Ef.
      pose proof (wr_committed _ _ _ H1) as Hc. apply committed_nil; rewrite Kl; apply Hc.
  - wp_steps. apply Tail; [done|done| |done]. apply (wr_file _ _ _ H1). intros E0. rewrite E0 in N0. done.
Qed.
End Frames.
