(* ===== verification/WalRecover.v ===== *)
(** * Recovery of the wal-index from the log file (wal.c of the engine)

    [walIndexRecover] reads the log file and builds the index again: the header of
    the file, the frames with right salts and checksums, and of those the ones up to
    the last commit.  The main result joins it with [WalWrite]: what a transaction
    committed is found by recovery, whatever failed or was interrupted afterwards. *)

From S2P Require Import Prelude Bits Varint WalIndex WalLog WalWrite.

#[local] Open Scope Z_scope.
Local Open Scope c_scope.

Definition SQLITE_CANTOPEN : Z := 14.
Definition SQLITE_MAX_PAGE_SIZE : Z := 65536.
Definition READMARK_NOT_USED : Z := 0xffffffff.

Section Recover.
(** [aPrivate] is the content of the private buffer before it is filled with the
    index page of the given number. *)
Context (env : Env) (aPrivate : Z -> WalBlock).

Definition zero_hdr : WalIndexHdr :=
  {| iVersion := 0; unused := 0; iChange := 0; isInit := 0; bigEndCksum := false; hdr_szPage := 0; hdr_mxFrame := 0;
     nPage := 0; aFrameCksum := (0, 0); aSalt := replicate 8 0; aCksum := (0, 0) |}.

(** A commit frame was found. *)
Definition commit_frame (iFrame nTruncate sz : Z) (l : Log) : Log :=
  let h := hdr l in
  set_hdr l {| iVersion := iVersion h; unused := unused h; iChange := iChange h; isInit := isInit h;
               bigEndCksum := bigEndCksum h; hdr_szPage := u16 ((sz & 0xff00) ||| (sz >> 16)); hdr_mxFrame := iFrame;
               nPage := nTruncate; aFrameCksum := aFrameCksum h; aSalt := aSalt h; aCksum := aCksum h |}.

(** The loop over the frames of one page of the index, [n] of them from [iFrame].
    The result is the code, [iFrame] and the checksum of the last commit. *)
Fixpoint recover_frames (n : nat) (iFrame sz : Z) (aCk : cksum) : M (Z * Z * cksum) :=
  match n with
  | O => mret (SQLITE_OK, iFrame, aCk)
  | S n =>
      r ← OsRead env (Z.to_nat (sz + WAL_FRAME_HDRSIZE)) (walFrameOffset iFrame sz);
      let '(rc, aFrame) := r in
      if negb (rc =? SQLITE_OK) then mret (rc, iFrame, aCk)
      else
        l ← mget;
        let '(d, l) := walDecodeFrame env l aFrame (slice aFrame 24 (Z.to_nat sz)) in
        mput (fun _ => l);;
        match d with
        | None => mret (SQLITE_OK, iFrame, aCk)
        | Some (pgno, nTruncate) =>
            l ← mget;
            let '(rc, w) := walIndexAppend (shmMap env) (to_wal l) iFrame pgno in
            mput (fun l => set_shm l (apWiData w));;
            if negb (rc =? SQLITE_OK) then mret (rc, iFrame, aCk)
            else if negb (nTruncate =? 0) then
              mput (commit_frame iFrame nTruncate sz);;
              l ← mget;
              recover_frames n (iFrame + 1) sz (aFrameCksum (hdr l))
            else recover_frames n (iFrame + 1) sz aCk
        end
  end.

(** The loop over the pages of the index.  A page is built in the private buffer
    and then copied to the shared memory. *)
Fixpoint recover_pages (n : nat) (iPg iLastFrame sz : Z) (aCk : cksum) : M (Z * cksum) :=
  match n with
  | O => mret (SQLITE_OK, aCk)
  | S n =>
      let rc := shmMap env iPg in
      if negb (rc =? SQLITE_OK) then mret (rc, aCk)
      else
        let iLast := Z.min iLastFrame (HASHTABLE_NPAGE_ONE + iPg * HASHTABLE_NPAGE) in
        let iFirst := 1 + (if iPg =? 0 then 0 else HASHTABLE_NPAGE_ONE + (iPg - 1) * HASHTABLE_NPAGE) in
        mput (fun l => set_shm l (<[iPg := aPrivate iPg]> (shm l)));;
        r ← recover_frames (Z.to_nat (iLast - iFirst + 1)) iFirst sz aCk;
        let '(rc, iFrame, aCk) := r in
        if iFrame <=? iLast then mret (rc, aCk) else recover_pages n (iPg + 1) iLastFrame sz aCk
  end.

(** The code and the checksum of the last commit; [SQLITE_OK] with no frames for a
    file without a valid header. *)
Definition recover_log (nSize : Z) : M (Z * cksum) :=
  r ← OsRead env (Z.to_nat WAL_HDRSIZE) 0;
  let '(rc, aBuf) := r in
  if negb (rc =? SQLITE_OK) then mret (rc, (0, 0))
  else
    let magic := Get4byte aBuf 0 in
    let sz := i32 (Get4byte aBuf 8) in
    if negb ((magic & 0xFFFFFFFE) =? WAL_MAGIC) || negb (sz & (sz - 1) =? 0) || (SQLITE_MAX_PAGE_SIZE <? sz) || (sz <? 512)
    then mret (SQLITE_OK, (0, 0))
    else
      let be := negb (magic & 1 =? 0) in
      let aCk := walChecksumBytes (SQLITE_BIGENDIAN env) (Bool.eqb be (SQLITE_BIGENDIAN env)) (slice aBuf 0 24) (0, 0) in
      mput (fun l =>
        let h := hdr l in
        set_size (set_hdr l
          {| iVersion := iVersion h; unused := unused h; iChange := iChange h; isInit := isInit h; bigEndCksum := be;
             hdr_szPage := hdr_szPage h; hdr_mxFrame := hdr_mxFrame h; nPage := nPage h; aFrameCksum := aCk;
             aSalt := slice aBuf 16 8; aCksum := aCksum h |}) sz (Get4byte aBuf 12));;
      if negb (fst aCk =? Get4byte aBuf 24) || negb (snd aCk =? Get4byte aBuf 28) then mret (SQLITE_OK, (0, 0))
      else if negb (Get4byte aBuf 4 =? WAL_MAX_VERSION) then mret (SQLITE_CANTOPEN, (0, 0))
      else if negb (alloc env) then mret (SQLITE_NOMEM, (0, 0))
      else
        let szFrame := sz + WAL_FRAME_HDRSIZE in
        let iLastFrame := u32 ((nSize - WAL_HDRSIZE) / szFrame) in
        recover_pages (S (Z.to_nat (walFramePage iLastFrame))) 0 iLastFrame sz (0, 0).

(** The read marks 1 to 4, each under its lock.  A lock that is held leaves its
    mark as it is; [rc] is the result of the last one, which is also the result of
    the recovery. *)
Fixpoint set_marks (n : nat) (i rc : Z) : M unit :=
  match n with
  | O => if rc =? SQLITE_OK then mret tt else raise rc
  | S n =>
      rc ← os_call env;
      (if rc =? SQLITE_OK then
         mput (fun l => set_ckpt l (nBackfill l) (nBackfillAttempted l)
                 (set_arr (aReadMark l) i (if (i =? 1) && negb (hdr_mxFrame (hdr l) =? 0) then hdr_mxFrame (hdr l)
                                           else READMARK_NOT_USED)))
       else if negb (rc =? SQLITE_BUSY) then raise rc else mret tt);;
      set_marks n (i + 1) rc
  end.

Definition recover_finish (aCk : cksum) : M unit :=
  mput (fun l => walIndexWriteHdr env (set_hdr l (with_cksum (hdr l) aCk)));;
  mput (fun l => set_ckpt l 0 (hdr_mxFrame (hdr l)) (set_arr (aReadMark l) 0 0));;
  set_marks 4 1 SQLITE_OK.

Definition walIndexRecover : M unit :=
  rc ← os_call env;
  if negb (rc =? SQLITE_OK) then raise rc
  else
    mput (fun l => set_hdr l zero_hdr);;
    rc ← os_call env;
    if negb (rc =? SQLITE_OK) then raise rc
    else
      l ← mget;
      let nSize := Z.of_nat (length (file l)) in
      r ← (if WAL_HDRSIZE <? nSize then recover_log nSize else mret (SQLITE_OK, (0, 0)));
      let '(rc, aCk) := r in
      if negb (rc =? SQLITE_OK) then raise rc else recover_finish aCk.
End Recover.

(** ** Valid frames

    The frame at the index [i], if it is whole, has the salt of the header and
    extends the checksum [c]. *)
Section Valid.
Context (be : bool) (salt : list Z) (sz : nat).

Definition frame_of (a : list Z) : Frame :=
  {| f_pgno := Get4byte a 0; f_trunc := Get4byte a 4; f_data := slice a 24 sz |}.
Definition valid_frame (c : cksum) (file : list Z) (i : nat) : option Frame :=
  let a := slice file (foff sz i) (24 + sz) in
  if (length a =? 24 + sz)%nat && bool_decide (slice a 8 8 = salt) && negb (Get4byte a 0 =? 0) &&
     bool_decide (step be c (frame_of a) = (Get4byte a 16, Get4byte a 20))
  then Some (frame_of a) else None.

(** [fs] are the first frames of the file, each of them valid. *)
Definition reads (c0 : cksum) (file : list Z) (fs : list Frame) : Prop :=
  forall i f, fs !! i = Some f -> valid_frame (chain be c0 (take i fs)) file i = Some f.
Definition reads_all (c0 : cksum) (file : list Z) (fs : list Frame) : Prop :=
  reads c0 file fs /\ valid_frame (chain be c0 fs) file (length fs) = None.

Lemma reads_snoc c0 file fs f : reads c0 file fs -> valid_frame (chain be c0 fs) file (length fs) = Some f -> reads c0 file (fs ++ [f]).
Proof.
  intros H Hf i g Hi. apply lookup_app_Some in Hi as [Hi|[Hl Hi]].
  - pose proof (lookup_lt_Some _ _ _ Hi). rewrite take_app_le by lia. by apply H.
  - apply list_lookup_singleton_Some in Hi as [Hi <-]. replace i with (length fs) by lia. by rewrite take_app_length.
Qed.

(** The frames that recovery reads extend every list of valid frames. *)
Lemma reads_prefix c0 file fs gs : reads_all c0 file fs -> reads c0 file gs -> take (length gs) fs = gs.
Proof.
  intros [H Hn]. induction gs as [|g gs IH] using rev_ind; intros Hg; [done|].
  assert (reads c0 file gs) as Hg0.
  { intros i f Hi. pose proof (lookup_lt_Some _ _ _ Hi). rewrite <- (take_app_le gs [g]) by lia. apply Hg. by apply lookup_app_l_Some. }
  specialize (IH Hg0). pose proof (Hg (length gs) g) as Hlast. rewrite lookup_app_r, Nat.sub_diag in Hlast by lia.
  specialize (Hlast eq_refl). rewrite take_app_length in Hlast.
  destruct (fs !! length gs) as [f|] eqn:Ef.
  - pose proof (H _ _ Ef) as Hf. rewrite IH, Hlast in Hf. injection Hf as <-.
    rewrite length_app, Nat.add_1_r, (take_S_r _ _ _ Ef), IH. done.
  - apply lookup_ge_None in Ef. assert (length fs <= length gs)%nat as L by lia.
    rewrite take_ge in IH by lia. subst gs. by rewrite Hlast in Hn.
Qed.
End Valid.

(** The number of frames up to the last commit. *)
Fixpoint last_commit (fs : list Frame) : nat :=
  match fs with
  | [] => 0
  | f :: fs => match last_commit fs with O => if f_trunc f =? 0 then 0 else 1 | S n => S (S n) end
  end.

Lemma last_commit_snoc fs f : last_commit (fs ++ [f]) = if f_trunc f =? 0 then last_commit fs else S (length fs).
Proof.
  induction fs as [|g fs IH]; cbn [app last_commit length]; [by case_match|]. rewrite IH. by destruct (f_trunc f =? 0).
Qed.

Lemma last_commit_le fs : (last_commit fs <= length fs)%nat.
Proof. induction fs as [|f fs IH]; cbn [last_commit length]; [done|]. repeat case_match; lia. Qed.

Lemma last_commit_end fs f : last fs = Some f -> f_trunc f <> 0 -> last_commit fs = length fs.
Proof.
  intros Hl Hf. destruct fs as [|x t _] using rev_ind; [done|]. rewrite last_snoc in Hl. injection Hl as ->.
  rewrite last_commit_snoc, (proj2 (Z.eqb_neq _ _) Hf), length_app. cbn. lia.
Qed.

Lemma last_commit_app fs gs : (last_commit fs <= last_commit (fs ++ gs))%nat /\
  (Forall (fun f => f_trunc f = 0) gs -> last_commit (fs ++ gs) = last_commit fs).
Proof.
  induction gs as [|x t [IH1 IH2]] using rev_ind; [by rewrite app_nil_r|]. rewrite app_assoc, last_commit_snoc.
  pose proof (last_commit_le fs). split.
  - case_match; [done|]. rewrite length_app. lia.
  - intros Hz. apply Forall_app in Hz as [Hz Hx]. apply Forall_cons_1 in Hx as [-> _]. by apply IH2.
Qed.

(** ** Valid frames are frames of the format *)

Lemma Put4_Get4 a i : (i + 4 <= length a)%nat -> Forall is_byte a ->
  Put4byte (Get4byte a i) = slice a i 4 /\ is_u 32 (Get4byte a i).
Proof.
  intros Hl Hb. assert (exists b0 b1 b2 b3, slice a i 4 = [b0; b1; b2; b3]) as (b0 & b1 & b2 & b3 & Es).
  { assert (length (slice a i 4) = 4%nat) as L by (unfold slice; rewrite length_take, length_drop; lia).
    destruct (slice a i 4) as [|b0 [|b1 [|b2 [|b3 [|]]]]]; try done. by exists b0, b1, b2, b3. }
  assert (Forall is_byte [b0; b1; b2; b3]) as Hs by (rewrite <- Es; by apply Forall_take, Forall_drop).
  assert (forall j b, [b0; b1; b2; b3] !! j = Some b -> nth (i + j) a 0 = b) as N.
  { intros j b Hj. rewrite <- Es in Hj. apply slice_bytes_at in Hj. by rewrite nth_lookup, Hj. }
  repeat (apply Forall_cons_1 in Hs as [? Hs]). unfold Get4byte, Reader.sqlite3Get4byte.
  rewrite (N 0%nat _ eq_refl), (N 1%nat _ eq_refl), (N 2%nat _ eq_refl), (N 3%nat _ eq_refl), Es. split.
  - unfold Put4byte, Writer.sqlite3Put4byte.
    repeat (apply (f_equal2 cons); [bv_decide [(b0, 8); (b1, 8); (b2, 8); (b3, 8)]|]). done.
  - apply (bv_bound [(b0, 8); (b1, 8); (b2, 8); (b3, 8)] ltac:(bv_env_ok)
      (BOr (BOr (BOr (BWrap 32 (BShl (BVar 0) 24)) (BShl (BVar 1) 16)) (BShl (BVar 2) 8)) (BVar 3)) 32). done.
Qed.

Lemma slice_slice f o n i m : (i + m <= n)%nat -> slice (slice f o n) i m = slice f (o + i) m.
Proof. intros H. unfold slice. rewrite skipn_firstn_comm, take_take, drop_drop, Nat.min_l by lia. done. Qed.

Section Format.
Context (be : bool) (salt : list Z) (sz : nat) (Hsalt : length salt = 8%nat).

Lemma slice_app a i n m : slice a i (n + m) = slice a i n ++ slice a (i + n) m.
Proof. unfold slice. by rewrite <- take_take_drop, drop_drop. Qed.

Lemma valid_is_frame c file i f : Forall is_byte file -> valid_frame be salt sz c file i = Some f ->
  frame_wf sz f /\ raw_at sz file i f /\ bytes_at file (foff sz i + 8) (salt ++ put_ck (step be c f)).
Proof.
  intros Hb. unfold valid_frame. set (a := slice file (foff sz i) (24 + sz)). case_match eqn:C; [|done]. intros [= <-].
  apply andb_true_iff in C as [C C4]. apply andb_true_iff in C as [C C3]. apply andb_true_iff in C as [C1 C2].
  apply bool_decide_eq_true in C2, C4. apply Nat.eqb_eq in C1. apply negb_true_iff, Z.eqb_neq in C3.
  assert (Forall is_byte a) as Ha by (by apply Forall_take, Forall_drop).
  assert (forall j m, (j + m <= 24 + sz)%nat -> bytes_at file (foff sz i + j) (slice a j m)) as B.
  { intros j m Hj. unfold a. rewrite slice_slice by lia. apply slice_bytes_at. }
  pose proof (Put4_Get4 a 0 ltac:(lia) Ha) as [P0 R0]. pose proof (Put4_Get4 a 4 ltac:(lia) Ha) as [P4 R4].
  pose proof (Put4_Get4 a 16 ltac:(lia) Ha) as [P16 _]. pose proof (Put4_Get4 a 20 ltac:(lia) Ha) as [P20 _].
  split; [|split].
  - split; [unfold is_u in R0; cbn [frame_of f_pgno]; lia|]. split; [done|]. cbn [frame_of f_data].
    split; [unfold slice; rewrite length_take, length_drop; lia|by apply Forall_take, Forall_drop].
  - split; [|apply B; lia]. unfold head8, frame_of. cbn [f_pgno f_trunc]. rewrite P0, P4, <- slice_app.
    pose proof (B 0%nat 8%nat ltac:(lia)) as B0. by rewrite Nat.add_0_r in B0.
  - rewrite C4. unfold put_ck. cbn [fst snd]. rewrite P16, P20, <- C2, <- !slice_app. apply B. lia.
Qed.

Lemma frame_is_valid c file i f : (0 < sz)%nat -> is_cksum c -> frame_wf sz f -> raw_at sz file i f ->
  bytes_at file (foff sz i + 8) (salt ++ put_ck (step be c f)) -> valid_frame be salt sz c file i = Some f.
Proof.
  intros Hsz Hc (Hp & Ht & Hd & Hb) [Hr1 Hr2] Hs. unfold valid_frame. set (a := slice file (foff sz i) (24 + sz)).
  assert (length a = 24 + sz)%nat as La.
  { pose proof (bytes_at_length _ _ _ Hr2) as L. rewrite Hd in L. unfold a, slice. rewrite length_take, length_drop.
    assert (f_data f <> []) as N by (intros E; rewrite E in Hd; cbn in Hd; lia). specialize (L N). lia. }
  assert (is_cksum (step be c f)) as [S1 S2] by (by apply ck_range, ck_range).
  assert (forall j b, bytes_at file (foff sz i + j) b -> (j + length b <= 24 + sz)%nat -> bytes_at a j b) as B
    by (intros; by apply bytes_at_sub).
  apply bytes_at_app in Hr1 as [Hr0 Hr4]. apply bytes_at_app in Hs as [Hs8 Hs16]. apply bytes_at_app in Hs16 as [Hs16 Hs20].
  rewrite length_Put4 in Hr4, Hs20. rewrite <- !Nat.add_assoc, Hsalt in Hs20. rewrite <- Nat.add_assoc, Hsalt in Hs16.
  assert (Get4byte a 0 = f_pgno f) as G0 by (apply Get4_Put4; [apply B; [by rewrite Nat.add_0_r|cbn; lia]|unfold is_u; lia]).
  assert (Get4byte a 4 = f_trunc f) as G4 by (apply Get4_Put4; [apply B; [done|cbn; lia]|done]).
  assert (Get4byte a 16 = fst (step be c f)) as G16 by (apply Get4_Put4; [apply B; [done|cbn; lia]|done]).
  assert (Get4byte a 20 = snd (step be c f)) as G20 by (apply Get4_Put4; [apply B; [done|cbn; lia]|done]).
  pose proof (bytes_at_slice a 8 salt (B _ _ Hs8 ltac:(lia))) as G8. rewrite Hsalt in G8.
  pose proof (bytes_at_slice a 24 (f_data f) (B _ _ Hr2 ltac:(lia))) as G24. rewrite Hd in G24.
  assert (frame_of sz a = f) as Ef by (unfold frame_of; rewrite G0, G4, G24; by destruct f).
  rewrite Ef, G0, G8, G16, G20, La, Nat.eqb_refl, (bool_decide_eq_true_2 (salt = salt)) by done.
  rewrite <- surjective_pairing, bool_decide_eq_true_2 by done. replace (f_pgno f =? 0) with false by lia. done.
Qed.

(** The frames recovery reads are the frames of the format with right checksums. *)
Lemma reads_log ckpt file fs : Forall is_byte file -> Forall is_byte salt -> (0 < sz)%nat ->
  bytes_at file 0 (header24 be salt sz ckpt ++ put_ck (header_ck be salt sz ckpt)) ->
  reads be salt sz (header_ck be salt sz ckpt) file fs <-> log_file be salt sz ckpt fs (length fs) file.
Proof.
  intros Hb Hsb Hsz Hh. split.
  - intros H. assert (forall i f, fs !! i = Some f -> frame_wf sz f /\ raw_at sz file i f /\
      bytes_at file (foff sz i + 8) (salt ++ put_ck (chain be (header_ck be salt sz ckpt) (take (S i) fs)))) as K.
    { intros i f Hi. pose proof (valid_is_frame _ _ _ _ Hb (H i f Hi)) as V. by rewrite (take_S_r _ _ _ Hi), chain_snoc. }
    split; [done|done| | |].
    + apply Forall_lookup. intros i f Hi. by destruct (K i f Hi).
    + intros i f Hi. by destruct (K i f Hi) as (_ & ? & _).
    + intros i Hi. destruct (lookup_lt_is_Some_2 fs i Hi) as [f Hf]. by destruct (K i f Hf) as (_ & _ & ?).
  - intros H i f Hi. apply frame_is_valid; [done|apply chain_range, header_ck_range|by eapply frame_at, Hi; apply (lf_wf _ _ _ _ _ _ _ H)
      |by apply (lf_raw _ _ _ _ _ _ _ H)|].
    rewrite <- chain_snoc, <- (take_S_r _ _ _ Hi). apply (lf_sums _ _ _ _ _ _ _ H). by eapply lookup_lt_Some.
Qed.
End Format.

(** ** The loops of recovery *)

(** Nothing fails. *)
Definition good (env : Env) : Prop :=
  (forall k, io_rc env k = SQLITE_OK) /\ (forall b, shmMap env b = SQLITE_OK) /\ alloc env = true.

Section Loops.
Context (env : Env) (aPrivate : Z -> WalBlock).

Lemma os_call_good (Q : Z -> Log -> Prop) E l : (forall rc, (rc <> SQLITE_OK -> ~ good env) -> Q rc (os_state l (file l) (S (io l)))) ->
  wp (os_call env) Q E l.
Proof. intros H. apply H. intros Hrc [Hg _]. by apply Hrc. Qed.

Lemma OsRead_good a o (Q : Z * list Z -> Log -> Prop) (E : Log -> Prop) l : bytes_at (file l) (Z.to_nat o) a ->
  (forall rc buf n, rc = SQLITE_OK /\ buf = a \/ rc <> SQLITE_OK /\ ~ good env -> Q (rc, buf) (os_state l (file l) n)) ->
  wp (OsRead env (length a) o) Q E l.
Proof.
  intros Ha HQ. unfold OsRead. wp_steps. apply os_call_good. intros rc Hrc.
  destruct (Z.eqb_spec rc SQLITE_OK) as [->|N]; cbn [negb]; [|wp_step; apply HQ; right; auto].
  rewrite (bytes_at_slice _ _ _ Ha), Nat.ltb_irrefl. wp_step. apply HQ. by left.
Qed.

Section File.
Context (be : bool) (salt : list Z) (sz : nat) (c0 : cksum) (file0 : list Z).
Context (Hbytes : Forall is_byte file0) (Hsalt : length salt = 8%nat) (Hc0 : is_cksum c0) (Hsz : (0 < sz)%nat).

(** The checksum after the last commit. *)
Definition commit_ck (fs : list Frame) : cksum :=
  if (last_commit fs =? 0)%nat then (0, 0) else chain be c0 (take (last_commit fs) fs).
Definition commit_size (fs : list Frame) : Z :=
  match last_commit fs with O => 0 | S k => match fs !! k with Some f => f_trunc f | None => 0 end end.

(** The frames [fs] have been read. *)
Record rec_inv (l : Log) (fs : list Frame) (aCk : cksum) : Prop := {
  rv_file : file l = file0;
  rv_size : szPage l = Z.of_nat sz;
  rv_rec : iReCksum l = 0;
  rv_hdr : bigEndCksum (hdr l) = be /\ aSalt (hdr l) = salt;
  rv_reads : reads be salt sz c0 file0 fs;
  rv_index : index_clean (shmMap env) (to_wal l) (map f_pgno fs);
  rv_mx : hdr_mxFrame (hdr l) = Z.of_nat (last_commit fs);
  rv_page : nPage (hdr l) = commit_size fs;
  rv_ck : aCk = commit_ck fs }.

Lemma rec_inv_hdr l fs aCk l' : rec_inv l fs aCk -> file l' = file l -> szPage l' = szPage l -> iReCksum l' = iReCksum l ->
  shm l' = shm l -> with_cksum (hdr l') (0, 0) = with_cksum (hdr l) (0, 0) -> rec_inv l' fs aCk.
Proof.
  intros H Ef Es Er Em Eh. unfold with_cksum in Eh. injection Eh as E1 E2 E3 E4 E5 E6 E7 E8 E9 E10.
  split; rewrite ?Ef, ?Es, ?Er, ?E5, ?E7, ?E8, ?E9; try apply H.
  intros b Hb Hs. unfold block. cbn [to_wal apWiData]. rewrite Em. by apply (rv_index _ _ _ H).
Qed.

Lemma commit_snoc fs f : commit_ck (fs ++ [f]) = (if f_trunc f =? 0 then commit_ck fs else chain be c0 (fs ++ [f])) /\
  commit_size (fs ++ [f]) = (if f_trunc f =? 0 then commit_size fs else f_trunc f).
Proof.
  unfold commit_ck, commit_size. rewrite last_commit_snoc. pose proof (last_commit_le fs). destruct (f_trunc f =? 0).
  - rewrite take_app_le by lia. split; [done|]. destruct (last_commit fs) as [|k]; [done|]. rewrite lookup_app_l by lia. done.
  - cbn [Nat.eqb]. rewrite take_ge by (rewrite length_app; cbn; lia). split; [done|]. by rewrite lookup_app_r, Nat.sub_diag by lia.
Qed.

(** Decoding a whole frame. *)
Lemma decode_spec l fs aCk : rec_inv l fs aCk -> aFrameCksum (hdr l) = chain be c0 fs ->
  let a := slice file0 (foff sz (length fs)) (24 + sz) in length a = (24 + sz)%nat ->
  match valid_frame be salt sz (chain be c0 fs) file0 (length fs) with
  | Some f => walDecodeFrame env l a (slice a 24 sz) =
      (Some (f_pgno f, f_trunc f), set_hdr l (with_cksum (hdr l) (chain be c0 (fs ++ [f]))))
  | None => exists c, walDecodeFrame env l a (slice a 24 sz) = (None, set_hdr l (with_cksum (hdr l) c))
  end.
Proof.
  intros H Hc a La. destruct (rv_hdr _ _ _ H) as [Eb Es].
  assert (Forall is_byte a) as Ha by (by apply Forall_take, Forall_drop).
  assert (slice a 0 8 = head8 (frame_of sz a)) as E8.
  { pose proof (slice_app a 0 4 4) as S8. cbn [Nat.add] in S8. rewrite S8.
    destruct (Put4_Get4 a 0 ltac:(lia) Ha) as [P0 _], (Put4_Get4 a 4 ltac:(lia) Ha) as [P4 _].
    unfold head8, frame_of. cbn [f_pgno f_trunc]. by rewrite P0, P4. }
  assert (set_hdr l (with_cksum (hdr l) (aFrameCksum (hdr l))) = l) as Eid by (by destruct l as [[]]).
  unfold walDecodeFrame. rewrite Eb, Es, E8, !checksum_native by (apply head8_bytes || by apply Forall_take, Forall_drop).
  change (ck be (slice a 24 sz) (ck be (head8 (frame_of sz a)) (aFrameCksum (hdr l)))) with (step be (aFrameCksum (hdr l)) (frame_of sz a)).
  rewrite Hc. unfold valid_frame. fold a. rewrite (proj2 (Nat.eqb_eq _ _) La). cbn [andb].
  destruct (bool_decide (slice a 8 8 = salt)); cbn [negb andb]; [|exists (aFrameCksum (hdr l)); by rewrite Eid].
  destruct (Get4byte a 0 =? 0); cbn [negb andb]; [exists (aFrameCksum (hdr l)); by rewrite Eid|].
  set (c := step be (chain be c0 fs) (frame_of sz a)). case_bool_decide as Ec.
  - rewrite Ec. cbn [fst snd]. rewrite !Z.eqb_refl. cbn [negb orb]. rewrite chain_snoc. fold c. by rewrite Ec.
  - exists c. destruct (Z.eqb_spec (fst c) (Get4byte a 16)) as [E1|N1]; cbn [negb orb]; [|done].
    destruct (Z.eqb_spec (snd c) (Get4byte a 20)) as [E2|N2]; cbn [negb orb]; [|done].
    destruct Ec. rewrite (surjective_pairing c). by rewrite E1, E2.
Qed.

Definition frames_post (fs : list Frame) (n : nat) (r : Z * Z * cksum) (l' : Log) : Prop :=
  let '(rc, iFrame, aCk) := r in
  exists fs', rec_inv l' fs' aCk /\ iFrame = Z.of_nat (S (length fs')) /\ (length fs' <= length fs + n)%nat /\
    (rc <> SQLITE_OK /\ ~ good env /\ (length fs' < length fs + n)%nat \/
     rc = SQLITE_OK /\ length fs' = (length fs + n)%nat /\ aFrameCksum (hdr l') = chain be c0 fs' \/
     rc = SQLITE_OK /\ (length fs' < length fs + n)%nat /\ valid_frame be salt sz (chain be c0 fs') file0 (length fs') = None).

Lemma file_slice i : (foff sz (S i) <= length file0)%nat -> length (slice file0 (foff sz i) (24 + sz)) = (24 + sz)%nat.
Proof. rewrite foff_S. intros H. unfold slice. rewrite length_take, length_drop. lia. Qed.

(** A valid frame is added to the index. *)
Lemma rec_append l fs aCk f w : rec_inv l fs aCk -> valid_frame be salt sz (chain be c0 fs) file0 (length fs) = Some f ->
  index_clean (shmMap env) w (map f_pgno (fs ++ [f])) ->
  let l1 := set_shm (set_hdr l (with_cksum (hdr l) (chain be c0 (fs ++ [f])))) (apWiData w) in
  if f_trunc f =? 0 then rec_inv l1 (fs ++ [f]) aCk
  else rec_inv (commit_frame (Z.of_nat (S (length fs))) (f_trunc f) (Z.of_nat sz) l1) (fs ++ [f]) (chain be c0 (fs ++ [f])).
Proof.
  intros H Hv Hi l1. destruct (commit_snoc fs f) as [Ec Ez]. pose proof (last_commit_snoc fs f) as El.
  pose proof (reads_snoc be salt sz c0 file0 fs f (rv_reads _ _ _ H) Hv) as Hr.
  destruct (f_trunc f =? 0); (split; rewrite ?El, ?Ec, ?Ez; try done; try apply H).
Qed.

Lemma recover_frames_spec (Q : Z * Z * cksum -> Log -> Prop) E n : forall l fs aCk, rec_inv l fs aCk ->
  aFrameCksum (hdr l) = chain be c0 fs -> (foff sz (length fs + n) <= length file0)%nat -> Z.of_nat (length fs + n) < max_frames ->
  (forall i, (length fs <= i < length fs + n)%nat -> shmMap env (walFramePage (Z.of_nat (S i))) = SQLITE_OK) ->
  (forall r l', frames_post fs n r l' -> Q r l') ->
  wp (recover_frames env n (Z.of_nat (S (length fs))) (Z.of_nat sz) aCk) Q E l.
Proof.
  induction n as [|n IH]; intros l fs aCk H Hc Hlen Hmax Hmap HQ; cbn [recover_frames].
  { wp_steps. apply HQ. exists fs. rewrite Nat.add_0_r. split; [done|]. split; [done|]. split; [lia|]. right. left. done. }
  set (a := slice file0 (foff sz (length fs)) (24 + sz)).
  assert (length a = 24 + sz)%nat as La. { apply file_slice. etrans; [|exact Hlen]. unfold foff. nia. }
  rewrite walFrameOffset_foff. replace (Z.to_nat (Z.of_nat sz + WAL_FRAME_HDRSIZE)) with (length a) by (unfold WAL_FRAME_HDRSIZE; lia).
  wp_steps. apply OsRead_good; [rewrite (rv_file _ _ _ H), Nat2Z.id; apply slice_bytes_at|].
  intros rc buf k Hbuf. assert (rec_inv (os_state l (file l) k) fs aCk) as H0 by (eapply rec_inv_hdr; [exact H|done..]).
  destruct Hbuf as [[-> ->]|[Hrc Hg]].
  2: { rewrite (proj2 (Z.eqb_neq _ _) Hrc). cbn [negb]. wp_steps. apply HQ. exists fs. do 2 (split; [done|]). split; [lia|]. left. split;
    [done|]. split; [done|lia]. }
  change (negb (SQLITE_OK =? SQLITE_OK)) with false. cbv iota. wp_steps. rewrite Nat2Z.id.
  set (l0 := os_state _ _ _) in *. pose proof (decode_spec l0 fs aCk H0 Hc La) as D. cbv zeta in D. fold a in D.
  destruct (valid_frame _ _ _ _ _ _) as [f|] eqn:V.
  2: { destruct D as [c ->]. wp_steps. apply HQ. exists fs. split; [by eapply rec_inv_hdr|]. split; [done|]. split; [lia|].
       right. right. split; [done|]. split; [lia|done]. }
  rewrite D. clear D. wp_steps. set (l1 := set_hdr _ _).
  pose proof (valid_is_frame be salt sz Hsalt _ _ _ _ Hbytes V) as (Hwf & _).
  assert (Forall (fun p => 0 < p < 2 ^ 32) (map f_pgno (fs ++ [f]))) as Hpages.
  { apply Forall_map, Forall_app. split; [|constructor; [apply Hwf|done]]. apply Forall_lookup. intros i g Hi.
    apply (valid_is_frame be salt sz Hsalt _ _ _ _ Hbytes (rv_reads _ _ _ H i g Hi)). }
  pose proof (append_spec (shmMap env) (to_wal l1) (map f_pgno fs) (f_pgno f)) as A. rewrite length_map in A.
  replace (map f_pgno fs ++ [f_pgno f]) with (map f_pgno (fs ++ [f])) in A by (by rewrite map_app).
  replace (Z.of_nat (length fs) + 1) with (Z.of_nat (S (length fs))) in A by lia.
  destruct A as [(w & -> & Hw & _)|(rc & -> & Hrc & Hn)].
  { by apply index_clean_ok, (rv_index _ _ _ H0). }
  { split; [done|]. rewrite length_map, length_app. cbn [length]. lia. }
  { right. apply (rv_index _ _ _ H0). }
  2: { destruct Hn. apply Hmap. lia. }
  wp_steps. change (negb (SQLITE_OK =? SQLITE_OK)) with false. cbv iota.
  pose proof (rec_append l0 fs aCk f w H0 V Hw) as K. cbv zeta in K. change (set_hdr l0 _) with l1 in K.
  assert (forall l2 aCk2, rec_inv l2 (fs ++ [f]) aCk2 -> aFrameCksum (hdr l2) = chain be c0 (fs ++ [f]) ->
    wp (recover_frames env n (Z.of_nat (S (length fs)) + 1) (Z.of_nat sz) aCk2) Q E l2) as Next.
  { intros l2 aCk2 H2 Hc2. assert (length (fs ++ [f]) = S (length fs)) as Lf by (rewrite length_app; cbn; lia).
    replace (Z.of_nat (S (length fs)) + 1) with (Z.of_nat (S (length (fs ++ [f])))) by lia.
    apply IH; [done|done|rewrite Lf; by replace (S (length fs) + n)%nat with (length fs + S n)%nat by lia|rewrite Lf; lia| |].
    - intros i Hi. apply Hmap. lia.
    - intros [[rc iFrame] aCk'] l' (fs' & P1 & P2 & P3 & P4). apply HQ. exists fs'. do 2 (split; [done|]). rewrite Lf in *.
      replace (length fs + S n)%nat with (S (length fs) + n)%nat by lia. done. }
  destruct (f_trunc f =? 0); cbn [negb]; wp_steps; by apply Next.
Qed.

Lemma rec_private l fs aCk iPg : rec_inv l fs aCk -> 0 <= iPg -> Z.of_nat (length fs) <= first_frame iPg ->
  rec_inv (set_shm l (<[iPg := aPrivate iPg]> (shm l))) fs aCk.
Proof.
  intros H Hp Hl. split; try apply H. intros b Hb Hs. destruct (decide (b = iPg)) as [->|N].
  - destruct Hs. apply length_zero_iff_nil. rewrite length_segment, length_map. lia.
  - destruct (rv_index _ _ _ H b Hb Hs) as [Hm Hk]. split; [done|]. unfold block in *. cbn [to_wal apWiData set_shm shm] in *.
    by rewrite lookup_insert_ne.
Qed.

Lemma first_frame_next b : 0 <= b -> first_frame (b + 1) = HASHTABLE_NPAGE_ONE + b * HASHTABLE_NPAGE /\
  first_frame (b + 1) = first_frame b + block_size b.
Proof. intros Hb. unfold first_frame, block_size. change HASHTABLE_NPAGE_ONE with 4062. change HASHTABLE_NPAGE with 4096. repeat case_match; lia. Qed.

Lemma first_frame_last N b : 0 <= N < max_frames -> 0 <= b <= walFramePage N ->
  first_frame b <= N /\ (b < walFramePage N -> first_frame (b + 1) <= N) /\ (b = walFramePage N -> N <= first_frame (b + 1)).
Proof.
  intros HN Hb. assert (0 <= walFramePage N /\ (first_frame (walFramePage N) < N \/ N = 0 /\ walFramePage N = 0) /\
    N <= first_frame (walFramePage N) + block_size (walFramePage N)) as (P1 & P2 & P3).
  { destruct (decide (N = 0)) as [->|Hn]; [change (walFramePage 0) with 0; split; [lia|]; split; [by right|by vm_compute]|].
  destruct (frame_block N) as [? ?]; [lia|]. split; [done|]. split; [left; lia|lia]. }
  destruct (first_frame_next (walFramePage N) P1) as [_ E]. revert Hb P1 P2 P3 E. generalize (walFramePage N) as P. intros P Hb P1 P2 P3 E.
  unfold first_frame, block_size in *. change HASHTABLE_NPAGE_ONE with 4062 in *. change HASHTABLE_NPAGE with 4096 in *.
  repeat case_match; lia.
Qed.

Lemma walFramePage_nonneg f : 0 <= walFramePage f.
Proof. unfold walFramePage. apply Z.div_pos; [|done]. by apply (wrapu_range 32). Qed.

Lemma recover_pages_spec N (Q : Z * cksum -> Log -> Prop) E : 0 <= N < max_frames -> (foff sz (Z.to_nat N) <= length file0)%nat ->
  (length file0 < foff sz (S (Z.to_nat N)))%nat ->
  (forall rc aCk l' fs, rec_inv l' fs aCk -> Z.of_nat (length fs) <= N ->
     rc <> SQLITE_OK /\ ~ good env \/ rc = SQLITE_OK /\ valid_frame be salt sz (chain be c0 fs) file0 (length fs) = None -> Q (rc, aCk) l') ->
  forall n iPg l fs aCk, rec_inv l fs aCk -> aFrameCksum (hdr l) = chain be c0 fs -> 0 <= iPg ->
  Z.of_nat (length fs) = Z.min N (first_frame iPg) -> iPg + Z.of_nat n = walFramePage N + 1 ->
  wp (recover_pages env aPrivate n iPg N (Z.of_nat sz) aCk) Q E l.
Proof.
  intros HN Hfile Hend HQ n. induction n as [|n IH]; intros iPg l fs aCk H Hc Hp Hlen Hn; cbn [recover_pages].
  { wp_steps. eapply HQ; [exact H|lia|]. right. split; [done|]. unfold valid_frame. pose proof (walFramePage_nonneg N).
    destruct (first_frame_last N (walFramePage N)) as (_ & _ & F); [done|lia|]. specialize (F eq_refl).
    replace iPg with (walFramePage N + 1) in Hlen by lia. replace (length fs) with (Z.to_nat N) by lia.
    assert (length (slice file0 (foff sz (Z.to_nat N)) (24 + sz)) <> 24 + sz)%nat as L.
    { unfold slice. rewrite length_take, length_drop. rewrite foff_S in Hend. lia. }
    by rewrite (proj2 (Nat.eqb_neq _ _) L). }
  destruct (first_frame_last N iPg) as (F1 & F2 & F3); [done|lia|]. destruct (first_frame_next iPg Hp) as [G1 G2].
  destruct (Z.eqb_spec (shmMap env iPg) SQLITE_OK) as [Hm|Hm]; cbn [negb].
  2: { wp_steps. eapply HQ; [exact H|lia|]. left. split; [done|]. intros (_ & Hg & _). by apply Hm. }
  wp_steps. rewrite <- G1. fold (first_frame iPg). set (iLast := Z.min N (first_frame (iPg + 1))).
  assert (iLast = Z.min N (first_frame (iPg + 1)) /\ first_frame iPg <= iLast) as [EL HL].
  { split; [done|]. unfold iLast. pose proof (block_size_pos iPg). lia. }
  clearbody iLast. replace (1 + first_frame iPg) with (Z.of_nat (S (length fs))) by lia. set (m := Z.to_nat (iLast - _ + 1)).
  assert (Z.of_nat (length fs + m) = iLast) as Em by lia.
  assert (Z.to_nat iLast <= Z.to_nat N)%nat as HiN by lia.
  apply recover_frames_spec.
  - apply rec_private; [done|done|lia].
  - done.
  - replace (length fs + m)%nat with (Z.to_nat iLast) by lia. etrans; [|exact Hfile]. unfold foff. nia.
  - lia.
  - intros i Hi. rewrite <- (block_unique (Z.of_nat (S i)) iPg); [done|unfold max_frames in *; lia|done|lia].
  - intros [[rc iFrame] aCk'] l' (fs' & P1 & -> & P3 & P4). destruct (Z.leb_spec (Z.of_nat (S (length fs'))) iLast) as [Hle|Hgt].
    + wp_steps. eapply HQ; [exact P1|lia|]. destruct P4 as [(? & ? & _)|[(_ & ? & _)|(? & _ & ?)]]; [by left|lia|by right].
    + destruct P4 as [(_ & _ & ?)|[(_ & ? & Hck)|(_ & ? & _)]]; [lia| |lia]. apply (IH (iPg + 1) l' fs'); [done|done|lia|lia|lia].
Qed.
End File.

(** ** The header of the file, and the end *)

Definition page_size (sz : nat) : Prop := exists k, 9 <= k <= 16 /\ Z.of_nat sz = 2 ^ k.

Lemma page_size_cases sz : page_size sz -> 512 <= Z.of_nat sz <= 65536 /\ Z.of_nat sz & (Z.of_nat sz - 1) = 0.
Proof.
  intros (k & Hk & ->). assert (k = 9 \/ k = 10 \/ k = 11 \/ k = 12 \/ k = 13 \/ k = 14 \/ k = 15 \/ k = 16) as C by lia.
  by repeat (destruct C as [->|C]; [by vm_compute|]); subst.
Qed.

Lemma last_commit_frame fs k : last_commit fs = S k -> exists f, fs !! k = Some f /\ f_trunc f <> 0.
Proof.
  induction fs as [|f fs IH] using rev_ind; [done|]. rewrite last_commit_snoc. destruct (Z.eqb_spec (f_trunc f) 0) as [E|N].
  - intros H. destruct (IH H) as (g & Hg & ?). exists g. split; [by apply lookup_app_l_Some|done].
  - intros [= <-]. exists f. split; [by rewrite lookup_app_r, Nat.sub_diag by lia|done].
Qed.

Lemma set_marks_spec (Q : unit -> Log -> Prop) n : forall i rc l, (rc <> SQLITE_OK -> ~ good env) ->
  (forall l', hdr l' = hdr l -> live l' = live l -> file l' = file l -> szPage l' = szPage l -> shm l' = shm l ->
     iReCksum l' = iReCksum l -> nBackfill l' = nBackfill l -> Q tt l') ->
  wp (set_marks env n i rc) Q (fun _ => ~ good env) l.
Proof.
  induction n as [|n IH]; intros i rc l Hrc HQ; cbn [set_marks]; wp_steps.
  { destruct (Z.eqb_spec rc SQLITE_OK); wp_steps; [by apply HQ|by apply Hrc]. }
  apply os_call_good. intros rc' Hrc'. wp_steps. destruct (Z.eqb_spec rc' SQLITE_OK) as [E|N].
  - wp_steps. apply IH; [done|]. intros l' E1 E2 E3 E4 E5 E6 E7. by apply HQ.
  - destruct (negb (rc' =? SQLITE_BUSY)); wp_steps; [by apply Hrc'|]. apply IH; [done|].
    intros l' E1 E2 E3 E4 E5 E6 E7. by apply HQ.
Qed.

Section Header.
Context (be : bool) (salt : list Z) (sz : nat) (ckpt : Z) (file0 : list Z).
Context (Hbytes : Forall is_byte file0) (Hsalt : salt_ok salt) (Hsize : page_size sz) (Hckpt : is_u 32 ckpt).
Context (Hheader : bytes_at file0 0 (header24 be salt sz ckpt ++ put_ck (header_ck be salt sz ckpt))).
Context (Hmax : (Z.of_nat (length file0) - WAL_HDRSIZE) / (Z.of_nat sz + WAL_FRAME_HDRSIZE) < max_frames).

Definition hbuf : list Z := header24 be salt sz ckpt ++ put_ck (header_ck be salt sz ckpt).

Lemma hbuf_parts : bytes_at hbuf 0 (Put4byte (WAL_MAGIC ||| Z.b2z be)) /\ bytes_at hbuf 4 (Put4byte WAL_MAX_VERSION) /\
  bytes_at hbuf 8 (Put4byte (Z.of_nat sz)) /\ bytes_at hbuf 12 (Put4byte ckpt) /\ bytes_at hbuf 16 salt /\
  bytes_at hbuf 24 (Put4byte (fst (header_ck be salt sz ckpt))) /\ bytes_at hbuf 28 (Put4byte (snd (header_ck be salt sz ckpt))).
Proof.
  destruct Hsalt as [Ls _]. assert (bytes_at hbuf 0 hbuf) as B by (by intros i b). unfold hbuf at 2, header24, put_ck in B.
  rewrite <- !app_assoc in B. do 6 (apply bytes_at_app in B as [? B]).
  rewrite !length_Put4, ?Ls in *. cbn [Nat.add] in *. by repeat split.
Qed.

Lemma header24_bytes : Forall is_byte (header24 be salt sz ckpt).
Proof. unfold header24. rewrite !Forall_app. destruct Hsalt as [_ ?]. by repeat split; try apply Put4_bytes. Qed.

Lemma recover_log_spec l (Q : Z * cksum -> Log -> Prop) E : file l = file0 -> hdr l = zero_hdr -> iReCksum l = 0 ->
  (forall rc aCk l' fs, rec_inv be salt sz (header_ck be salt sz ckpt) file0 l' fs aCk -> Z.of_nat (length fs) < max_frames ->
     rc <> SQLITE_OK /\ ~ good env \/ rc = SQLITE_OK /\ reads_all be salt sz (header_ck be salt sz ckpt) file0 fs -> Q (rc, aCk) l') ->
  (forall rc aCk l', rc <> SQLITE_OK -> ~ good env -> Q (rc, aCk) l') ->
  wp (recover_log env aPrivate (Z.of_nat (length file0))) Q E l.
Proof.
  intros Hf Hh Hr HQ HQ'. destruct Hsalt as [Ls Lb]. destruct (page_size_cases sz Hsize) as [Hs1 Hs2].
  destruct hbuf_parts as (B0 & B4 & B8 & B12 & B16 & B24 & B28). destruct (header_ck_range be salt sz ckpt) as [R1 R2].
  assert (length hbuf = 32%nat) as L32 by (by apply length_header).
  unfold recover_log. wp_steps. replace (Z.to_nat WAL_HDRSIZE) with (length hbuf) by done.
  apply OsRead_good; [rewrite Hf; exact Hheader|]. intros rc buf k Hbuf. destruct Hbuf as [[-> ->]|[Hrc Hg]].
  2: { rewrite (proj2 (Z.eqb_neq _ _) Hrc). cbn [negb]. wp_steps. by apply HQ'. }
  change (negb (SQLITE_OK =? SQLITE_OK)) with false. cbv iota.
  rewrite (Get4_Put4 _ _ _ B0) by (destruct be; by vm_compute). rewrite (Get4_Put4 _ _ _ B8) by (unfold is_u; lia).
  rewrite (Get4_Put4 _ _ _ B4) by (by vm_compute). rewrite (Get4_Put4 _ _ _ B12) by done.
  rewrite (Get4_Put4 _ _ _ B24), (Get4_Put4 _ _ _ B28) by done. rewrite (wraps_id 32 (Z.of_nat sz)) by (unfold is_s; lia). rewrite Hs2.
  assert (((WAL_MAGIC ||| Z.b2z be) & 0xFFFFFFFE =? WAL_MAGIC) = true /\ negb ((WAL_MAGIC ||| Z.b2z be) & 1 =? 0) = be) as [-> ->]
    by (by destruct be).
  unfold SQLITE_MAX_PAGE_SIZE. replace (65536 <? Z.of_nat sz) with false by lia. replace (Z.of_nat sz <? 512) with false by lia.
  change (negb true || negb (0 =? 0) || false || false) with false. cbv iota.
  pose proof (bytes_at_slice _ _ _ B16) as S16. rewrite Ls in S16. rewrite S16.
  assert (slice hbuf 0 24 = header24 be salt sz ckpt) as ->.
  { unfold slice, hbuf. rewrite drop_0, take_app_le, take_ge; [done| |]; unfold header24; rewrite !length_app, !length_Put4, Ls; lia. }
  rewrite checksum_native by apply header24_bytes. fold (header_ck be salt sz ckpt). rewrite !Z.eqb_refl.
  change (negb true || negb true) with false. cbv iota zeta. wp_steps.
  change (negb (WAL_MAX_VERSION =? WAL_MAX_VERSION)) with false. cbv iota.
  destruct (alloc env) eqn:Ea; cbn [negb]; [|wp_steps; apply HQ'; [done|intros (_ & _ & ?); congruence]].
  set (N := (Z.of_nat (length file0) - WAL_HDRSIZE) / (Z.of_nat sz + WAL_FRAME_HDRSIZE)) in *.
  pose proof (bytes_at_length _ _ _ Hheader) as Lf. fold hbuf in Lf. rewrite L32 in Lf. specialize (Lf ltac:(intros E0;
    apply (f_equal length) in E0; rewrite L32 in E0; done)).
  assert (0 <= N) as HN0 by (apply Z.div_pos; unfold WAL_HDRSIZE, WAL_FRAME_HDRSIZE; lia).
  assert (foff sz (Z.to_nat N) <= length file0 < foff sz (S (Z.to_nat N)))%nat as [F1 F2].
  { pose proof (Z.div_mod (Z.of_nat (length file0) - WAL_HDRSIZE) (Z.of_nat sz + WAL_FRAME_HDRSIZE)) as D.
    pose proof (Z.mod_pos_bound (Z.of_nat (length file0) - WAL_HDRSIZE) (Z.of_nat sz + WAL_FRAME_HDRSIZE)) as D2.
    fold N in D. unfold WAL_HDRSIZE, WAL_FRAME_HDRSIZE, foff in *. nia. }
  rewrite wrapu_id by (unfold is_u, max_frames in *; lia).
  apply (recover_pages_spec be salt sz (header_ck be salt sz ckpt) file0 Hbytes Ls ltac:(lia) N _ _ ltac:(lia) F1 F2) with (fs := []).
  - intros rc aCk l' fs Hinv Hle [Hbad|[-> Hv]]; eapply HQ; [exact Hinv|lia|by left|exact Hinv|lia|]. right. split; [done|]. split; [apply Hinv|done].
  - split; cbn [os_state set_size set_hdr file szPage iReCksum hdr bigEndCksum aSalt hdr_mxFrame nPage]; rewrite ?Hh; try done.
    intros b Hb Hs. unfold segment in Hs. cbn [map] in Hs. by rewrite drop_nil, take_nil in Hs.
  - done.
  - done.
  - cbn [length]. change (first_frame 0) with 0. lia.
  - pose proof (walFramePage_nonneg N). lia.
Qed.

(** What recovery finds: all frames that can be read, up to the last commit. *)
Record recovered (l' : Log) (fs : list Frame) : Prop := {
  rc_reads : reads_all be salt sz (header_ck be salt sz ckpt) file0 fs;
  rc_idle : idle env sz l' (take (last_commit fs) fs);
  rc_index : index_ok (shmMap env) (to_wal l') (map f_pgno fs);
  rc_len : Z.of_nat (length fs) < max_frames;
  rc_page : nPage (live l') = commit_size fs;
  rc_file : file l' = file0;
  rc_backfill : nBackfill l' = 0 }.

Lemma recover_spec l : file l = file0 -> (32 < length file0)%nat -> iReCksum l = 0 ->
  wp (walIndexRecover env aPrivate) (fun _ l' => exists fs, recovered l' fs) (fun _ => ~ good env) l.
Proof.
  intros Hf Hl Hr. destruct Hsalt as [Ls Lb]. destruct (page_size_cases sz Hsize) as [Hs1 _].
  unfold walIndexRecover. wp_steps. apply os_call_good. intros rc Hrc.
  destruct (Z.eqb_spec rc SQLITE_OK) as [->|N]; cbn [negb]; [|wp_steps; by apply Hrc]. wp_steps.
  apply os_call_good. intros rc2 Hrc2. destruct (Z.eqb_spec rc2 SQLITE_OK) as [->|N]; cbn [negb]; [|wp_steps; by apply Hrc2].
  wp_steps. set (l1 := os_state _ _ _). change (file l1) with (file l). rewrite Hf. unfold WAL_HDRSIZE.
  replace (32 <? Z.of_nat (length file0)) with true by lia.
  apply recover_log_spec; [done|done|done| |].
  2: { intros rc aCk l' N Hg. rewrite (proj2 (Z.eqb_neq _ _) N). cbn [negb]. by wp_steps. }
  intros rc aCk l2 fs Hinv Hlen [[N Hg]|[-> Hall]].
  { rewrite (proj2 (Z.eqb_neq _ _) N). cbn [negb]. by wp_steps. }
  change (negb (SQLITE_OK =? SQLITE_OK)) with false. cbv iota. unfold recover_finish. wp_steps. apply set_marks_spec; [done|].
  intros l' E1 E2 E3 E4 E5 E6 E7. exists fs.
  assert (index_ok (shmMap env) (to_wal l') (map f_pgno fs)) as Hi.
  { eapply index_ok_fields; [|apply index_clean_ok, (rv_index _ _ _ _ _ _ _ _ Hinv)]. cbn [to_wal apWiData]. by rewrite E5. }
  split; [done| |done|done|rewrite E2; apply Hinv|rewrite E3; apply Hinv|done].
  destruct (rv_hdr _ _ _ _ _ _ _ _ Hinv) as [Eb Es]. pose proof (last_commit_le fs) as Hle.
  assert (log_file be salt sz ckpt (take (last_commit fs) fs) (last_commit fs) file0) as Hlog.
  { eapply log_file_take; [|exact Hle]. apply reads_log; [done|done|done|lia|done|apply Hinv]. }
  assert (length (take (last_commit fs) fs) = last_commit fs) as Lt by (rewrite length_take; lia).
  split; [|split; [by rewrite E1, E2|rewrite E6; apply Hinv]]. split.
  - rewrite E2, Lt. apply Hinv.
  - intros N. rewrite E4, E3, E2. split; [apply Hinv|]. exists ckpt.
    cbn [walIndexWriteHdr set_ckpt set_live set_hdr live hdr bigEndCksum aSalt file aFrameCksum with_cksum].
    rewrite Eb, Es, Lt, (rv_file _ _ _ _ _ _ _ _ Hinv), (rv_ck _ _ _ _ _ _ _ _ Hinv). split; [done|].
    unfold commit_ck. destruct (last_commit fs); [done|]. done.
  - rewrite E2. cbn [walIndexWriteHdr set_ckpt set_live set_hdr live hdr aSalt with_cksum]. rewrite Es. by split.
  - change (map f_pgno (take (last_commit fs) fs)) with (f_pgno <$> take (last_commit fs) fs). rewrite fmap_take. by apply take_index_ok.
  - rewrite Lt. lia.
  - intros N. destruct (last_commit fs) as [|k] eqn:Ek; [done|]. destruct (last_commit_frame fs k Ek) as (f & Hk & Hf').
    exists f. split; [|done]. by rewrite (take_S_r _ _ _ Hk), last_snoc.
Qed.
End Header.
End Loops.

(** ** Histories of a log *)

Lemma latest_none fs p : (forall i f, fs !! i = Some f -> f_pgno f <> p) -> latest fs !! p = None.
Proof.
  induction fs as [|f fs IH] using rev_ind; intros H; [done|]. rewrite latest_snoc, lookup_insert_ne.
  - apply IH. intros i g Hi. apply (H i). by apply lookup_app_l_Some.
  - apply (H (length fs)). by rewrite lookup_app_r, Nat.sub_diag by lia.
Qed.

Lemma latest_some fs : forall j f, fs !! j = Some f -> (forall i g, (j < i)%nat -> fs !! i = Some g -> f_pgno g <> f_pgno f) ->
  latest fs !! f_pgno f = Some (f_data f).
Proof.
  induction fs as [|g fs IH] using rev_ind; intros j f Hj Hl; [done|]. rewrite latest_snoc.
  apply lookup_app_Some in Hj as [Hj|[Hge Hj]].
  - rewrite lookup_insert_ne.
    + apply (IH j); [done|]. intros i g' Hi Hg. apply (Hl i); [done|]. by apply lookup_app_l_Some.
    + apply (Hl (length fs)); [eapply lookup_lt_Some; exact Hj|]. by rewrite lookup_app_r, Nat.sub_diag by lia.
  - apply list_lookup_singleton_Some in Hj as [_ ->]. by rewrite lookup_insert_eq.
Qed.

(** The content of a page, read through the index and the file of a log whose
    first [n] frames count. *)
Definition read_page (env : Env) (l : Log) (n p : Z) : option (list Z) :=
  match sqlite3WalFindFrame (shmMap env) {| apWiData := shm l; mxFrame := n; minFrame := 1; readLock := 1; bShmUnreliable := false |} p with
  | Ok r => if r =? 0 then None
            else Some (slice (file l) (Z.to_nat (walFrameOffset r (szPage l) + WAL_FRAME_HDRSIZE)) (Z.to_nat (szPage l)))
  | Throw _ => None
  end.

Lemma read_page_spec env sz l be salt ckpt fs p : index_ok (shmMap env) (to_wal l) (map f_pgno fs) -> Z.of_nat (length fs) < max_frames ->
  log_file be salt sz ckpt fs (length fs) (file l) -> szPage l = Z.of_nat sz ->
  read_page env l (Z.of_nat (length fs)) p = latest fs !! p.
Proof.
  intros Hi Hl Hlog Hs. unfold read_page. set (w := {| apWiData := _ |}).
  rewrite (find_frame_spec _ w (map f_pgno fs) p (length fs)); [|by eapply index_ok_fields,
    Hi|by rewrite length_map|by rewrite length_map|done|cbn; unfold max_frames; lia|done].
  pose proof (last_frame_spec (map f_pgno fs) p 1 (length fs) ltac:(lia)) as HS. cbv zeta in HS. cbn [minFrame w]. set (r := last_frame _ _ _ _) in *.
  assert (forall i, frame (map f_pgno fs) (Z.of_nat (S i)) = f_pgno <$> fs !! i) as Fr.
  { intros i. unfold frame. replace (Z.to_nat (Z.of_nat (S i) - 1)) with i by lia. apply (list_lookup_fmap f_pgno fs i). }
  destruct HS as [[-> HS]|(S1 & S2 & S3)].
  - symmetry. apply latest_none. intros i f Hf E. pose proof (lookup_lt_Some _ _ _ Hf). apply (HS (Z.of_nat (S i))); [lia|].
    rewrite Fr, Hf. cbn. by rewrite E.
  - replace (r =? 0) with false by lia. destruct (Z.to_nat r) as [|j] eqn:Ej; [lia|]. replace r with (Z.of_nat (S j)) in * by lia.
    rewrite Fr in S2. destruct (fs !! j) as [f|] eqn:Ef; [|done]. injection S2 as <-.
    rewrite (latest_some fs j f Ef), Hs, walFrameOffset_foff.
    + destruct (lf_raw _ _ _ _ _ _ _ Hlog j f Ef) as [_ Hd]. apply bytes_at_slice in Hd.
      destruct (frame_at _ _ _ _ (lf_wf _ _ _ _ _ _ _ Hlog) Ef) as (_ & _ & Hlen & _). rewrite Hlen in Hd. rewrite <- Hd, Nat2Z.id.
      do 2 f_equal. unfold WAL_FRAME_HDRSIZE. lia.
    + intros i g Hi' Hg E. pose proof (lookup_lt_Some _ _ _ Hg). apply (S3 (Z.of_nat (S i))); [lia|]. rewrite Fr, Hg. cbn. by rewrite E.
Qed.

Lemma shift_wrap v k : 0 <= k <= 24 -> u8 (u32 v >> k) = u8 (v >> k).
Proof.
  intros Hk. rewrite !wrapu_land by lia. apply Z.bits_inj'. intros i Hi. rewrite !Z.land_spec, !Z.shiftr_spec, Z.land_spec by lia.
  destruct (Z.ltb_spec i 8); [|rewrite !(Z.ones_spec_high 8) by lia; by rewrite !andb_false_r].
  rewrite (Z.ones_spec_low 32) by lia. by rewrite andb_true_r.
Qed.

Lemma Put4_wrap v : Put4byte (u32 v) = Put4byte v.
Proof.
  unfold Put4byte, Writer.sqlite3Put4byte. pose proof (shift_wrap v 0 ltac:(lia)) as E0. rewrite !Z.shiftr_0_r in E0.
  by rewrite !shift_wrap, E0 by lia.
Qed.

Lemma log_file_ckpt be salt sz ckpt fs k file : log_file be salt sz ckpt fs k file -> log_file be salt sz (u32 ckpt) fs k file.
Proof.
  assert (header24 be salt sz (u32 ckpt) = header24 be salt sz ckpt) as E by (unfold header24; by rewrite Put4_wrap).
  intros H. split; unfold sums_at, header_ck; rewrite ?E; try apply H.
Qed.

Lemma idle_read_page env sz l fs p : idle env sz l fs -> fs <> [] -> read_page env l (Z.of_nat (length fs)) p = latest fs !! p.
Proof.
  intros (H & _) N. destruct (cm_file _ _ _ _ H N) as (Hs & ckpt & Hlog & _).
  eapply read_page_spec; [apply H|apply H|exact Hlog|done].
Qed.

(** Recovery finds the committed frames, whatever follows them in the file. *)
Lemma recover_committed env env2 aPrivate sz l l2 cfs : page_size sz -> committed env sz l cfs -> cfs <> [] -> Forall is_byte (file l) ->
  file l2 = file l -> iReCksum l2 = 0 -> (Z.of_nat (length (file l)) - WAL_HDRSIZE) / (Z.of_nat sz + WAL_FRAME_HDRSIZE) < max_frames ->
  wp (walIndexRecover env2 aPrivate) (fun _ l' => exists ckpt fs,
    recovered env2 (bigEndCksum (live l)) (aSalt (live l)) sz ckpt (file l) l' fs /\ take (length cfs) fs = cfs /\
    (length cfs <= last_commit fs <= length fs)%nat /\
    (Forall (fun f => f_trunc f = 0) (drop (length cfs) fs) -> last_commit fs = length cfs)) (fun _ => ~ good env2) l2.
Proof.
  intros Hps Hc Hne Hb Hf Hr Hmax. destruct (cm_file _ _ _ _ Hc Hne) as (Hs & ckpt0 & Hlog0 & _).
  pose proof (log_file_ckpt _ _ _ _ _ _ _ Hlog0) as Hlog. set (ckpt := u32 ckpt0) in *. pose proof (lf_salt _ _ _ _ _ _ _ Hlog) as Hsalt.
  destruct (page_size_cases sz Hps) as [Hsz _]. pose proof (lf_header _ _ _ _ _ _ _ Hlog) as Hh.
  assert (32 < length (file l))%nat as Hl32.
  { destruct cfs as [|f cfs]; [done|]. destruct (lf_raw _ _ _ _ _ _ _ Hlog 0%nat f eq_refl) as [Hr8 _].
    apply bytes_at_length in Hr8; [|done]. rewrite length_head8 in Hr8. unfold foff in Hr8. lia. }
  eapply wp_mono; [eapply (recover_spec env2 aPrivate _ _ sz ckpt (file l) Hb Hsalt Hps); [by apply wrapu_range|exact Hh|done|done|lia|done]| |done].
  intros [] l' (fs & Hrec). exists ckpt, fs. split; [done|]. destruct Hsalt as [Ls Lb].
  assert (take (length cfs) fs = cfs) as Ht.
  { eapply reads_prefix; [apply Hrec|]. apply reads_log; [done|done|done|lia|done|exact Hlog]. }
  split; [done|]. destruct (cm_last _ _ _ _ Hc Hne) as (f & Hf1 & Hf2). pose proof (last_commit_end cfs f Hf1 Hf2) as Le.
  pose proof (last_commit_le fs). destruct (last_commit_app cfs (drop (length cfs) fs)) as [A1 A2].
  assert (cfs ++ drop (length cfs) fs = fs) as Ea by (rewrite <- Ht at 1; apply take_drop).
  rewrite Ea in A1, A2. split; [lia|]. intros Hz. rewrite A2 by done. done.
Qed.

(** What one connection does to a log: it begins a transaction (others may have
    copied frames to the database), writes pages, commits or rolls back.  [c] is the
    content of the pages in the log by the commits since the log was last restarted,
    [t] what the transaction made of it.  A call that fails leaves the state in which
    it failed, until it is rolled back.  The connection may stop in any state, and
    another one recover the index from the file, whatever [l2] its own memory is. *)
Inductive phase : Type := Idle | Writing | Failed.

Definition begin_txn (l : Log) (bf lock : Z) : Log :=
  set_lock (set_ckpt l bf (nBackfillAttempted l) (aReadMark l)) (bf + 1) lock.

Definition content_kept (l l' : Log) (c : gmap Z (list Z)) : gmap Z (list Z) := if nCkpt l' =? nCkpt l then c else ∅.

Record call_pages (env : Env) (sz : nat) (l : Log) (pages : list PgHdr) (nTruncate : Z) (isCommit : bool) : Prop := {
  cp_pages : Forall (page_ok sz) pages;
  cp_nodup : NoDup (map pgno pages);
  cp_ne : pages <> [];
  cp_trunc : is_u 32 nTruncate /\ (isCommit = true <-> nTruncate <> 0);
  cp_len : hdr_mxFrame (hdr l) + Z.of_nat (length pages) + sectorSize env < max_frames }.

Inductive wal_run (env : Env) (sz : nat) : Log -> gmap Z (list Z) -> gmap Z (list Z) -> phase -> Prop :=
| wal_run_open l : hdr l = live l -> hdr_mxFrame (live l) = 0 -> iReCksum l = 0 -> salt_ok (aSalt (live l)) -> wal_run env sz l ∅ ∅ Idle
| wal_run_begin l c t bf lock : wal_run env sz l c t Idle -> 0 <= bf <= hdr_mxFrame (live l) ->
    (lock = 0 -> bf = hdr_mxFrame (live l)) -> wal_run env sz (begin_txn l bf lock) c c Writing
| wal_run_spill l c t pages sync l' : wal_run env sz l c t Writing -> call_pages env sz l pages 0 false ->
    sqlite3WalFrames env (Z.of_nat sz) pages 0 false sync l = (Ok tt, l') ->
    wal_run env sz l' (content_kept l l' c) (overlay pages (content_kept l l' t)) Writing
| wal_run_commit l c t pages nTruncate sync l' : wal_run env sz l c t Writing -> call_pages env sz l pages nTruncate true ->
    sqlite3WalFrames env (Z.of_nat sz) pages nTruncate true sync l = (Ok tt, l') ->
    wal_run env sz (sqlite3WalEndWriteTransaction l') (overlay pages (content_kept l l' t)) (overlay pages (content_kept l l' t)) Idle
| wal_run_fail l c t pages nTruncate isCommit sync l' rc : wal_run env sz l c t Writing -> call_pages env sz l pages nTruncate isCommit ->
    sqlite3WalFrames env (Z.of_nat sz) pages nTruncate isCommit sync l = (Throw rc, l') ->
    wal_run env sz l' (content_kept l l' c) (content_kept l l' c) Failed
| wal_run_recover l c t ph aPrivate l2 l' c' : wal_run env sz l c t ph -> 0 < hdr_mxFrame (live l) -> Forall is_byte (file l) ->
    file l2 = file l -> iReCksum l2 = 0 ->
    (Z.of_nat (length (file l)) - WAL_HDRSIZE) / (Z.of_nat sz + WAL_FRAME_HDRSIZE) < max_frames ->
    walIndexRecover env aPrivate l2 = (Ok tt, l') -> (forall p, read_page env l' (hdr_mxFrame (live l')) p = c' !! p) ->
    wal_run env sz l' c' c' Idle
| wal_run_undo l c t ph : wal_run env sz l c t ph -> ph <> Idle ->
    wal_run env sz (sqlite3WalEndWriteTransaction (sqlite3WalUndo env l)) c c Idle.

Definition state_ok (env : Env) (sz : nat) (l : Log) (ph : phase) (fs ts : list Frame) : Prop :=
  match ph with
  | Idle => ts = [] /\ idle env sz l fs
  | Writing => writing env sz l fs ts
  | Failed => ts = [] /\ committed env sz l fs
  end.

(** The environment: bytes that are random, a positive sector size, read locks. *)
Record env_ok (env : Env) : Prop := {
  eo_random : forall k, (8 <= length (randomness env k))%nat /\ Forall is_byte (randomness env k);
  eo_begin : forall n, begin_read env n <> 0;
  eo_sector : 0 < sectorSize env }.

Lemma latest_restarted l l' fs ts : latest (restarted l l' fs) = content_kept l l' (latest fs) /\
  latest (restarted l l' fs ++ restarted l l' ts) = content_kept l l' (latest (fs ++ ts)).
Proof. unfold restarted, content_kept. by case_match. Qed.

Lemma idle_begin env sz l fs bf lock : idle env sz l fs -> 0 <= bf <= hdr_mxFrame (live l) -> (lock = 0 -> bf = hdr_mxFrame (live l)) ->
  writing env sz (begin_txn l bf lock) fs [].
Proof.
  intros (Hc & Eh & Er) Hb Hl. apply idle_writing; [split; [by split; apply Hc|done]|]. pose proof (cm_mx _ _ _ _ Hc) as Hm.
  cbn. destruct (decide (lock = 0)) as [E|N]; [right|left; split; [done|lia]]. split; [done|]. split; [done|]. rewrite Eh. by apply Hl.
Qed.

Lemma wal_run_frames env sz l c t pages nTruncate isCommit sync fs ts : env_ok env -> (0 < sz)%nat -> state_ok env sz l Writing fs ts ->
  latest fs = c -> latest (fs ++ ts) = t -> call_pages env sz l pages nTruncate isCommit ->
  wp (sqlite3WalFrames env (Z.of_nat sz) pages nTruncate isCommit sync)
    (fun _ l' => exists fs' ts', after_frames env sz isCommit l' fs' ts' /\ latest fs' = content_kept l l' c /\
       latest (fs' ++ ts') = overlay pages (content_kept l l' t))
    (fun l' => exists fs', committed env sz l' fs' /\ latest fs' = content_kept l l' c) l.
Proof.
  intros [He1 He2 He3] Hsz Hw Hc Ht Hp. cbn in Hw. apply (frames_spec env sz He1 He2 Hsz He3 l fs ts); [done| | |].
  - split; try apply Hp. pose proof (cp_len _ _ _ _ _ _ Hp). pose proof (wr_mx _ _ _ _ _ Hw). lia.
  - intros l' ts' fs0 Ha Hl. destruct (latest_restarted l l' fs ts) as [E1 E2]. exists fs0, ts'. split; [done|].
    subst fs0. rewrite <- Hc, <- Ht. split; [exact E1|]. by rewrite Hl, E2.
  - intros l' Hcm. exists (restarted l l' fs). split; [done|]. destruct (latest_restarted l l' fs ts) as [E1 _]. by rewrite E1, Hc.
Qed.

Lemma state_committed env sz l ph fs ts : state_ok env sz l ph fs ts -> committed env sz l fs.
Proof. destruct ph; [intros [_ [? _]]|intros H; apply H|intros [_ ?]]; done. Qed.

Lemma wal_run_inv env sz l c t ph : env_ok env -> page_size sz -> wal_run env sz l c t ph ->
  exists fs ts, state_ok env sz l ph fs ts /\ latest fs = c /\ latest (fs ++ ts) = t.
Proof.
  intros He Hps H. assert (0 < sz)%nat as Hsz by (destruct (page_size_cases sz Hps); lia).
  induction H as [l H1 H2 H3 H4|l c t bf lock _ (fs & ts & [-> Hi] & <- & _) Hb Hl|
    l c t pages sync l' _ (fs & ts & Hw & Hc & Ht) Hp Hrun|l c t pages nTruncate sync l' _ (fs & ts & Hw & Hc & Ht) Hp Hrun|
    l c t pages nTruncate isCommit sync l' rc _ (fs & ts & Hw & Hc & Ht) Hp Hrun|
    l c t ph aPrivate l2 l' c' _ (fs & ts & Hs & _ & _) Hmx Hb Hf Hr Hmax Hrun Hread|l c t ph _ (fs & ts & Hs & <- & _) Hph].
  - exists [], []. split; [|done]. split; [done|]. split; [by apply committed_nil|done].
  - exists fs, []. split; [by apply idle_begin|]. by rewrite app_nil_r.
  - pose proof (wal_run_frames env sz l c t pages 0 false sync fs ts He Hsz Hw Hc Ht Hp) as W. unfold wp in W. rewrite Hrun in W.
    destruct W as (fs' & ts' & Ha & ? & ?). by exists fs', ts'.
  - pose proof (wal_run_frames env sz l c t pages nTruncate true sync fs ts He Hsz Hw Hc Ht Hp) as W. unfold wp in W. rewrite Hrun in W.
    destruct W as (fs' & ts' & Ha & ? & ?). exists (fs' ++ ts'), []. rewrite app_nil_r. split; [|done]. split; [done|].
    destruct Ha as (Hcm & Eh & _). split; [by split; apply Hcm|done].
  - pose proof (wal_run_frames env sz l c t pages nTruncate isCommit sync fs ts He Hsz Hw Hc Ht Hp) as W. unfold wp in W. rewrite Hrun in W.
    destruct W as (fs' & Ha & ?). exists fs', []. rewrite app_nil_r. done.
  - pose proof (state_committed _ _ _ _ _ _ Hs) as Hcm. pose proof (cm_mx _ _ _ _ Hcm) as Hm. assert (fs <> []) as Hne by (intros ->; cbn in Hm; lia).
    pose proof (recover_committed env env aPrivate sz l l2 fs Hps Hcm Hne Hb Hf Hr Hmax) as W. unfold wp in W. rewrite Hrun in W.
    destruct W as (ckpt & gs & Hrec & _ & Hle & _). exists (take (last_commit gs) gs), []. rewrite app_nil_r. pose proof (rc_idle _ _ _ _ _ _ _ _ Hrec) as Hid.
    assert (latest (take (last_commit gs) gs) = c') as <-; [|done]. apply map_eq. intros p. rewrite <- Hread.
    rewrite (cm_mx _ _ _ _ (proj1 Hid)). symmetry. apply (idle_read_page env sz); [done|]. intros E. apply (f_equal length) in E.
    rewrite length_take in E. destruct fs; [done|]. cbn in *. lia.
  - exists fs, []. rewrite app_nil_r. split; [|done]. split; [done|]. apply undo_spec. exact (state_committed _ _ _ _ _ _ Hs).
Qed.

(** ** The main result *)

(** Pages of a prefix of the recovered frames. *)
Lemma recovered_prefix env be salt sz ckpt file0 l' fs cfs p : recovered env be salt sz ckpt file0 l' fs -> take (length cfs) fs = cfs ->
  (length cfs <= last_commit fs)%nat -> cfs <> [] -> read_page env l' (Z.of_nat (length cfs)) p = latest cfs !! p.
Proof.
  intros H Ht Hle Hne. destruct (rc_idle _ _ _ _ _ _ _ _ H) as (Hc & _). pose proof (rc_len _ _ _ _ _ _ _ _ H). pose proof (last_commit_le fs).
  assert (take (last_commit fs) fs <> []) as N.
  { intros E. apply (f_equal length) in E. rewrite length_take in E. destruct cfs; [done|]. cbn in *. lia. }
  destruct (cm_file _ _ _ _ Hc N) as (Hs & k & Hlog & _). eapply read_page_spec; [| |eapply (log_file_take _ _ _ _ _ _ _ (length cfs)) in Hlog|done].
  - pose proof (take_index_ok _ _ _ (length cfs) (rc_index _ _ _ _ _ _ _ _ H)) as Hi. rewrite <- Ht.
    by rewrite firstn_map in Hi.
  - lia.
  - rewrite take_take, Nat.min_l, Ht in Hlog by lia. exact Hlog.
  - rewrite length_take. lia.
Qed.

(** C4. Commits survive.  Take any history of a connection that writes to a log:
    transactions that write pages in any number of calls, overwriting frames they
    have written and computing checksums again, with padding and restarts of the
    log; calls that fail at any call of the operating system, with any part of the
    write done; rollbacks.  Let the connection stop in any state of it, between calls
    or where a call failed.  Then [walIndexRecover], on a machine of either byte
    order and with any content of the shared memory, fails only if a call of the
    operating system fails; it finds the frames that were committed, and each page
    read through the new index has the content of the last commit.  Frames after
    those count only up to a valid commit frame: without one, the recovered log ends
    with the last commit.  The result is a state from which the history can go on. *)
Theorem committed_survives (env env2 : Env) (aPrivate : Z -> WalBlock) (sz : nat) (l l2 : Log) (c t : gmap Z (list Z)) (ph : phase) :
  env_ok env -> page_size sz -> wal_run env sz l c t ph -> 0 < hdr_mxFrame (live l) -> Forall is_byte (file l) ->
  file l2 = file l -> iReCksum l2 = 0 ->
  (Z.of_nat (length (file l)) - WAL_HDRSIZE) / (Z.of_nat sz + WAL_FRAME_HDRSIZE) < max_frames ->
  match walIndexRecover env2 aPrivate l2 with
  | (Throw _, _) => ~ good env2
  | (Ok _, l') => exists ckpt fs,
      let be := bigEndCksum (live l) in let salt := aSalt (live l) in let n := hdr_mxFrame (live l) in
      let m := hdr_mxFrame (live l') in
      reads_all be salt sz (header_ck be salt sz ckpt) (file l) fs /\ n <= m /\ m = Z.of_nat (last_commit fs) /\
      (forall p, read_page env2 l' n p = c !! p) /\
      (forall p, read_page env2 l' m p = latest (take (last_commit fs) fs) !! p) /\
      (Forall (fun f => f_trunc f = 0) (drop (Z.to_nat n) fs) -> m = n) /\
      idle env2 sz l' (take (last_commit fs) fs)
  end.
Proof.
  intros He Hps Hrun Hmx Hb Hf Hr Hmax. destruct (wal_run_inv _ _ _ _ _ _ He Hps Hrun) as (cfs & ts & Hs & <- & _).
  pose proof (state_committed _ _ _ _ _ _ Hs) as Hcm. pose proof (cm_mx _ _ _ _ Hcm) as Hm.
  assert (cfs <> []) as Hne by (intros ->; cbn in Hm; lia).
  pose proof (recover_committed env env2 aPrivate sz l l2 cfs Hps Hcm Hne Hb Hf Hr Hmax) as W. unfold wp in W.
  destruct (walIndexRecover env2 aPrivate l2) as [[[]|e] l']; [|exact W].
  destruct W as (ckpt & fs & Hrec & Ht & Hle & Hz). exists ckpt, fs. cbv zeta. pose proof (rc_idle _ _ _ _ _ _ _ _ Hrec) as Hid.
  pose proof (cm_mx _ _ _ _ (proj1 Hid)) as Hm'. rewrite length_take, Nat.min_l in Hm' by lia. rewrite Hm', Hm, Nat2Z.id.
  split; [apply Hrec|]. split; [lia|]. split; [done|]. split; [intros p; apply (recovered_prefix _ _ _ _ _ _ _ _ _ _ Hrec Ht);
    [lia|done]|]. split; [|split; [|done]].
  - intros p. pose proof (idle_read_page _ _ _ _ p Hid) as R. rewrite length_take, Nat.min_l in R by lia. apply R.
    intros E. apply (f_equal length) in E. rewrite length_take in E. destruct cfs; [done|]. cbn in *. lia.
  - intros H0. by rewrite (Hz H0).
Qed.

(** ** An example: page 1 is committed, a second transaction writes page 2 and then
    page 1, with the frame of page 2 overwritten, and fails while it computes the
    checksums again; a machine of the other byte order recovers. *)

Definition ex_page (p b : Z) : PgHdr := {| pgno := p; pData := replicate 512 b |}.
Definition ex_env (fails : nat -> bool) (big : bool) : Env :=
  {| SQLITE_BIGENDIAN := big; io_rc := fun k => if fails k then 10 else 0; io_part := fun _ => 5%nat;
     io_junk := fun _ => []; randomness := fun k => replicate 8 (Z.of_nat k mod 100); shmMap := fun _ => 0; alloc := true;
     begin_read := fun _ => 1; sectorSize := 512; mxWalSize := -1; padToSectorBoundary := false; syncHeader := true |}.
Definition ex_log : Log :=
  {| hdr := zero_hdr; live := zero_hdr; shm := ∅; file := []; szPage := 0; nCkpt := 0; iReCksum := 0; truncateOnCommit := false;
     log_minFrame := 1; log_readLock := 1; nBackfill := 0; nBackfillAttempted := 0; aReadMark := replicate 5 0; io := 0 |}.

Definition ex_w : Env := ex_env (Nat.eqb 14) false.
Definition ex1 : Log := begin_txn ex_log 0 1.
Definition ex2 : Log := snd (sqlite3WalFrames ex_w (Z.of_nat 512) [ex_page 1 7] 1 true true ex1).
Definition ex3 : Log := begin_txn (sqlite3WalEndWriteTransaction ex2) 0 1.
Definition ex4 : Log := snd (sqlite3WalFrames ex_w (Z.of_nat 512) [ex_page 2 8] 0 false false ex3).
Definition ex5 : Log := snd (sqlite3WalFrames ex_w (Z.of_nat 512) [ex_page 2 9; ex_page 1 10] 2 true true ex4).


Definition is_byteb (b : Z) : bool := (0 <=? b) && (b <? 256).
Lemma bytes_check a : forallb is_byteb a = true -> Forall is_byte a.
Proof.
  intros H. rewrite forallb_forall in H. apply List.Forall_forall. intros b Hb. specialize (H b Hb). unfold is_byteb in H. unfold is_u. lia.
Qed.

Lemma ex_page_ok p b : 0 < p < 2 ^ 32 -> is_byte b -> page_ok 512 (ex_page p b).
Proof. intros Hp Hb. split; [done|]. split; [apply length_replicate|]. by apply Forall_replicate. Qed.

Lemma ex_call l pages nTruncate (isCommit : bool) : hdr_mxFrame (hdr l) <= 1000 -> Forall (page_ok 512) pages ->
  NoDup (map pgno pages) -> (0 < length pages < 100)%nat -> is_u 32 nTruncate -> (nTruncate =? 0) = negb isCommit ->
  call_pages ex_w 512 l pages nTruncate isCommit.
Proof.
  intros Hm Hp Hn Hl Hu Hc. split; [done|done|by intros ->; cbn in Hl; lia| |cbn [ex_w ex_env sectorSize]; unfold max_frames; lia].
  split; [done|]. destruct isCommit; cbn [negb] in Hc; split; intros; (done || lia).
Qed.

Lemma ex_pages p b q d : 0 < p < 2 ^ 32 -> is_byte b -> 0 < q < 2 ^ 32 -> is_byte d -> p <> q ->
  Forall (page_ok 512) [ex_page p b] /\ NoDup (map pgno [ex_page p b]) /\
  Forall (page_ok 512) [ex_page p b; ex_page q d] /\ NoDup (map pgno [ex_page p b; ex_page q d]).
Proof.
  intros. pose proof (ex_page_ok p b). pose proof (ex_page_ok q d). split; [constructor; [auto|constructor]|]. split; [apply NoDup_singleton|].
  split; [constructor; [auto|constructor; [auto|constructor]]|]. cbn [map ex_page pgno]. apply NoDup_cons. split; [|apply NoDup_singleton].
  by rewrite list_elem_of_singleton.
Qed.

Lemma end_txn_fields l : file (sqlite3WalEndWriteTransaction l) = file l /\ iReCksum (sqlite3WalEndWriteTransaction l) = 0.
Proof. done. Qed.

Lemma run_pair {A} (m : M A) l r : fst (m l) = r -> m l = (r, snd (m l)).
Proof. intros <-. apply surjective_pairing. Qed.

Lemma content_kept_same l l' c : nCkpt l' = nCkpt l -> content_kept l l' c = c.
Proof. intros E. unfold content_kept. by rewrite E, Z.eqb_refl. Qed.

Lemma committed_survives_witness : exists l',
  walIndexRecover (ex_env (fun _ => false) true) zero_block (sqlite3WalEndWriteTransaction ex5) = (Ok tt, l') /\
  read_page (ex_env (fun _ => false) true) l' 1 1 = Some (replicate 512 7).
Proof.
  assert (env_ok ex_w) as He.
  { split; [|done|done]. intros k. cbn [ex_w ex_env randomness]. split; [by rewrite length_replicate|].
    apply Forall_replicate. unfold is_u. pose proof (Z.mod_pos_bound (Z.of_nat k) 100). lia. }
  pose proof (ex_pages 1 7 2 7 ltac:(lia) ltac:(unfold is_u; lia) ltac:(lia) ltac:(unfold is_u; lia) ltac:(lia)) as P7.
  pose proof (ex_pages 2 8 1 8 ltac:(lia) ltac:(unfold is_u; lia) ltac:(lia) ltac:(unfold is_u; lia) ltac:(lia)) as P8.
  pose proof (ex_pages 2 9 1 10 ltac:(lia) ltac:(unfold is_u; lia) ltac:(lia) ltac:(unfold is_u; lia) ltac:(lia)) as P9.
  assert (page_size 512) as Hps by (exists 9; split; [lia|reflexivity]).
  assert (wal_run ex_w 512 ex1 ∅ ∅ Writing) as R1.
  { apply (wal_run_begin _ _ ex_log ∅ ∅); [|cbn; lia|done]. apply wal_run_open; [done|done|done|]. split; [reflexivity|]. by apply Forall_replicate. }
  assert (wal_run ex_w 512 (sqlite3WalEndWriteTransaction ex2) (overlay [ex_page 1 7] ∅) (overlay [ex_page 1 7] ∅) Idle) as R2.
  { assert (nCkpt ex2 = nCkpt ex1) as E by (vm_compute; reflexivity). rewrite <- (content_kept_same ex1 ex2 ∅ E).
    apply (wal_run_commit ex_w 512 ex1 ∅ ∅ [ex_page 1 7] 1 true ex2 R1).
    - apply ex_call; [vm_compute; discriminate|apply P7|apply P7|cbn; lia|unfold is_u; lia|reflexivity].
    - apply (run_pair (sqlite3WalFrames ex_w (Z.of_nat 512) [ex_page 1 7] 1 true true) ex1). vm_compute. reflexivity. }
  assert (wal_run ex_w 512 ex3 (overlay [ex_page 1 7] ∅) (overlay [ex_page 1 7] ∅) Writing) as R3.
  { apply (wal_run_begin _ _ _ _ _ 0 1 R2); [vm_compute; split; discriminate|done]. }
  assert (exists t, wal_run ex_w 512 ex4 (overlay [ex_page 1 7] ∅) t Writing) as [t R4].
  { assert (nCkpt ex4 = nCkpt ex3) as E by (vm_compute; reflexivity). rewrite <- (content_kept_same ex3 ex4 (overlay [ex_page 1 7] ∅) E).
    eexists. apply (wal_run_spill ex_w 512 ex3 _ _ [ex_page 2 8] false ex4 R3).
    - apply ex_call; [vm_compute; discriminate|apply P8|apply P8|cbn; lia|unfold is_u; lia|reflexivity].
    - apply (run_pair (sqlite3WalFrames ex_w (Z.of_nat 512) [ex_page 2 8] 0 false false) ex3). vm_compute. reflexivity. }
  assert (wal_run ex_w 512 ex5 (overlay [ex_page 1 7] ∅) (overlay [ex_page 1 7] ∅) Failed) as R5.
  { assert (nCkpt ex5 = nCkpt ex4) as E by (vm_compute; reflexivity). rewrite <- (content_kept_same ex4 ex5 (overlay [ex_page 1 7] ∅) E).
    apply (wal_run_fail ex_w 512 ex4 _ t [ex_page 2 9; ex_page 1 10] 2 true true ex5 10 R4).
    - apply ex_call; [vm_compute; discriminate|apply P9|apply P9|cbn; lia|unfold is_u; lia|reflexivity].
    - apply (run_pair (sqlite3WalFrames ex_w (Z.of_nat 512) [ex_page 2 9; ex_page 1 10] 2 true true) ex4). vm_compute. reflexivity. }
  pose proof (committed_survives ex_w (ex_env (fun _ => false) true) zero_block 512 ex5 (sqlite3WalEndWriteTransaction ex5) _ _ _ He Hps R5) as T.
  assert (hdr_mxFrame (live ex5) = 1) as Hm by (vm_compute; reflexivity). rewrite Hm in T.
  specialize (T ltac:(lia) (bytes_check (file ex5) ltac:(vm_compute; reflexivity)) (proj1 (end_txn_fields ex5)) (proj2 (end_txn_fields ex5)) ltac:(vm_compute; reflexivity)).
  destruct (walIndexRecover _ _ _) as [[[]|e] l'].
  - exists l'. split; [reflexivity|]. destruct T as (ckpt & fs & _ & _ & _ & T & _). rewrite T. vm_compute. reflexivity.
  - destruct T. split; [done|]. split; done.
Defined.
