(* ===== verification/VdbeExpr.v ===== *)
(** * Values and operators of the virtual machine (vdbe.c, vdbeaux.c and vdbemem.c of the engine)

    The opcodes that evaluate expressions: arithmetic ([OP_Add] to
    [OP_Remainder]), bit operations and shifts, the logical operators in three
    values, the comparisons, and under them [sqlite3MemCompare] with the
    comparison of integers with doubles.

    A double is its bit pattern.  The arithmetic of doubles is the processor's and
    a parameter, like the scaling by a power of ten in [sqlite3AtoF]. *)

From S2P Require Import Prelude Bits Ctype IntArith IntParse Record RealParse Aggregates.

Local Open Scope c_scope.

(** ** Doubles *)

(** The value of a double in units of the smallest one, 2^-1074; an infinity is
    beyond all others. *)
Definition UNIT : Z := 2 ^ 1074.
Definition magnitude (m : Z) : Z :=
  let e := m / 2 ^ 52 in
  let f := m mod 2 ^ 52 in
  if e =? 0 then f else (2 ^ 52 + f) * 2 ^ (e - 1).
Definition dval (x : Z) : Z := if x <? 2 ^ 63 then magnitude x else - magnitude (x - 2 ^ 63).

(** [(i64)r] of a double in range. *)
Definition int_of_double (r : Z) : Z := Z.quot (dval r) UNIT.

Definition doubleToInt64 (r : Z) : Z :=
  if negb (dlt (double_of_int SMALLEST_INT64) r) then SMALLEST_INT64
  else if negb (dlt r (double_of_int LARGEST_INT64)) then LARGEST_INT64
  else int_of_double r.

(** [wide]: a [long double] has more than 8 bytes; it then holds every 64-bit
    integer and every double exactly. *)
Definition sqlite3IntFloatCompare (wide : bool) (i r : Z) : Z :=
  if wide then
    if i * UNIT <? dval r then -1 else if dval r <? i * UNIT then 1 else 0
  else if dlt r (double_of_int (- 2 ^ 63)) then 1
  else if negb (dlt r (double_of_int (2 ^ 63))) then -1
  else
    let y := int_of_double r in
    if i <? y then -1
    else if y <? i then 1
    else
      let s := double_of_int i in
      if dlt s r then -1 else if dlt r s then 1 else 0.

(** ** Comparison of values *)

Definition is_Null (m : Mem) : bool := match m with MEM_Null _ => true | _ => false end.
Definition is_Int (m : Mem) : bool := match m with MEM_Int _ => true | _ => false end.
Definition is_IntReal (m : Mem) : bool := match m with MEM_IntReal _ => true | _ => false end.
Definition is_Real (m : Mem) : bool := match m with MEM_Real _ => true | _ => false end.
Definition is_Str (m : Mem) : bool := match m with MEM_Str _ => true | _ => false end.
Definition is_number (m : Mem) : bool := is_Int m || is_Real m || is_IntReal m.
Definition nZero_of (m : Mem) : option Z := match m with MEM_Blob _ n => n | _ => None end.

(** [if( a<b ) return -1; if( a>b ) return +1; return 0;] *)
Definition three_way (a b : Z) : Z := if a <? b then -1 else if b <? a then 1 else 0.

Definition isAllZero (z : list Z) : bool := forallb (Z.eqb 0) z.

Definition binCollFunc (pKey1 pKey2 : list Z) : Z :=
  let rc := memcmp pKey1 pKey2 (Nat.min (length pKey1) (length pKey2)) in
  if rc =? 0 then Z.of_nat (length pKey1) - Z.of_nat (length pKey2) else rc.

Definition sqlite3BlobCompare (pB1 pB2 : Mem) : Z :=
  let n1 := Z.of_nat (length (z_of pB1)) in
  let n2 := Z.of_nat (length (z_of pB2)) in
  match nZero_of pB1, nZero_of pB2 with
  | Some a, Some b => a - b
  | Some a, None => if negb (isAllZero (z_of pB2)) then -1 else a - n2
  | None, Some b => if negb (isAllZero (z_of pB1)) then 1 else n1 - b
  | None, None =>
      let c := memcmp (z_of pB1) (z_of pB2) (Nat.min (length (z_of pB1)) (length (z_of pB2))) in
      if negb (c =? 0) then c else n1 - n2
  end.

Section Compare.
Context (wide : bool).

(** [pColl] is the comparison function of the collation, [None] if there is none. *)
Definition sqlite3MemCompare (pMem1 pMem2 : Mem) (pColl : option (list Z -> list Z -> Z)) : Z :=
  if is_Null pMem1 || is_Null pMem2 then Z.b2z (is_Null pMem2) - Z.b2z (is_Null pMem1)
  else if is_number pMem1 || is_number pMem2 then
    if is_Int pMem1 && is_Int pMem2 || is_IntReal pMem1 && is_IntReal pMem2 then three_way (u_i pMem1) (u_i pMem2)
    else if is_Real pMem1 && is_Real pMem2 then
      if dlt (u_r pMem1) (u_r pMem2) then -1 else if dlt (u_r pMem2) (u_r pMem1) then 1 else 0
    else if is_Int pMem1 || is_IntReal pMem1 then
      if is_Real pMem2 then sqlite3IntFloatCompare wide (u_i pMem1) (u_r pMem2)
      else if is_Int pMem2 || is_IntReal pMem2 then three_way (u_i pMem1) (u_i pMem2)
      else -1
    else if is_Real pMem1 then
      if is_Int pMem2 || is_IntReal pMem2 then - sqlite3IntFloatCompare wide (u_i pMem2) (u_r pMem1) else -1
    else 1
  else if is_Str pMem1 || is_Str pMem2 then
    if negb (is_Str pMem1) then 1
    else if negb (is_Str pMem2) then -1
    else
      match pColl with
      | Some xCmp => xCmp (z_of pMem1) (z_of pMem2)
      | None => sqlite3BlobCompare pMem1 pMem2
      end
  else sqlite3BlobCompare pMem1 pMem2.

(** ** Comparison opcodes *)

Inductive cmp_op : Type := OP_Ne | OP_Eq | OP_Gt | OP_Le | OP_Lt | OP_Ge.

(** [opcode - OP_Ne] *)
Definition cmp_index (op : cmp_op) : Z :=
  match op with OP_Ne => 0 | OP_Eq => 1 | OP_Gt => 2 | OP_Le => 3 | OP_Lt => 4 | OP_Ge => 5 end.

(** The tables appended to [sqlite3UpperToLower]. *)
Definition comparison_tables : list Z :=
  [1; 0; 0; 1; 1; 0;
   0; 1; 0; 1; 0; 1;
   1; 0; 1; 0; 0; 1].
Definition sqlite3aLTb (op : cmp_op) : bool := negb (nth (Z.to_nat (cmp_index op)) comparison_tables 0 =? 0).
Definition sqlite3aEQb (op : cmp_op) : bool := negb (nth (Z.to_nat (6 + cmp_index op)) comparison_tables 0 =? 0).
Definition sqlite3aGTb (op : cmp_op) : bool := negb (nth (Z.to_nat (12 + cmp_index op)) comparison_tables 0 =? 0).

(** The answer for the sign of a comparison. *)
Definition by_sign (op : cmp_op) (res : Z) : bool :=
  if res <? 0 then sqlite3aLTb op else if res =? 0 then sqlite3aEQb op else sqlite3aGTb op.

(** Whether the jump is taken; [None]: an operand is NULL and [SQLITE_NULLEQ] is
    clear.  The operands have no affinity. *)
Definition OP_Compare (op : cmp_op) (nulleq : bool) (pColl : option (list Z -> list Z -> Z)) (pIn1 pIn3 : Mem)
  : option bool :=
  if is_Int pIn1 && is_Int pIn3 then
    if u_i pIn1 <? u_i pIn3 then Some (sqlite3aGTb op)
    else if u_i pIn3 <? u_i pIn1 then Some (sqlite3aLTb op)
    else Some (sqlite3aEQb op)
  else if is_Null pIn1 || is_Null pIn3 then
    if nulleq then
      Some (by_sign op (if is_Null pIn1 && is_Null pIn3 then 0 else if is_Null pIn3 then -1 else 1))
    else None
  else Some (by_sign op (sqlite3MemCompare pIn3 pIn1 pColl)).
End Compare.

(** ** Arithmetic *)

Section Arithmetic.
Context (fadd fsub fmul fdiv : Z -> Z -> Z) (scale10 : Z -> Z -> Z).

Definition sqlite3VdbeRealValue (m : Mem) : Z :=
  match m with
  | MEM_Real r => r
  | MEM_Int i | MEM_IntReal i => double_of_int i
  | MEM_Str z | MEM_Blob z _ => snd (sqlite3AtoF scale10 z)
  | MEM_Null _ => 0
  end.

(** Text is UTF-8. *)
Definition sqlite3VdbeIntValue (m : Mem) : Z :=
  match m with
  | MEM_Int i | MEM_IntReal i => i
  | MEM_Real r => doubleToInt64 r
  | MEM_Str z | MEM_Blob z _ => fst (sqlite3Atoi64 z SQLITE_UTF8)
  | MEM_Null _ => 0
  end.

Definition sqlite3VdbeBooleanValue (m : Mem) (ifNull : Z) : Z :=
  match m with
  | MEM_Int i | MEM_IntReal i => Z.b2z (negb (i =? 0))
  | MEM_Null _ => ifNull
  | _ => Z.b2z (negb (dval (sqlite3VdbeRealValue m) =? 0))
  end.

Definition computeNumericType (z : list Z) : Mem :=
  let '(rc, r) := sqlite3AtoF scale10 z in
  let '(ix, code) := sqlite3Atoi64 z SQLITE_UTF8 in
  if rc <=? 0 then if (rc =? 0) && (code <=? 1) then MEM_Int ix else MEM_Real r
  else if (rc =? 1) && (code =? 0) then MEM_Int ix else MEM_Real r.

(** The operand as [numericType] leaves it. *)
Definition numeric_operand (m : Mem) : Mem :=
  match m with MEM_Str z | MEM_Blob z _ => computeNumericType z | _ => m end.

Inductive arith_op : Type := OP_Add | OP_Subtract | OP_Multiply | OP_Divide | OP_Remainder.

(** The integer operations; [None] is [goto fp_math]. *)
Definition int_math (op : arith_op) (iA iB : Z) : option Mem :=
  let checked (r : option (Z * Z)) := match r with Some (iB, 0) => Some (MEM_Int iB) | _ => None end in
  match op with
  | OP_Add => checked (sqlite3AddInt64 iB iA)
  | OP_Subtract => checked (sqlite3SubInt64 iB iA)
  | OP_Multiply => checked (sqlite3MulInt64 iB iA)
  | OP_Divide =>
      if iA =? 0 then Some (MEM_Null false)
      else if (iA =? -1) && (iB =? SMALLEST_INT64) then None
      else Some (MEM_Int (Z.quot iB iA))
  | OP_Remainder =>
      if iA =? 0 then Some (MEM_Null false)
      else let iA := if iA =? -1 then 1 else iA in Some (MEM_Int (Z.rem iB iA))
  end.

Definition fp_math (op : arith_op) (pIn1 pIn2 : Mem) : Mem :=
  let rA := sqlite3VdbeRealValue pIn1 in
  let rB := sqlite3VdbeRealValue pIn2 in
  let finish rB := if IsNaN rB then MEM_Null false else MEM_Real rB in
  match op with
  | OP_Add => finish (fadd rB rA)
  | OP_Subtract => finish (fsub rB rA)
  | OP_Multiply => finish (fmul rB rA)
  | OP_Divide => if dval rA =? 0 then MEM_Null false else finish (fdiv rB rA)
  | OP_Remainder =>
      let iA := sqlite3VdbeIntValue pIn1 in
      let iB := sqlite3VdbeIntValue pIn2 in
      if iA =? 0 then MEM_Null false
      else let iA := if iA =? -1 then 1 else iA in finish (double_of_int (Z.rem iB iA))
  end.

Definition OP_Arith (op : arith_op) (pIn1 pIn2 : Mem) : Mem :=
  let n1 := numeric_operand pIn1 in
  let n2 := numeric_operand pIn2 in
  match n1, n2 with
  | MEM_Int iA, MEM_Int iB => match int_math op iA iB with Some m => m | None => fp_math op pIn1 pIn2 end
  | _, _ => if is_Null pIn1 || is_Null pIn2 then MEM_Null false else fp_math op pIn1 pIn2
  end.

(** ** Bits and shifts *)

Inductive bit_op : Type := OP_BitAnd | OP_BitOr | OP_ShiftLeft | OP_ShiftRight.

Definition shift (left_ : bool) (iA iB : Z) : Z :=
  if iB =? 0 then iA
  else
    let '(left_, iB) := if iB <? 0 then (negb left_, if -64 <? iB then - iB else 64) else (left_, iB) in
    if 64 <=? iB then (if (0 <=? iA) || left_ then 0 else -1)
    else
      let uA := u64 iA in
      if left_ then i64 (u64 (uA << iB))
      else
        let uA := uA >> iB in
        i64 (if iA <? 0 then uA ||| u64 (0xffffffffffffffff << (64 - iB)) else uA).

Definition OP_Bits (op : bit_op) (pIn1 pIn2 : Mem) : Mem :=
  if is_Null pIn1 || is_Null pIn2 then MEM_Null false
  else
    let iA := sqlite3VdbeIntValue pIn2 in
    let iB := sqlite3VdbeIntValue pIn1 in
    MEM_Int match op with
            | OP_BitAnd => iA & iB
            | OP_BitOr => iA ||| iB
            | OP_ShiftLeft => shift true iA iB
            | OP_ShiftRight => shift false iA iB
            end.

Definition OP_BitNot (pIn1 : Mem) : Mem :=
  if is_Null pIn1 then MEM_Null false else MEM_Int (Z.lnot (sqlite3VdbeIntValue pIn1)).

(** ** Logic *)

Definition and_logic : list Z := [0; 0; 0; 0; 1; 2; 0; 2; 2].
Definition or_logic : list Z := [0; 1; 2; 1; 1; 1; 2; 1; 2].

Definition OP_Logic (is_and : bool) (p1 p2 : Mem) : Mem :=
  let v1 := sqlite3VdbeBooleanValue p1 2 in
  let v2 := sqlite3VdbeBooleanValue p2 2 in
  let v1 := nth (Z.to_nat (v1 * 3 + v2)) (if is_and then and_logic else or_logic) 0 in
  if v1 =? 2 then MEM_Null false else MEM_Int v1.

Definition OP_Not (pIn1 : Mem) : Mem :=
  if is_Null pIn1 then MEM_Null false else MEM_Int (1 - sqlite3VdbeBooleanValue pIn1 0).
End Arithmetic.

(** ** The order of doubles is that of their values *)

Lemma magnitude_nonneg m : 0 <= m -> 0 <= magnitude m.
Proof.
  intros H. unfold magnitude. pose proof (Z.mod_pos_bound m (2 ^ 52) ltac:(lia)). case_match; [lia|].
  apply Z.mul_nonneg_nonneg; [lia|apply Z.pow_nonneg; lia].
Qed.

Lemma magnitude_lt m n : 0 <= m < n -> magnitude m < magnitude n.
Proof.
  intros H. unfold magnitude.
  pose proof (Z.mod_pos_bound m (2 ^ 52) ltac:(lia)) as Bm. pose proof (Z.mod_pos_bound n (2 ^ 52) ltac:(lia)) as Bn.
  pose proof (Z.div_mod m (2 ^ 52) ltac:(lia)) as Em. pose proof (Z.div_mod n (2 ^ 52) ltac:(lia)) as En.
  assert (0 <= m / 2 ^ 52) by (apply Z.div_pos; lia). assert (m / 2 ^ 52 <= n / 2 ^ 52) by (apply Z.div_le_mono; lia).
  set (e := m / 2 ^ 52) in *. set (e' := n / 2 ^ 52) in *. set (f := m mod 2 ^ 52) in *. set (f' := n mod 2 ^ 52) in *.
  clearbody e e' f f'. destruct (Z.eqb_spec e 0) as [E|E], (Z.eqb_spec e' 0) as [E'|E']; [lia| |lia|].
  - assert (0 < 2 ^ (e' - 1)) by (apply Z.pow_pos_nonneg; lia). nia.
  - assert (0 < 2 ^ (e - 1)) by (apply Z.pow_pos_nonneg; lia). destruct (Z.eq_dec e e') as [<-|Ne]; [nia|].
    assert (2 ^ (e' - 1) = 2 ^ (e' - e - 1) * 2 * 2 ^ (e - 1)) as ->.
    { change (2 ^ (e' - e - 1) * 2) with (2 ^ (e' - e - 1) * 2 ^ 1). rewrite <- !Z.pow_add_r by lia. f_equal. lia. }
    assert (1 <= 2 ^ (e' - e - 1)) by (apply (Z.pow_le_mono_r 2 0); lia). nia.
Qed.

Lemma dval_lt x y : is_u 64 x -> is_u 64 y -> dkey x < dkey y <-> dval x < dval y.
Proof.
  assert (forall a b, is_u 64 a -> is_u 64 b -> dkey a < dkey b -> dval a < dval b) as L.
  { intros a b Ha Hb. intros Hk. unfold dkey, dval, is_u in *. destruct (Z.ltb_spec a (2 ^ 63)), (Z.ltb_spec b (2 ^ 63)).
    - apply magnitude_lt. lia.
    - lia.
    - pose proof (magnitude_nonneg b ltac:(lia)). pose proof (magnitude_nonneg (a - 2 ^ 63) ltac:(lia)).
      destruct (Z.eq_dec a (2 ^ 63)) as [->|]; [|pose proof (magnitude_lt 0 (a - 2 ^ 63) ltac:(lia)); change (magnitude 0) with 0 in *; lia].
      pose proof (magnitude_lt 0 b ltac:(lia)). change (magnitude (2 ^ 63 - 2 ^ 63)) with 0. change (magnitude 0) with 0 in *. lia.
    - pose proof (magnitude_lt (b - 2 ^ 63) (a - 2 ^ 63) ltac:(lia)). lia. }
  intros Hx Hy. split; [by apply L|]. intros H. destruct (Z.lt_trichotomy (dkey x) (dkey y)) as [|[E|G]]; [done| |].
  - assert (dval x = dval y); [|lia]. unfold dkey, dval, is_u in *. destruct (Z.ltb_spec x (2 ^ 63)), (Z.ltb_spec y (2 ^ 63)).
    + by rewrite E.
    + replace x with 0 by lia. by replace (y - 2 ^ 63) with 0 by lia.
    + replace y with 0 by lia. by replace (x - 2 ^ 63) with 0 by lia.
    + do 2 f_equal. lia.
  - apply L in G; [lia|done|done].
Qed.

Lemma dlt_dval x y : is_u 64 x -> is_u 64 y -> IsNaN x = false -> IsNaN y = false -> dlt x y = (dval x <? dval y).
Proof. intros Hx Hy Nx Ny. unfold dlt. rewrite Nx, Ny. pose proof (dval_lt x y Hx Hy). cbn [negb andb]. lia. Qed.

(** The conversion of an integer with at most 53 significant bits is exact. *)
Lemma magnitude_parts e f : 0 < e -> 0 <= f < 2 ^ 52 -> magnitude (e * 2 ^ 52 + f) = (2 ^ 52 + f) * 2 ^ (e - 1).
Proof.
  intros He Hf. unfold magnitude. rewrite Z.add_comm, Z.div_add, Z.mod_add, Z.div_small, Z.mod_small by lia.
  by replace (0 + e =? 0) with false by lia.
Qed.

Lemma double_exact i : is_s 64 i \/ i = 2 ^ 63 -> (52 < Z.log2 (Z.abs i) -> Z.abs i mod 2 ^ (Z.log2 (Z.abs i) - 52) = 0) ->
  dval (double_of_int i) = i * UNIT.
Proof.
  intros H Hx. destruct (Z.eq_dec i 0) as [->|Hz]; [reflexivity|]. unfold double_of_int. replace (i =? 0) with false by lia.
  set (m := Z.abs i) in *. assert (0 < m <= 2 ^ 63) as Hm by (unfold m, is_s in *; lia).
  assert (0 <= Z.log2 m <= 63) as He.
  { split; [apply Z.log2_nonneg|]. change 63 with (Z.log2 (2 ^ 63)). apply Z.log2_le_mono. lia. }
  pose proof (Z.log2_spec m ltac:(lia)) as [L U]. set (e := Z.log2 m) in *.
  set (mant := if e <=? 52 then _ else _).
  assert (2 ^ 52 <= mant < 2 ^ 53 /\ mant * 2 ^ (e + 1022) = m * UNIT) as [Hmant Hv].
  { unfold mant. destruct (Z.leb_spec e 52) as [Hs|Hs].
    - rewrite Z.shiftl_mul_pow2 by lia. assert (0 < 2 ^ (52 - e)) by (apply Z.pow_pos_nonneg; lia). split.
      + replace (2 ^ 52) with (2 ^ e * 2 ^ (52 - e)) by (rewrite <- Z.pow_add_r by lia; f_equal; lia).
        replace (2 ^ 53) with (2 ^ Z.succ e * 2 ^ (52 - e)) by (rewrite <- Z.pow_add_r by lia; f_equal; lia). nia.
      + rewrite <- Z.mul_assoc, <- Z.pow_add_r by lia. unfold UNIT. do 2 f_equal. lia.
    - specialize (Hx Hs). rewrite Hx. assert (0 < 2 ^ (e - 52 - 1)) by (apply Z.pow_pos_nonneg; lia).
      replace ((2 ^ (e - 52 - 1) <? 0) || (2 ^ (e - 52 - 1) =? 0) && Z.odd (m / 2 ^ (e - 52))) with false by lia.
      pose proof (mantissa_bound m ltac:(lia) Hs) as B. fold e in B. split; [done|].
      pose proof (Z.div_mod m (2 ^ (e - 52)) ltac:(apply Z.pow_nonzero; lia)) as D. rewrite Hx, Z.add_0_r in D.
      rewrite D at 2. unfold UNIT. replace (e + 1022) with (e - 52 + 1074) by lia. rewrite Z.pow_add_r by lia. ring. }
  clearbody mant. assert (magnitude ((e + 1023) * 2 ^ 52 + (mant - 2 ^ 52)) = m * UNIT) as Em.
  { rewrite magnitude_parts by lia. rewrite <- Hv. replace (2 ^ 52 + (mant - 2 ^ 52)) with mant by lia. do 2 f_equal. lia. }
  unfold dval. destruct (Z.ltb_spec i 0) as [Hi|Hi].
  - replace (2 ^ 63 + (e + 1023) * 2 ^ 52 + (mant - 2 ^ 52) <? 2 ^ 63) with false by lia.
    replace (2 ^ 63 + (e + 1023) * 2 ^ 52 + (mant - 2 ^ 52) - 2 ^ 63) with ((e + 1023) * 2 ^ 52 + (mant - 2 ^ 52)) by lia.
    rewrite Em. unfold m. lia.
  - replace (0 + (e + 1023) * 2 ^ 52 + (mant - 2 ^ 52) <? 2 ^ 63) with true by lia. rewrite Z.add_0_l, Em. unfold m. lia.
Qed.

(** A large double is an integer with 53 significant bits. *)
Lemma large_double r : is_u 64 r -> 2 ^ 53 * UNIT <= Z.abs (dval r) ->
  exists M k, 2 ^ 52 <= M < 2 ^ 53 /\ 0 <= k /\ Z.abs (dval r) = M * 2 ^ k * UNIT.
Proof.
  intros Hr. assert (exists m, 0 <= m /\ Z.abs (dval r) = magnitude m) as (m & Hm & ->).
  { unfold is_u in *. unfold dval. destruct (Z.ltb_spec r (2 ^ 63)).
    - exists r. pose proof (magnitude_nonneg r). lia.
    - exists (r - 2 ^ 63). pose proof (magnitude_nonneg (r - 2 ^ 63)). lia. }
  unfold magnitude. pose proof (Z.mod_pos_bound m (2 ^ 52) ltac:(lia)) as Bm.
  set (e := m / 2 ^ 52). set (f := m mod 2 ^ 52) in *. assert (0 < UNIT) as HU by reflexivity.
  destruct (Z.eqb_spec e 0) as [E|E]; intros H.
  { assert (2 ^ 53 < UNIT) by reflexivity. nia. }
  assert (0 <= e) by (apply Z.div_pos; lia). exists (2 ^ 52 + f), (e - 1 - 1074).
  assert (1074 <= e - 1).
  { destruct (Z.le_gt_cases 1074 (e - 1)) as [|G]; [done|]. assert (2 ^ (e - 1) <= UNIT) by (apply Z.pow_le_mono_r; lia). nia. }
  split; [lia|]. split; [lia|]. rewrite <- Z.mul_assoc. unfold UNIT. rewrite <- Z.pow_add_r by lia. do 2 f_equal. lia.
Qed.

(** An integer that is the value of a large double converts to it exactly. *)
Lemma large_exact i M k : 2 ^ 52 <= M < 2 ^ 53 -> 0 <= k -> Z.abs i = M * 2 ^ k ->
  52 < Z.log2 (Z.abs i) -> Z.abs i mod 2 ^ (Z.log2 (Z.abs i) - 52) = 0.
Proof.
  intros HM Hk -> _. assert (Z.log2 (M * 2 ^ k) = 52 + k) as ->.
  { apply Z.log2_unique; [lia|]. assert (0 < 2 ^ k) by (apply Z.pow_pos_nonneg; lia).
    rewrite Z.pow_succ_r, !Z.pow_add_r by lia. nia. }
  replace (52 + k - 52) with k by lia. apply Z.mod_mul, Z.pow_nonzero; lia.
Qed.

Lemma small_exact i : Z.abs i < 2 ^ 53 -> 52 < Z.log2 (Z.abs i) -> Z.abs i mod 2 ^ (Z.log2 (Z.abs i) - 52) = 0.
Proof.
  intros Hi Hl. destruct (Z.eq_dec i 0) as [->|]; [by cbn in Hl|].
  pose proof (Z.log2_lt_pow2 (Z.abs i) 53 ltac:(lia)). lia.
Qed.

(** When the integer parts agree, converting the integer loses nothing. *)
Lemma same_integer_part i r : is_s 64 i -> is_u 64 r -> int_of_double r = i -> dval (double_of_int i) = i * UNIT.
Proof.
  intros Hi Hr Ey. apply double_exact; [by left|]. destruct (Z.lt_ge_cases (Z.abs i) (2 ^ 53)) as [Hs|Hs]; [by apply small_exact|].
  assert (0 < UNIT) as HU by reflexivity. unfold int_of_double in Ey.
  assert (2 ^ 53 * UNIT <= Z.abs (dval r)) as Hb.
  { apply (f_equal Z.abs) in Ey. rewrite <- Z.quot_abs, (Z.abs_eq UNIT) in Ey by lia.
    pose proof (Z.mul_quot_le (Z.abs (dval r)) UNIT ltac:(lia) ltac:(lia)). nia. }
  destruct (large_double r Hr Hb) as (M & k & HM & Hk & E). apply (large_exact i M k HM Hk).
  apply (f_equal Z.abs) in Ey. rewrite <- Z.quot_abs, (Z.abs_eq UNIT), E, Z.quot_mul in Ey by lia. done.
Qed.

(** Both branches compare the numbers exactly. *)
Lemma int_float_compare wide i r : is_s 64 i -> is_u 64 r -> IsNaN r = false ->
  sqlite3IntFloatCompare wide i r = three_way (i * UNIT) (dval r).
Proof.
  intros Hi Hr Hn. unfold sqlite3IntFloatCompare. destruct wide; [done|].
  assert (0 < UNIT) as HU by reflexivity.
  rewrite !dlt_dval by (done || (by split) || by apply double_of_int_u64 || by apply double_of_int_not_nan).
  assert (dval (double_of_int (- 2 ^ 63)) = - 2 ^ 63 * UNIT) as -> by reflexivity.
  assert (dval (double_of_int (2 ^ 63)) = 2 ^ 63 * UNIT) as -> by reflexivity.
  unfold three_way. unfold is_s in Hi.
  destruct (Z.ltb_spec (dval r) (- 2 ^ 63 * UNIT)) as [L|L].
  { replace (i * UNIT <? dval r) with false by nia. by replace (dval r <? i * UNIT) with true by nia. }
  destruct (Z.ltb_spec (dval r) (2 ^ 63 * UNIT)) as [U|U]; cbn [negb].
  2: { by replace (i * UNIT <? dval r) with true by nia. }
  pose proof (Z.quot_rem (dval r) UNIT ltac:(lia)) as D. pose proof (Z.rem_bound_abs (dval r) UNIT ltac:(lia)) as B.
  assert (0 <= dval r -> 0 <= Z.rem (dval r) UNIT) as Bp by (intros; apply Z.rem_nonneg; lia).
  assert (dval r <= 0 -> Z.rem (dval r) UNIT <= 0) as Bn by (intros; apply Z.rem_nonpos; lia).
  destruct (Z.ltb_spec i (int_of_double r)) as [Ly|Ly].
  { unfold int_of_double in Ly. by replace (i * UNIT <? dval r) with true by nia. }
  destruct (Z.ltb_spec (int_of_double r) i) as [Gy|Gy].
  { unfold int_of_double in Gy. replace (i * UNIT <? dval r) with false by nia. by replace (dval r <? i * UNIT) with true by nia. }
  rewrite (same_integer_part i r) by (done || lia). done.
Qed.

(** ** The order of values *)

(** Values as registers hold them: 64-bit integers, no NaN, and a zero-filled blob
    without other content. *)
Definition value_ok (m : Mem) : Prop :=
  match m with
  | MEM_Null _ => True
  | MEM_Int i | MEM_IntReal i => is_s 64 i
  | MEM_Real r => is_u 64 r /\ IsNaN r = false
  | MEM_Str z | MEM_Blob z None => Forall is_byte z
  | MEM_Blob z (Some n) => z = [] /\ 0 <= n
  end.

(** NULL, numbers, texts, blobs. *)
Definition rank (m : Mem) : Z :=
  match m with MEM_Null _ => 0 | MEM_Int _ | MEM_IntReal _ | MEM_Real _ => 1 | MEM_Str _ => 2 | MEM_Blob _ _ => 3 end.
Definition number (m : Mem) : Z :=
  match m with MEM_Int i | MEM_IntReal i => i * UNIT | MEM_Real r => dval r | _ => 0 end.
Definition bytes (m : Mem) : list Z :=
  match m with MEM_Str z | MEM_Blob z None => z | MEM_Blob z (Some n) => z ++ replicate (Z.to_nat n) 0 | _ => [] end.

(** Numbers by their value, texts and blobs byte by byte. *)
Definition storage_order (v w : Mem) : Z :=
  if rank v =? rank w then
    if rank v =? 1 then three_way (number v) (number w) else bcmp (bytes v) (bytes w)
  else three_way (rank v) (rank w).

Lemma three_way_sgn a b : three_way a b = Z.sgn (a - b).
Proof. unfold three_way. repeat case_match; lia. Qed.

Lemma three_way_scaled i j : Z.sgn (three_way i j) = three_way (i * UNIT) (j * UNIT).
Proof. assert (0 < UNIT) by reflexivity. unfold three_way. repeat case_match; (done || nia). Qed.

Lemma three_way_idem a b : Z.sgn (three_way a b) = three_way a b.
Proof. rewrite three_way_sgn. lia. Qed.

#[export] Instance storage_order_order : Order (fun _ => True) storage_order.
Proof.
  split.
  - intros v w _ _. unfold storage_order. rewrite !three_way_sgn. rewrite (Z.eqb_sym (rank w)).
    destruct (Z.eqb_spec (rank v) (rank w)) as [E|E]; [rewrite <- E|lia]. case_match; [lia|]. by apply ord_flip.
  - intros u v w _ _ _. unfold storage_order. rewrite !three_way_sgn.
    destruct (Z.eqb_spec (rank u) (rank v)) as [E1|E1], (Z.eqb_spec (rank v) (rank w)) as [E2|E2],
      (Z.eqb_spec (rank u) (rank w)) as [E3|E3]; try lia; rewrite ?E1, ?E2; repeat case_match; try lia.
    by apply ord_trans.
Qed.

(** *** Byte strings *)

Lemma bcmp_sgn l r : Z.sgn (bcmp l r) = bcmp l r.
Proof. revert r. induction l as [|a l IH]; intros [|b r]; cbn [bcmp]; try done. repeat case_match; done. Qed.

Lemma memcmp_bcmp l r (c := memcmp l r (Nat.min (length l) (length r))) :
  Z.sgn (if negb (c =? 0) then c else Z.of_nat (length l) - Z.of_nat (length r)) = bcmp l r.
Proof.
  rewrite <- (bcmp_sgn l r), <- (bytes_compare l r). fold c. cbv zeta. case_match; [done|].
  destruct (Nat.ltb_spec (length l) (length r)), (Nat.ltb_spec (length r) (length l)); lia.
Qed.

Lemma bcmp_zeros n r : Forall is_byte r ->
  bcmp (replicate n 0) r = if isAllZero r then Z.sgn (Z.of_nat n - Z.of_nat (length r)) else -1.
Proof.
  intros H. revert n. induction H as [|b r Hb H IH]; intros [|n]; cbn [replicate bcmp isAllZero forallb length]; try done.
  - by destruct (0 =? b), (forallb (Z.eqb 0) r).
  - change (forallb (Z.eqb 0) r) with (isAllZero r). unfold is_u in Hb. destruct (Z.ltb_spec 0 b) as [L|L].
    + by replace (0 =? b) with false by lia.
    + replace (b <? 0) with false by lia. replace (0 =? b) with true by lia. rewrite IH. cbn [andb]. case_match; [lia|done].
Qed.

Lemma zeros_all n : isAllZero (replicate n 0) = true.
Proof. by induction n. Qed.

Lemma zeros_bytes n : Forall is_byte (replicate n 0).
Proof. apply Forall_replicate. by split. Qed.

Lemma blob_compare v w : rank v = 3 -> rank w = 3 -> value_ok v -> value_ok w ->
  Z.sgn (sqlite3BlobCompare v w) = bcmp (bytes v) (bytes w).
Proof.
  destruct v as [| | | | |z [n|]], w as [| | | | |y [k|]]; try done; intros _ _ Hv Hw;
    cbn [value_ok bytes] in *; unfold sqlite3BlobCompare; cbn [nZero_of z_of].
  - destruct Hv as [-> Hn], Hw as [-> Hk]. cbn [app].
    rewrite (bcmp_zeros _ _ (zeros_bytes _)), zeros_all, length_replicate. lia.
  - destruct Hv as [-> Hn]. cbn [app]. rewrite (bcmp_zeros _ _ Hw). destruct (isAllZero y); cbn [negb]; [lia|done].
  - destruct Hw as [-> Hk]. cbn [app]. rewrite <- (bcmp_sgn z), (ord_flip (replicate _ _) z) by done.
    rewrite (bcmp_zeros _ _ Hv). destruct (isAllZero z); cbn [negb]; [lia|done].
  - apply memcmp_bcmp.
Qed.

Definition binary (pColl : option (list Z -> list Z -> Z)) : Prop := pColl = None \/ pColl = Some binCollFunc.

Lemma bin_coll l r : Z.sgn (binCollFunc l r) = bcmp l r.
Proof. rewrite <- memcmp_bcmp. unfold binCollFunc. by destruct (_ =? 0). Qed.

(** [sqlite3MemCompare] compares in this order. *)
Lemma mem_compare wide pColl v w : binary pColl -> value_ok v -> value_ok w ->
  Z.sgn (sqlite3MemCompare wide v w pColl) = storage_order v w.
Proof.
  intros Hc Hv Hw. destruct v as [| | | |z|z n], w as [| | | |y|y k];
    unfold sqlite3MemCompare, storage_order;
    cbn [is_Null is_number is_Int is_Real is_IntReal is_Str orb andb negb rank number Z.eqb Pos.eqb u_i u_r z_of value_ok] in *;
    try done; try apply three_way_scaled.
  all: try (destruct Hv as [Hv Nv]); try (destruct Hw as [Hw Nw]).
  - by rewrite int_float_compare, three_way_idem.
  - by rewrite int_float_compare, three_way_idem.
  - rewrite int_float_compare, !three_way_sgn by done. lia.
  - rewrite int_float_compare, !three_way_sgn by done. lia.
  - rewrite !dlt_dval by done. unfold three_way. by repeat case_match.
  - destruct Hc as [-> | ->]; [|apply bin_coll]. apply memcmp_bcmp.
  - by apply blob_compare.
Qed.

(** ** Shifts *)

Lemma wraps_eq w x y k : x = y + k * 2 ^ w -> wraps w x = wraps w y.
Proof. intros ->. unfold wraps. replace (y + k * 2 ^ w + 2 ^ (w - 1)) with (y + 2 ^ (w - 1) + k * 2 ^ w) by lia.
  destruct (Z.lt_ge_cases w 0) as [H|H]; [rewrite (Z.pow_neg_r 2 w) by done; by rewrite Z.mul_0_r, Z.add_0_r|].
  rewrite Z.mod_add; [done|]. apply Z.pow_nonzero; lia. Qed.

Lemma u64_eq a : u64 a = a - a / 2 ^ 64 * 2 ^ 64.
Proof. unfold wrapu. pose proof (Z.div_mod a (2 ^ 64) ltac:(lia)). lia. Qed.

(** The sign bits of an arithmetic shift are disjoint from the shifted bits. *)
Lemma lor_high x h n : 0 <= n -> 0 <= x < 2 ^ n -> 0 <= h -> x ||| (h << n) = x + h * 2 ^ n.
Proof.
  intros Hn Hx Hh. rewrite Z.shiftl_mul_pow2 by done. rewrite <- Z.lxor_lor, <- Z.add_nocarry_lxor; [done| |]; rewrite <- Z.shiftl_mul_pow2 by done.
  all: apply Z.bits_inj_0; intros k; rewrite Z.land_spec; destruct (Z.lt_ge_cases k n) as [L|L].
  1, 3: rewrite Z.shiftl_spec_low by done; apply andb_false_r.
  all: rewrite (testbit_high x n k) by lia; done.
Qed.

Lemma shift_right_neg a n : is_s 64 a -> a < 0 -> 0 < n < 64 ->
  i64 (u64 a >> n ||| u64 (0xffffffffffffffff << (64 - n))) = a / 2 ^ n.
Proof.
  intros Ha Hneg Hn. unfold is_s in Ha. assert (0 < 2 ^ n) by (apply Z.pow_pos_nonneg; lia).
  assert (2 ^ 64 = 2 ^ (64 - n) * 2 ^ n) as E64 by (rewrite <- Z.pow_add_r by lia; f_equal; lia).
  assert (u64 a = a + 2 ^ 64) as Ea by (unfold wrapu; symmetry; apply Z.mod_unique_pos with (-1); lia).
  assert (u64 (0xffffffffffffffff << (64 - n)) = (2 ^ n - 1) << (64 - n)) as ->.
  { rewrite !Z.shiftl_mul_pow2 by lia. unfold wrapu. symmetry. apply Z.mod_unique_pos with (2 ^ (64 - n) - 1).
    - assert (0 < 2 ^ (64 - n)) by (apply Z.pow_pos_nonneg; lia). nia.
    - change 0xffffffffffffffff with (2 ^ 64 - 1). nia. }
  rewrite Ea, Z.shiftr_div_pow2 by lia. rewrite E64 at 1. rewrite Z.div_add by lia.
  assert (- 2 ^ (64 - n) <= a / 2 ^ n < 0) as B.
  { split; [apply Z.div_le_lower_bound; lia|apply Z.div_lt_upper_bound; lia]. }
  rewrite lor_high by lia. transitivity (i64 (a / 2 ^ n)).
  - apply (wraps_eq _ _ _ 1). clear - E64. nia.
  - apply wraps_id; [lia|]. unfold is_s. assert (a <= a / 2 ^ n) by (apply Z.div_le_lower_bound; nia). lia.
Qed.

(** Shifting left multiplies modulo 2^64, shifting right divides rounding down,
    and a negative amount shifts the other way. *)
Definition shift_value (left_ : bool) (a n : Z) : Z :=
  if xorb left_ (n <? 0) then i64 (a * 2 ^ Z.abs n) else a / 2 ^ Z.abs n.

Lemma shift_small_div a n : is_s 64 a -> 64 <= n -> a / 2 ^ n = if 0 <=? a then 0 else -1.
Proof.
  intros Ha Hn. unfold is_s in Ha. assert (2 ^ 64 <= 2 ^ n) by (apply Z.pow_le_mono_r; lia). destruct (Z.leb_spec 0 a).
  - apply Z.div_small. lia.
  - symmetry. apply Z.div_unique with (a + 2 ^ n); lia.
Qed.

Lemma shift_spec left_ a n : is_s 64 a -> shift left_ a n = shift_value left_ a n.
Proof.
  intros Ha. unfold shift, shift_value. destruct (Z.eqb_spec n 0) as [->|Hn].
  { cbn [Z.ltb Z.abs]. change (2 ^ 0) with 1. rewrite Z.mul_1_r, Z.div_1_r. destruct left_; [symmetry; by apply wraps_id|done]. }
  assert (forall l k, 0 < k -> (if 64 <=? k then (if (0 <=? a) || l then 0 else -1) else
    if l then i64 (u64 (u64 a << k)) else i64 (if a <? 0 then u64 a >> k ||| u64 (0xffffffffffffffff << (64 - k)) else u64 a >> k)) =
    if l : bool then i64 (a * 2 ^ k) else a / 2 ^ k) as S.
  { intros l k Hk. destruct (Z.leb_spec 64 k) as [H|H].
    - rewrite shift_small_div by done. destruct l; [|by rewrite orb_false_r]. rewrite orb_true_r.
      rewrite (wraps_eq 64 (a * 2 ^ k) 0 (a * 2 ^ (k - 64))); [reflexivity|].
      replace (2 ^ k) with (2 ^ (k - 64) * 2 ^ 64) by (rewrite <- Z.pow_add_r by lia; f_equal; lia). ring.
    - destruct l.
      + rewrite wraps_wrapu, Z.shiftl_mul_pow2, u64_eq by lia. apply (wraps_eq _ _ _ (- (a / 2 ^ 64) * 2 ^ k)). ring.
      + destruct (Z.ltb_spec a 0) as [Hneg|Hpos]; [by apply shift_right_neg|]. unfold is_s in Ha.
        rewrite wrapu_id by solve_width. rewrite Z.shiftr_div_pow2 by lia. apply wraps_id; [lia|].
        pose proof (Z.div_le_upper_bound a (2 ^ k) a ltac:(apply Z.pow_pos_nonneg; lia)).
        assert (0 <= a / 2 ^ k) by (apply Z.div_pos; [lia|apply Z.pow_pos_nonneg; lia]).
        assert (1 <= 2 ^ k) by (apply (Z.pow_le_mono_r 2 0); lia). unfold is_s. nia. }
  destruct (Z.ltb_spec n 0) as [Hneg|Hpos].
  - rewrite Z.abs_neq, xorb_true_r by lia. destruct (Z.ltb_spec (-64) n); [apply S; lia|].
    rewrite <- S by lia. rewrite (proj2 (Z.leb_le 64 (- n))) by lia. done.
  - rewrite Z.abs_eq, xorb_false_r by lia. apply S. lia.
Qed.

(** ** Properties *)

(** The comparison [op] from the sign of the order. *)
Definition holds (op : cmp_op) (s : Z) : bool :=
  match op with
  | OP_Ne => negb (s =? 0) | OP_Eq => s =? 0 | OP_Gt => 0 <? s
  | OP_Le => s <=? 0 | OP_Lt => s <? 0 | OP_Ge => 0 <=? s
  end.

Lemma by_sign_holds op s : by_sign op s = holds op s.
Proof.
  unfold by_sign. destruct op; cbn [holds]; unfold sqlite3aLTb, sqlite3aEQb, sqlite3aGTb; cbn; repeat case_match; lia.
Qed.

Lemma holds_sgn op s : holds op (Z.sgn s) = holds op s.
Proof. destruct op, s; done. Qed.

Lemma storage_null u v : is_Null u || is_Null v = true ->
  storage_order v u = if is_Null u && is_Null v then 0 else if is_Null v then -1 else 1.
Proof. by destruct u, v. Qed.

(** The comparison operators decide by the order. *)
Lemma op_compare wide pColl u v op nulleq : binary pColl -> value_ok u -> value_ok v ->
  OP_Compare wide op nulleq pColl u v =
    if negb nulleq && (is_Null u || is_Null v) then None else Some (holds op (storage_order v u)).
Proof.
  intros Hc Hu Hv. pose proof (mem_compare wide pColl v u Hc Hv Hu) as Evu. unfold OP_Compare. rewrite !by_sign_holds.
  destruct (is_Int u && is_Int v) eqn:Ei.
  { destruct u, v; try done. cbn [is_Null orb andb u_i]. rewrite andb_false_r. unfold storage_order. cbn [rank number Z.eqb Pos.eqb].
    rewrite <- three_way_scaled, holds_sgn. unfold three_way.
    by repeat case_match; first [lia | destruct op]. }
  destruct (is_Null u || is_Null v) eqn:En; [|by rewrite andb_false_r, <- holds_sgn, Evu].
  rewrite andb_true_r. destruct nulleq; cbn [negb]; [|done]. by rewrite storage_null.
Qed.


(** The exact result as an integer if it has 64 bits, as a double otherwise. *)
Definition exact_or_real (z r : Z) : Mem :=
  if in_i64 z then MEM_Int z else if IsNaN r then MEM_Null false else MEM_Real r.

Lemma in_i64_s z : in_i64 z = true <-> is_s 64 z.
Proof. unfold in_i64, is_s, SMALLEST_INT64, LARGEST_INT64. lia. Qed.

Section Operators.
Context (fadd fsub fmul fdiv : Z -> Z -> Z) (scale10 : Z -> Z -> Z).
Abbreviation Arith := (OP_Arith fadd fsub fmul fdiv scale10).

Lemma arith_add a b : is_s 64 a -> is_s 64 b ->
  Arith OP_Add (MEM_Int a) (MEM_Int b) = exact_or_real (b + a) (fadd (double_of_int b) (double_of_int a)).
Proof.
  intros Ha%in_i64_s Hb%in_i64_s. unfold OP_Arith, int_math. cbn [numeric_operand].
  rewrite (add_checked b a Hb Ha). unfold checked, exact_or_real. destruct (in_i64 (b + a)); reflexivity.
Qed.

Lemma arith_sub a b : is_s 64 a -> is_s 64 b ->
  Arith OP_Subtract (MEM_Int a) (MEM_Int b) = exact_or_real (b - a) (fsub (double_of_int b) (double_of_int a)).
Proof.
  intros Ha%in_i64_s Hb%in_i64_s. unfold OP_Arith, int_math. cbn [numeric_operand].
  rewrite (sub_checked b a Hb Ha). unfold checked, exact_or_real. destruct (in_i64 (b - a)); reflexivity.
Qed.

Lemma arith_mul a b : is_s 64 a -> is_s 64 b ->
  Arith OP_Multiply (MEM_Int a) (MEM_Int b) = exact_or_real (b * a) (fmul (double_of_int b) (double_of_int a)).
Proof.
  intros Ha%in_i64_s Hb%in_i64_s. unfold OP_Arith, int_math. cbn [numeric_operand].
  rewrite (mul_checked b a Hb Ha). unfold checked, exact_or_real. destruct (in_i64 (b * a)); reflexivity.
Qed.

Lemma quot_in_range a b : is_s 64 a -> is_s 64 b -> a <> 0 -> ~ (a = -1 /\ b = SMALLEST_INT64) -> is_s 64 (Z.quot b a).
Proof.
  intros Ha Hb Hz Hm. unfold is_s, SMALLEST_INT64, LARGEST_INT64 in *.
  destruct (Z.eq_dec a (-1)) as [->|Hn].
  { change (-1) with (- (1)). rewrite Z.quot_opp_r, Z.quot_1_r by lia. lia. }
  destruct (Z.eq_dec a 1) as [->|H1]; [rewrite Z.quot_1_r; lia|].
  assert (Z.abs (Z.quot b a) <= Z.abs b / 2) as L.
  { rewrite <- Z.quot_abs, Z.quot_div_nonneg by lia. apply Z.div_le_compat_l; lia. }
  assert (Z.abs b / 2 <= 2 ^ 62) by (apply Z.div_le_upper_bound; lia). lia.
Qed.

Lemma arith_div a b : is_s 64 a -> is_s 64 b ->
  Arith OP_Divide (MEM_Int a) (MEM_Int b) =
    if a =? 0 then MEM_Null false else exact_or_real (Z.quot b a) (fdiv (double_of_int b) (double_of_int a)).
Proof.
  intros Ha Hb. unfold OP_Arith, int_math. cbn [numeric_operand]. destruct (Z.eqb_spec a 0) as [->|Hz]; [done|].
  destruct ((a =? -1) && (b =? SMALLEST_INT64)) eqn:E.
  - assert (a = -1 /\ b = SMALLEST_INT64) as [-> ->] by lia. done.
  - unfold exact_or_real. rewrite (proj2 (in_i64_s (Z.quot b a))); [done|]. apply quot_in_range; try done. lia.
Qed.

Lemma arith_rem a b : Arith OP_Remainder (MEM_Int a) (MEM_Int b) = if a =? 0 then MEM_Null false else MEM_Int (Z.rem b a).
Proof.
  unfold OP_Arith, int_math. cbn [numeric_operand]. destruct (Z.eqb_spec a 0) as [->|Hz]; [done|].
  destruct (Z.eqb_spec a (-1)) as [->|]; [|done]. change (-1) with (- (1)). by rewrite Z.rem_opp_r, !Z.rem_1_r.
Qed.

Lemma arith_null op u v : is_Null u || is_Null v = true -> Arith op u v = MEM_Null false.
Proof.
  intros H. unfold OP_Arith. rewrite H. destruct u, v; try done; cbn [numeric_operand]; by destruct (computeNumericType scale10 _).
Qed.
End Operators.

(** C35. The arithmetic operators on 64-bit integers: sums, differences, products
    and truncated quotients are exact, and become doubles exactly when they do not
    fit 64 bits; a remainder has the sign of the dividend; a zero divisor and a
    NULL operand give NULL.  A left shift multiplies modulo 2^64, a right shift
    divides rounding down, and negative amounts shift the other way. *)
Theorem integer_operators (fadd fsub fmul fdiv : Z -> Z -> Z) (scale10 : Z -> Z -> Z)
    (a b : Z) (Arith := OP_Arith fadd fsub fmul fdiv scale10) :
  is_s 64 a -> is_s 64 b ->
  Arith OP_Add (MEM_Int a) (MEM_Int b) = exact_or_real (b + a) (fadd (double_of_int b) (double_of_int a)) /\
  Arith OP_Subtract (MEM_Int a) (MEM_Int b) = exact_or_real (b - a) (fsub (double_of_int b) (double_of_int a)) /\
  Arith OP_Multiply (MEM_Int a) (MEM_Int b) = exact_or_real (b * a) (fmul (double_of_int b) (double_of_int a)) /\
  Arith OP_Divide (MEM_Int a) (MEM_Int b) =
    (if a =? 0 then MEM_Null false else exact_or_real (Z.quot b a) (fdiv (double_of_int b) (double_of_int a))) /\
  Arith OP_Remainder (MEM_Int a) (MEM_Int b) = (if a =? 0 then MEM_Null false else MEM_Int (Z.rem b a)) /\
  (forall op u v, is_Null u || is_Null v = true -> Arith op u v = MEM_Null false) /\
  OP_Bits OP_ShiftLeft (MEM_Int a) (MEM_Int b) = MEM_Int (shift_value true b a) /\
  OP_Bits OP_ShiftRight (MEM_Int a) (MEM_Int b) = MEM_Int (shift_value false b a).
Proof.
  intros Ha Hb. unfold Arith. split_and!.
  - by apply arith_add.
  - by apply arith_sub.
  - by apply arith_mul.
  - by apply arith_div.
  - apply arith_rem.
  - intros. by apply arith_null.
  - unfold OP_Bits. cbn [is_Null orb sqlite3VdbeIntValue]. by rewrite shift_spec.
  - unfold OP_Bits. cbn [is_Null orb sqlite3VdbeIntValue]. by rewrite shift_spec.
Qed.


Lemma integer_operators_witness :
  OP_Arith Z.add Z.sub Z.mul Z.div (fun _ _ => 0) OP_Remainder (MEM_Int (-1)) (MEM_Int SMALLEST_INT64) = MEM_Int 0 /\
  OP_Bits OP_ShiftRight (MEM_Int 70) (MEM_Int (-5)) = MEM_Int (-1).
Proof.
  destruct (integer_operators Z.add Z.sub Z.mul Z.div (fun _ _ => 0) (-1) SMALLEST_INT64) as (_ & _ & _ & _ & H & _);
    [solve_width|vm_compute; split; congruence|].
  destruct (integer_operators Z.add Z.sub Z.mul Z.div (fun _ _ => 0) 70 (-5)) as (_ & _ & _ & _ & _ & _ & _ & H');
    [solve_width|solve_width|].
  split; [exact H|]. rewrite H'. vm_compute. reflexivity.
Defined.
