(* ===== verification/Affinity.v ===== *)
(** * Affinities and casts (vdbe.c and vdbemem.c of the engine)

    Conversions of values: the affinity of a column or of a comparison
    ([applyAffinity], [OP_Affinity], the comparison opcodes), which converts only
    what loses nothing, and the CAST operator ([sqlite3VdbeMemCast]), which always
    converts.  The text of a real number ([%!.15g]) is a parameter. *)

From S2P Require Import Prelude Ctype IntArith IntParse Types Record RealParse Aggregates VdbeExpr.

Section Affinity.
Context (scale10 : Z -> Z -> Z) (real_text : Z -> list Z).

Definition sqlite3RealSameAsInt (r1 i : Z) : bool :=
  let r2 := double_of_int i in
  (dval r1 =? 0) || ((r1 =? r2) && (-2251799813685248 <=? i) && (i <? 2251799813685248)).

Definition alsoAnInt (z : list Z) (rValue : Z) : option Z :=
  let iValue := int_of_double rValue in
  if sqlite3RealSameAsInt rValue iValue then Some iValue
  else let '(iValue, rc) := sqlite3Atoi64 z SQLITE_UTF8 in if rc =? 0 then Some iValue else None.

Definition sqlite3VdbeIntegerAffinity (r : Z) : Mem :=
  let ix := doubleToInt64 r in
  if (dval r =? dval (double_of_int ix)) && (SMALLEST_INT64 <? ix) && (ix <? LARGEST_INT64) then MEM_Int ix else MEM_Real r.

Definition applyNumericAffinity (z : list Z) (bTryForInt : bool) : Mem :=
  let '(rc, rValue) := sqlite3AtoF scale10 z in
  if rc <=? 0 then MEM_Str z
  else
    match (if rc =? 1 then alsoAnInt z rValue else None) with
    | Some i => MEM_Int i
    | None => if bTryForInt then sqlite3VdbeIntegerAffinity rValue else MEM_Real rValue
    end.

(** [sqlite3VdbeMemStringify] with [bForce] of a value that has a number. *)
Definition sqlite3VdbeMemStringify (m : Mem) : Mem :=
  match m with
  | MEM_Int i => MEM_Str (sqlite3Int64ToText i)
  | MEM_IntReal i => MEM_Str (real_text (double_of_int i))
  | MEM_Real r => MEM_Str (real_text r)
  | _ => m
  end.

Definition applyAffinity (pRec : Mem) (affinity : Z) : Mem :=
  if SQLITE_AFF_NUMERIC <=? affinity then
    match pRec with
    | MEM_Str z => applyNumericAffinity z true
    | MEM_Real r => sqlite3VdbeIntegerAffinity r
    | _ => pRec
    end
  else if affinity =? SQLITE_AFF_TEXT then sqlite3VdbeMemStringify pRec
  else pRec.

(** One register of [OP_Affinity]. *)
Definition affinity_register (pIn1 : Mem) (affinity : Z) : Mem :=
  let pIn1 := applyAffinity pIn1 affinity in
  match pIn1 with
  | MEM_Int i =>
      if affinity =? SQLITE_AFF_REAL then
        if (i <=? 140737488355327) && (-140737488355328 <=? i) then MEM_IntReal i else MEM_Real (double_of_int i)
      else pIn1
  | _ => pIn1
  end.
Fixpoint OP_Affinity (pIn1 : list Mem) (zAffinity : list Z) : list Mem :=
  match pIn1, zAffinity with
  | m :: pIn1, a :: zAffinity => affinity_register m a :: OP_Affinity pIn1 zAffinity
  | _, _ => pIn1
  end.

(** The operands of a comparison whose P5 has [affinity]; neither is NULL. *)
Definition compare_affinity (affinity : Z) (pIn1 pIn3 : Mem) : Mem * Mem :=
  let numeric m := match m with MEM_Str z => applyNumericAffinity z false | _ => m end in
  if SQLITE_AFF_NUMERIC <=? affinity then
    if is_Str pIn1 || is_Str pIn3 then (numeric pIn1, numeric pIn3) else (pIn1, pIn3)
  else if affinity =? SQLITE_AFF_TEXT then (sqlite3VdbeMemStringify pIn1, sqlite3VdbeMemStringify pIn3)
  else (pIn1, pIn3).

(** The comparison opcodes with the affinity in P5. *)
Definition OP_Compare_affinity (wide : bool) (affinity : Z) (op : cmp_op) (nulleq : bool) (pColl : option (list Z -> list Z -> Z))
    (pIn1 pIn3 : Mem) : option bool :=
  if is_Int pIn1 && is_Int pIn3 || is_Null pIn1 || is_Null pIn3 then OP_Compare wide op nulleq pColl pIn1 pIn3
  else let '(pIn1, pIn3) := compare_affinity affinity pIn1 pIn3 in Some (by_sign op (sqlite3MemCompare wide pIn3 pIn1 pColl)).

(** ** CAST *)

Definition sqlite3VdbeMemNumerify (pMem : Mem) : Mem :=
  match pMem with
  | MEM_Str z | MEM_Blob z _ =>
      let '(rc, r) := sqlite3AtoF scale10 z in
      let '(ix, code) := sqlite3Atoi64 z SQLITE_UTF8 in
      if ((rc =? 0) || (rc =? 1)) && (code <=? 1) then MEM_Int ix
      else
        let ix := int_of_double r in
        if sqlite3RealSameAsInt r ix then MEM_Int ix else MEM_Real r
  | _ => pMem
  end.
Definition sqlite3VdbeMemIntegerify (pMem : Mem) : Mem := MEM_Int (sqlite3VdbeIntValue pMem).
Definition sqlite3VdbeMemRealify (pMem : Mem) : Mem := MEM_Real (sqlite3VdbeRealValue scale10 pMem).

Definition sqlite3VdbeMemCast (pMem : Mem) (aff : Z) : Mem :=
  if is_Null pMem then pMem
  else if aff =? SQLITE_AFF_BLOB then
    match pMem with
    | MEM_Blob _ _ => pMem
    | _ => match applyAffinity pMem SQLITE_AFF_TEXT with MEM_Str z => MEM_Blob z None | m => m end
    end
  else if aff =? SQLITE_AFF_NUMERIC then sqlite3VdbeMemNumerify pMem
  else if aff =? SQLITE_AFF_INTEGER then sqlite3VdbeMemIntegerify pMem
  else if aff =? SQLITE_AFF_REAL then sqlite3VdbeMemRealify pMem
  else match pMem with MEM_Blob z _ => MEM_Str z | _ => applyAffinity pMem SQLITE_AFF_TEXT end.

Definition ExpandBlob (m : Mem) : Mem :=
  match m with MEM_Blob z (Some n) => MEM_Blob (z ++ replicate (Z.to_nat n) 0) None | _ => m end.
Definition OP_Cast (pIn1 : Mem) (aff : Z) : Mem := sqlite3VdbeMemCast (ExpandBlob pIn1) aff.
End Affinity.

(** ** Integers and their texts *)

Lemma unit_pos : 0 < UNIT.
Proof. reflexivity. Qed.

(** A double below 2^53 comes from no larger integer. *)
Lemma double_of_large v : is_s 64 v -> 2 ^ 53 <= Z.abs v -> 2 ^ 53 * UNIT <= Z.abs (dval (double_of_int v)).
Proof.
  intros Hv Hl. unfold double_of_int. replace (v =? 0) with false by lia. set (m := Z.abs v) in *.
  assert (0 < m <= 2 ^ 63) as Hm by (unfold m, is_s in *; lia).
  assert (53 <= Z.log2 m <= 63) as He.
  { split; [change 53 with (Z.log2 (2 ^ 53)); by apply Z.log2_le_mono|]. change 63 with (Z.log2 (2 ^ 63)). apply Z.log2_le_mono. lia. }
  set (e := Z.log2 m) in *. set (mant := if e <=? 52 then _ else _).
  assert (2 ^ 52 <= mant <= 2 ^ 53) as Hmant.
  { unfold mant. replace (e <=? 52) with false by lia. pose proof (mantissa_bound m ltac:(lia) ltac:(unfold e in *; lia)) as B. fold e in B. case_match; lia. }
  clearbody mant. set (y := (e + 1023) * 2 ^ 52 + (mant - 2 ^ 52)). assert (1076 * 2 ^ 52 <= y < 2 ^ 63) as Hy by (unfold y; lia).
  assert (2 ^ 53 * UNIT <= magnitude y) as Hg.
  { destruct (Z.eq_dec y (1076 * 2 ^ 52)) as [->|]; [by vm_compute|].
    pose proof (magnitude_lt (1076 * 2 ^ 52) y ltac:(lia)) as L. change (magnitude (1076 * 2 ^ 52)) with (2 ^ 53 * UNIT) in L. lia. }
  rewrite <- Z.add_assoc. fold y. clearbody y. unfold dval. destruct (v <? 0).
  - replace (2 ^ 63 + y <? 2 ^ 63) with false by lia. replace (2 ^ 63 + y - 2 ^ 63) with y by lia. lia.
  - rewrite Z.add_0_l. replace (y <? 2 ^ 63) with true by lia. lia.
Qed.

Lemma also_an_int v i : is_s 64 v -> sqlite3RealSameAsInt (double_of_int v) i = true -> i = int_of_double (double_of_int v) -> i = v.
Proof.
  intros Hv Hs Hi. pose proof unit_pos. assert (Z.abs v < 2 ^ 53 -> i = v) as Small.
  { intros Hl. rewrite Hi. unfold int_of_double. rewrite double_exact by (by left || by apply small_exact). by rewrite Z.quot_mul by lia. }
  destruct (Z.lt_ge_cases (Z.abs v) (2 ^ 53)) as [Hl|Hl]; [by apply Small|]. pose proof (double_of_large v Hv Hl) as L.
  unfold sqlite3RealSameAsInt in Hs. destruct (Z.eqb_spec (dval (double_of_int v)) 0) as [E|_]; [rewrite E in L; lia|]. cbn [orb] in Hs.
  exfalso. assert (double_of_int v = double_of_int i /\ -2251799813685248 <= i < 2251799813685248) as [E Hr] by lia. rewrite E in L.
  rewrite double_exact in L; [nia|left; unfold is_s; lia|apply small_exact; lia].
Qed.

Section Text.
Context (scale10 : Z -> Z -> Z).

Lemma int_text_atof v : in_i64 v = true -> exists r, sqlite3AtoF scale10 (sqlite3Int64ToText v) = (1, r) /\
  (Z.abs v < 10 ^ 18 -> r = double_of_int v).
Proof.
  intros Hv. destruct (int_text_numeral v Hv) as (ds & -> & Hok & Hd). rewrite atof_scan by done.
  pose proof Hok as (_ & Hsg & Hi & Hf & Hn & Hx & Ht).
  destruct (scan_number_spec (bool_decide (n_sign (int_numeral v ds) = [45])) _ _ _ _ Hi Hf Hn Hx Ht) as (E1 & E2 & E3 & E4 & E5 & Hs).
  set (p := scan_number _ _) in *. cbn zeta. cbn [int_numeral n_int n_frac n_exp frac_digits exp_value length] in *. rewrite app_nil_r, Hd in Hs.
  eexists. split.
  { f_equal. unfold AtoF_code. rewrite E2, E4, E5. cbn [is_nil present]. by replace (_ && _) with true by lia. }
  intros Hl. destruct Hs as [Vs Ve]; [done|done|]. unfold AtoF_value. rewrite Vs, Ve. cbn [Z.sub Z.abs Z.of_nat Z.to_nat reduce Z.opp Z.add].
  rewrite E1. cbn [int_numeral n_sign]. destruct (Z.eqb_spec (Z.abs v) 0) as [E|E].
  - assert (v = 0) as -> by lia. done.
  - cbn. destruct (Z.ltb_spec v 0); [rewrite bool_decide_eq_true_2 by done|rewrite bool_decide_eq_false_2 by done]; f_equal; lia.
Qed.

Lemma int_text_affinity v b : in_i64 v = true -> Z.abs v < 10 ^ 18 -> applyNumericAffinity scale10 (sqlite3Int64ToText v) b = MEM_Int v.
Proof.
  intros Hv Hl. unfold applyNumericAffinity. destruct (int_text_atof v Hv) as (r & -> & Hr). rewrite (Hr Hl). cbn [Z.leb Z.eqb Pos.eqb Z.compare].
  unfold alsoAnInt. destruct (sqlite3RealSameAsInt _ _) eqn:E.
  - f_equal. by apply (also_an_int v); [apply in_i64_s|..].
  - by rewrite int_text_atoi.
Qed.
End Text.



(** ** What an affinity changes *)

(** An integer chosen for a real is the same number. *)
Lemma integer_affinity_value r : is_u 64 r -> IsNaN r = false ->
  sqlite3VdbeIntegerAffinity r = MEM_Real r \/ exists i, sqlite3VdbeIntegerAffinity r = MEM_Int i /\ is_s 64 i /\ i * UNIT = dval r.
Proof.
  intros Hr Hn. unfold sqlite3VdbeIntegerAffinity. destruct (_ && _) eqn:E; [right|by left]. exists (doubleToInt64 r). split; [done|].
  assert (is_s 64 (doubleToInt64 r)) as Hi by (apply in_i64_s; unfold in_i64; lia). split; [done|].
  assert (int_of_double r = doubleToInt64 r) as Ei.
  { unfold doubleToInt64 in *. destruct (negb (dlt _ r)); [lia|]. destruct (negb (dlt r _)); [lia|done]. }
  rewrite <- (same_integer_part _ r Hi Hr Ei). lia.
Qed.

Lemma integer_affinity_again r : match sqlite3VdbeIntegerAffinity r with MEM_Real r' => sqlite3VdbeIntegerAffinity r' | m => m end = sqlite3VdbeIntegerAffinity r.
Proof.
  destruct (sqlite3VdbeIntegerAffinity r) as [| | |r'| |] eqn:E; try done. unfold sqlite3VdbeIntegerAffinity in E.
  destruct (_ && _) eqn:B; [done|]. injection E as <-. unfold sqlite3VdbeIntegerAffinity. by rewrite B.
Qed.

Lemma numeric_again scale10 r :
  match sqlite3VdbeIntegerAffinity r with
  | MEM_Str z => applyNumericAffinity scale10 z true | MEM_Real r' => sqlite3VdbeIntegerAffinity r' | _ => sqlite3VdbeIntegerAffinity r
  end = sqlite3VdbeIntegerAffinity r.
Proof.
  pose proof (integer_affinity_again r) as E. assert (forall z, sqlite3VdbeIntegerAffinity r <> MEM_Str z) as Ns
    by (intros z; unfold sqlite3VdbeIntegerAffinity; by destruct (_ && _)).
  destruct (sqlite3VdbeIntegerAffinity r) as [| | | |z|]; try done. by destruct (Ns z).
Qed.

Lemma storage_same_number v w : rank v = 1 -> rank w = 1 -> number v = number w -> storage_order v w = 0.
Proof. unfold storage_order. intros -> -> ->. cbn [Z.eqb Pos.eqb]. rewrite three_way_sgn, Z.sub_diag. done. Qed.

Section Effect.
Context (scale10 : Z -> Z -> Z) (real_text : Z -> list Z).
Abbreviation apply := (applyAffinity scale10 real_text).

Lemma apply_numeric a m : SQLITE_AFF_NUMERIC <= a -> apply m a =
  match m with MEM_Str z => applyNumericAffinity scale10 z true | MEM_Real r => sqlite3VdbeIntegerAffinity r | _ => m end.
Proof. intros H. unfold applyAffinity. by replace (SQLITE_AFF_NUMERIC <=? a) with true by lia. Qed.

Lemma numeric_number a m : SQLITE_AFF_NUMERIC <= a -> value_ok m -> rank m = 1 ->
  value_ok (apply m a) /\ rank (apply m a) = 1 /\ number (apply m a) = number m.
Proof.
  intros Ha Hm Hr. rewrite apply_numeric by done. destruct m as [|i|i|r|z|z n]; try done. cbn [value_ok] in Hm. destruct Hm as [H1 H2].
  destruct (integer_affinity_value r H1 H2) as [->|(i & -> & Hi & E)]; done.
Qed.

Lemma apply_again a m : apply (apply m a) a = apply m a.
Proof.
  destruct (Z.leb_spec SQLITE_AFF_NUMERIC a) as [Ha|Ha].
  - rewrite !(apply_numeric a) by done. destruct m as [|i|i|r|z|z n]; try done.
    + apply numeric_again.
    + unfold applyNumericAffinity. destruct (sqlite3AtoF scale10 z) as [rc r] eqn:E. destruct (rc <=? 0) eqn:Ec; [by rewrite E, Ec|].
      destruct (if rc =? 1 then _ else _); [done|]. apply numeric_again.
  - unfold applyAffinity. replace (SQLITE_AFF_NUMERIC <=? a) with false by lia. destruct (a =? SQLITE_AFF_TEXT); [|done]. by destruct m.
Qed.
End Effect.


