(* ===== verification/SqlFunctions.v ===== *)
(** * SQL functions on integers and window aggregates (sqlite_functions.cpp of the extension)

    Statements that are pushed down call functions of the extension where SQLite's
    own would give other results: shifts that fail instead of losing bits, rounding
    of integers, and aggregates that SQLite can run over moving window frames
    ([duckdb_avg], [duckdb_frame_sum], [duckdb_frame_avg]) or over groups (the bit
    aggregates).

    Arguments are the engine's values.  The arithmetic of doubles is a parameter.
    DuckDB's [hugeint_t] is a 128-bit integer; its table of powers of ten is a
    parameter with its size. *)

From S2P Require Import Prelude Bits IntArith IntParse Record Aggregates VdbeExpr.

Local Open Scope c_scope.

(** What a function reports with [sqlite3_result_error]. *)
Inductive sql_error : Type :=
| shift_negative_number (input : Z)
| shift_by_negative (shift : Z)
| shift_out_of_range (shift : Z)
| shift_overflow (input shift : Z)
| round_overflow (half_even : bool)
| raised (message : list Z)
| nan_result
| out_of_memory.

Definition SQLiteHasNull (argv : list Mem) : bool := existsb is_Null argv.

(** ** Shifts *)

Definition sqlite3_value_int64 : Mem -> Z := sqlite3VdbeIntValue.

Definition shift_left (input shift max_shift : Z) : res sql_error Mem :=
  if input <? 0 then Throw (shift_negative_number input)
  else if shift <? 0 then Throw (shift_by_negative shift)
  else if max_shift <=? shift then
    if input =? 0 then Ok (MEM_Int 0) else Throw (shift_out_of_range shift)
  else if (shift =? 0) || (input =? 0) then Ok (MEM_Int input)
  else
    let max_value := i64 (1 << (max_shift - shift - 1)) in
    if max_value <=? input then Throw (shift_overflow input shift)
    else Ok (MEM_Int (i64 (input << shift))).

Definition SQLiteShiftLeftFunction (x shift max_shift : Mem) : res sql_error Mem :=
  if SQLiteHasNull [x; shift; max_shift] then Ok (MEM_Null false)
  else shift_left (sqlite3_value_int64 x) (sqlite3_value_int64 shift) (sqlite3_value_int64 max_shift).

Definition SQLiteShiftRightFunction (x shift bits : Mem) : res sql_error Mem :=
  if SQLiteHasNull [x; shift; bits] then Ok (MEM_Null false)
  else
    let input := sqlite3_value_int64 x in
    let shift := sqlite3_value_int64 shift in
    let bits := sqlite3_value_int64 bits in
    Ok (MEM_Int (if (0 <=? shift) && (shift <? bits) then input >> shift else 0)).

(** ** Rounding *)

Section Round.
(** [Hugeint::CACHED_POWERS_OF_TEN] and [Hugeint::POWERS_OF_TEN] *)
Context (CACHED_POWERS_OF_TEN : Z) (POWERS_OF_TEN : Z -> Z).

Definition round_integer (input precision : Z) (half_even : bool) : res sql_error Mem :=
  if 0 <=? precision then Ok (MEM_Int input)
  else if precision <=? - CACHED_POWERS_OF_TEN then Ok (MEM_Int 0)
  else
    let power_of_ten := POWERS_OF_TEN (- precision) in
    let half := Z.quot power_of_ten 2 in
    let rounded := Z.quot input power_of_ten in
    let remainder := Z.rem input power_of_ten in
    let rounds_away value := negb half_even || negb (Z.rem value 2 =? 0) in
    let rounded :=
      if (half <? remainder) || (remainder =? half) && rounds_away rounded then rounded + 1
      else if (remainder <? - half) || (remainder =? - half) && rounds_away rounded then rounded - 1
      else rounded in
    let result := rounded * power_of_ten in
    if in_i64 result then Ok (MEM_Int result) else Throw (round_overflow half_even).

Definition SQLiteRoundIntegerFunction (x precision half_even : Mem) : res sql_error Mem :=
  if SQLiteHasNull [x; precision; half_even] then Ok (MEM_Null false)
  else round_integer (sqlite3_value_int64 x) (sqlite3_value_int64 precision) (negb (sqlite3_value_int64 half_even =? 0)).
End Round.

(** ** Bit aggregates *)

Inductive SQLiteBitKind : Type := AND | OR | XOR.

(** The state of the aggregate context, zeroed when it is created. *)
Record SQLiteBitState : Type := { has_value : bool; bit_value : Z }.

Definition bit_apply (kind : SQLiteBitKind) (value input : Z) : Z :=
  match kind with AND => value & input | OR => value ||| input | XOR => Z.lxor value input end.

(** [mem]: [sqlite3_aggregate_context] returns memory. *)
Definition SQLiteBitStep (kind : SQLiteBitKind) (mem : bool) (state : option SQLiteBitState) (v : Mem)
  : res sql_error (option SQLiteBitState) :=
  if is_Null v then Ok state
  else if negb mem then Throw out_of_memory
  else
    let s := default {| has_value := false; bit_value := 0 |} state in
    let input := sqlite3_value_int64 v in
    if negb (has_value s) then Ok (Some {| has_value := true; bit_value := input |})
    else Ok (Some {| has_value := true; bit_value := bit_apply kind (bit_value s) input |}).

Definition SQLiteBitFinal (state : option SQLiteBitState) : Mem :=
  match state with
  | Some s => if has_value s then MEM_Int (bit_value s) else MEM_Null false
  | None => MEM_Null false
  end.

(** ** Averages over moving frames *)

Section Frames.
(** Sum, quotient and negation of doubles; [average] is the quotient in extended
    precision rounded to a double, [hugeint_double] the conversion of a 128-bit
    integer. *)
Context (fadd fdiv : Z -> Z -> Z) (fneg : Z -> Z) (scale10 : Z -> Z -> Z) (average : Z -> Z -> Z) (hugeint_double : Z -> Z).

Definition SQLiteDoubleArgument (v : Mem) : Z :=
  match v with MEM_Int i => double_of_int i | _ => sqlite3VdbeRealValue scale10 v end.

Definition SQLiteSetDouble (value : Z) : res sql_error Mem :=
  if IsNaN value then Throw nan_result else Ok (MEM_Real value).

Record SQLiteAvgState : Type := { count : Z; integer_sum : Z; double_sum : Z; has_double : bool }.
Definition no_avg : SQLiteAvgState := {| count := 0; integer_sum := 0; double_sum := 0; has_double := false |}.

Definition SQLiteAvgStep (INVERSE mem : bool) (state : option SQLiteAvgState) (v : Mem)
  : res sql_error (option SQLiteAvgState) :=
  if is_Null v then Ok state
  else if negb mem then Throw out_of_memory
  else
    let s := default no_avg state in
    let n := u64 (if INVERSE then count s - 1 else count s + 1) in
    match v with
    | MEM_Int i =>
        Ok (Some {| count := n; integer_sum := wraps 128 (if INVERSE then integer_sum s - i else integer_sum s + i);
                    double_sum := double_sum s; has_double := has_double s |})
    | _ =>
        let value := SQLiteDoubleArgument v in
        Ok (Some {| count := n; integer_sum := integer_sum s;
                    double_sum := fadd (double_sum s) (if INVERSE then fneg value else value); has_double := true |})
    end.

Definition SQLiteAvgValue (state : option SQLiteAvgState) : res sql_error Mem :=
  match state with
  | None => Ok (MEM_Null false)
  | Some s =>
      if count s =? 0 then Ok (MEM_Null false)
      else if negb (has_double s) then SQLiteSetDouble (average (integer_sum s) (count s))
      else
        let sum := fadd (double_sum s) (hugeint_double (integer_sum s)) in
        SQLiteSetDouble (fdiv sum (double_of_int (count s)))
  end.

(** [duckdb_frame_sum] and [duckdb_frame_avg]: the values of the frame. *)
Definition SQLiteFrameStep (INVERSE mem : bool) (state : option (list Z)) (v : Mem) : res sql_error (option (list Z)) :=
  if is_Null v then Ok state
  else if negb mem then Throw out_of_memory
  else
    let values := default [] state in
    Ok (Some (if INVERSE then tail values else values ++ [SQLiteDoubleArgument v])).

Definition SQLiteFrameValue (AVG : bool) (state : option (list Z)) : res sql_error Mem :=
  match state with
  | None | Some [] => Ok (MEM_Null false)
  | Some values =>
      let sum := fold_left fadd values 0 in
      SQLiteSetDouble (if AVG then fdiv sum (double_of_int (Z.of_nat (length values))) else sum)
  end.
End Frames.

(** ** Shifts and rounding *)

(** [x * 2^n] for a type with values below [2^(m-1)], an error if it has no such
    value. *)
Lemma shift_left_spec x n m : is_s 64 x -> 1 <= m <= 64 -> x < 2 ^ (m - 1) ->
  (0 <= x -> 0 <= n -> x * 2 ^ n < 2 ^ (m - 1) -> shift_left x n m = Ok (MEM_Int (x * 2 ^ n))) /\
  (~ (0 <= x /\ 0 <= n /\ x * 2 ^ n < 2 ^ (m - 1)) -> exists e, shift_left x n m = Throw e).
Proof.
  intros Hx Hm Hr. unfold shift_left. destruct (Z.ltb_spec x 0); [split; [lia|by eexists]|].
  destruct (Z.ltb_spec n 0) as [|Hn]; [split; [lia|by eexists]|].
  assert (0 < 2 ^ n) as Hp by (apply Z.pow_pos_nonneg; lia).
  destruct (Z.leb_spec m n) as [Hmn|Hmn].
  { assert (2 ^ (m - 1) <= 2 ^ n) by (apply Z.pow_le_mono_r; lia). destruct (Z.eqb_spec x 0) as [->|].
    - split; [done|]. intros []. nia.
    - split; [intros; nia|by eexists]. }
  destruct ((n =? 0) || (x =? 0)) eqn:Ez.
  { assert (x * 2 ^ n = x) as -> by (destruct (Z.eqb_spec n 0) as [->|]; [lia|]; assert (x = 0) as -> by lia; done).
    split; [done|]. intros []. lia. }
  rewrite (Z.shiftl_mul_pow2 1), Z.mul_1_l by lia.
  assert (2 ^ (m - 1) = 2 ^ (m - n - 1) * 2 ^ n) as E by (rewrite <- Z.pow_add_r by lia; f_equal; lia).
  assert (0 < 2 ^ (m - n - 1)) by (apply Z.pow_pos_nonneg; lia).
  assert (2 ^ (m - n - 1) <= 2 ^ 62) by (apply Z.pow_le_mono_r; lia). assert (2 ^ (m - 1) <= 2 ^ 63) by (apply Z.pow_le_mono_r; lia).
  rewrite wraps_id by (try lia; unfold is_s; lia).
  destruct (Z.leb_spec (2 ^ (m - n - 1)) x) as [Hb|Hb]; [split; [intros; nia|by eexists]|]. split.
  - intros. rewrite Z.shiftl_mul_pow2 by lia. rewrite wraps_id; [done|lia|unfold is_s; lia].
  - intros []. split; [done|]. split; [done|]. nia.
Qed.

(** A right shift divides rounding down; one by a negative amount or by all bits
    gives 0. *)
Lemma shift_right_spec x n b : SQLiteShiftRightFunction (MEM_Int x) (MEM_Int n) (MEM_Int b) =
  Ok (MEM_Int (if (0 <=? n) && (n <? b) then x / 2 ^ n else 0)).
Proof.
  unfold SQLiteShiftRightFunction, sqlite3_value_int64. cbn [SQLiteHasNull existsb is_Null orb sqlite3VdbeIntValue].
  destruct ((0 <=? n) && (n <? b)) eqn:E; [|done]. by rewrite Z.shiftr_div_pow2 by lia.
Qed.

(** [r] is [x] rounded to a multiple of [p]; a value halfway goes to the even
    multiple or away from zero. *)
Definition rounds_to (half_even : bool) (p x r : Z) : Prop :=
  exists k, r = k * p /\ 2 * Z.abs (r - x) <= p /\
    (2 * Z.abs (r - x) = p -> if half_even then Z.even k = true else Z.abs x < Z.abs r).

Section Rounding.
Context (N : Z) (P : Z -> Z) (HP : forall k, 0 < k < N -> P k = 10 ^ k).

Lemma even_rem k : (Z.rem k 2 =? 0) = Z.even k.
Proof.
  apply eq_true_iff_eq. rewrite Z.eqb_eq, Z.rem_mod_eq_0, Z.even_spec by lia. split.
  - intros H%Z.mod_divide; [|lia]. destruct H as [c ->]. exists c. lia.
  - intros [c ->]. rewrite Z.mul_comm. by apply Z.mod_mul.
Qed.

Lemma round_candidate (half_even : bool) p x (q := Z.quot x p) (r := Z.rem x p) (h := Z.quot p 2)
    (away := negb half_even || negb (Z.rem q 2 =? 0)) : 0 < p -> Z.even p = true ->
  rounds_to half_even p x
    ((if (h <? r) || (r =? h) && away then q + 1 else if (r <? - h) || (r =? - h) && away then q - 1 else q) * p).
Proof.
  intros Hp He. assert (p = 2 * h) as Eh.
  { unfold h. rewrite Z.quot_div_nonneg by lia. apply Z.even_spec in He as [k ->]. rewrite (Z.mul_comm 2 k), Z.div_mul by lia. lia. }
  pose proof (Z.quot_rem x p ltac:(lia)) as D. pose proof (Z.rem_bound_abs x p ltac:(lia)) as B.
  assert (0 <= x -> 0 <= r) by (intros; apply Z.rem_nonneg; lia). assert (x <= 0 -> r <= 0) by (intros; apply Z.rem_nonpos; lia).
  fold q r in D, B. clearbody q r h. unfold away. rewrite even_rem. clear away.
  assert (0 <= x -> 0 <= q) by nia. assert (x <= 0 -> q <= 0) by nia.
  assert (forall k, Z.even (k + 1) = negb (Z.even k) /\ Z.even (k - 1) = negb (Z.even k)) as Ev.
  { intros k. split; [by rewrite Z.add_1_r, Z.even_succ, Z.negb_even|by rewrite Z.sub_1_r, Z.even_pred, Z.negb_even]. }
  destruct (Ev q) as [E1 E2]. clear Ev. destruct ((h <? r) || _) eqn:C1.
  - exists (q + 1). split; [done|]. split; [nia|]. intros Eq. rewrite E1. destruct half_even, (Z.even q); cbn [negb orb] in *; (done || nia).
  - destruct ((r <? - h) || _) eqn:C2.
    + exists (q - 1). split; [done|]. split; [nia|]. intros Eq. rewrite E2. destruct half_even, (Z.even q); cbn [negb orb] in *; (done || nia).
    + exists q. split; [done|]. split; [nia|]. intros Eq. destruct half_even, (Z.even q); cbn [negb orb] in *; (done || nia).
Qed.

(** Nothing rounds twice. *)
Lemma round_integer_spec x n half_even : is_s 64 x -> 20 <= N -> 0 < n ->
  exists r, rounds_to half_even (10 ^ n) x r /\
    round_integer N P x (- n) half_even = if in_i64 r then Ok (MEM_Int r) else Throw (round_overflow half_even).
Proof.
  intros Hx HN Hn. unfold round_integer. replace (0 <=? - n) with false by lia. destruct (Z.leb_spec (- n) (- N)) as [L|L].
  - exists 0. split; [|done]. exists 0. assert (10 ^ 20 <= 10 ^ n) by (apply Z.pow_le_mono_r; lia). unfold is_s in Hx.
    assert (2 * 2 ^ 63 < 10 ^ 20) by reflexivity. split; [done|]. split; [lia|]. intros. lia.
  - rewrite Z.opp_involutive, HP by lia. eexists. split; [|reflexivity]. apply round_candidate; [apply Z.pow_pos_nonneg; lia|].
    rewrite Z.even_pow by lia. done.
Qed.
End Rounding.

(** ** Groups and moving frames *)

(** The integers of a list of values. *)
Definition ints (l : list Mem) : list Z := omap (fun v => if is_Null v then None else Some (sqlite3_value_int64 v)) l.
Definition doubles (scale10 : Z -> Z -> Z) (l : list Mem) : list Z :=
  omap (fun v => if is_Null v then None else Some (SQLiteDoubleArgument scale10 v)) l.
Definition total (l : list Z) : Z := foldr Z.add 0 l.

Definition bit_unit (kind : SQLiteBitKind) : Z := match kind with AND => -1 | OR | XOR => 0 end.

Lemma bit_apply_foldl kind l : forall v, fold_left (bit_apply kind) l v = bit_apply kind v (foldr (bit_apply kind) (bit_unit kind) l).
Proof.
  induction l as [|a l IH]; intros v; cbn [fold_left foldr].
  - destruct kind; cbn [bit_apply bit_unit]; [symmetry; apply Z.land_m1_r|by rewrite Z.lor_0_r|by rewrite Z.lxor_0_r].
  - rewrite IH. destruct kind; cbn [bit_apply]; [by rewrite Z.land_assoc|by rewrite Z.lor_assoc|by rewrite Z.lxor_assoc].
Qed.

Section Group.
Context (kind : SQLiteBitKind).

(** The steps over the rows of a group. *)
Fixpoint bit_steps (l : list Mem) (s : option SQLiteBitState) : res sql_error (option SQLiteBitState) :=
  match l with
  | [] => Ok s
  | v :: l => match SQLiteBitStep kind true s v with Ok s => bit_steps l s | Throw e => Throw e end
  end.

Lemma bit_steps_some l : forall v,
  bit_steps l (Some {| has_value := true; bit_value := v |}) =
  Ok (Some {| has_value := true; bit_value := fold_left (bit_apply kind) (ints l) v |}).
Proof.
  induction l as [|a l IH]; intros v; [done|]. cbn [bit_steps]. unfold SQLiteBitStep. unfold ints. cbn [omap list_omap].
  destruct (is_Null a); [apply IH|]. cbn [negb default from_option has_value bit_value fold_left]. apply IH.
Qed.

Lemma bit_steps_spec l : exists s, bit_steps l None = Ok s /\
  SQLiteBitFinal s = match ints l with [] => MEM_Null false | l => MEM_Int (foldr (bit_apply kind) (bit_unit kind) l) end.
Proof.
  induction l as [|a l IH]; [by exists None|]. cbn [bit_steps]. unfold SQLiteBitStep, ints in *. cbn [omap list_omap].
  destruct (is_Null a); [done|]. cbn [negb default from_option has_value]. rewrite bit_steps_some. eexists. split; [done|].
  cbn [SQLiteBitFinal has_value bit_value foldr]. by rewrite bit_apply_foldl.
Qed.
End Group.

(** A window function is called for each row that enters the frame and for each
    that leaves it, the first to enter first. *)
Inductive frame_call : Type := Enter (v : Mem) | Leave.

Fixpoint frame_after (calls : list frame_call) (frame : list Mem) : option (list Mem) :=
  match calls, frame with
  | [], _ => Some frame
  | Enter v :: calls, _ => frame_after calls (frame ++ [v])
  | Leave :: calls, _ :: frame => frame_after calls frame
  | Leave :: _, [] => None
  end.

Section Window.
Context {S : Type} (step : bool -> option S -> Mem -> res sql_error (option S)).

Fixpoint run_calls (calls : list frame_call) (frame : list Mem) (s : option S) : option (option S) :=
  match calls, frame with
  | [], _ => Some s
  | Enter v :: calls, _ => match step false s v with Ok s => run_calls calls (frame ++ [v]) s | Throw _ => None end
  | Leave :: calls, v :: frame => match step true s v with Ok s => run_calls calls frame s | Throw _ => None end
  | Leave :: _, [] => None
  end.

(** An invariant of the state and the frame that both calls keep. *)
Lemma run_calls_inv (Inv : option S -> list Mem -> Prop) (Ok_value : Mem -> Prop) :
  (forall s fr v, Inv s fr -> Ok_value v -> exists s', step false s v = Ok s' /\ Inv s' (fr ++ [v])) ->
  (forall s fr v, Inv s (v :: fr) -> Ok_value v -> exists s', step true s v = Ok s' /\ Inv s' fr) ->
  forall calls fr s fr', Forall (fun c => match c with Enter v => Ok_value v | Leave => True end) calls -> Forall Ok_value fr ->
    Inv s fr -> frame_after calls fr = Some fr' -> exists s', run_calls calls fr s = Some s' /\ Inv s' fr'.
Proof.
  intros HE HL. induction calls as [|[v|] calls IH]; intros fr s fr' Hc Hf Hi Ef; cbn [frame_after run_calls] in *.
  - simplify_eq. by exists s.
  - apply Forall_cons in Hc as [Hv Hc]. destruct (HE s fr v Hi Hv) as (s' & -> & Hi'). eapply IH; try done. by apply Forall_app_2, Forall_singleton.
  - destruct fr as [|v fr]; [done|]. apply Forall_cons in Hc as [_ Hc]. apply Forall_cons in Hf as [Hv Hf].
    destruct (HL s fr v Hi Hv) as (s' & -> & Hi'). by eapply IH.
Qed.
End Window.

Lemma ints_app a b : ints (a ++ b) = ints a ++ ints b.
Proof. apply omap_app. Qed.
Lemma ints_length l : (length (ints l) <= length l)%nat.
Proof. unfold ints. induction l as [|v l IH]; [done|]. cbn [omap list_omap length]. destruct (is_Null v); cbn [length]; lia. Qed.
Lemma total_app a b : total (a ++ b) = total a + total b.
Proof. unfold total. induction a as [|x a IH]; cbn [app foldr]; lia. Qed.

Lemma wraps_add w a b : 1 <= w -> wraps w (wraps w a + b) = wraps w (a + b).
Proof.
  intros Hw. unfold wraps at 2. set (q := (a + 2 ^ (w - 1)) / 2 ^ w).
  apply (wraps_eq _ _ _ (- q)). pose proof (Z.div_mod (a + 2 ^ (w - 1)) (2 ^ w) ltac:(apply Z.pow_nonzero; lia)). fold q in H. lia.
Qed.

Lemma wrapu_add w a b : 0 <= w -> wrapu w (wrapu w a + b) = wrapu w (a + b).
Proof. intros Hw. unfold wrapu. by rewrite Zplus_mod_idemp_l. Qed.

Section Avg.
Context (fadd fdiv : Z -> Z -> Z) (fneg : Z -> Z) (scale10 : Z -> Z -> Z) (average : Z -> Z -> Z) (hugeint_double : Z -> Z).
Abbreviation avg_step inv := (SQLiteAvgStep fadd fneg scale10 inv true).
Abbreviation frame_step inv := (SQLiteFrameStep scale10 inv true).

Definition integer_value (v : Mem) : Prop := match v with MEM_Null _ => True | MEM_Int i => is_s 64 i | _ => False end.

Definition avg_inv (s : option SQLiteAvgState) (fr : list Mem) : Prop :=
  match s with
  | None => ints fr = []
  | Some s => count s = u64 (Z.of_nat (length (ints fr))) /\ integer_sum s = wraps 128 (total (ints fr)) /\ has_double s = false
  end.

Lemma avg_enter s fr v : avg_inv s fr -> integer_value v -> exists s', avg_step false s v = Ok s' /\ avg_inv s' (fr ++ [v]).
Proof.
  intros Hi Hv. destruct v as [|i| | | |]; try done; unfold SQLiteAvgStep; cbn [is_Null negb].
  - exists s. split; [done|]. unfold avg_inv. rewrite ints_app, app_nil_r. done.
  - eexists. split; [done|]. unfold avg_inv. cbn [count integer_sum has_double]. rewrite ints_app, length_app, total_app.
    cbn [ints omap list_omap is_Null sqlite3_value_int64 sqlite3VdbeIntValue length total foldr].
    destruct s as [s|]; cbn [default from_option id no_avg count integer_sum has_double].
    + destruct Hi as (-> & -> & ->). rewrite wrapu_add, wraps_add by lia. split; [f_equal; lia|]. split; [f_equal; lia|done].
    + cbn [avg_inv] in Hi. rewrite Hi. split_and!; [done|f_equal; cbn; lia|done].
Qed.

Lemma avg_leave s fr v : avg_inv s (v :: fr) -> integer_value v -> exists s', avg_step true s v = Ok s' /\ avg_inv s' fr.
Proof.
  intros Hi Hv. destruct v as [|i| | | |]; try done; unfold SQLiteAvgStep; cbn [is_Null negb].
  - by exists s.
  - eexists. split; [done|]. unfold avg_inv in *. cbn [count integer_sum has_double].
    destruct s as [s|]; [|done]. cbn [default from_option id no_avg count integer_sum has_double].
    destruct Hi as (-> & -> & ->). cbn [ints omap list_omap is_Null sqlite3_value_int64 sqlite3VdbeIntValue length total foldr].
    fold (ints fr). fold (total (ints fr)). rewrite <- !Z.add_opp_r, wrapu_add, wraps_add by lia.
    split; [f_equal; lia|]. split; [f_equal; lia|done].
Qed.

Lemma total_bound fr : Forall integer_value fr -> Z.abs (total (ints fr)) <= Z.of_nat (length (ints fr)) * 2 ^ 63.
Proof.
  induction 1 as [|v fr Hv H IH]; [done|]. unfold ints. cbn [omap list_omap]. fold (ints fr).
  destruct v; try done. cbn [is_Null].
  cbn [length total foldr sqlite3_value_int64 sqlite3VdbeIntValue]. fold (total (ints fr)).
  cbn [integer_value] in Hv. unfold is_s in Hv. lia.
Qed.

(** The state of [duckdb_frame_sum] holds the doubles of the frame. *)
Definition frame_inv (s : option (list Z)) (fr : list Mem) : Prop := default [] s = doubles scale10 fr.

Lemma frame_enter s fr v : frame_inv s fr -> True -> exists s', frame_step false s v = Ok s' /\ frame_inv s' (fr ++ [v]).
Proof.
  intros Hi _. unfold SQLiteFrameStep, frame_inv, doubles in *. rewrite omap_app. cbn [omap list_omap]. destruct (is_Null v) eqn:En.
  - exists s. by rewrite app_nil_r.
  - eexists. split; [done|]. cbn [default from_option id]. by rewrite Hi.
Qed.

Lemma frame_leave s fr v : frame_inv s (v :: fr) -> True -> exists s', frame_step true s v = Ok s' /\ frame_inv s' fr.
Proof.
  intros Hi _. unfold SQLiteFrameStep, frame_inv, doubles in *. cbn [omap list_omap] in Hi. destruct (is_Null v) eqn:En.
  - by exists s.
  - eexists. split; [done|]. cbn [default from_option id]. by rewrite Hi.
Qed.
End Avg.

(** ** Properties *)




