(* ===== verification/SqlWriter.v ===== *)
(** * The writer of pushed down expressions (sqlite_sql_writer.cpp)

    Expressions of a query that runs in SQLite are written as SQL: constants,
    casts, comparisons, the logical operators, CASE, COALESCE, NULLIF, IN, BETWEEN
    and the arithmetic operators.  A refusal makes DuckDB evaluate the expression.

    The writer produces text; here it produces a term of [sql], one constructor per
    piece of text it puts together, and [print] is the text.  Every compound piece
    is in parentheses or is a call.

    DuckDB's binder ([RequireType], [TryBindComparison], [TryGetMaxLogicalType]),
    its casts and the equality of its expressions are parameters, like its
    formatting of dates and the branch for intervals.  The classes of expressions
    are those listed above; subqueries, windows and other functions are not part of
    the model. *)

From S2P Require Import Prelude IntArith Record Aggregates Types SqlText VdbeExpr SqlFunctions.

(** ** Values and expressions *)

Inductive datum : Type :=
| DBool (b : bool)
| DInt (z : Z)
| DReal (r : Z)
| DText (z : list Z)
| DBlob (z : list Z).

#[export] Instance datum_eq_dec : EqDecision datum.
Proof. solve_decision. Defined.

(** A value has a type; [None] is NULL. *)
Record Value : Type := mk_value { vtype : LogicalTypeId; payload : option datum }.

Inductive cmp_type : Type :=
| COMPARE_EQUAL | COMPARE_NOTEQUAL | COMPARE_LESSTHAN | COMPARE_GREATERTHAN
| COMPARE_LESSTHANOREQUALTO | COMPARE_GREATERTHANOREQUALTO | COMPARE_DISTINCT_FROM | COMPARE_NOT_DISTINCT_FROM.

Inductive unary_name : Type := UMinus | UPlus | UBitNot.
Inductive binary_name : Type :=
| NPlus | NMinus | NTimes | NDivide | NIntDivide | NModulo | NConcat
| NBitAnd | NBitOr | NXor | NShiftLeft | NShiftRight.

Inductive ParsedExpression : Type :=
| CONSTANT (v : Value)
| COLUMN_REF (c : nat)
| COMPARISON (type : cmp_type) (l r : ParsedExpression)
| CONJUNCTION (is_or : bool) (children : list ParsedExpression)
| OPERATOR_IS_NULL (e : ParsedExpression)
| OPERATOR_IS_NOT_NULL (e : ParsedExpression)
| OPERATOR_NOT (e : ParsedExpression)
| OPERATOR_COALESCE (children : list ParsedExpression)
| OPERATOR_NULLIF (a b : ParsedExpression)
| COMPARE_IN (not_in : bool) (e : ParsedExpression) (l : list ParsedExpression)
| CASE (checks : list (ParsedExpression * ParsedExpression)) (els : ParsedExpression)
| CAST (child : ParsedExpression) (target : LogicalTypeId) (try_cast : bool)
| BETWEEN (input lower upper : ParsedExpression)
| UNARY (name : unary_name) (e : ParsedExpression)
| BINARY (name : binary_name) (l r : ParsedExpression).

(** ** SQL *)

Inductive sql_op : Type :=
| SAdd | SSub | SMul | SDiv | SRem | SBitAnd | SBitOr
| SEq | SNe | SLt | SGt | SLe | SGe | SIs | SIsNot | SConcat.

(** [SBare] is the text without its outer parentheses, [SMinusOne] the literal
    [-1.0]. *)
Inductive sql : Type :=
| SNull
| SInt (z : Z)
| SReal (r : Z)
| SText (z : list Z)
| SBlob (z : list Z)
| SColumn (c : nat)
| SBinary (op : sql_op) (a b : sql)
| SNeg (a : sql)
| SBitNot (a : sql)
| SNot (a : sql)
| SAnd (l : list sql)
| SOr (l : list sql)
| SIsNull (a : sql)
| SIsNotNull (a : sql)
| SIn (negated : bool) (a : sql) (l : list sql)
| SBetween (a b c : sql)
| SCase (whens : list (sql * sql)) (els : sql)
| SCaseOf (a : sql) (whens : list (sql * sql))
| SCoalesce (l : list sql)
| SCastText (a : sql)
| SCastDouble (a : sql)
| SCall (name : list Z) (args : list sql)
| SCastCall (try_cast : bool) (a : sql) (source target : LogicalTypeId)
| SError (message : list Z)
| SMinusOne
| SDaysBetween (a b : sql)
| SBare (a : sql).

(** Why an expression is not written. *)
Inductive refusal : Type := NotSupported | InternalError | OutOfFuel.

(** A function on each element, up to the first failure. *)
Section MapR.
Context {E A B : Type} (f : A -> res E B).

Fixpoint mapR (l : list A) : res E (list B) :=
  match l with
  | [] => Ok []
  | x :: l => y ← f x; ys ← mapR l; Ok (y :: ys)
  end.
End MapR.

(** ** Types *)

Inductive SQLiteRepresentation : Type := REPR_NONE | REPR_INTEGER | REPR_REAL | REPR_TEXT | REPR_BLOB | REPR_OTHER.

#[export] Instance SQLiteRepresentation_eq_dec : EqDecision SQLiteRepresentation.
Proof. solve_decision. Defined.

Definition SQLiteGetRepresentation (type : LogicalTypeId) : SQLiteRepresentation :=
  match type with
  | SQLNULL => REPR_NONE
  | BOOLEAN | TINYINT | SMALLINT | INTEGER | BIGINT | HUGEINT | UTINYINT | USMALLINT | UINTEGER | UBIGINT | UHUGEINT => REPR_INTEGER
  | FLOAT | DOUBLE | DECIMAL _ _ => REPR_REAL
  | VARCHAR | DATE | TIMESTAMP => REPR_TEXT
  | BLOB => REPR_BLOB
  | _ => REPR_OTHER
  end.

Definition is_type (a b : LogicalTypeId) : bool := bool_decide (a = b).
Definition is_decimal (type : LogicalTypeId) : bool := match type with DECIMAL _ _ => true | _ => false end.

Definition SQLiteIsIntegerType (type : LogicalTypeId) : bool :=
  negb (is_type type BOOLEAN) && bool_decide (SQLiteGetRepresentation type = REPR_INTEGER).
Definition SQLiteIsNumericType (type : LogicalTypeId) : bool := SQLiteIsIntegerType type || is_type type DOUBLE.
Definition SQLiteIsNumericOrDecimalType (type : LogicalTypeId) : bool := SQLiteIsNumericType type || is_decimal type.
Definition SQLiteIsTimestampType (type : LogicalTypeId) : bool := is_type type DATE || is_type type TIMESTAMP.

Definition HasRepresentation (type : LogicalTypeId) : bool :=
  match type with
  | BOOLEAN | TINYINT | SMALLINT | INTEGER | BIGINT | UTINYINT | USMALLINT | UINTEGER
  | DOUBLE | VARCHAR | BLOB | DATE | TIMESTAMP => true
  | _ => false
  end.

(** [Value::MinimumValue] and [Value::MaximumValue] of the integer types. *)
Definition int_bounds (type : LogicalTypeId) : option (Z * Z) :=
  match type with
  | TINYINT => Some (- 2 ^ 7, 2 ^ 7 - 1)
  | SMALLINT => Some (- 2 ^ 15, 2 ^ 15 - 1)
  | INTEGER => Some (- 2 ^ 31, 2 ^ 31 - 1)
  | BIGINT => Some (- 2 ^ 63, 2 ^ 63 - 1)
  | HUGEINT => Some (- 2 ^ 127, 2 ^ 127 - 1)
  | UTINYINT => Some (0, 2 ^ 8 - 1)
  | USMALLINT => Some (0, 2 ^ 16 - 1)
  | UINTEGER => Some (0, 2 ^ 32 - 1)
  | UBIGINT => Some (0, 2 ^ 64 - 1)
  | UHUGEINT => Some (0, 2 ^ 128 - 1)
  | _ => None
  end.

(** A bound that does not fit a [HUGEINT] cannot be cast to it, which throws. *)
Definition SQLiteIsIntegerSubtype (source target : LogicalTypeId) : res refusal bool :=
  if negb (SQLiteIsIntegerType source) || negb (SQLiteIsIntegerType target) then Ok false
  else if is_type source target || is_type target HUGEINT then Ok true
  else
    match int_bounds source, int_bounds target with
    | Some (source_min, source_max), Some (target_min, target_max) =>
        if (2 ^ 127 <=? source_max) || (2 ^ 127 <=? target_max) then Throw InternalError
        else Ok ((target_min <=? source_min) && (source_max <=? target_max))
    | _, _ => Ok false
    end.

Section Writer.
Context (RequireType : ParsedExpression -> res refusal LogicalTypeId)
  (TryBindComparison TryGetMaxLogicalType : LogicalTypeId -> LogicalTypeId -> option LogicalTypeId)
  (cast_datum : LogicalTypeId -> LogicalTypeId -> datum -> option datum)
  (Equals : ParsedExpression -> ParsedExpression -> bool)
  (GetDouble : Value -> Z) (TryGetCanonicalText : Value -> option (list Z)) (date_supported : Value -> bool)
  (WriteIntervalArithmetic : ParsedExpression -> ParsedExpression -> bool -> res refusal sql)
  (statement_mode default_division : bool).

(** [DefaultTryCastAs] and [TryCastAs] of a value. *)
Definition TryCastAs (v : Value) (target : LogicalTypeId) : option Value :=
  match payload v with
  | None => Some (mk_value target None)
  | Some d => d' ← cast_datum (vtype v) target d; Some (mk_value target (Some d'))
  end.

(** The targets of casts are resolved types. *)
Definition TryGetConstantValue (e : ParsedExpression) : option Value :=
  match e with
  | CONSTANT v => Some v
  | CAST (CONSTANT v) target false => TryCastAs v target
  | _ => None
  end.

Definition has_nul (z : list Z) : bool := existsb (Z.eqb 0) z.

Definition SupportsValue (v : Value) : bool :=
  match payload v with
  | None => true
  | Some d =>
      match vtype v with
      | BOOLEAN | TINYINT | SMALLINT | INTEGER | BIGINT | UTINYINT | USMALLINT | UINTEGER => true
      | HUGEINT | UBIGINT | UHUGEINT => bool_decide (is_Some (TryCastAs v BIGINT))
      | FLOAT | DOUBLE => negb (IsNaN (GetDouble v))
      | DECIMAL _ _ => true
      | VARCHAR => match d with DText z => negb (has_nul z) | _ => true end
      | BLOB => true
      | DATE | TIMESTAMP => date_supported v
      | INTERVAL => true
      | _ => false
      end
  end.

(** ** Constants *)

Definition WriteConstant (v : Value) : res refusal sql :=
  match payload v with
  | None => Ok SNull
  | Some d =>
      match vtype v, d with
      | BOOLEAN, DBool b => Ok (SInt (Z.b2z b))
      | (TINYINT | SMALLINT | INTEGER | BIGINT | UTINYINT | USMALLINT | UINTEGER | UBIGINT | HUGEINT | UHUGEINT), _ =>
          match TryCastAs v BIGINT with
          | Some (mk_value _ (Some (DInt z))) => Ok (SInt z)
          | _ => Throw NotSupported
          end
      | (FLOAT | DOUBLE), _ => if IsNaN (GetDouble v) then Throw NotSupported else Ok (SReal (GetDouble v))
      | DECIMAL _ _, _ => Ok (SReal (GetDouble v))
      | VARCHAR, DText z => if has_nul z then Throw NotSupported else Ok (SText z)
      | BLOB, DBlob z => Ok (SBlob z)
      | (DATE | TIMESTAMP), _ => match TryGetCanonicalText v with Some z => Ok (SText z) | None => Throw NotSupported end
      | _, _ => Throw NotSupported
      end
  end.

Definition RequireExtensionFunctions : res refusal unit := if statement_mode then Throw NotSupported else Ok tt.

(** ** Casts *)

(** The cases of the switch that do not call [duckdb_cast]. *)
Definition write_cast_direct (child : sql) (source target : LogicalTypeId) : res refusal (option sql) :=
  match target with
  | TINYINT | SMALLINT | INTEGER | BIGINT | UTINYINT | USMALLINT | UINTEGER =>
      if is_type source BOOLEAN then Ok (Some child)
      else sub ← SQLiteIsIntegerSubtype source target; Ok (if sub : bool then Some child else None)
  | BOOLEAN => Ok (if SQLiteIsIntegerType source then Some (SBinary SNe child (SInt 0)) else None)
  | DOUBLE =>
      Ok (if SQLiteIsIntegerType source || is_type source BOOLEAN then Some (SCastDouble child)
          else if is_type source FLOAT || is_decimal source then Some child else None)
  | VARCHAR =>
      Ok (if SQLiteIsIntegerType source then Some (SCastText child)
          else if is_type source BOOLEAN then
            Some (SCaseOf child [(SInt 1, SText (word "true")); (SInt 0, SText (word "false"))])
          else if is_type source DATE || is_type source TIMESTAMP then Some child else None)
  | TIMESTAMP => Ok (if is_type source DATE then Some (SBinary SConcat child (SText (word " 00:00:00"))) else None)
  | DATE => Ok (if is_type source TIMESTAMP then Some (SCall (word "substr") [child; SInt 1; SInt 10]) else None)
  | _ => Ok None
  end.

Definition WriteCast (child : sql) (source target : LogicalTypeId) (try_cast : bool) : res refusal sql :=
  if is_type source target then Ok child
  else if is_type source SQLNULL then Ok SNull
  else if negb (HasRepresentation target) then Throw NotSupported
  else
    direct ← write_cast_direct child source target;
    match direct with
    | Some s => Ok s
    | None =>
        if negb (HasRepresentation source) && negb (is_type source FLOAT) && negb (is_type source HUGEINT) then Throw NotSupported
        else if is_type source FLOAT || is_decimal source then Throw NotSupported
        else _ ← RequireExtensionFunctions; Ok (SCastCall try_cast child source target)
    end.

Section Recursive.
(** The calls of [WriteExpression] on parts of an expression. *)
Context (WriteExpression : ParsedExpression -> res refusal sql).

Definition WriteAs (e : ParsedExpression) (target : LogicalTypeId) : res refusal sql :=
  match TryGetConstantValue e with
  | Some v =>
      match payload v with
      | None => Ok SNull
      | Some _ => match TryCastAs v target with None => Throw NotSupported | Some v => WriteConstant v end
      end
  | None =>
      source ← RequireType e;
      s ← WriteExpression e;
      if is_type source target then Ok s
      else
        let source_repr := SQLiteGetRepresentation source in
        let target_repr := SQLiteGetRepresentation target in
        sub ← (if bool_decide (source_repr = REPR_INTEGER) && bool_decide (target_repr = REPR_INTEGER) && negb (is_type source BOOLEAN)
               then SQLiteIsIntegerSubtype source target else Ok false);
        if sub : bool then Ok s
        else if bool_decide (source_repr = REPR_REAL) && bool_decide (target_repr = REPR_REAL) then Ok s
        else WriteCast s source target false
  end.

(** [result] starts as [SQLNULL]. *)
Fixpoint common_type (l : list ParsedExpression) (result : LogicalTypeId) : res refusal LogicalTypeId :=
  match l with
  | [] => Ok result
  | e :: l =>
      type ← RequireType e;
      let type := match e with CONSTANT _ => if is_type type VARCHAR then STRING_LITERAL else type | _ => type end in
      match TryGetMaxLogicalType result type with
      | None => Throw NotSupported
      | Some result => common_type l result
      end
  end.
Definition CommonType (l : list ParsedExpression) : res refusal LogicalTypeId :=
  result ← common_type l SQLNULL; Ok (if is_type result STRING_LITERAL then VARCHAR else result).

(** The type of an operand, and the type the operands are compared as. *)
Definition operand_type (e : ParsedExpression) : res refusal LogicalTypeId :=
  match TryGetConstantValue e with Some v => Ok (vtype v) | None => RequireType e end.
Fixpoint comparison_target (types : list LogicalTypeId) (target : LogicalTypeId) : res refusal LogicalTypeId :=
  match types with
  | [] => Ok target
  | t :: types => match TryBindComparison target t with None => Throw NotSupported | Some target => comparison_target types target end
  end.

Definition numeric_operand (type target : LogicalTypeId) : bool :=
  let repr := SQLiteGetRepresentation type in
  let target_repr := SQLiteGetRepresentation target in
  (bool_decide (repr = REPR_INTEGER) || bool_decide (repr = REPR_REAL)) &&
  (bool_decide (target_repr = REPR_INTEGER) || bool_decide (target_repr = REPR_REAL)) &&
  negb (is_type type BOOLEAN) && negb (is_type target BOOLEAN).

Definition write_operand (target : LogicalTypeId) (e : ParsedExpression) : res refusal sql :=
  match TryGetConstantValue e with
  | Some v =>
      match payload v with
      | None => Ok SNull
      | Some _ =>
          match TryCastAs v target with
          | Some v => if SupportsValue v then WriteConstant v else Throw NotSupported
          | None => Throw NotSupported
          end
      end
  | None =>
      type ← RequireType e;
      s ← WriteExpression e;
      if is_type type target || numeric_operand type target then Ok s else WriteCast s type target false
  end.

Definition compare_as (operands : list ParsedExpression) : res refusal LogicalTypeId :=
  types ← mapR operand_type operands;
  match types with [] => Throw InternalError | t :: types => comparison_target types t end.

Definition WriteComparisonOperands (operands : list ParsedExpression) : res refusal (list sql) :=
  target ← compare_as operands;
  if bool_decide (SQLiteGetRepresentation target = REPR_OTHER) then Throw NotSupported
  else mapR (write_operand target) operands.

(** ** Conditions *)

Definition SQLiteIsBooleanExpression (e : ParsedExpression) : bool :=
  match e with
  | COMPARISON _ _ _ | CONJUNCTION _ _ | BETWEEN _ _ _ => true
  | OPERATOR_IS_NULL _ | OPERATOR_IS_NOT_NULL _ | OPERATOR_NOT _ | COMPARE_IN _ _ _ => true
  | _ => false
  end.

Definition WriteCondition (e : ParsedExpression) : res refusal sql :=
  if SQLiteIsBooleanExpression e then WriteExpression e
  else
    type ← RequireType e;
    if is_type type BOOLEAN || is_type type SQLNULL || SQLiteIsIntegerType type then WriteExpression e
    else s ← WriteExpression e; WriteCast s type BOOLEAN false.

Definition SQLiteGetConjuncts (e : ParsedExpression) : list ParsedExpression :=
  match e with CONJUNCTION false children => children | _ => [e] end.
Definition SQLiteContainsExpression (l : list ParsedExpression) (e : ParsedExpression) : bool := existsb (fun x => Equals x e) l.

(** The conjuncts of the first disjunct that all others have. *)
Fixpoint common_conjuncts (first : list ParsedExpression) (others : list (list ParsedExpression)) (common : list ParsedExpression)
  : list ParsedExpression :=
  match first with
  | [] => common
  | c :: first =>
      let in_all := negb (SQLiteContainsExpression common c) && forallb (fun d => SQLiteContainsExpression d c) others in
      common_conjuncts first others (if in_all then common ++ [c] else common)
  end.

(** The loop over the disjuncts; [None]: a disjunct has no other conjuncts. *)
Fixpoint remaining_disjuncts (common : list ParsedExpression) (disjuncts : list (list ParsedExpression)) : res refusal (option (list sql)) :=
  match disjuncts with
  | [] => Ok (Some [])
  | d :: disjuncts =>
      conjuncts ← mapR WriteCondition (List.filter (fun c => negb (SQLiteContainsExpression common c)) d);
      match conjuncts with
      | [] => Ok None
      | _ =>
          rest ← remaining_disjuncts common disjuncts;
          Ok (match rest with None => None | Some rest => Some (SAnd conjuncts :: rest) end)
      end
  end.

Definition WriteDisjunction (children : list ParsedExpression) : res refusal sql :=
  let disjuncts := map SQLiteGetConjuncts children in
  match disjuncts with
  | [] => Throw InternalError
  | first :: others =>
      match common_conjuncts first others [] with
      | [] => l ← mapR WriteCondition children; Ok (SOr l)
      | common =>
          l ← mapR WriteCondition common;
          remaining ← remaining_disjuncts common disjuncts;
          Ok (match remaining with None => SAnd l | Some remaining => SAnd (l ++ [SOr remaining]) end)
      end
  end.

(** ** Operators *)

Definition SQLiteComparisonOperator (type : cmp_type) : sql_op :=
  match type with
  | COMPARE_EQUAL => SEq | COMPARE_NOTEQUAL => SNe | COMPARE_LESSTHAN => SLt | COMPARE_GREATERTHAN => SGt
  | COMPARE_LESSTHANOREQUALTO => SLe | COMPARE_GREATERTHANOREQUALTO => SGe
  | COMPARE_DISTINCT_FROM => SIsNot | COMPARE_NOT_DISTINCT_FROM => SIs
  end.

Definition write_coalesce (children : list ParsedExpression) : res refusal sql :=
  type ← CommonType children;
  l ← mapR (fun e => WriteAs e type) children;
  Ok (SCoalesce (if (length children =? 1)%nat then l ++ [SNull] else l)).

Definition write_nullif (a b : ParsedExpression) : res refusal sql :=
  written ← WriteComparisonOperands [a; b];
  type ← RequireType a;
  first ← WriteAs a type;
  match written with
  | [x; y] => Ok (SCase [(SBare (SBinary SEq x y), SNull)] first)
  | _ => Throw InternalError
  end.

Definition write_in (not_in : bool) (e : ParsedExpression) (l : list ParsedExpression) : res refusal sql :=
  written ← WriteComparisonOperands (e :: l);
  match written with [] => Throw InternalError | x :: l => Ok (SIn not_in x l) end.

Definition write_between (input lower upper : ParsedExpression) : res refusal sql :=
  written ← WriteComparisonOperands [input; lower; upper];
  match written with [x; y; z] => Ok (SBetween x y z) | _ => Throw InternalError end.

Definition write_comparison (type : cmp_type) (l r : ParsedExpression) : res refusal sql :=
  written ← WriteComparisonOperands [l; r];
  match written with [x; y] => Ok (SBinary (SQLiteComparisonOperator type) x y) | _ => Throw InternalError end.

Definition WriteCase (checks : list (ParsedExpression * ParsedExpression)) (els : ParsedExpression) : res refusal sql :=
  type ← CommonType (map snd checks ++ [els]);
  whens ← mapR (fun '(w, t) => w ← WriteCondition w; t ← WriteAs t type; Ok (w, t)) checks;
  e ← WriteAs els type;
  Ok (SCase whens e).

(** ** Arithmetic *)

Definition nonzero_constant (e : ParsedExpression) : bool :=
  match TryGetConstantValue e with
  | Some v => match TryCastAs v DOUBLE with Some (mk_value _ (Some (DReal r))) => negb (dval r =? 0) | _ => false end
  | None => false
  end.

Definition WriteDivision (l r : ParsedExpression) (integer_division : bool) : res refusal sql :=
  if negb default_division then Throw NotSupported
  else
    x ← WriteExpression l;
    y ← WriteExpression r;
    let x := if integer_division then x else SCastDouble x in
    if nonzero_constant r then Ok (SBinary SDiv x y)
    else
      _ ← RequireExtensionFunctions;
      Ok (SCase [(SBare (SBinary SEq y (SInt 0)),
                  if integer_division then SError (word "Division by zero") else SCall (word "duckdb_divide") [x; y])]
                (SBare (SBinary SDiv x y))).

Definition WriteUnary (name : unary_name) (e : ParsedExpression) : res refusal sql :=
  type ← RequireType e;
  match name with
  | UMinus =>
      if SQLiteIsNumericType type then
        if negb (SQLiteIsIntegerType type) then s ← WriteExpression e; Ok (SBinary SMul s SMinusOne)
        else s ← WriteExpression e; Ok (SNeg s)
      else Throw NotSupported
  | UPlus => if SQLiteIsNumericType type then WriteExpression e else Throw NotSupported
  | UBitNot => if SQLiteIsIntegerType type then s ← WriteExpression e; Ok (SBitNot s) else Throw NotSupported
  end.

(** The smallest value of a signed type up to 64 bits. *)
Definition type_minimum (type : LogicalTypeId) : option Z :=
  match type with
  | TINYINT => Some (- 2 ^ 7) | SMALLINT => Some (- 2 ^ 15) | INTEGER => Some (- 2 ^ 31) | BIGINT => Some (- 2 ^ 63)
  | _ => None
  end.

Definition write_modulo (l r : ParsedExpression) (left_type right_type : LogicalTypeId) : res refusal sql :=
  match TryGetMaxLogicalType left_type right_type with
  | None => Throw NotSupported
  | Some common_type =>
      let minimum := type_minimum common_type in
      let plain :=
        match TryGetConstantValue r with
        | Some (mk_value _ (Some (DInt z))) => negb (z =? 0) && (negb (z =? -1) || bool_decide (minimum = None))
        | _ => false
        end in
      if plain then x ← WriteExpression l; y ← WriteExpression r; Ok (SBinary SRem x y)
      else
        _ ← RequireExtensionFunctions;
        x ← WriteExpression l;
        y ← WriteExpression r;
        Ok (SCase ((SBare (SBinary SEq y (SInt 0)), SError (word "Division by zero")) ::
                   match minimum with
                   | Some m => [(SBare (SAnd [SBare (SBinary SEq y (SBare (SInt (-1)))); SBare (SBinary SEq x (SInt m))]), SError (word "Overflow in division"))]
                   | None => []
                   end) (SBare (SBinary SRem x y)))
  end.

(** The bits of a type that can be shifted and whether it is signed. *)
Definition shift_type (type : LogicalTypeId) : option (Z * bool) :=
  match type with
  | UTINYINT => Some (8, false) | TINYINT => Some (8, true)
  | USMALLINT => Some (16, false) | SMALLINT => Some (16, true)
  | UINTEGER => Some (32, false) | INTEGER => Some (32, true)
  | BIGINT => Some (64, true)
  | _ => None
  end.

Definition write_shift (left_ : bool) (l r : ParsedExpression) (left_type right_type : LogicalTypeId) : res refusal sql :=
  if negb (SQLiteIsIntegerType left_type) || negb (SQLiteIsIntegerType right_type) then Throw NotSupported
  else
    match TryGetMaxLogicalType left_type right_type with
    | None => Throw NotSupported
    | Some common_type =>
        match shift_type common_type with
        | None => Throw NotSupported
        | Some (bits, is_signed) =>
            _ ← RequireExtensionFunctions;
            let shift_bits := if left_ then bits + (if is_signed : bool then 0 else 1) else bits in
            x ← WriteExpression l;
            y ← WriteExpression r;
            Ok (SCall (word (if left_ then "duckdb_shift_left" else "duckdb_shift_right")) [x; y; SInt shift_bits])
        end
    end.

Definition days (s : sql) : sql := SBare (SBinary SConcat s (SText (word " days"))).

(** [+ - *]; [op] is the SQL operator. *)
Definition write_sum (name : binary_name) (op : sql_op) (l r : ParsedExpression) (left_type right_type : LogicalTypeId) : res refusal sql :=
  let plus := match name with NPlus => true | _ => false end in
  let minus := match name with NMinus => true | _ => false end in
  if SQLiteIsNumericOrDecimalType left_type && SQLiteIsNumericOrDecimalType right_type then
    type ← RequireType (BINARY name l r);
    if negb (SQLiteIsNumericType type) then Throw NotSupported
    else x ← WriteExpression l; y ← WriteExpression r; Ok (SBinary op x y)
  else if SQLiteIsTimestampType left_type && is_type right_type INTERVAL && (plus || minus) then WriteIntervalArithmetic l r minus
  else if is_type left_type INTERVAL && SQLiteIsTimestampType right_type && plus then WriteIntervalArithmetic r l false
  else if is_type left_type DATE && SQLiteIsIntegerType right_type && (plus || minus) then
    d ← WriteExpression r;
    x ← WriteExpression l;
    Ok (SCall (word "date") [x; days (if minus then SNeg d else d)])
  else if SQLiteIsIntegerType left_type && is_type right_type DATE && plus then
    y ← WriteExpression r;
    x ← WriteExpression l;
    Ok (SCall (word "date") [y; days x])
  else if is_type left_type DATE && is_type right_type DATE && minus then
    x ← WriteExpression l;
    y ← WriteExpression r;
    Ok (SDaysBetween x y)
  else Throw NotSupported.

Definition WriteArithmetic (name : binary_name) (l r : ParsedExpression) : res refusal sql :=
  left_type ← RequireType l;
  right_type ← RequireType r;
  let both_integers := SQLiteIsIntegerType left_type && SQLiteIsIntegerType right_type in
  let binary op := x ← WriteExpression l; y ← WriteExpression r; Ok (SBinary op x y) in
  match name with
  | NDivide =>
      if negb (SQLiteIsNumericOrDecimalType left_type) || negb (SQLiteIsNumericOrDecimalType right_type) then Throw NotSupported
      else WriteDivision l r false
  | NIntDivide => if negb both_integers then Throw NotSupported else WriteDivision l r true
  | NModulo => if negb both_integers then Throw NotSupported else write_modulo l r left_type right_type
  | NConcat =>
      if is_type left_type BLOB || is_type right_type BLOB then Throw NotSupported
      else x ← WriteAs l VARCHAR; y ← WriteAs r VARCHAR; Ok (SBinary SConcat x y)
  | NXor =>
      if negb both_integers then Throw NotSupported
      else
        x ← WriteExpression l;
        y ← WriteExpression r;
        Ok (SBinary SSub (SBinary SBitOr x y) (SBinary SBitAnd x y))
  | NBitAnd => if negb both_integers then Throw NotSupported else binary SBitAnd
  | NBitOr => if negb both_integers then Throw NotSupported else binary SBitOr
  | NShiftLeft => write_shift true l r left_type right_type
  | NShiftRight => write_shift false l r left_type right_type
  | NPlus => write_sum NPlus SAdd l r left_type right_type
  | NMinus => write_sum NMinus SSub l r left_type right_type
  | NTimes => write_sum NTimes SMul l r left_type right_type
  end.

(** The body of [WriteExpression]. *)
Definition write_expression (e : ParsedExpression) : res refusal sql :=
  match e with
  | CONSTANT v => WriteConstant v
  | COLUMN_REF c => Ok (SColumn c)
  | COMPARISON type l r => write_comparison type l r
  | CONJUNCTION true children => WriteDisjunction children
  | CONJUNCTION false children => l ← mapR WriteCondition children; Ok (SAnd l)
  | OPERATOR_IS_NULL e => s ← WriteExpression e; Ok (SIsNull s)
  | OPERATOR_IS_NOT_NULL e => s ← WriteExpression e; Ok (SIsNotNull s)
  | OPERATOR_NOT e => s ← WriteCondition e; Ok (SNot s)
  | OPERATOR_COALESCE children => write_coalesce children
  | OPERATOR_NULLIF a b => write_nullif a b
  | COMPARE_IN not_in e l => write_in not_in e l
  | CASE checks els => WriteCase checks els
  | CAST child target try_cast =>
      match child with
      | CONSTANT _ =>
          match TryGetConstantValue e with Some v => WriteConstant v | None => Throw InternalError end
      | _ =>
          source ← RequireType child;
          s ← WriteExpression child;
          WriteCast s source target try_cast
      end
  | BETWEEN input lower upper => write_between input lower upper
  | UNARY name e => WriteUnary name e
  | BINARY name l r => WriteArithmetic name l r
  end.
End Recursive.

Fixpoint WriteExpression (fuel : nat) (e : ParsedExpression) : res refusal sql :=
  match fuel with
  | O => Throw OutOfFuel
  | S fuel => write_expression (WriteExpression fuel) e
  end.
End Writer.

(** ** The text *)

Section Print.
(** The text of a double and of a column, and the name of a type. *)
Context (double_text : Z -> list Z) (column_text : nat -> list Z) (type_name : LogicalTypeId -> list Z).

Definition op_text (op : sql_op) : list Z :=
  word match op with
       | SAdd => " + " | SSub => " - " | SMul => " * " | SDiv => " / " | SRem => " % " | SBitAnd => " & " | SBitOr => " | "
       | SEq => " = " | SNe => " <> " | SLt => " < " | SGt => " > " | SLe => " <= " | SGe => " >= "
       | SIs => " IS " | SIsNot => " IS NOT " | SConcat => " || "
       end.

(** [std::to_string] *)
Fixpoint digits (fuel : nat) (n : Z) : list Z :=
  match fuel with
  | O => []
  | S fuel => (if n <? 10 then [] else digits fuel (n / 10)) ++ [48 + n mod 10]
  end.
Definition to_string (z : Z) : list Z := if z <? 0 then 45 :: digits 40 (- z) else digits 40 z.

Definition HEX_DIGITS : list Z := word "0123456789ABCDEF".
Definition hex (z : list Z) : list Z :=
  flat_map (fun b => [nth (Z.to_nat (Z.shiftr b 4)) HEX_DIGITS 0; nth (Z.to_nat (Z.land b 15)) HEX_DIGITS 0]) z.

Definition quoted (z : list Z) : list Z := WriteQuotedAndEscaped z 39.
Definition parens (z : list Z) : list Z := [40] ++ z ++ [41].
Definition joined (sep : list Z) (l : list (list Z)) : list Z :=
  match l with [] => [] | x :: l => x ++ flat_map (fun y => sep ++ y) l end.

Fixpoint print (s : sql) : list Z :=
  match s with
  | SNull => word "NULL"
  | SInt z => if z <? 0 then parens (to_string z) else to_string z
  | SReal r => double_text r
  | SText z => quoted z
  | SBlob z => word "X'" ++ hex z ++ [39]
  | SColumn c => column_text c
  | SBinary op a b => parens (print a ++ op_text op ++ print b)
  | SNeg a => parens (45 :: print a)
  | SBitNot a => parens (126 :: print a)
  | SNot a => parens (word "NOT " ++ print a)
  | SAnd l => parens (joined (word " AND ") (map print l))
  | SOr l => parens (joined (word " OR ") (map print l))
  | SIsNull a => parens (print a ++ word " IS NULL")
  | SIsNotNull a => parens (print a ++ word " IS NOT NULL")
  | SIn negated a l => parens (print a ++ word (if negated then " NOT IN (" else " IN (") ++ joined (word ", ") (map print l) ++ [41])
  | SBetween a b c => parens (print a ++ word " BETWEEN " ++ print b ++ word " AND " ++ print c)
  | SCase whens els =>
      parens (word "CASE" ++ flat_map (fun '(w, t) => word " WHEN " ++ print w ++ word " THEN " ++ print t) whens ++
              word " ELSE " ++ print els ++ word " END")
  | SCaseOf a whens =>
      parens (word "CASE " ++ print a ++ flat_map (fun '(w, t) => word " WHEN " ++ print w ++ word " THEN " ++ print t) whens ++ word " END")
  | SCoalesce l => word "COALESCE" ++ parens (joined (word ", ") (map print l))
  | SCastText a => word "CAST" ++ parens (print a ++ word " AS TEXT")
  | SCastDouble a => word "CAST" ++ parens (print a ++ word " AS DOUBLE")
  | SCall name args => name ++ parens (joined (word ", ") (map print args))
  | SCastCall try_cast a source target =>
      word (if try_cast then "duckdb_try_cast" else "duckdb_cast") ++
      parens (print a ++ word ", '" ++ type_name source ++ word "', '" ++ type_name target ++ [39])
  | SError message => word "duckdb_error" ++ parens (quoted message)
  | SMinusOne => word "-1.0"
  | SDaysBetween a b => word "CAST(julianday" ++ parens (print a) ++ word " - julianday" ++ parens (print b) ++ word " AS INTEGER)"
  | SBare a =>
      match a with
      | SBinary op a b => print a ++ op_text op ++ print b
      | SAnd l => joined (word " AND ") (map print l)
      | SInt z => to_string z
      | _ => print a
      end
  end.
End Print.
