(* ===== verification/SqlMeaning.v ===== *)
(** * What pushed down expressions mean (sqlite_sql_writer.cpp)

    The meaning of the SQL the writer produces ([eval]), from the operators of the
    engine ([VdbeExpr]) and the functions of the extension ([SqlFunctions]), and the
    meaning of the expressions in DuckDB ([sem]).  [WriterSound] proves that they
    agree on the expressions of [scope].

    DuckDB's meaning is stated here: three-valued logic, comparisons after a cast to
    the type the binder chooses, integer arithmetic that fails when its result has no
    value of its type.  The casts and the binder are parameters with the laws they
    obey ([CastLaws], [BinderLaws]). *)

From S2P Require Import Prelude IntArith Record Aggregates Types SqlText VdbeExpr Affinity SqlFunctions SqlWriter.

(** ** Values in SQLite *)

Definition rep (v : option datum) : Mem :=
  match v with
  | None => MEM_Null false
  | Some (DBool b) => MEM_Int (Z.b2z b)
  | Some (DInt z) => MEM_Int z
  | Some (DReal r) => MEM_Real r
  | Some (DText z) => MEM_Str z
  | Some (DBlob z) => MEM_Blob z None
  end.

Definition in_bounds (type : LogicalTypeId) (z : Z) : bool :=
  match int_bounds type with Some (lo, hi) => (lo <=? z) && (z <=? hi) | None => false end.
Definition byteb (b : Z) : bool := (0 <=? b) && (b <? 256).

(** The values of a type that SQLite can hold. *)
Definition has_type (type : LogicalTypeId) (d : datum) : bool :=
  match d, type with
  | DBool _, BOOLEAN => true
  | DInt z, _ => in_bounds type z && in_i64 z
  | DReal r, (FLOAT | DOUBLE) => (0 <=? r) && (r <? 2 ^ 64) && negb (IsNaN r)
  | DText z, VARCHAR => forallb byteb z
  | DBlob z, BLOB => forallb byteb z
  | _, _ => false
  end.
Definition typed (type : LogicalTypeId) (v : option datum) : bool := match v with None => true | Some d => has_type type d end.

(** ** DuckDB's casts *)

Class CastLaws (cast_datum : LogicalTypeId -> LogicalTypeId -> datum -> option datum) (GetDouble : Value -> Z) : Prop := {
  cast_refl t d : has_type t d = true -> cast_datum t t d = Some d;
  cast_typed s t d d' : has_type s d = true -> cast_datum s t d = Some d' -> has_type t d' = true;
  cast_int s t z : SQLiteIsIntegerType s = true -> SQLiteIsIntegerType t = true -> in_i64 z = true ->
    cast_datum s t (DInt z) = if in_bounds t z then Some (DInt z) else None;
  cast_bool_int t b : SQLiteIsIntegerType t = true -> cast_datum BOOLEAN t (DBool b) = Some (DInt (Z.b2z b));
  cast_int_bool s z : SQLiteIsIntegerType s = true -> cast_datum s BOOLEAN (DInt z) = Some (DBool (negb (z =? 0)));
  cast_int_double s z : SQLiteIsIntegerType s = true -> cast_datum s DOUBLE (DInt z) = Some (DReal (double_of_int z));
  cast_bool_double b : cast_datum BOOLEAN DOUBLE (DBool b) = Some (DReal (double_of_int (Z.b2z b)));
  cast_float r : cast_datum FLOAT DOUBLE (DReal r) = Some (DReal r);
  cast_int_text s z : SQLiteIsIntegerType s = true -> cast_datum s VARCHAR (DInt z) = Some (DText (to_string z));
  cast_bool_text b : cast_datum BOOLEAN VARCHAR (DBool b) = Some (DText (word (if b then "true" else "false")));
  double_value t r : GetDouble (mk_value t (Some (DReal r))) = r
}.

(** ** SQLite *)

Section Eval.
Context (wide : bool) (fadd fsub fmul fdiv : Z -> Z -> Z) (scale10 : Z -> Z -> Z) (real_text : Z -> list Z)
  (cast_datum : LogicalTypeId -> LogicalTypeId -> datum -> option datum) (date_value : LogicalTypeId -> Mem -> option datum)
  (call : list Z -> list Mem -> res sql_error Mem) (row : nat -> Mem).

Abbreviation Arith := (OP_Arith fadd fsub fmul fdiv scale10).

(** A comparison as a value.  The operands the writer compares have one class, which is
    that of their affinity, if they have one: it changes nothing. *)
Definition compare_value (op : cmp_op) (nulleq : bool) (x y : Mem) : Mem :=
  match OP_Compare wide op nulleq (Some binCollFunc) y x with None => MEM_Null false | Some b => MEM_Int (Z.b2z b) end.

Definition concat (x y : Mem) : res sql_error Mem :=
  if is_Null x || is_Null y then Ok (MEM_Null false)
  else match x, y with MEM_Str a, MEM_Str b => Ok (MEM_Str (a ++ b)) | _, _ => call (word "||") [x; y] end.

Definition binary_value (op : sql_op) (x y : Mem) : res sql_error Mem :=
  match op with
  | SAdd => Ok (Arith OP_Add y x) | SSub => Ok (Arith OP_Subtract y x) | SMul => Ok (Arith OP_Multiply y x)
  | SDiv => Ok (Arith OP_Divide y x) | SRem => Ok (Arith OP_Remainder y x)
  | SBitAnd => Ok (OP_Bits OP_BitAnd y x) | SBitOr => Ok (OP_Bits OP_BitOr y x)
  | SEq => Ok (compare_value OP_Eq false x y) | SNe => Ok (compare_value OP_Ne false x y)
  | SLt => Ok (compare_value OP_Lt false x y) | SGt => Ok (compare_value OP_Gt false x y)
  | SLe => Ok (compare_value OP_Le false x y) | SGe => Ok (compare_value OP_Ge false x y)
  | SIs => Ok (compare_value OP_Eq true x y) | SIsNot => Ok (compare_value OP_Ne true x y)
  | SConcat => concat x y
  end.

(** [a AND b AND ...], from the left. *)
Definition logic (is_and : bool) (l : list Mem) : Mem :=
  match l with [] => MEM_Int (Z.b2z is_and) | x :: l => fold_left (OP_Logic scale10 is_and) l x end.

Definition in_value (negated : bool) (x : Mem) (l : list Mem) : Mem :=
  let r := logic false (map (fun y => compare_value OP_Eq false x y) l) in
  if negated then OP_Not scale10 r else r.

Definition is_true (m : Mem) : bool := negb (sqlite3VdbeBooleanValue scale10 m 0 =? 0).

Definition cast_text (x : Mem) : Mem := OP_Cast scale10 real_text x SQLITE_AFF_TEXT.
Definition cast_double (x : Mem) : Mem := OP_Cast scale10 real_text x SQLITE_AFF_REAL.

(** [SQLiteUtils::ToDuckDBValue]; the text of a number and dates are not part of
    the model. *)
Definition ToDuckDBValue (m : Mem) (type : LogicalTypeId) : option (option datum) :=
  match m, type with
  | MEM_Null _, _ => Some None
  | _, (DATE | TIMESTAMP) => Some <$> date_value type m
  | (MEM_Str z | MEM_Blob z _), VARCHAR => Some (Some (DText z))
  | (MEM_Str z | MEM_Blob z _), BLOB => Some (Some (DBlob z))
  | _, (VARCHAR | BLOB) => Some <$> date_value type m
  | (MEM_Int i), _ => Some <$> cast_datum BIGINT type (DInt i)
  | MEM_IntReal i, _ => Some <$> cast_datum DOUBLE type (DReal (double_of_int i))
  | MEM_Real r, _ => Some <$> cast_datum DOUBLE type (DReal r)
  | MEM_Str z, _ => Some <$> cast_datum VARCHAR type (DText z)
  | MEM_Blob z _, _ => Some <$> cast_datum BLOB type (DBlob z)
  end.

(** [SQLiteCastFunction]; the result of a cast is set by its representation. *)
Definition SQLiteCastFunction (TRY_CAST : bool) (x : Mem) (source target : LogicalTypeId) : res sql_error Mem :=
  match ToDuckDBValue x source with
  | None => Throw (raised [])
  | Some None => Ok (MEM_Null false)
  | Some (Some d) =>
      match cast_datum source target d with
      | Some d => Ok (rep (Some d))
      | None => if TRY_CAST then Ok (MEM_Null false) else Throw (raised [])
      end
  end.

(** The functions the writer calls; of [substr] only that of NULL. *)
Definition call_value (name : list Z) (args : list Mem) : res sql_error Mem :=
  match args with
  | [x; y; z] =>
      if bool_decide (name = word "duckdb_shift_left") then SQLiteShiftLeftFunction x y z
      else if bool_decide (name = word "duckdb_shift_right") then SQLiteShiftRightFunction x y z
      else if bool_decide (name = word "substr") && is_Null x then Ok (MEM_Null false)
      else call name args
  | _ => call name args
  end.

Section Cases.
Context (eval : sql -> res sql_error Mem).

Fixpoint case_value (whens : list (sql * sql)) (els : sql) : res sql_error Mem :=
  match whens with
  | [] => eval els
  | (w, t) :: whens => c ← eval w; if is_true c then eval t else case_value whens els
  end.
Fixpoint coalesce_value (l : list sql) : res sql_error Mem :=
  match l with
  | [] => Ok (MEM_Null false)
  | s :: l => x ← eval s; if is_Null x then coalesce_value l else Ok x
  end.
End Cases.

Fixpoint eval (s : sql) : res sql_error Mem :=
  match s with
  | SNull => Ok (MEM_Null false)
  | SInt z => Ok (MEM_Int z)
  | SReal r => Ok (MEM_Real r)
  | SText z => Ok (MEM_Str z)
  | SBlob z => Ok (MEM_Blob z None)
  | SColumn c => Ok (row c)
  | SBinary op a b => x ← eval a; y ← eval b; binary_value op x y
  | SNeg a => x ← eval a; Ok (Arith OP_Subtract x (MEM_Int 0))
  | SBitNot a => x ← eval a; Ok (OP_BitNot x)
  | SNot a => x ← eval a; Ok (OP_Not scale10 x)
  | SAnd l => vs ← mapR eval l; Ok (logic true vs)
  | SOr l => vs ← mapR eval l; Ok (logic false vs)
  | SIsNull a => x ← eval a; Ok (MEM_Int (Z.b2z (is_Null x)))
  | SIsNotNull a => x ← eval a; Ok (MEM_Int (Z.b2z (negb (is_Null x))))
  | SIn negated a l => x ← eval a; vs ← mapR eval l; Ok (in_value negated x vs)
  | SBetween a b c =>
      x ← eval a; y ← eval b; z ← eval c;
      Ok (OP_Logic scale10 true (compare_value OP_Ge false x y) (compare_value OP_Le false x z))
  | SCase whens els =>
      (fix go whens := match whens with [] => eval els | (w, t) :: whens => c ← eval w; if is_true c then eval t else go whens end) whens
  | SCaseOf a whens =>
      x ← eval a;
      (fix go whens :=
         match whens with
         | [] => Ok (MEM_Null false)
         | (w, t) :: whens => y ← eval w; if is_true (compare_value OP_Eq false x y) then eval t else go whens
         end) whens
  | SCoalesce l => (fix go l := match l with [] => Ok (MEM_Null false) | s :: l => x ← eval s; if is_Null x then go l else Ok x end) l
  | SCastText a => x ← eval a; Ok (cast_text x)
  | SCastDouble a => x ← eval a; Ok (cast_double x)
  | SCall name args => vs ← mapR eval args; call_value name vs
  | SCastCall try_cast a source target => x ← eval a; SQLiteCastFunction try_cast x source target
  | SError message => Throw (raised message)
  | SMinusOne => Ok (MEM_Real (double_of_int (-1)))
  | SDaysBetween a b => x ← eval a; y ← eval b; call (word "days_between") [x; y]
  | SBare a => eval a
  end.

Lemma eval_case whens els : eval (SCase whens els) = case_value eval whens els.
Proof. cbn [eval]. induction whens as [|[w t] whens IH]; [done|]. cbn [case_value]. by rewrite <- IH. Qed.
Lemma eval_coalesce l : eval (SCoalesce l) = coalesce_value eval l.
Proof. cbn [eval]. induction l as [|s l IH]; [done|]. cbn [coalesce_value]. by rewrite <- IH. Qed.
End Eval.

(** ** DuckDB *)

Definition and3 (a b : option bool) : option bool :=
  match a, b with
  | Some false, _ | _, Some false => Some false
  | Some true, Some true => Some true
  | _, _ => None
  end.
Definition or3 (a b : option bool) : option bool :=
  match a, b with
  | Some true, _ | _, Some true => Some true
  | Some false, Some false => Some false
  | _, _ => None
  end.
Definition not3 (a : option bool) : option bool := negb <$> a.
Definition truth (a : option bool) : option datum := DBool <$> a.

(** The order of two values of a type. *)
Definition datum_order (x y : datum) : Z :=
  match x, y with
  | DBool a, DBool b => three_way (Z.b2z a) (Z.b2z b)
  | DInt a, DInt b => three_way a b
  | DReal a, DReal b => three_way (dval a) (dval b)
  | DText a, DText b | DBlob a, DBlob b => bcmp a b
  | _, _ => 0
  end.

Definition compare_datum (type : cmp_type) (s : Z) : bool :=
  match type with
  | COMPARE_EQUAL | COMPARE_NOT_DISTINCT_FROM => s =? 0
  | COMPARE_NOTEQUAL | COMPARE_DISTINCT_FROM => negb (s =? 0)
  | COMPARE_LESSTHAN => s <? 0 | COMPARE_GREATERTHAN => 0 <? s
  | COMPARE_LESSTHANOREQUALTO => s <=? 0 | COMPARE_GREATERTHANOREQUALTO => 0 <=? s
  end.

(** NULL is unknown, except for IS [NOT] DISTINCT FROM. *)
Definition compare3 (type : cmp_type) (x y : option datum) : option bool :=
  match x, y, type with
  | Some a, Some b, _ => Some (compare_datum type (datum_order a b))
  | None, None, COMPARE_DISTINCT_FROM => Some false
  | None, None, COMPARE_NOT_DISTINCT_FROM => Some true
  | _, _, COMPARE_DISTINCT_FROM => Some true
  | _, _, COMPARE_NOT_DISTINCT_FROM => Some false
  | _, _, _ => None
  end.

Section Sem.
Context (RequireType : ParsedExpression -> res refusal LogicalTypeId)
  (TryBindComparison TryGetMaxLogicalType : LogicalTypeId -> LogicalTypeId -> option LogicalTypeId)
  (cast_datum : LogicalTypeId -> LogicalTypeId -> datum -> option datum) (row : nat -> option datum).

Abbreviation operand_type := (operand_type RequireType cast_datum).
Abbreviation compare_as := (compare_as RequireType TryBindComparison cast_datum).
Abbreviation CommonType := (CommonType RequireType TryGetMaxLogicalType).

Definition castv (source target : LogicalTypeId) (v : option datum) : res refusal (option datum) :=
  match v with
  | None => Ok None
  | Some d => match cast_datum source target d with Some d => Ok (Some d) | None => Throw NotSupported end
  end.

(** The type of an expression that is cast. *)
Definition source_type (e : ParsedExpression) : res refusal LogicalTypeId := match e with CONSTANT v => Ok (vtype v) | _ => RequireType e end.

(** A value used as a condition. *)
Definition condition (e : ParsedExpression) (v : option datum) : res refusal (option bool) :=
  match v with
  | None => Ok None
  | Some (DBool b) => Ok (Some b)
  | Some d =>
      t ← RequireType e;
      match cast_datum t BOOLEAN d with Some (DBool b) => Ok (Some b) | _ => Throw NotSupported end
  end.

(** A value as an operand of a comparison of type [target]. *)
Definition as_operand (target : LogicalTypeId) (e : ParsedExpression) (v : option datum) : res refusal (option datum) :=
  t ← operand_type e; castv t target v.

(** A result of integer arithmetic of type [type]. *)
Definition int_result (type : LogicalTypeId) (z : Z) : res refusal (option datum) :=
  if in_bounds type z then Ok (Some (DInt z)) else Throw NotSupported.

Definition arith_value (name : binary_name) (type common : LogicalTypeId) (x y : Z) : res refusal (option datum) :=
  match name with
  | NPlus => int_result type (x + y)
  | NMinus => int_result type (x - y)
  | NTimes => int_result type (x * y)
  | NIntDivide => int_result type (Z.quot x y)
  | NModulo =>
      if (y =? -1) && bool_decide (type_minimum common = Some x) then Throw NotSupported
      else Ok (Some (DInt (Z.rem x y)))
  | NBitAnd => Ok (Some (DInt (Z.land x y)))
  | NBitOr => Ok (Some (DInt (Z.lor x y)))
  | NXor => Ok (Some (DInt (Z.lxor x y)))
  | NShiftLeft => if (x <? 0) || (y <? 0) then Throw NotSupported else int_result common (x * 2 ^ y)
  | NShiftRight =>
      match shift_type common with
      | Some (bits, _) => Ok (Some (DInt (if (0 <=? y) && (y <? bits) then x / 2 ^ y else 0)))
      | None => Throw NotSupported
      end
  | NDivide | NConcat => Throw NotSupported
  end.

Definition on_ints (x y : option datum) (k : Z -> Z -> res refusal (option datum)) : res refusal (option datum) :=
  match x, y with
  | None, _ | _, None => Ok None
  | Some (DInt x), Some (DInt y) => k x y
  | _, _ => Throw NotSupported
  end.

(** NULL divided by zero is left out: the SQL raises an error where a strict
    operator gives NULL. *)
Definition zero_divisor (name : binary_name) (y : option datum) : bool :=
  match name, y with (NIntDivide | NModulo), Some (DInt z) => z =? 0 | _, _ => false end.

Definition on_texts (x y : option datum) : res refusal (option datum) :=
  match x, y with
  | None, _ | _, None => Ok None
  | Some (DText x), Some (DText y) => Ok (Some (DText (x ++ y)))
  | _, _ => Throw NotSupported
  end.

Section Open.
Context (sem : ParsedExpression -> res refusal (option datum)).

Definition sem_condition (e : ParsedExpression) : res refusal (option bool) := v ← sem e; condition e v.
Definition sem_operand (target : LogicalTypeId) (e : ParsedExpression) : res refusal (option datum) := v ← sem e; as_operand target e v.
End Open.

Fixpoint sem (e : ParsedExpression) : res refusal (option datum) :=
  match e with
  | CONSTANT v => Ok (payload v)
  | COLUMN_REF c => Ok (row c)
  | COMPARISON type l r =>
      t ← compare_as [l; r];
      x ← sem_operand sem t l; y ← sem_operand sem t r;
      Ok (truth (compare3 type x y))
  | CONJUNCTION is_or children =>
      vs ← mapR (sem_condition sem) children;
      Ok (truth (fold_right (if is_or then or3 else and3) (Some (negb is_or)) vs))
  | OPERATOR_IS_NULL e => v ← sem e; Ok (Some (DBool (bool_decide (v = None))))
  | OPERATOR_IS_NOT_NULL e => v ← sem e; Ok (Some (DBool (negb (bool_decide (v = None)))))
  | OPERATOR_NOT e => v ← sem_condition sem e; Ok (truth (not3 v))
  | OPERATOR_COALESCE children =>
      t ← CommonType children;
      (fix go l := match l with [] => Ok None | e :: l => v ← sem_operand sem t e; match v with None => go l | _ => Ok v end end) children
  | OPERATOR_NULLIF a b =>
      t ← compare_as [a; b];
      x ← sem_operand sem t a; y ← sem_operand sem t b;
      v ← sem a;
      Ok (match compare3 COMPARE_EQUAL x y with Some true => None | _ => v end)
  | COMPARE_IN not_in e l =>
      t ← compare_as (e :: l);
      x ← sem_operand sem t e; ys ← mapR (sem_operand sem t) l;
      let r := fold_right or3 (Some false) (map (compare3 COMPARE_EQUAL x) ys) in
      Ok (truth (if not_in then not3 r else r))
  | CASE checks els =>
      t ← CommonType (map snd checks ++ [els]);
      (fix go checks :=
         match checks with
         | [] => sem_operand sem t els
         | (w, e) :: checks => c ← sem_condition sem w; match c with Some true => sem_operand sem t e | _ => go checks end
         end) checks
  | CAST child target try_cast =>
      v ← sem child;
      s ← source_type child;
      match castv s target v with Ok v => Ok v | Throw e => if try_cast then Ok None else Throw e end
  | BETWEEN input lower upper =>
      t ← compare_as [input; lower; upper];
      x ← sem_operand sem t input; y ← sem_operand sem t lower; z ← sem_operand sem t upper;
      Ok (truth (and3 (compare3 COMPARE_GREATERTHANOREQUALTO x y) (compare3 COMPARE_LESSTHANOREQUALTO x z)))
  | UNARY name e' =>
      t ← RequireType e;
      v ← sem e';
      match v, name with
      | None, _ => Ok None
      | Some (DInt z), UMinus => int_result t (- z)
      | Some (DInt z), UPlus => Ok (Some (DInt z))
      | Some (DInt z), UBitNot => Ok (Some (DInt (Z.lnot z)))
      | _, _ => Throw NotSupported
      end
  | BINARY NConcat l r => x ← sem_operand sem VARCHAR l; y ← sem_operand sem VARCHAR r; on_texts x y
  | BINARY name l r =>
      x ← sem l; y ← sem r;
      if zero_divisor name y then Throw NotSupported
      else on_ints x y (fun x y =>
        t ← RequireType e; tl ← RequireType l; tr ← RequireType r;
        arith_value name t (default t (TryGetMaxLogicalType tl tr)) x y)
  end.
End Sem.

(** ** The expressions the theorem is about *)

(** Integer types of at most 64 bits. *)
Definition small (t : LogicalTypeId) : bool :=
  match t with TINYINT | SMALLINT | INTEGER | BIGINT | UTINYINT | USMALLINT | UINTEGER => true | _ => false end.
Definition signed (t : LogicalTypeId) : bool := match t with TINYINT | SMALLINT | INTEGER | BIGINT => true | _ => false end.

Section Scope.
Context (RequireType : ParsedExpression -> res refusal LogicalTypeId)
  (TryBindComparison TryGetMaxLogicalType : LogicalTypeId -> LogicalTypeId -> option LogicalTypeId)
  (cast_datum : LogicalTypeId -> LogicalTypeId -> datum -> option datum).

Abbreviation TryGetConstantValue := (TryGetConstantValue cast_datum).

Definition require (e : ParsedExpression) (P : LogicalTypeId -> bool) : bool :=
  match RequireType e with Ok t => P t | Throw _ => false end.

(** An operand that is compared without a cast has the values of its cast:
    integers compared with doubles do not. *)
Definition operand_ok (target : LogicalTypeId) (e : ParsedExpression) : bool :=
  match TryGetConstantValue e with
  | Some v => true
  | None =>
      match RequireType e with
      | Ok t =>
          is_type t target || SQLiteIsIntegerType t && SQLiteIsIntegerType target || negb (numeric_operand t target) ||
          is_type t FLOAT && is_type target DOUBLE
      | Throw _ => true
      end
  end.
Definition operands_ok (l : list ParsedExpression) : bool :=
  match compare_as RequireType TryBindComparison cast_datum l with Ok t => forallb (operand_ok t) l | Throw _ => true end.

(** A real number is converted to another type of real numbers only from FLOAT to
    DOUBLE. *)
Definition as_ok (target : LogicalTypeId) (e : ParsedExpression) : bool :=
  match TryGetConstantValue e with
  | Some v => true
  | None =>
      match RequireType e with
      | Ok t =>
          is_type t target ||
          negb (bool_decide (SQLiteGetRepresentation t = REPR_REAL) && bool_decide (SQLiteGetRepresentation target = REPR_REAL)) ||
          is_type t FLOAT && is_type target DOUBLE
      | Throw _ => true
      end
  end.
Definition all_as_ok (l : list ParsedExpression) : bool :=
  match CommonType RequireType TryGetMaxLogicalType l with Ok t => forallb (as_ok t) l | Throw _ => true end.

(** A condition that is a BOOLEAN, not an integer. *)
Definition boolean_like (e : ParsedExpression) : bool :=
  SQLiteIsBooleanExpression e || require e (fun t => is_type t BOOLEAN || is_type t SQLNULL).

Fixpoint scope (e : ParsedExpression) : bool :=
  match e with
  | CONSTANT v => typed (vtype v) (payload v)
  | COLUMN_REF c => true
  | COMPARISON _ l r => scope l && scope r && operands_ok [l; r]
  | CONJUNCTION is_or children =>
      forallb scope children &&
      (if is_or then forallb (fun c => forallb boolean_like (SQLiteGetConjuncts c)) children
       else (2 <=? length children)%nat || forallb boolean_like children)
  | OPERATOR_IS_NULL e | OPERATOR_IS_NOT_NULL e | OPERATOR_NOT e => scope e
  | OPERATOR_COALESCE children => forallb scope children && all_as_ok children
  | OPERATOR_NULLIF a b => scope a && scope b && operands_ok [a; b]
  | COMPARE_IN _ e l => scope e && forallb scope l && operands_ok (e :: l)
  | CASE checks els =>
      forallb (fun '(w, t) => scope w && scope t) checks && scope els && all_as_ok (map snd checks ++ [els])
  | CAST child _ _ => scope child
  | BETWEEN a b c => scope a && scope b && scope c && operands_ok [a; b; c]
  | UNARY name e' =>
      scope e' && require e' small && match name with UMinus => require e small | UPlus => true | UBitNot => require e' signed end
  | BINARY NConcat l r => scope l && scope r && as_ok VARCHAR l && as_ok VARCHAR r
  | BINARY name l r =>
      scope l && scope r && require l small && require r small &&
      match name with NDivide => false | NPlus | NMinus | NTimes | NIntDivide => require e small | _ => true end
  end.
End Scope.

(** ** What is required of DuckDB's binder *)

Class BinderLaws (RequireType : ParsedExpression -> res refusal LogicalTypeId)
  (TryBindComparison TryGetMaxLogicalType : LogicalTypeId -> LogicalTypeId -> option LogicalTypeId)
  (cast_datum : LogicalTypeId -> LogicalTypeId -> datum -> option datum)
  (Equals : ParsedExpression -> ParsedExpression -> bool) (row : nat -> option datum) : Prop := {
  type_sound e t v : scope RequireType TryBindComparison TryGetMaxLogicalType cast_datum e = true -> RequireType e = Ok t ->
    sem RequireType TryBindComparison TryGetMaxLogicalType cast_datum row e = Ok v -> typed t v = true;
  equals_sem a b : Equals a b = true ->
    sem RequireType TryBindComparison TryGetMaxLogicalType cast_datum row a =
    sem RequireType TryBindComparison TryGetMaxLogicalType cast_datum row b;
  equals_type a b : Equals a b = true -> RequireType a = RequireType b;
  constant_type e c t : TryGetConstantValue cast_datum e = Some c -> RequireType e = Ok t -> t = vtype c
}.
