(* ===== verification/WriterSound.v ===== *)
(** * The SQL of a pushed down expression means the expression

    For every piece the writer of [SqlWriter] puts together: its evaluation by the
    engine is the representation of the value DuckDB computes.  The lemmas follow
    the functions of the writer; [W_sound] is the induction hypothesis for the parts
    of an expression.  [writer_sound] ties the knot, and a small binder shows that
    the laws asked of DuckDB can hold. *)

From S2P Require Import Prelude IntArith Record Aggregates Types SqlText RealParse VdbeExpr Affinity SqlFunctions SqlWriter SqlMeaning.

(** ** Values *)

Lemma byteb_all z : forallb byteb z = true -> Forall is_byte z.
Proof.
  rewrite forallb_forall, Forall_forall. intros H x Hx. specialize (H x (proj1 (list_elem_of_In _ _) Hx)).
  unfold byteb, is_u in *. lia.
Qed.

Lemma rep_ok t v : typed t v = true -> value_ok (rep v).
Proof.
  destruct v as [[b|z|r|z|z]|]; cbn [typed has_type rep value_ok]; [..|done]; intros H.
  - destruct b; solve_width.
  - apply in_i64_s. by destruct (in_bounds t z).
  - destruct t; try done; unfold is_u; destruct (IsNaN r); (lia || done).
  - destruct t; try done; by apply byteb_all.
  - destruct t; try done; by apply byteb_all.
Qed.

Lemma int_in_range t z : has_type t (DInt z) = true -> is_s 64 z.
Proof. cbn [has_type]. intros H. apply in_i64_s. by destruct (in_bounds t z). Qed.

Lemma datum_order_rep t a b : has_type t a = true -> has_type t b = true ->
  storage_order (rep (Some a)) (rep (Some b)) = datum_order a b.
Proof.
  intros Ha Hb. destruct a, b, t; cbn [has_type] in *; try done; unfold storage_order; cbn [rep rank number bytes Z.eqb Pos.eqb datum_order];
    try done; by rewrite <- three_way_scaled, three_way_idem.
Qed.

(** The operator of a comparison. *)
Definition vdbe_op (type : cmp_type) : cmp_op * bool :=
  match type with
  | COMPARE_EQUAL => (OP_Eq, false) | COMPARE_NOTEQUAL => (OP_Ne, false)
  | COMPARE_LESSTHAN => (OP_Lt, false) | COMPARE_GREATERTHAN => (OP_Gt, false)
  | COMPARE_LESSTHANOREQUALTO => (OP_Le, false) | COMPARE_GREATERTHANOREQUALTO => (OP_Ge, false)
  | COMPARE_DISTINCT_FROM => (OP_Ne, true) | COMPARE_NOT_DISTINCT_FROM => (OP_Eq, true)
  end.

(** Both programs render integers alike. *)
Lemma digits_div x : 0 <= x -> (x <? 10) = (x / 10 =? 0).
Proof.
  intros Hx. pose proof (Z.div_mod x 10 ltac:(lia)). pose proof (Z.mod_pos_bound x 10 ltac:(lia)).
  destruct (Z.ltb_spec x 10), (Z.eqb_spec (x / 10) 0); (done || lia).
Qed.

Lemma digits_loop_digits f : forall x acc, 0 <= x -> digits_loop f x acc = digits f x ++ acc.
Proof.
  induction f as [|f IH]; intros x acc Hx; [done|]. cbn [digits_loop digits]. rewrite digits_div, <- app_assoc, (Z.add_comm 48) by done.
  destruct (x / 10 =? 0); [done|]. apply IH. apply Z.div_pos; lia.
Qed.

Lemma digits_fuel k f : forall x, 0 <= x < 10 ^ Z.of_nat (S f) -> digits (S f) x = digits (S f + k) x.
Proof.
  induction f as [|f IH]; intros x Hx; cbn [Nat.add digits]; rewrite digits_div by lia; f_equal.
  - replace (x / 10 =? 0) with true; [done|]. symmetry. apply Z.eqb_eq, Z.div_small. change (10 ^ Z.of_nat 1) with 10 in Hx. lia.
  - destruct (x / 10 =? 0); [done|]. apply IH. rewrite (Nat2Z.inj_succ (S f)), Z.pow_succ_r in Hx by lia.
    split; [apply Z.div_pos; lia|]. apply Z.div_lt_upper_bound; lia.
Qed.

Lemma int_text z : in_i64 z = true -> sqlite3Int64ToText z = to_string z.
Proof.
  intros Hz. assert (forall x, 0 <= x < 10 ^ 20 -> digits_loop 20 x [] = digits 40 x) as D.
  { intros x Hx. rewrite digits_loop_digits, app_nil_r by lia. exact (digits_fuel 20 19 x Hx). }
  unfold in_i64, SMALLEST_INT64, LARGEST_INT64 in Hz. unfold sqlite3Int64ToText, to_string. destruct (Z.ltb_spec z 0); [|by rewrite D by lia].
  destruct (Z.eqb_spec z SMALLEST_INT64) as [->|Hn]; [by rewrite D|]. unfold SMALLEST_INT64 in Hn. rewrite wrapu_id by solve_width. by rewrite D by lia.
Qed.

Lemma is_Null_rep v : is_Null (rep v) = match v with None => true | Some _ => false end.
Proof. by destruct v as [[]|]. Qed.

Lemma compare_sound wide type t x y : typed t x = true -> typed t y = true ->
  compare_value wide (fst (vdbe_op type)) (snd (vdbe_op type)) (rep x) (rep y) = rep (truth (compare3 type x y)).
Proof.
  intros Hx Hy. unfold compare_value.
  rewrite op_compare by (by right || by eapply rep_ok). rewrite !is_Null_rep.
  destruct x as [a|], y as [b|].
  - cbn [orb]. rewrite andb_false_r. rewrite (datum_order_rep t) by done. by destruct type.
  - destruct type; try done; by destruct a.
  - destruct type; try done; by destruct b.
  - by destruct type.
Qed.

(** Three-valued logic. *)
Lemma logic_and scale10 a b : OP_Logic scale10 true (rep (truth a)) (rep (truth b)) = rep (truth (and3 a b)).
Proof. by destruct a as [[]|], b as [[]|]. Qed.
Lemma logic_or scale10 a b : OP_Logic scale10 false (rep (truth a)) (rep (truth b)) = rep (truth (or3 a b)).
Proof. by destruct a as [[]|], b as [[]|]. Qed.
Lemma logic_not scale10 a : OP_Not scale10 (rep (truth a)) = rep (truth (not3 a)).
Proof. by destruct a as [[]|]. Qed.

(** The truth value of a condition. *)
Definition cond_of (scale10 : Z -> Z -> Z) (m : Mem) : option bool :=
  if is_Null m then None else Some (is_true scale10 m).

Lemma boolean_value scale10 m k : sqlite3VdbeBooleanValue scale10 m k = match cond_of scale10 m with None => k | Some b => Z.b2z b end.
Proof. destruct m; unfold cond_of, is_true; cbn [is_Null sqlite3VdbeBooleanValue]; try done; by destruct (_ =? 0). Qed.

Lemma logic_cond scale10 is_and a b :
  OP_Logic scale10 is_and a b = rep (truth ((if is_and then and3 else or3) (cond_of scale10 a) (cond_of scale10 b))).
Proof. unfold OP_Logic. rewrite !boolean_value. by destruct is_and, (cond_of scale10 a) as [[]|], (cond_of scale10 b) as [[]|]. Qed.

Lemma not_cond scale10 a : OP_Not scale10 a = rep (truth (not3 (cond_of scale10 a))).
Proof. unfold OP_Not. rewrite boolean_value. unfold cond_of. destruct (is_Null a); [done|]. by destruct (is_true scale10 a). Qed.

Lemma cond_truth scale10 a : cond_of scale10 (rep (truth a)) = a.
Proof. by destruct a as [[]|]. Qed.

Lemma and3_assoc a b c : and3 a (and3 b c) = and3 (and3 a b) c.
Proof. by destruct a as [[]|], b as [[]|], c as [[]|]. Qed.
Lemma or3_assoc a b c : or3 a (or3 b c) = or3 (or3 a b) c.
Proof. by destruct a as [[]|], b as [[]|], c as [[]|]. Qed.

Definition op3 (is_and : bool) : option bool -> option bool -> option bool := if is_and then and3 else or3.
Definition all3 (is_and : bool) (l : list (option bool)) : option bool := fold_right (op3 is_and) (Some is_and) l.

Lemma op3_unit is_and a : op3 is_and a (Some is_and) = a.
Proof. by destruct is_and, a as [[]|]. Qed.

Lemma logic_fold scale10 is_and l : forall x,
  fold_left (OP_Logic scale10 is_and) l x =
  if bool_decide (l = []) then x else rep (truth (op3 is_and (cond_of scale10 x) (all3 is_and (map (cond_of scale10) l)))).
Proof.
  induction l as [|y l IH]; intros x; [done|]. cbn [fold_left map]. rewrite IH, logic_cond. unfold all3. cbn [fold_right].
  fold (all3 is_and (map (cond_of scale10) l)). rewrite cond_truth. rewrite (bool_decide_eq_false_2 (y :: l = [])) by done.
  case_bool_decide as E; [subst l; cbn [map]; unfold all3; cbn [fold_right]; by rewrite op3_unit|].
  do 2 f_equal. destruct is_and; symmetry; [apply and3_assoc|apply or3_assoc].
Qed.

(** A conjunction or disjunction of at least two conditions, or of truth values. *)
Lemma logic_sound scale10 is_and ms cs : map (cond_of scale10) ms = cs ->
  ((2 <= length ms)%nat \/ Forall2 (fun m c => m = rep (truth c)) ms cs) ->
  logic scale10 is_and ms = rep (truth (all3 is_and cs)).
Proof.
  intros <- H. destruct ms as [|x ms]; [by destruct is_and|]. unfold logic, all3. rewrite logic_fold. cbn [map fold_right].
  case_bool_decide as E; [|done]. subst ms. cbn [map fold_right]. rewrite op3_unit.
  destruct H as [H|H]; [cbn in H; lia|]. by apply Forall2_cons in H as [Hx _].
Qed.

Lemma logic_truth scale10 is_and cs : logic scale10 is_and (map (fun c => rep (truth c)) cs) = rep (truth (all3 is_and cs)).
Proof.
  apply logic_sound; [|right].
  - rewrite map_map. rewrite <- (map_id cs) at 2. apply map_ext. intros c. apply cond_truth.
  - induction cs; by constructor.
Qed.

(** A conjunction or disjunction depends on the set of the truth values only. *)
Lemma all3_eq is_and l : all3 is_and l =
  if decide (Some (negb is_and) ∈ l) then Some (negb is_and) else if decide (None ∈ l) then None else Some is_and.
Proof.
  induction l as [|a l IH]; [done|]. unfold all3 in *. cbn [fold_right]. rewrite IH.
  repeat case_decide; destruct is_and, a as [[]|]; try done; exfalso; set_solver.
Qed.

Lemma all3_set is_and l l' : (forall x, x ∈ l <-> x ∈ l') -> all3 is_and l = all3 is_and l'.
Proof. intros H. rewrite !all3_eq. pose proof (H (Some (negb is_and))). pose proof (H None). repeat case_decide; done || tauto. Qed.

Lemma all3_app is_and l l' : all3 is_and (l ++ l') = op3 is_and (all3 is_and l) (all3 is_and l').
Proof.
  induction l as [|a l IH]; unfold all3 in *; cbn [app fold_right].
  - by destruct is_and, (fold_right _ _ l') as [[]|].
  - rewrite IH. destruct is_and; [apply and3_assoc|apply or3_assoc].
Qed.

Lemma and_or_distr k l : all3 false (map (and3 k) l) = and3 k (all3 false l).
Proof.
  induction l as [|a l IH]; unfold all3 in *; cbn [map fold_right]; [by destruct k as [[]|]|].
  rewrite IH. by destruct k as [[]|], a as [[]|], (fold_right _ _ l) as [[]|].
Qed.

(** Conjuncts that all disjuncts share can be taken out. *)
Section Factor.
Context (Equals : ParsedExpression -> ParsedExpression -> bool) (val : ParsedExpression -> option bool).
Hypothesis equal_val : forall a b, Equals a b = true -> val a = val b.

Definition others (common d : list ParsedExpression) : list ParsedExpression :=
  List.filter (fun c => negb (SQLiteContainsExpression Equals common c)) d.

Lemma contains_val l e : SQLiteContainsExpression Equals l e = true -> val e ∈ map val l.
Proof.
  unfold SQLiteContainsExpression. intros (x & Hx & He)%existsb_exists. rewrite <- (equal_val x e He).
  apply list_elem_of_In, in_map, Hx.
Qed.

Lemma common_in first ds : forall acc c, c ∈ common_conjuncts Equals first ds acc ->
  c ∈ acc \/ c ∈ first /\ Forall (fun d => SQLiteContainsExpression Equals d c = true) ds.
Proof.
  induction first as [|a first IH]; cbn [common_conjuncts]; intros acc c Hc; [by left|].
  apply IH in Hc as [Hc|[H1 H2]]; [|right; split; [by right|done]].
  destruct (_ && _) eqn:E in Hc; [|by left]. apply elem_of_app in Hc as [Hc|Hc]; [by left|].
  apply list_elem_of_singleton in Hc as ->. right. split; [by left|]. apply andb_prop in E as [_ E].
  rewrite forallb_forall in E. apply Forall_forall. intros d Hd. by apply E, list_elem_of_In.
Qed.

Lemma disjunct_factors common d : (forall c, c ∈ common -> val c ∈ map val d) ->
  all3 true (map val d) = and3 (all3 true (map val common)) (all3 true (map val (others common d))).
Proof.
  intros H. change and3 with (op3 true). rewrite <- all3_app, <- map_app. apply all3_set. intros x.
  rewrite !list_elem_of_In, !in_map_iff. split.
  - intros (c & <- & Hc). destruct (SQLiteContainsExpression Equals common c) eqn:E.
    + apply contains_val, list_elem_of_In, in_map_iff in E as (y & Hy & Hi). exists y. split; [done|]. apply in_or_app. by left.
    + exists c. split; [done|]. apply in_or_app. right. unfold others. apply filter_In. by rewrite E.
  - intros (c & <- & [Hc|Hc]%in_app_or).
    + apply list_elem_of_In, H, list_elem_of_In, in_map_iff in Hc as (y & Hy & Hi). by exists y.
    + apply filter_In in Hc as [Hc _]. by exists c.
Qed.

Lemma disjunction_factors first ds (common := common_conjuncts Equals first ds []) :
  all3 false (map (fun d => all3 true (map val d)) (first :: ds)) =
  and3 (all3 true (map val common)) (all3 false (map (fun d => all3 true (map val (others common d))) (first :: ds))).
Proof.
  rewrite <- and_or_distr, map_map. f_equal. apply map_ext_in. intros d Hd. apply disjunct_factors. intros c Hc.
  apply common_in in Hc as [Hc|[H1 H2]]; [by apply elem_of_nil in Hc|]. destruct Hd as [<-|Hd].
  - by apply list_elem_of_In, in_map, list_elem_of_In.
  - apply contains_val. rewrite Forall_forall in H2. by apply H2, list_elem_of_In.
Qed.

Lemma unfactored common ds : Exists (fun d => others common d = []) ds ->
  all3 false (map (fun d => all3 true (map val (others common d))) ds) = Some true.
Proof.
  intros H. rewrite all3_eq. rewrite decide_True; [done|]. apply Exists_exists in H as (d & Hd & He).
  apply list_elem_of_In, in_map_iff. exists d. rewrite He. split; [done|]. by apply list_elem_of_In.
Qed.
End Factor.

(** ** Lists *)

Lemma mapR_ok {E A B} (f : A -> res E B) l l' : mapR f l = Ok l' <-> Forall2 (fun x y => f x = Ok y) l l'.
Proof.
  revert l'. induction l as [|x l IH]; intros l'; cbn [mapR].
  - split; [by intros [= <-]|]. by inversion 1.
  - split.
    + destruct (f x) as [y|] eqn:Ex; [|done]. cbn [mbind res_bind]. destruct (mapR f l) as [ys|] eqn:Em; [|done].
      intros [= <-]. constructor; [done|]. by apply IH.
    + inversion 1 as [|? y ? ys Hx Hl]. subst. rewrite Hx. cbn [mbind res_bind]. apply IH in Hl. by rewrite Hl.
Qed.

Lemma mapR_app {E A B} (f : A -> res E B) l l' : mapR f (l ++ l') = ys ← mapR f l; zs ← mapR f l'; Ok (ys ++ zs).
Proof.
  induction l as [|x l IH]; cbn [mapR app mbind res_bind]; [by destruct (mapR f l')|]. rewrite IH. destruct (f x); [|done].
  cbn [mbind res_bind]. destruct (mapR f l); [|done]. cbn [mbind res_bind]. by destruct (mapR f l').
Qed.

Lemma bind_ok {E A B} (m : res E A) (k : A -> res E B) y : (m ≫= k) = Ok y -> exists x, m = Ok x /\ k x = Ok y.
Proof. destruct m as [x|]; [|done]. intros H. by exists x. Qed.

Ltac bind H := let x := fresh "x" in let E := fresh "E" in apply bind_ok in H as (x & E & H).

(** ** Soundness *)

Section Sound.
Context (wide : bool) (fadd fsub fmul fdiv : Z -> Z -> Z) (scale10 : Z -> Z -> Z) (real_text : Z -> list Z)
  (RequireType : ParsedExpression -> res refusal LogicalTypeId)
  (TryBindComparison TryGetMaxLogicalType : LogicalTypeId -> LogicalTypeId -> option LogicalTypeId)
  (cast_datum : LogicalTypeId -> LogicalTypeId -> datum -> option datum) (Equals : ParsedExpression -> ParsedExpression -> bool)
  (GetDouble : Value -> Z) (TryGetCanonicalText : Value -> option (list Z)) (date_supported : Value -> bool)
  (WriteIntervalArithmetic : ParsedExpression -> ParsedExpression -> bool -> res refusal sql)
  (statement_mode default_division : bool) (date_value : LogicalTypeId -> Mem -> option datum)
  (call : list Z -> list Mem -> res sql_error Mem) (row : nat -> option datum).
Context `{!CastLaws cast_datum GetDouble} `{!BinderLaws RequireType TryBindComparison TryGetMaxLogicalType cast_datum Equals row}.

Abbreviation ev := (eval wide fadd fsub fmul fdiv scale10 real_text cast_datum date_value call (fun c => rep (row c))).
Abbreviation sm := (sem RequireType TryBindComparison TryGetMaxLogicalType cast_datum row).
Abbreviation sc := (scope RequireType TryBindComparison TryGetMaxLogicalType cast_datum).
Abbreviation WC := (WriteCast statement_mode).
Abbreviation constant := (WriteConstant cast_datum GetDouble TryGetCanonicalText).
Abbreviation tgc := (TryGetConstantValue cast_datum).
Abbreviation cast_v := (castv cast_datum).

Lemma castv_typed s t v v' : typed s v = true -> cast_v s t v = Ok v' -> typed t v' = true.
Proof.
  unfold castv. destruct v as [d|]; [|by intros _ [= <-]]. destruct (cast_datum s t d) as [d'|] eqn:E; [|done].
  intros H [= <-]. by eapply cast_typed.
Qed.

Lemma constant_sound v s : constant v = Ok s -> typed (vtype v) (payload v) = true -> ev s = Ok (rep (payload v)).
Proof.
  destruct v as [t [d|]]; unfold WriteConstant; cbn [payload vtype typed]; [|by intros [= <-]].
  unfold TryCastAs. cbn [payload vtype].
  destruct t, d; cbn [has_type]; try done; intros H T; try (by simplify_eq).
  all: try (rewrite cast_int in H; [|done|done|by destruct (in_i64 z); [|rewrite andb_false_r in T]];
    destruct (in_bounds BIGINT z); cbn in H; [by simplify_eq|done]).
  all: try (rewrite double_value in H; destruct (IsNaN r); [done|by simplify_eq]).
  all: by destruct (has_nul z); simplify_eq.
Qed.

(** Values by their types. *)
Lemma integer_types t z : in_bounds t z = true -> SQLiteIsIntegerType t = true.
Proof. destruct t; done. Qed.

Lemma typed_integer t v : SQLiteIsIntegerType t = true -> typed t v = true -> v = None \/ exists z, v = Some (DInt z) /\ in_i64 z = true.
Proof.
  intros Ht. destruct v as [[b|z|r|z|z]|]; cbn [typed has_type]; intros H; [by destruct t| |by destruct t..|by left].
  right. exists z. split; [done|]. by destruct (in_bounds t z).
Qed.

Lemma typed_boolean v : typed BOOLEAN v = true -> exists b, v = truth b.
Proof. destruct v as [[b|z|r|z|z]|]; cbn [typed has_type]; intros H; try done; [by exists (Some b)|by exists None]. Qed.

(** Of dates, times and decimals the model has NULL only. *)
Definition valueless (t : LogicalTypeId) : bool := match t with DATE | TIMESTAMP | DECIMAL _ _ | SQLNULL => true | _ => false end.

Lemma typed_none t v : valueless t = true -> typed t v = true -> v = None.
Proof. destruct v as [[]|], t; done. Qed.

Lemma typed_float v : typed FLOAT v = true -> v = None \/ exists r, v = Some (DReal r).
Proof. destruct v as [[b|z|r|z|z]|]; cbn [typed has_type]; intros H; try done; [right; by exists r|by left]. Qed.

Lemma read_back src v : typed src v = true -> src <> FLOAT -> ToDuckDBValue cast_datum date_value (rep v) src = Some v.
Proof.
  intros H Hf. destruct v as [[b|z|r|z|z]|]; [| | | | |by destruct src]; cbn [typed has_type rep] in *.
  - destruct src; try done. cbn [ToDuckDBValue]. rewrite cast_int_bool by done. by destruct b.
  - assert (in_bounds src z = true) as Hb by (by destruct (in_bounds src z)). pose proof (integer_types _ _ Hb) as Hi.
    assert (in_i64 z = true) as Hz by (rewrite Hb in H; done).
    assert (ToDuckDBValue cast_datum date_value (MEM_Int z) src = Some <$> cast_datum BIGINT src (DInt z)) as -> by (by destruct src).
    rewrite cast_int by done. by rewrite Hb.
  - destruct src; try done. cbn [ToDuckDBValue]. by rewrite cast_refl.
  - by destruct src.
  - by destruct src.
Qed.

(** The result of a cast that may fail. *)
Definition cast_result (try_cast : bool) (r : res refusal (option datum)) (m : res sql_error Mem) : Prop :=
  match r with Ok v => m = Ok (rep v) | Throw _ => try_cast = true -> m = Ok (MEM_Null false) end.

Lemma cast_call_sound src tgt try_cast s v : typed src v = true -> src <> FLOAT -> ev s = Ok (rep v) ->
  cast_result try_cast (cast_v src tgt v) (ev (SCastCall try_cast s src tgt)).
Proof.
  intros T F Es. cbn [eval]. rewrite Es. cbn [mbind res_bind]. unfold SQLiteCastFunction. rewrite read_back by done.
  unfold castv. destruct v as [d|]; [|done]. destruct (cast_datum src tgt d); [done|]. by intros ->.
Qed.

Lemma Ok_inj {E A} (x y : A) : Ok (E := E) x = Ok y -> x = y.
Proof. by intros [= ->]. Qed.

Lemma is_type_eq a b : is_type a b = true -> a = b.
Proof. unfold is_type. by intros ?%bool_decide_eq_true. Qed.

Lemma subtype_sound src tgt v : SQLiteIsIntegerSubtype src tgt = Ok true -> typed src v = true -> cast_v src tgt v = Ok v.
Proof.
  unfold SQLiteIsIntegerSubtype. destruct (SQLiteIsIntegerType src) eqn:Es; [|done]. destruct (SQLiteIsIntegerType tgt) eqn:Et; [|done].
  cbn [negb orb]. intros H T. destruct (typed_integer src v Es T) as [->|(z & -> & Hz)]; [done|]. cbn [castv typed has_type] in *.
  rewrite cast_int by done. assert (in_bounds tgt z = true) as ->; [|done].
  destruct (is_type src tgt || is_type tgt HUGEINT) eqn:Eq.
  - apply orb_prop in Eq as [->%is_type_eq| ->%is_type_eq]; [by destruct (in_bounds tgt z)|].
    unfold in_bounds. cbn [int_bounds]. unfold in_i64, SMALLEST_INT64, LARGEST_INT64 in Hz. lia.
  - unfold in_bounds in *. destruct (int_bounds src) as [[a b]|]; [|done]. destruct (int_bounds tgt) as [[a' b']|]; [|done].
    destruct (_ || _) eqn:Eo in H; [done|]. apply Ok_inj in H. apply andb_prop in T as [T _]. lia.
Qed.

Lemma cast_direct_sound src tgt s s' v : src <> tgt -> write_cast_direct s src tgt = Ok (Some s') -> typed src v = true ->
  ev s = Ok (rep v) -> exists v', cast_v src tgt v = Ok v' /\ ev s' = Ok (rep v').
Proof.
  intros Hne H T Es. assert (forall t, small t = true -> is_type src BOOLEAN = true -> SQLiteIsIntegerType t = true ->
    exists v', cast_v src t v = Ok v' /\ ev s = Ok (rep v')) as Bool.
  { intros t _ ->%is_type_eq Ht. destruct (typed_boolean v T) as [[b|] ->]; [|by exists None].
    exists (Some (DInt (Z.b2z b))). cbn [castv truth fmap option_fmap option_map]. rewrite cast_bool_int by done. by rewrite Es. }
  assert (forall t, small t = true -> SQLiteIsIntegerSubtype src t = Ok true -> exists v', cast_v src t v = Ok v' /\ ev s = Ok (rep v')) as Sub.
  { intros t _ Hs. exists v. split; [by apply subtype_sound|done]. }
  destruct tgt; cbn [write_cast_direct] in H; try done;
    try (destruct (is_type src BOOLEAN) eqn:Eb; [simplify_eq; by apply Bool|]; bind H;
         match goal with x : bool |- _ => destruct x; [|done] end; simplify_eq; by apply Sub).
  - (* BOOLEAN *)
    destruct (SQLiteIsIntegerType src) eqn:Ei; [|done]. simplify_eq.
    destruct (typed_integer src v Ei T) as [->|(z & -> & Hz)].
    + exists None. split; [done|]. cbn [eval]. by rewrite Es.
    + exists (Some (DBool (negb (z =? 0)))). cbn [castv]. rewrite cast_int_bool by done. split; [done|]. cbn [eval]. rewrite Es.
      cbn [mbind res_bind binary_value rep]. f_equal. unfold compare_value, OP_Compare. cbn [is_Int andb u_i].
      destruct (Z.ltb_spec 0 z), (Z.ltb_spec z 0), (Z.eqb_spec z 0); try lia; done.
  - (* DOUBLE *)
    destruct (SQLiteIsIntegerType src || is_type src BOOLEAN) eqn:Ei.
    + simplify_eq. cbn [eval]. rewrite Es. cbn [mbind res_bind]. apply orb_prop in Ei as [Ei| ->%is_type_eq].
      * destruct (typed_integer src v Ei T) as [->|(z & -> & Hz)]; [by exists None|]. eexists. cbn [castv]. by rewrite cast_int_double.
      * destruct (typed_boolean v T) as [[b|] ->]; [|by exists None]. eexists. cbn [castv truth fmap option_fmap option_map].
        by rewrite cast_bool_double.
    + destruct (is_type src FLOAT || is_decimal src) eqn:Ef; [|done]. simplify_eq. apply orb_prop in Ef as [->%is_type_eq|Ed].
      * destruct (typed_float v T) as [->|(r & ->)]; [by exists None|]. eexists. cbn [castv]. rewrite cast_float. by rewrite Es.
      * destruct src; try done. assert (v = None) as -> by (by refine (typed_none _ _ _ T)). exists None. by rewrite Es.
  - (* VARCHAR *)
    destruct (SQLiteIsIntegerType src) eqn:Ei; [|destruct (is_type src BOOLEAN) eqn:Eb].
    + simplify_eq. cbn [eval]. rewrite Es. cbn [mbind res_bind].
      destruct (typed_integer src v Ei T) as [->|(z & -> & Hz)]; [by exists None|]. eexists. cbn [castv]. rewrite cast_int_text, <- int_text by done. done.
    + simplify_eq. apply is_type_eq in Eb as ->. cbn [eval]. rewrite Es. cbn [mbind res_bind].
      destruct (typed_boolean v T) as [[b|] ->]; [|by exists None].
      exists (Some (DText (word (if b then "true" else "false")))). cbn [castv truth fmap option_fmap option_map].
      rewrite cast_bool_text. by destruct b.
    + destruct (is_type src DATE || is_type src TIMESTAMP) eqn:Ed; [|done]. simplify_eq.
      assert (v = None) as ->; [|by exists None; rewrite Es]. apply orb_prop in Ed as [->%is_type_eq| ->%is_type_eq]; by refine (typed_none _ _ _ T).
  - (* DATE *)
    destruct (is_type src TIMESTAMP) eqn:Ed; [|done]. simplify_eq. apply is_type_eq in Ed as ->.
    assert (v = None) as -> by (by refine (typed_none _ _ _ T)). exists None. split; [done|]. cbn [eval mapR]. rewrite Es. cbn [mbind res_bind].
    done.
  - (* TIMESTAMP *)
    destruct (is_type src DATE) eqn:Ed; [|done]. simplify_eq. apply is_type_eq in Ed as ->.
    assert (v = None) as -> by (by refine (typed_none _ _ _ T)). exists None. split; [done|]. cbn [eval]. by rewrite Es.
Qed.

Lemma castv_refl t v : typed t v = true -> cast_v t t v = Ok v.
Proof. destruct v as [d|]; [|done]. cbn [typed castv]. intros H. by rewrite cast_refl. Qed.

Lemma cast_sound src tgt try_cast s s' v : WC s src tgt try_cast = Ok s' -> typed src v = true -> ev s = Ok (rep v) ->
  cast_result try_cast (cast_v src tgt v) (ev s').
Proof.
  intros H T Es. unfold WriteCast in H. destruct (is_type src tgt) eqn:E1.
  { apply is_type_eq in E1 as ->. simplify_eq. by rewrite castv_refl. }
  destruct (is_type src SQLNULL) eqn:E2.
  { apply is_type_eq in E2 as ->. simplify_eq. by rewrite (typed_none SQLNULL v). }
  destruct (HasRepresentation tgt) eqn:E3; [|done]. cbn [negb] in H.
  destruct (write_cast_direct s src tgt) as [[s1|]|] eqn:E4; [| |done]; cbn [mbind res_bind] in H.
  - simplify_eq. destruct (cast_direct_sound src tgt s s' v) as (v' & -> & Hv); try done.
    intros ->. unfold is_type in E1. by rewrite bool_decide_eq_true_2 in E1.
  - destruct (_ && _) in H; [done|]. destruct (is_type src FLOAT || is_decimal src) eqn:E5; [done|].
    unfold RequireExtensionFunctions in H. destruct statement_mode; [done|]. cbn [mbind res_bind] in H. simplify_eq.
    apply cast_call_sound; try done. by intros ->.
Qed.

Lemma cast_sound_ok src tgt s s' v v' : WC s src tgt false = Ok s' -> typed src v = true -> ev s = Ok (rep v) ->
  cast_v src tgt v = Ok v' -> ev s' = Ok (rep v').
Proof. intros H T Es Hv. pose proof (cast_sound src tgt false s s' v H T Es) as C. by rewrite Hv in C. Qed.

(** A constant has the value of its expression. *)
Lemma constant_value e v0 v : tgc e = Some v0 -> sc e = true -> sm e = Ok v -> payload v0 = v /\ typed (vtype v0) v = true.
Proof.
  destruct e as [v1| | | | | | | | | | |child target []| | |]; cbn [TryGetConstantValue]; try done.
  - intros [= ->] T [= <-]. done.
  - by destruct child.
  - destruct child as [v1| | | | | | | | | | | | | |]; try done. intros H T Hv. cbn [scope sem source_type mbind res_bind] in *.
    destruct (cast_v (vtype v1) target (payload v1)) as [w|] eqn:Ec; [|done]. simplify_eq.
    pose proof (castv_typed _ _ _ _ T Ec) as T'. unfold castv, TryCastAs in *. destruct (payload v1) as [d|]; [|by simplify_eq].
    destruct (cast_datum (vtype v1) target d); [|done]. cbn in H. by simplify_eq.
Qed.

Lemma constant_cast v target v' s : typed (vtype v) (payload v) = true -> cast_v (vtype v) target (payload v) = Ok v' ->
  match payload v with
  | None => Ok SNull
  | Some _ => match TryCastAs cast_datum v target with Some v => constant v | None => Throw NotSupported end
  end = Ok s -> ev s = Ok (rep v').
Proof.
  intros T C. pose proof (castv_typed _ _ _ _ T C) as T'. unfold castv, TryCastAs in *. destruct (payload v) as [d|]; [|by intros; simplify_eq].
  destruct (cast_datum (vtype v) target d) as [d'|]; [|done]. cbn. intros H. simplify_eq. by eapply (constant_sound (mk_value target (Some d'))).
Qed.

(** Integers keep their values. *)
Lemma integer_cast src tgt v v' : SQLiteIsIntegerType src = true -> SQLiteIsIntegerType tgt = true -> typed src v = true ->
  cast_v src tgt v = Ok v' -> v' = v.
Proof.
  intros Hs Ht T. destruct (typed_integer src v Hs T) as [->|(z & -> & Hz)]; [by intros [= <-]|]. cbn [castv]. rewrite cast_int by done.
  destruct (in_bounds tgt z); [|done]. by intros [= <-].
Qed.

Lemma float_cast v v' : typed FLOAT v = true -> cast_v FLOAT DOUBLE v = Ok v' -> v' = v.
Proof. intros T. destruct (typed_float v T) as [->|(r & ->)]; [by intros [= <-]|]. cbn [castv]. rewrite cast_float. by intros [= <-]. Qed.

Lemma same_type_cast t t' v v' : is_type t t' = true -> typed t v = true -> cast_v t t' v = Ok v' -> v' = v.
Proof. intros ->%is_type_eq T. rewrite castv_refl by done. by intros [= <-]. Qed.

(** ** One level of the writer *)

Section Step.
Context (W : ParsedExpression -> res refusal sql).
Hypothesis W_sound : forall e s v, W e = Ok s -> sc e = true -> sm e = Ok v -> ev s = Ok (rep v).

Lemma operand_sound target e s v : write_operand RequireType cast_datum GetDouble TryGetCanonicalText date_supported statement_mode W target e = Ok s ->
  sc e = true -> operand_ok RequireType cast_datum target e = true -> sem_operand RequireType cast_datum sm target e = Ok v ->
  ev s = Ok (rep v) /\ typed target v = true.
Proof.
  unfold write_operand, operand_ok, sem_operand, as_operand, operand_type. intros H Sc Op V. bind V. rename x into v0.
  destruct (tgc e) as [c|] eqn:Ec.
  - destruct (constant_value e c v0) as [<- T]; try done. cbn [mbind res_bind] in V. split; [|by eapply castv_typed].
    eapply constant_cast; try done. destruct (payload c); [|done]. destruct (TryCastAs cast_datum c target) as [v1|]; [|done].
    by destruct (SupportsValue cast_datum GetDouble date_supported v1).
  - destruct (RequireType e) as [t|] eqn:Et; [|done]. cbn [mbind res_bind] in *. bind H. rename x into s0.
    pose proof (W_sound _ _ _ E0 Sc E) as Hs. pose proof (type_sound e t v0 Sc Et E) as T. split; [|by eapply castv_typed].
    destruct (is_type t target) eqn:Ei.
    { cbn [orb] in H. simplify_eq. by rewrite (same_type_cast t target v0 v). }
    cbn [orb] in *. destruct (numeric_operand t target) eqn:En; [|by eapply cast_sound_ok].
    simplify_eq. rewrite orb_false_r in Op. apply orb_prop in Op as [Op|Op]; apply andb_prop in Op as [H1 H2].
    + by rewrite (integer_cast t target v0 v).
    + apply is_type_eq in H1 as ->. apply is_type_eq in H2 as ->. by rewrite (float_cast v0 v).
Qed.

Lemma write_as_sound target e s v : WriteAs RequireType cast_datum GetDouble TryGetCanonicalText statement_mode W e target = Ok s ->
  sc e = true -> as_ok RequireType cast_datum target e = true -> sem_operand RequireType cast_datum sm target e = Ok v ->
  ev s = Ok (rep v) /\ typed target v = true.
Proof.
  unfold WriteAs, as_ok, sem_operand, as_operand, operand_type. intros H Sc Op V. bind V. rename x into v0.
  destruct (tgc e) as [c|] eqn:Ec.
  - destruct (constant_value e c v0) as [<- T]; try done. cbn [mbind res_bind] in V. split; [|by eapply castv_typed].
    by eapply constant_cast.
  - destruct (RequireType e) as [t|] eqn:Et; [|done]. cbn [mbind res_bind] in *. bind H. rename x into s0.
    pose proof (W_sound _ _ _ E0 Sc E) as Hs. pose proof (type_sound e t v0 Sc Et E) as T. split; [|by eapply castv_typed].
    destruct (is_type t target) eqn:Ei.
    { simplify_eq. by rewrite (same_type_cast t target v0 v). }
    bind H. cbn [orb] in Op. destruct x.
    + destruct (_ && _) in E1; [|done]. rewrite (subtype_sound t target v0) in V by done. by simplify_eq.
    + destruct (_ && _) eqn:Er in H; [|by eapply cast_sound_ok]. rewrite Er in Op. simplify_eq. cbn [negb orb] in Op.
      apply andb_prop in Op as [->%is_type_eq ->%is_type_eq]. by rewrite (float_cast v0 v).
Qed.

Lemma boolean_sem e v : SQLiteIsBooleanExpression e = true -> sm e = Ok v -> exists b, v = truth b.
Proof.
  intros He V. destruct e; try done; cbn [sem] in V; repeat bind V; simplify_eq; try (by eexists); by eexists (Some _).
Qed.

Lemma condition_sound e s c : WriteCondition RequireType statement_mode W e = Ok s -> sc e = true ->
  sem_condition RequireType cast_datum sm e = Ok c ->
  exists m, ev s = Ok m /\ cond_of scale10 m = c /\ (boolean_like RequireType e = true -> m = rep (truth c)).
Proof.
  unfold WriteCondition, sem_condition, boolean_like, require. intros H Sc C. bind C. rename x into v.
  assert (forall b, W e = Ok s -> v = truth b -> exists m, ev s = Ok m /\ cond_of scale10 m = c /\ (True -> m = rep (truth c))) as Bool.
  { intros b Hw ->. exists (rep (truth b)). assert (c = b) as -> by (destruct b; by simplify_eq/=).
    split; [by eapply W_sound|]. split; [apply cond_truth|done]. }
  destruct (SQLiteIsBooleanExpression e) eqn:Eb.
  { destruct (boolean_sem e v Eb E) as [b Hb]. destruct (Bool b H Hb) as (m & ? & ? & ?). exists m. auto. }
  bind H. rename x into t. pose proof (type_sound e t v Sc E0 E) as T. rewrite E0. cbn [orb].
  destruct (is_type t BOOLEAN || is_type t SQLNULL) eqn:E1.
  { assert (exists b, v = truth b) as [b Hb].
    { apply orb_prop in E1 as [->%is_type_eq| ->%is_type_eq]; [by apply typed_boolean|]. exists None. by rewrite (typed_none SQLNULL v). }
    destruct (Bool b H Hb) as (m & ? & ? & ?). exists m. auto. }
  cbn [orb] in H. destruct (SQLiteIsIntegerType t) eqn:Ei.
  - pose proof (W_sound _ _ _ H Sc E) as Hs. eexists. split; [done|]. split; [|done].
    destruct (typed_integer t v Ei T) as [->|(z & -> & _)]; [by simplify_eq/=|].
    cbn [condition] in C. rewrite E0 in C. cbn [mbind res_bind] in C. rewrite cast_int_bool in C by done. simplify_eq.
    unfold cond_of, is_true. cbn. by destruct (z =? 0).
  - bind H. pose proof (W_sound _ _ _ E2 Sc E) as Hs. exists (rep (truth c)). split; [|split; [apply cond_truth|done]].
    eapply cast_sound_ok; try done. unfold condition in C. destruct v as [[]|]; cbn [castv]; try (by simplify_eq/=).
    { by destruct t. }
    all: rewrite E0 in C; cbn [mbind res_bind] in C; destruct (cast_datum t BOOLEAN _) as [[]|]; by simplify_eq.
Qed.

(** *** Comparisons *)

Abbreviation written := (fun target s v => ev s = Ok (rep v) /\ typed target v = true).

Lemma operands_sound target l : forall ss vs,
  mapR (write_operand RequireType cast_datum GetDouble TryGetCanonicalText date_supported statement_mode W target) l = Ok ss ->
  forallb sc l = true -> forallb (operand_ok RequireType cast_datum target) l = true ->
  mapR (sem_operand RequireType cast_datum sm target) l = Ok vs -> Forall2 (written target) ss vs.
Proof.
  induction l as [|e l IH]; cbn [mapR forallb]; intros ss vs H S O V; [by simplify_eq|].
  repeat bind H. repeat bind V. simplify_eq. apply andb_prop in S as [S1 S2], O as [O1 O2]. constructor; [by eapply operand_sound|by apply IH].
Qed.

Lemma comparison_sound l ss t vs :
  WriteComparisonOperands RequireType TryBindComparison cast_datum GetDouble TryGetCanonicalText date_supported statement_mode W l = Ok ss ->
  compare_as RequireType TryBindComparison cast_datum l = Ok t -> forallb sc l = true ->
  operands_ok RequireType TryBindComparison cast_datum l = true -> mapR (sem_operand RequireType cast_datum sm t) l = Ok vs ->
  Forall2 (written t) ss vs.
Proof.
  unfold WriteComparisonOperands, operands_ok. intros H T. rewrite T in *. cbn [mbind res_bind] in H.
  destruct (bool_decide _) in H; [done|]. by apply operands_sound.
Qed.

Lemma mapR_written t ss vs : Forall2 (written t) ss vs -> mapR ev ss = Ok (map rep vs).
Proof.
  intros H. apply mapR_ok. induction H as [|s v ss vs [Hs _] _ IH]; [constructor|]. cbn [map]. by constructor.
Qed.

Lemma write_comparison_sound type l r s v :
  write_comparison RequireType TryBindComparison cast_datum GetDouble TryGetCanonicalText date_supported statement_mode W type l r = Ok s ->
  sc (COMPARISON type l r) = true -> sm (COMPARISON type l r) = Ok v -> ev s = Ok (rep v).
Proof.
  unfold write_comparison. cbn [scope sem]. intros H [[S1 S2]%andb_prop S3]%andb_prop V. repeat bind V. bind H. simplify_eq.
  eapply (comparison_sound _ _ _ [x0; x1]) in E2; [|done|cbn; by rewrite S1, S2|done|cbn; by rewrite E0; cbn; rewrite E1].
  destruct x2 as [|a [|b [|]]]; try done. simplify_eq. apply Forall2_cons in E2 as [[Ha Ta] E2]. apply Forall2_cons in E2 as [[Hb Tb] _].
  cbn [eval]. rewrite Ha, Hb. cbn [mbind res_bind]. rewrite <- (compare_sound wide type x) by done. by destruct type.
Qed.

Lemma write_between_sound a b c s v :
  write_between RequireType TryBindComparison cast_datum GetDouble TryGetCanonicalText date_supported statement_mode W a b c = Ok s ->
  sc (BETWEEN a b c) = true -> sm (BETWEEN a b c) = Ok v -> ev s = Ok (rep v).
Proof.
  unfold write_between. cbn [scope sem]. intros H [[[S1 S2]%andb_prop S3]%andb_prop S4]%andb_prop V. repeat bind V. bind H. simplify_eq.
  eapply (comparison_sound _ _ _ [x0; x1; x2]) in E3; [|done|cbn; by rewrite S1, S2, S3|done|cbn; by rewrite E0; cbn; rewrite E1; cbn; rewrite E2].
  destruct x3 as [|p [|q [|r [|]]]]; try done. simplify_eq.
  apply Forall2_cons in E3 as [[Ha Ta] E3]. apply Forall2_cons in E3 as [[Hb Tb] E3]. apply Forall2_cons in E3 as [[Hc Tc] _].
  cbn [eval]. rewrite Ha, Hb, Hc. cbn [mbind res_bind]. rewrite <- (logic_and scale10), <- !(compare_sound wide _ x) by done. done.
Qed.

Lemma in_sound t x ys : typed t x = true -> Forall (fun y => typed t y = true) ys ->
  logic scale10 false (map (fun y => compare_value wide OP_Eq false (rep x) y) (map rep ys)) =
  rep (truth (all3 false (map (compare3 COMPARE_EQUAL x) ys))).
Proof.
  intros Tx Ty. assert (map (fun y => compare_value wide OP_Eq false (rep x) y) (map rep ys) =
    map (fun y => rep (truth (compare3 COMPARE_EQUAL x y))) ys) as ->.
  { rewrite map_map. apply map_ext_Forall. eapply Forall_impl; [done|]. intros y Hy. by apply (compare_sound wide COMPARE_EQUAL t). }
  apply logic_sound; [|right].
  - rewrite map_map. apply map_ext. intros y. apply cond_truth.
  - clear. induction ys; constructor; done.
Qed.

Lemma write_in_sound not_in e l s v :
  write_in RequireType TryBindComparison cast_datum GetDouble TryGetCanonicalText date_supported statement_mode W not_in e l = Ok s ->
  sc (COMPARE_IN not_in e l) = true -> sm (COMPARE_IN not_in e l) = Ok v -> ev s = Ok (rep v).
Proof.
  unfold write_in. cbn [scope sem]. intros H [[S1 S2]%andb_prop S3]%andb_prop V. repeat bind V. bind H. simplify_eq.
  eapply (comparison_sound _ _ _ (x0 :: x1)) in E2; [|done|cbn [forallb]; by rewrite S1|done|cbn [mapR]; by rewrite E0; cbn [mbind res_bind]; rewrite E1].
  inversion E2 as [|a ? ss ? [Ha Ta] Hs]. subst. simplify_eq. cbn [eval]. rewrite Ha, (mapR_written x ss x1) by done. cbn [mbind res_bind].
  unfold in_value. rewrite (in_sound x) by (try done; clear -Hs; induction Hs as [|? ? ? ? []]; by constructor).
  destruct not_in; [|done]. by rewrite logic_not.
Qed.

Lemma own_type e t v : sc e = true -> RequireType e = Ok t -> sm e = Ok v ->
  as_ok RequireType cast_datum t e = true /\ sem_operand RequireType cast_datum sm t e = Ok v.
Proof.
  intros S T V. unfold as_ok, sem_operand, as_operand, operand_type. rewrite V. cbn [mbind res_bind].
  pose proof (type_sound e t v S T V). destruct (tgc e) as [c|] eqn:Ec.
  - split; [done|]. rewrite <- (constant_type e c t Ec T). cbn [mbind res_bind]. by apply castv_refl.
  - rewrite T. cbn [mbind res_bind]. split; [|by apply castv_refl]. unfold is_type. by rewrite bool_decide_eq_true_2.
Qed.

Lemma is_true_truth b : is_true scale10 (rep (truth b)) = match b with Some true => true | _ => false end.
Proof. by destruct b as [[]|]. Qed.

Lemma write_nullif_sound a b s v :
  write_nullif RequireType TryBindComparison cast_datum GetDouble TryGetCanonicalText date_supported statement_mode W a b = Ok s ->
  sc (OPERATOR_NULLIF a b) = true -> sm (OPERATOR_NULLIF a b) = Ok v -> ev s = Ok (rep v).
Proof.
  unfold write_nullif. cbn [scope sem]. intros H [[S1 S2]%andb_prop S3]%andb_prop V. repeat bind V. repeat bind H. simplify_eq.
  destruct (own_type a x4 x2) as [O V]; try done. destruct (write_as_sound _ _ _ _ E5 S1 O V) as [Hf _].
  eapply (comparison_sound _ _ _ [x0; x1]) in E3; [|done|cbn; by rewrite S1, S2|done|cbn; by rewrite E0; cbn; rewrite E1].
  destruct x3 as [|p [|q [|]]]; try done. simplify_eq. apply Forall2_cons in E3 as [[Ha Ta] E3]. apply Forall2_cons in E3 as [[Hb Tb] _].
  rewrite eval_case. cbn [case_value eval]. rewrite Ha, Hb. cbn [mbind res_bind binary_value].
  rewrite (compare_sound wide COMPARE_EQUAL x) by done. rewrite is_true_truth. by destruct (compare3 _ _ _) as [[]|].
Qed.

(** *** COALESCE and CASE *)

Fixpoint coalesce_sem (t : LogicalTypeId) (l : list ParsedExpression) : res refusal (option datum) :=
  match l with
  | [] => Ok None
  | e :: l => v ← sem_operand RequireType cast_datum sm t e; match v with None => coalesce_sem t l | _ => Ok v end
  end.
Fixpoint case_sem (t : LogicalTypeId) (checks : list (ParsedExpression * ParsedExpression)) (els : ParsedExpression) : res refusal (option datum) :=
  match checks with
  | [] => sem_operand RequireType cast_datum sm t els
  | (w, e) :: checks =>
      c ← sem_condition RequireType cast_datum sm w;
      match c with Some true => sem_operand RequireType cast_datum sm t e | _ => case_sem t checks els end
  end.

Lemma sem_coalesce l : sm (OPERATOR_COALESCE l) = t ← CommonType RequireType TryGetMaxLogicalType l; coalesce_sem t l.
Proof.
  cbn [sem]. destruct (CommonType _ _ _) as [t|]; [|done]. cbn [mbind res_bind]. induction l as [|e l IH]; [done|].
  cbn [coalesce_sem]. by rewrite <- IH.
Qed.
Lemma sem_case checks els :
  sm (CASE checks els) = t ← CommonType RequireType TryGetMaxLogicalType (map snd checks ++ [els]); case_sem t checks els.
Proof.
  cbn [sem]. destruct (CommonType _ _ _) as [t|]; [|done]. cbn [mbind res_bind]. induction checks as [|[w e] checks IH]; [done|].
  cbn [case_sem]. by rewrite <- IH.
Qed.

Lemma coalesce_sound t tail l : coalesce_value ev tail = Ok (MEM_Null false) -> forall ss v,
  mapR (fun e => WriteAs RequireType cast_datum GetDouble TryGetCanonicalText statement_mode W e t) l = Ok ss ->
  forallb sc l = true -> forallb (as_ok RequireType cast_datum t) l = true -> coalesce_sem t l = Ok v ->
  coalesce_value ev (ss ++ tail) = Ok (rep v).
Proof.
  intros Ht. induction l as [|e l IH]; cbn [mapR forallb coalesce_sem]; intros ss v H S O V; [by simplify_eq|].
  repeat bind H. bind V. simplify_eq. apply andb_prop in S as [S1 S2], O as [O1 O2].
  destruct (write_as_sound _ _ _ _ E S1 O1 E1) as [Hs _]. cbn [coalesce_value app]. rewrite Hs. cbn [mbind res_bind]. rewrite is_Null_rep.
  destruct x1; [by simplify_eq|]. by apply IH.
Qed.

Lemma write_coalesce_sound l s v :
  write_coalesce RequireType TryGetMaxLogicalType cast_datum GetDouble TryGetCanonicalText statement_mode W l = Ok s ->
  sc (OPERATOR_COALESCE l) = true -> sm (OPERATOR_COALESCE l) = Ok v -> ev s = Ok (rep v).
Proof.
  rewrite sem_coalesce. unfold write_coalesce. cbn [scope]. unfold all_as_ok. intros H [S O]%andb_prop V.
  destruct (CommonType _ _ _) as [t|]; [|done]. cbn [mbind res_bind] in *. bind H. simplify_eq. rewrite eval_coalesce.
  destruct (_ =? 1)%nat; [by eapply coalesce_sound|]. rewrite <- (app_nil_r x). by eapply coalesce_sound.
Qed.

Lemma is_true_cond m : is_true scale10 m = match cond_of scale10 m with Some true => true | _ => false end.
Proof. unfold cond_of. destruct m; cbn [is_Null]; try done; by destruct (is_true scale10 _). Qed.

Lemma case_sound t checks els e : forall whens v,
  mapR (fun '(w, e) => w ← WriteCondition RequireType statement_mode W w;
          e ← WriteAs RequireType cast_datum GetDouble TryGetCanonicalText statement_mode W e t; Ok (w, e)) checks = Ok whens ->
  WriteAs RequireType cast_datum GetDouble TryGetCanonicalText statement_mode W els t = Ok e ->
  forallb (fun '(w, t) => sc w && sc t) checks = true -> sc els = true ->
  forallb (as_ok RequireType cast_datum t) (map snd checks ++ [els]) = true -> case_sem t checks els = Ok v ->
  case_value scale10 ev whens e = Ok (rep v).
Proof.
  induction checks as [|[w e1] checks IH]; cbn [mapR forallb map app case_sem]; intros whens v H He S Se O V.
  - simplify_eq. rewrite andb_true_r in O. by eapply write_as_sound.
  - repeat bind H. repeat bind E. bind V. simplify_eq. apply andb_prop in S as [[S1 S2]%andb_prop S3], O as [O1 O2].
    destruct (condition_sound _ _ _ E1 S1 E3) as (m & Hm & Hc & _). cbn [case_value]. rewrite Hm. cbn [mbind res_bind].
    rewrite is_true_cond, Hc. destruct x3 as [[]|]; [by eapply write_as_sound|by apply IH..].
Qed.

Lemma write_case_sound checks els s v :
  WriteCase RequireType TryGetMaxLogicalType cast_datum GetDouble TryGetCanonicalText statement_mode W checks els = Ok s ->
  sc (CASE checks els) = true -> sm (CASE checks els) = Ok v -> ev s = Ok (rep v).
Proof.
  rewrite sem_case. unfold WriteCase. cbn [scope]. unfold all_as_ok. intros H [[S1 S2]%andb_prop O]%andb_prop V.
  destruct (CommonType _ _ _) as [t|]; [|done]. cbn [mbind res_bind] in *. repeat bind H. simplify_eq. rewrite eval_case.
  by eapply case_sound.
Qed.

(** *** Conjunctions and casts *)

Lemma conditions_sound l : forall ss cs, mapR (WriteCondition RequireType statement_mode W) l = Ok ss -> forallb sc l = true ->
  mapR (sem_condition RequireType cast_datum sm) l = Ok cs ->
  exists ms, mapR ev ss = Ok ms /\ map (cond_of scale10) ms = cs /\ length ms = length l /\
    (forallb (boolean_like RequireType) l = true -> Forall2 (fun m c => m = rep (truth c)) ms cs).
Proof.
  induction l as [|e l IH]; cbn [mapR forallb]; intros ss cs H S C; [simplify_eq; by exists []|].
  repeat bind H. repeat bind C. simplify_eq. apply andb_prop in S as [S1 S2].
  destruct (condition_sound _ _ _ E S1 E1) as (m & Hm & Hc & Hb). destruct (IH _ _ E0 S2 E2) as (ms & Hms & Hcs & Hl & Hbs).
  exists (m :: ms). cbn [mapR map length]. rewrite Hm, Hms, Hc, Hcs, Hl. split; [done|]. split; [done|]. split; [done|].
  intros [B1 B2]%andb_prop. constructor; auto.
Qed.

Lemma write_and_sound l ss v : mapR (WriteCondition RequireType statement_mode W) l = Ok ss ->
  sc (CONJUNCTION false l) = true -> sm (CONJUNCTION false l) = Ok v -> ev (SAnd ss) = Ok (rep v).
Proof.
  cbn [scope sem]. intros H [S B]%andb_prop V. bind V. simplify_eq. destruct (conditions_sound _ _ _ H S E) as (ms & Hm & Hc & Hl & Hb).
  cbn [eval]. rewrite Hm. cbn [mbind res_bind]. rewrite (logic_sound scale10 true ms x Hc); [done|]. rewrite Hl.
  apply orb_prop in B as [B|B]; [left; by apply Nat.leb_le|right; auto].
Qed.

Lemma write_not_sound e s v : WriteCondition RequireType statement_mode W e = Ok s ->
  sc e = true -> sm (OPERATOR_NOT e) = Ok v -> ev (SNot s) = Ok (rep v).
Proof.
  cbn [sem]. intros H S V. bind V. simplify_eq. destruct (condition_sound _ _ _ H S E) as (m & Hm & Hc & _).
  cbn [eval]. rewrite Hm. cbn [mbind res_bind]. by rewrite not_cond, Hc.
Qed.

(** *** Disjunctions *)

Abbreviation semc := (sem_condition RequireType cast_datum sm).

(** The value of a condition that has one. *)
Definition cval (e : ParsedExpression) : option bool := match semc e with Ok c => c | Throw _ => None end.
Definition good (e : ParsedExpression) : Prop := sc e = true /\ boolean_like RequireType e = true /\ semc e = Ok (cval e).

Lemma equal_conditions a b : Equals a b = true -> cval a = cval b.
Proof.
  intros H. unfold cval, sem_condition. rewrite (equals_sem a b H). destruct (sm b) as [v|]; [|done]. cbn [mbind res_bind].
  unfold condition. by rewrite (equals_type a b H).
Qed.

Lemma good_conditions l : forall ss, mapR (WriteCondition RequireType statement_mode W) l = Ok ss -> Forall good l ->
  mapR ev ss = Ok (map (fun c => rep (truth c)) (map cval l)).
Proof.
  induction l as [|e l IH]; cbn [mapR]; intros ss H G; [by simplify_eq|]. repeat bind H. simplify_eq.
  apply Forall_cons in G as [(S & B & C) G]. destruct (condition_sound _ _ _ E S C) as (m & Hm & _ & Hb).
  cbn [mapR map]. rewrite Hm, (IH _ E0 G). cbn [mbind res_bind]. by rewrite (Hb B).
Qed.

Lemma good_logic is_and l ss : mapR (WriteCondition RequireType statement_mode W) l = Ok ss -> Forall good l ->
  ev ((if is_and : bool then SAnd else SOr) ss) = Ok (rep (truth (all3 is_and (map cval l)))).
Proof. intros H G. destruct is_and; cbn [eval]; rewrite (good_conditions _ _ H G); cbn [mbind res_bind]; by rewrite logic_truth. Qed.

(** The conjuncts of the disjuncts. *)
Lemma conjuncts_value e : sc e = true -> forallb (boolean_like RequireType) (SQLiteGetConjuncts e) = true -> semc e = Ok (cval e) ->
  Forall good (SQLiteGetConjuncts e) /\ cval e = all3 true (map cval (SQLiteGetConjuncts e)).
Proof.
  intros S B C. destruct (SQLiteGetConjuncts e) as [|e0 l0] eqn:Eq; [by destruct e as [| | |[]| | | | | | | | | | |]; simplify_eq/=|].
  assert ((exists l, e = CONJUNCTION false l /\ e0 :: l0 = l) \/ [e] = e0 :: l0) as [(l & -> & El)|El].
  { destruct e as [| | |[] l| | | | | | | | | | |]; try (by right). left. by exists l. }
  - rewrite El in *. cbn [scope] in S. apply andb_prop in S as [S _].
    unfold sem_condition in C. bind C. cbn [sem] in E. bind E. simplify_eq. apply mapR_ok in E0.
    assert (condition RequireType cast_datum (CONJUNCTION false (e0 :: l0)) (truth (all3 true x0)) = Ok (all3 true x0)) as C'
      by (by destruct (all3 true x0)).
    assert (all3 true x0 = cval (CONJUNCTION false (e0 :: l0))) as <- by (by apply (Ok_inj (E := refusal)); rewrite <- C, <- C').
    clear C C' Eq. induction E0 as [|a c l cs Ha _ IH]; [done|]. cbn [forallb] in S, B. apply andb_prop in S as [S1 S2], B as [B1 B2].
    destruct (IH B2 S2) as [G V]. assert (cval a = c) as Hc by (unfold cval; by rewrite Ha).
    split; [constructor; [|done]; split; [done|]; split; [done|]; by rewrite Hc|].
    cbn [map]. rewrite Hc. unfold all3 in *. cbn [fold_right]. by rewrite V.
  - simplify_eq. cbn [forallb] in B. rewrite andb_true_r in B. split; [by repeat constructor|]. unfold all3. cbn [map fold_right].
    symmetry. apply (op3_unit true).
Qed.

Lemma disjuncts_good l : forall cs, forallb sc l = true ->
  forallb (fun c => forallb (boolean_like RequireType) (SQLiteGetConjuncts c)) l = true -> mapR semc l = Ok cs ->
  cs = map cval l /\ Forall good l /\ Forall (Forall good) (map SQLiteGetConjuncts l) /\
  cs = map (fun d => all3 true (map cval d)) (map SQLiteGetConjuncts l).
Proof.
  induction l as [|e l IH]; cbn [mapR forallb map]; intros cs S B C; [by simplify_eq|]. repeat bind C. simplify_eq.
  apply andb_prop in S as [S1 S2], B as [B1 B2]. destruct (IH _ S2 B2 E0) as (Hv & G1 & G2 & Hc).
  assert (cval e = x) as Hx by (unfold cval; by rewrite E). rewrite <- Hx in E.
  destruct (conjuncts_value e S1 B1 E) as [Gc Vc]. rewrite <- Hc, <- Vc, Hx, Hv. repeat (split || constructor); try done.
  destruct e as [| | |[]| | | | | | | | | | |]; try done; cbn [SQLiteGetConjuncts forallb] in B1; by destruct (boolean_like _ _).
Qed.

Lemma others_good common d : Forall good d -> Forall good (others Equals common d).
Proof.
  rewrite !Forall_forall. intros G c Hc. apply G. apply list_elem_of_In in Hc. apply list_elem_of_In. by apply filter_In in Hc as [? _].
Qed.

Lemma remaining_sound common ds : forall rem,
  remaining_disjuncts RequireType Equals statement_mode W common ds = Ok rem -> Forall (Forall good) ds ->
  let rest d := all3 true (map cval (others Equals common d)) in
  match rem with
  | None => Exists (fun d => others Equals common d = []) ds
  | Some rs => mapR ev rs = Ok (map (fun c => rep (truth c)) (map rest ds))
  end.
Proof.
  induction ds as [|d ds IH]; cbn [remaining_disjuncts]; intros rem H G; [by simplify_eq|].
  bind H. fold (others Equals common d) in E. apply Forall_cons in G as [Gd G].
  assert (Forall good (others Equals common d)) as Go by (by apply others_good).
  destruct x as [|a x].
  - simplify_eq. left. apply mapR_ok in E. by inversion E.
  - bind H. specialize (IH _ E0 G). destruct x0 as [rs|]; simplify_eq; [|by right].
    pose proof (good_logic true _ _ E Go) as Hd. cbn [mapR map]. cbn beta iota in Hd. by rewrite Hd, IH.
Qed.

Lemma write_or_sound l s v : WriteDisjunction RequireType Equals statement_mode W l = Ok s ->
  sc (CONJUNCTION true l) = true -> sm (CONJUNCTION true l) = Ok v -> ev s = Ok (rep v).
Proof.
  cbn [scope sem]. unfold WriteDisjunction. intros H [S B]%andb_prop V. bind V. simplify_eq.
  destruct (disjuncts_good l x S B E) as (-> & G & Gd & Hv).
  change (ev s = Ok (rep (truth (all3 false (map cval l))))).
  destruct (map SQLiteGetConjuncts l) as [|first ds] eqn:Ed; [done|]. cbn beta iota in H.
  destruct (common_conjuncts Equals first ds []) as [|k K] eqn:Ek.
  { bind H. simplify_eq. by apply (good_logic false l _ E0). }
  rewrite <- Ek in H. repeat bind H. pose proof (remaining_sound _ _ _ E1 Gd) as R. cbn zeta beta in R. simplify_eq.
  assert (Forall good (common_conjuncts Equals first ds [])) as Gk.
  { apply Forall_forall. intros c Hc. destruct (common_in Equals _ _ _ _ Hc) as [Hc'|[Hf _]]; [by apply elem_of_nil in Hc'|].
    apply Forall_cons in Gd as [Gf _]. rewrite Forall_forall in Gf. auto. }
  rewrite Hv, (disjunction_factors Equals cval equal_conditions).
  pose proof (good_conditions _ _ E0 Gk) as Hk. destruct x0 as [rs|]; cbn [eval].
  - rewrite mapR_app, Hk. cbn [mbind res_bind mapR eval]. rewrite R. cbn [mbind res_bind]. rewrite logic_truth.
    match goal with |- context [map _ ?l ++ [rep (truth ?r)]] => change [rep (truth r)] with (map (fun c => rep (truth c)) [r]) end.
    rewrite <- map_app, logic_truth, all3_app. unfold all3 at 2. cbn [fold_right]. by rewrite op3_unit.
  - rewrite Hk. cbn [mbind res_bind]. rewrite logic_truth, (unfactored Equals cval) by done. do 3 f_equal. symmetry. apply (op3_unit true).
Qed.

(** *** Arithmetic *)

Abbreviation Arith := (OP_Arith fadd fsub fmul fdiv scale10).

Lemma small_integer t : small t = true -> SQLiteIsIntegerType t = true /\ forall z, in_bounds t z = true -> is_s 64 z.
Proof. intros H. split; [by destruct t|]. intros z. destruct t; try done; unfold in_bounds; cbn [int_bounds]; unfold is_s; lia. Qed.

Lemma small_value e t v : sc e = true -> RequireType e = Ok t -> small t = true -> sm e = Ok v ->
  v = None \/ exists z, v = Some (DInt z) /\ is_s 64 z /\ in_bounds t z = true.
Proof.
  intros S T Hs V. pose proof (type_sound e t v S T V) as Hv. destruct (small_integer t Hs) as [Hi Hb].
  destruct (typed_integer t v Hi Hv) as [->|(z & -> & Hz)]; [by left|]. right. exists z. split; [done|].
  split; [by apply in_i64_s|]. cbn [typed has_type] in Hv. by destruct (in_bounds t z).
Qed.

Lemma int_result_ok t z v : small t = true -> int_result t z = Ok v -> v = Some (DInt z) /\ in_i64 z = true.
Proof.
  unfold int_result. intros Hs. destruct (in_bounds t z) eqn:E; [|done]. intros [= <-]. split; [done|].
  apply in_i64_s. by apply (small_integer t).
Qed.

Lemma required e P : require RequireType e P = true -> exists t, RequireType e = Ok t /\ P t = true.
Proof. unfold require. destruct (RequireType e) as [t|]; [|done]. by exists t. Qed.

Lemma bitnot_value z : OP_BitNot (MEM_Int z) = MEM_Int (Z.lnot z).
Proof. done. Qed.

Lemma write_unary_sound name e s v : WriteUnary RequireType W name e = Ok s ->
  sc (UNARY name e) = true -> sm (UNARY name e) = Ok v -> ev s = Ok (rep v).
Proof.
  unfold WriteUnary. cbn [scope sem]. intros H [[S (t & T & Hs)%required]%andb_prop N]%andb_prop V. rewrite T in H. cbn [mbind res_bind] in H.
  repeat bind V. destruct (small_integer t Hs) as [Hi _].
  assert (SQLiteIsNumericType t = true) as Hn by (unfold SQLiteIsNumericType; by rewrite Hi). rewrite Hn, Hi in H. cbn [negb] in H.
  destruct (small_value e t x0 S T Hs E0) as [->|(z & -> & Hz & _)]; destruct name; try (bind H; simplify_eq); simplify_eq; cbn [eval].
  - rewrite (W_sound _ _ _ E1 S E0). cbn [mbind res_bind]. by rewrite arith_null by done.
  - by rewrite (W_sound _ _ _ H S E0).
  - by rewrite (W_sound _ _ _ E1 S E0).
  - rewrite (W_sound _ _ _ E1 S E0). cbn [mbind res_bind rep]. rewrite arith_sub by (done || by unfold is_s).
    apply required in N as (t' & T' & Hs'). rewrite T' in E. apply Ok_inj in E as <-. destruct (int_result_ok _ _ _ Hs' V) as [-> Hr].
    rewrite Z.sub_0_l. unfold exact_or_real. by rewrite Hr.
  - by rewrite (W_sound _ _ _ H S E0).
  - by rewrite (W_sound _ _ _ E1 S E0).
Qed.

Definition int_like (v : option datum) : Prop := v = None \/ exists z, v = Some (DInt z) /\ is_s 64 z.

(** The operands of integer arithmetic. *)
Lemma binary_values name l r v : name <> NConcat -> sc (BINARY name l r) = true -> sm (BINARY name l r) = Ok v ->
  exists x y tl tr,
    (forall s, W l = Ok s -> ev s = Ok (rep x)) /\ (forall s, W r = Ok s -> ev s = Ok (rep y)) /\
    (RequireType l = Ok tl /\ small tl = true) /\ (RequireType r = Ok tr /\ small tr = true) /\
    zero_divisor name y = false /\ int_like x /\ int_like y /\
    (is_Null (rep x) || is_Null (rep y) = true /\ v = None \/
     exists a b t, x = Some (DInt a) /\ y = Some (DInt b) /\ is_s 64 a /\ is_s 64 b /\ RequireType (BINARY name l r) = Ok t /\
       arith_value name t (default t (TryGetMaxLogicalType tl tr)) a b = Ok v).
Proof.
  intros Hn S V.
  assert (sc l = true /\ sc r = true /\ require RequireType l small = true /\ require RequireType r small = true) as (Sl & Sr & Ql & Qr).
  { destruct name; try done; cbn [scope] in S; by repeat (apply andb_prop in S as [S ?]). }
  apply required in Ql as (tl & Tl & Hl), Qr as (tr & Tr & Hr).
  assert (exists x y, sm l = Ok x /\ sm r = Ok y /\ zero_divisor name y = false /\
    on_ints x y (fun x y => t ← RequireType (BINARY name l r); tl ← RequireType l; tr ← RequireType r;
      arith_value name t (default t (TryGetMaxLogicalType tl tr)) x y) = Ok v) as (x & y & Vl & Vr & Hz & Vv).
  { destruct name; try done; cbn [sem] in V; bind V; bind V; (destruct (zero_divisor _ x0) eqn:Ez; [done|]); by exists x, x0. }
  exists x, y, tl, tr. rewrite Tl, Tr in Vv. cbn [mbind res_bind] in Vv.
  split; [intros s Hs; by eapply W_sound|]. split; [intros s Hs; by eapply W_sound|]. do 3 (split; [done|]).
  destruct (small_value l tl x Sl Tl Hl Vl) as [->|(a & -> & Ha & _)], (small_value r tr y Sr Tr Hr Vr) as [->|(b & -> & Hb & _)];
    (split; [(by left) || (right; by eexists)|]); (split; [(by left) || (right; by eexists)|]); try (left; by simplify_eq/=).
  right. cbn [on_ints] in Vv. bind Vv. by exists a, b, x.
Qed.

(** An integer compared with a literal. *)
Definition eqv (v : option datum) (k : Z) : option bool := match v with Some (DInt z) => Some (z =? k) | _ => None end.

Lemma compare_literal v k : int_like v -> is_s 64 k -> compare_value wide OP_Eq false (rep v) (MEM_Int k) = rep (truth (eqv v k)).
Proof.
  intros Hv Hk. assert (forall z, is_s 64 z -> typed BIGINT (Some (DInt z)) = true) as T.
  { intros z Hz. cbn [typed has_type]. rewrite (proj2 (in_i64_s z) Hz). unfold in_bounds. cbn [int_bounds]. unfold is_s in Hz. lia. }
  pose proof (compare_sound wide COMPARE_EQUAL BIGINT v (Some (DInt k))) as C. cbn [vdbe_op fst snd rep] in C. rewrite C;
    [|by destruct Hv as [->|(z & -> & Hz)]; auto|auto].
  destruct Hv as [->|(z & -> & Hz)]; [done|]. cbn [compare3 compare_datum datum_order eqv]. do 3 f_equal.
  unfold three_way. destruct (Z.ltb_spec z k), (Z.ltb_spec k z), (Z.eqb_spec z k); (done || lia).
Qed.

Lemma exact_sound t z v r : small t = true -> int_result t z = Ok v -> exact_or_real z r = rep v.
Proof. intros Hs H. destruct (int_result_ok t z v Hs H) as [-> Hr]. unfold exact_or_real. by rewrite Hr. Qed.

Definition sum_op (name : binary_name) : option sql_op :=
  match name with NPlus => Some SAdd | NMinus => Some SSub | NTimes => Some SMul | _ => None end.

Lemma write_sum_sound name op l r tl tr s v : sum_op name = Some op -> RequireType l = Ok tl -> RequireType r = Ok tr ->
  write_sum RequireType WriteIntervalArithmetic W name op l r tl tr = Ok s ->
  sc (BINARY name l r) = true -> sm (BINARY name l r) = Ok v -> ev s = Ok (rep v).
Proof.
  intros Hop Tl Tr H S V. assert (name <> NConcat) as Hn by (by intros ->).
  assert (require RequireType (BINARY name l r) small = true) as (t & T & Ht)%required.
  { destruct name; try done; cbn [scope] in S; by apply andb_prop in S as [_ S]. }
  destruct (binary_values name l r v Hn S V) as (x & y & tl' & tr' & Wl & Wr & [Tl' Hl] & [Tr' Hr] & _ & _ & _ & Hv).
  rewrite Tl in Tl'. apply Ok_inj in Tl' as <-. rewrite Tr in Tr'. apply Ok_inj in Tr' as <-.
  unfold write_sum in H. assert (forall t, small t = true -> SQLiteIsNumericType t = true) as N by (by intros []).
  unfold SQLiteIsNumericOrDecimalType in H. rewrite T, (N tl), (N tr) in H by done. cbn [orb andb mbind res_bind] in H.
  rewrite (N t Ht) in H. cbn [negb] in H. repeat bind H. simplify_eq.
  cbn [eval]. rewrite (Wl _ E), (Wr _ E0). cbn [mbind res_bind].
  destruct Hv as [[Hnull ->]|(a & b & t' & -> & -> & Ha & Hb & T' & Hv)].
  - rewrite orb_comm in Hnull. destruct name; try done; cbn [sum_op] in Hop; simplify_eq; cbn [binary_value]; by rewrite arith_null.
  - rewrite T in T'. apply Ok_inj in T' as <-. cbn [rep].
    destruct name; try done; cbn [sum_op] in Hop; simplify_eq; cbn [binary_value arith_value] in *;
      [rewrite arith_add by done|rewrite arith_sub by done|rewrite arith_mul by done]; f_equal; by apply (exact_sound t).
Qed.

(** The quotient is the last branch of a CASE or the whole. *)
Lemma divide_value t x y v : small t = true -> zero_divisor NIntDivide y = false ->
  (is_Null (rep x) || is_Null (rep y) = true /\ v = None \/
   exists a b, x = Some (DInt a) /\ y = Some (DInt b) /\ is_s 64 a /\ is_s 64 b /\ int_result t (Z.quot a b) = Ok v) ->
  Arith OP_Divide (rep y) (rep x) = rep v.
Proof.
  intros Ht Hz [[Hn ->]|(a & b & -> & -> & Ha & Hb & Hr)]; [by rewrite arith_null by (by rewrite orb_comm)|].
  cbn [rep]. rewrite arith_div by done. cbn [zero_divisor] in Hz. rewrite Hz. by apply (exact_sound t).
Qed.

Lemma write_division_sound l r s v : WriteDivision cast_datum statement_mode default_division W l r true = Ok s ->
  sc (BINARY NIntDivide l r) = true -> sm (BINARY NIntDivide l r) = Ok v -> ev s = Ok (rep v).
Proof.
  intros H S V. assert (require RequireType (BINARY NIntDivide l r) small = true) as (t & T & Ht)%required
    by (cbn [scope] in S; by apply andb_prop in S as [_ S]).
  destruct (binary_values NIntDivide l r v ltac:(done) S V) as (x & y & tl & tr & Wl & Wr & [Tl0 Hl] & [Tr0 Hr] & Hz & Hx & Hy & Hv).
  unfold WriteDivision in H. destruct default_division; [|done].
  cbn [negb] in H. repeat bind H. rename x0 into sx, x1 into sy.
  assert (Arith OP_Divide (rep y) (rep x) = rep v) as D.
  { apply (divide_value t); try done. destruct Hv as [Hv|(a & b & t' & -> & -> & Ha & Hb & T' & Hv)]; [by left|].
    rewrite T in T'. apply Ok_inj in T' as <-. right. by exists a, b. }
  destruct (nonzero_constant cast_datum r); [|bind H]; simplify_eq.
  - cbn [eval]. rewrite (Wl _ E), (Wr _ E0). cbn [mbind res_bind binary_value]. by rewrite D.
  - rewrite eval_case. cbn [case_value eval]. rewrite (Wl _ E), (Wr _ E0). cbn [mbind res_bind binary_value].
    rewrite (compare_literal y 0) by (done || by unfold is_s). rewrite is_true_truth, D.
    destruct Hy as [->|(z & -> & _)]; [done|]. cbn [eqv zero_divisor] in *. by rewrite Hz.
Qed.

Lemma write_modulo_sound l r tl tr s v : RequireType l = Ok tl -> RequireType r = Ok tr ->
  write_modulo TryGetMaxLogicalType cast_datum statement_mode W l r tl tr = Ok s ->
  sc (BINARY NModulo l r) = true -> sm (BINARY NModulo l r) = Ok v -> ev s = Ok (rep v).
Proof.
  intros Tl Tr H S V. destruct (binary_values NModulo l r v ltac:(done) S V) as (x & y & tl' & tr' & Wl & Wr & [Tl0 Hl] & [Tr0 Hr] & Hz & Hx & Hy & Hv).
  rewrite Tl in Tl0. apply Ok_inj in Tl0 as <-. rewrite Tr in Tr0. apply Ok_inj in Tr0 as <-. unfold write_modulo in H.
  destruct (TryGetMaxLogicalType tl tr) as [common|]; [|done]. cbn [default] in Hv.
  assert (Arith OP_Remainder (rep y) (rep x) = rep v /\ match type_minimum common with
    | Some m => and3 (eqv y (-1)) (eqv x m) <> Some true | None => True end) as [D M].
  { destruct Hv as [[Hn ->]|(a & b & t' & -> & -> & Ha & Hb & _ & Hv)].
    - split; [by rewrite arith_null by (by rewrite orb_comm)|]. destruct (type_minimum common) as [m|]; [|done].
      destruct x as [[]|], y as [[]|]; cbn [eqv]; try done; by destruct (_ =? _).
    - cbn [arith_value] in Hv. destruct ((b =? -1) && _) eqn:Em; [done|]. simplify_eq. cbn [rep zero_divisor] in *. rewrite arith_rem, Hz.
      split; [done|]. destruct (type_minimum common) as [m|] eqn:Et; [|done]. cbn [eqv and3]. destruct (b =? -1); [|by destruct (a =? m)].
      cbn [andb] in Em. apply bool_decide_eq_false in Em. destruct (Z.eqb_spec a m) as [->|]; [by destruct Em|done]. }
  assert (match eqv y 0 with Some true => false | _ => true end = true) as Z0.
  { destruct Hy as [->|(z & -> & _)]; [done|]. cbn [eqv zero_divisor] in *. by rewrite Hz. }
  destruct (match tgc r with Some _ => _ | None => _ end) in H; repeat bind H; simplify_eq.
  { cbn [eval]. rewrite (Wl _ E), (Wr _ E0). cbn [mbind res_bind binary_value]. by rewrite D. }
  rewrite eval_case. destruct (type_minimum common) as [m|] eqn:Em; cbn [case_value eval mapR].
  all: rewrite (Wl _ E0), (Wr _ E1); cbn [mbind res_bind binary_value]; rewrite (compare_literal y 0) by (done || by unfold is_s);
    rewrite is_true_truth, D; (destruct (eqv y 0) as [[]|]; [done| |]); try done.
  all: unfold logic; cbn [fold_left]; rewrite (compare_literal y (-1)), (compare_literal x m), logic_cond, !cond_truth, is_true_truth
    by (done || (destruct common; simplify_eq/=; by unfold is_s)); by destruct (and3 _ _) as [[]|].
Qed.

(** Bitwise operators. *)
Lemma range_shiftr x : is_s 64 x <-> Z.shiftr x 63 = 0 \/ Z.shiftr x 63 = -1.
Proof.
  rewrite Z.shiftr_div_pow2 by lia. unfold is_s. change (64 - 1) with 63.
  pose proof (Z.div_mod x (2 ^ 63) ltac:(lia)). pose proof (Z.mod_pos_bound x (2 ^ 63) ltac:(lia)). nia.
Qed.

Lemma range_land x y : is_s 64 x -> is_s 64 y -> is_s 64 (Z.land x y).
Proof. rewrite !range_shiftr, Z.shiftr_land. by intros [->| ->] [->| ->]; auto. Qed.
Lemma range_lor x y : is_s 64 x -> is_s 64 y -> is_s 64 (Z.lor x y).
Proof. rewrite !range_shiftr, Z.shiftr_lor. by intros [->| ->] [->| ->]; auto. Qed.
Lemma range_lxor x y : is_s 64 x -> is_s 64 y -> is_s 64 (Z.lxor x y).
Proof. rewrite !range_shiftr, Z.shiftr_lxor. by intros [->| ->] [->| ->]; auto. Qed.

Lemma lor_sub_land x y : Z.lor x y - Z.land x y = Z.lxor x y.
Proof.
  enough (Z.lxor x y + Z.land x y = Z.lor x y) by lia. rewrite Z.add_nocarry_lxor.
  - apply Z.bits_inj'. intros n _. rewrite !Z.lxor_spec, Z.land_spec, Z.lor_spec. by destruct (Z.testbit x n), (Z.testbit y n).
  - apply Z.bits_inj'. intros n _. rewrite !Z.land_spec, Z.lxor_spec, Z.bits_0. by destruct (Z.testbit x n), (Z.testbit y n).
Qed.

Lemma xor_value a b : is_s 64 a -> is_s 64 b -> Arith OP_Subtract (MEM_Int (Z.land a b)) (MEM_Int (Z.lor a b)) = MEM_Int (Z.lxor a b).
Proof.
  intros Ha Hb. rewrite arith_sub by auto using range_land, range_lor. rewrite lor_sub_land. unfold exact_or_real.
  by rewrite (proj2 (in_i64_s _) (range_lxor a b Ha Hb)).
Qed.

Lemma bits_null op u v : is_Null u || is_Null v = true -> OP_Bits op u v = MEM_Null false.
Proof. unfold OP_Bits. by intros ->. Qed.

Lemma write_bits_sound name l r s v : name = NBitAnd \/ name = NBitOr \/ name = NXor ->
  (x ← W l; y ← W r; Ok (match name with
     | NBitAnd => SBinary SBitAnd x y | NBitOr => SBinary SBitOr x y
     | _ => SBinary SSub (SBinary SBitOr x y) (SBinary SBitAnd x y) end)) = Ok s ->
  sc (BINARY name l r) = true -> sm (BINARY name l r) = Ok v -> ev s = Ok (rep v).
Proof.
  intros Hn H S V. assert (name <> NConcat) as Hc by (by destruct Hn as [->|[->| ->]]).
  destruct (binary_values name l r v Hc S V) as (x & y & tl & tr & Wl & Wr & _ & _ & _ & _ & _ & Hv). repeat bind H. simplify_eq.
  destruct Hv as [[N ->]|(a & b & t & -> & -> & Ha & Hb & _ & Hv)]; [rewrite orb_comm in N|];
    destruct Hn as [->|[->| ->]]; cbn [eval]; rewrite (Wl _ E), (Wr _ E0); cbn [mbind res_bind binary_value].
  1-3: rewrite !bits_null by done; try done; by rewrite arith_null.
  all: cbn [arith_value rep] in *; simplify_eq; try done. unfold OP_Bits. cbn [is_Null orb sqlite3VdbeIntValue]. by rewrite xor_value.
Qed.

(** Shifts. *)
Lemma shift_calls x y z : call_value call (word "duckdb_shift_left") [x; y; z] = SQLiteShiftLeftFunction x y z /\
  call_value call (word "duckdb_shift_right") [x; y; z] = SQLiteShiftRightFunction x y z.
Proof. done. Qed.

Lemma shift_range common bits is_signed z : shift_type common = Some (bits, is_signed) -> in_bounds common z = true ->
  1 <= bits + (if is_signed : bool then 0 else 1) <= 64 /\ z < 2 ^ (bits + (if is_signed then 0 else 1) - 1).
Proof. destruct common; try done; intros [= <- <-]; unfold in_bounds; cbn [int_bounds]; lia. Qed.

Lemma shift_left_value common bits is_signed a b v : shift_type common = Some (bits, is_signed) -> is_s 64 a ->
  arith_value NShiftLeft common common a b = Ok v ->
  shift_left a b (bits + (if is_signed : bool then 0 else 1)) = Ok (rep v).
Proof.
  intros Hs Ha. cbn [arith_value]. destruct (_ || _) eqn:En; [done|]. unfold int_result.
  destruct (in_bounds common (a * 2 ^ b)) eqn:Eb; [|done]. intros [= <-]. destruct (shift_range _ _ _ _ Hs Eb) as [H1 H2].
  assert (0 < 2 ^ b) by (apply Z.pow_pos_nonneg; lia). apply shift_left_spec; try done; nia.
Qed.

Lemma write_shift_sound left_ l r tl tr s v (name := if left_ : bool then NShiftLeft else NShiftRight) :
  RequireType l = Ok tl -> RequireType r = Ok tr -> write_shift TryGetMaxLogicalType statement_mode W left_ l r tl tr = Ok s ->
  sc (BINARY name l r) = true -> sm (BINARY name l r) = Ok v -> ev s = Ok (rep v).
Proof.
  intros Tl Tr H S V. assert (name <> NConcat) as Hc by (unfold name; by destruct left_).
  destruct (binary_values name l r v Hc S V) as (x & y & tl' & tr' & Wl & Wr & [Tl' _] & [Tr' _] & _ & _ & _ & Hv).
  rewrite Tl in Tl'. apply Ok_inj in Tl' as <-. rewrite Tr in Tr'. apply Ok_inj in Tr' as <-. unfold write_shift in H.
  destruct (_ || _) in H; [done|]. destruct (TryGetMaxLogicalType tl tr) as [common|]; [|done]. cbn [default] in Hv.
  destruct (shift_type common) as [[bits is_signed]|] eqn:Es; [|done]. repeat bind H. simplify_eq. cbn [eval mapR].
  rewrite (Wl _ E0), (Wr _ E1). cbn [mbind res_bind]. unfold name in *.
  destruct Hv as [[N ->]|(a & b & t & -> & -> & Ha & Hb & _ & Hv)].
  - assert (forall z, SQLiteHasNull [rep x; rep y; MEM_Int z] = true) as Hn
      by (intros z; unfold SQLiteHasNull; cbn [existsb]; by destruct (is_Null (rep x)), (is_Null (rep y))).
    destruct left_; [rewrite (proj1 (shift_calls _ _ _))|rewrite (proj2 (shift_calls _ _ _))].
    + unfold SQLiteShiftLeftFunction. by rewrite Hn.
    + unfold SQLiteShiftRightFunction. by rewrite Hn.
  - destruct left_; [rewrite (proj1 (shift_calls _ _ _))|rewrite (proj2 (shift_calls _ _ _))]; cbn [rep].
    + unfold SQLiteShiftLeftFunction. cbn. by apply (shift_left_value common).
    + rewrite shift_right_spec. cbn [arith_value] in Hv. unfold id in Hv. rewrite Es in Hv. by simplify_eq.
Qed.

(** Texts. *)
Lemma typed_text v : typed VARCHAR v = true -> v = None \/ exists z, v = Some (DText z).
Proof. destruct v as [[]|]; cbn [typed has_type]; intros H; try done; [right; by eexists|by left]. Qed.

Lemma write_concat_sound l r s v :
  (x ← WriteAs RequireType cast_datum GetDouble TryGetCanonicalText statement_mode W l VARCHAR;
   y ← WriteAs RequireType cast_datum GetDouble TryGetCanonicalText statement_mode W r VARCHAR; Ok (SBinary SConcat x y)) = Ok s ->
  sc (BINARY NConcat l r) = true -> sm (BINARY NConcat l r) = Ok v -> ev s = Ok (rep v).
Proof.
  cbn [scope sem]. intros H [[[S1 S2]%andb_prop O1]%andb_prop O2]%andb_prop V. repeat bind H. repeat bind V. simplify_eq.
  destruct (write_as_sound _ _ _ _ E S1 O1 E1) as [Hl Tl], (write_as_sound _ _ _ _ E0 S2 O2 E2) as [Hr Tr].
  cbn [eval]. rewrite Hl, Hr. cbn [mbind res_bind binary_value]. unfold concat.
  destruct (typed_text _ Tl) as [->|[a ->]], (typed_text _ Tr) as [->|[b ->]]; by simplify_eq/=.
Qed.

Lemma write_arithmetic_sound name l r s v :
  WriteArithmetic RequireType TryGetMaxLogicalType cast_datum GetDouble TryGetCanonicalText WriteIntervalArithmetic
    statement_mode default_division W name l r = Ok s ->
  sc (BINARY name l r) = true -> sm (BINARY name l r) = Ok v -> ev s = Ok (rep v).
Proof.
  unfold WriteArithmetic. intros H S V. bind H. bind H. destruct name.
  - by eapply (write_sum_sound NPlus SAdd l r x x0).
  - by eapply (write_sum_sound NMinus SSub l r x x0).
  - by eapply (write_sum_sound NTimes SMul l r x x0).
  - cbn [scope] in S. by rewrite andb_false_r in S.
  - destruct (negb _) in H; [done|]. by eapply write_division_sound.
  - destruct (negb _) in H; [done|]. by apply (write_modulo_sound l r x x0).
  - destruct (_ || _) in H; [done|]. by eapply write_concat_sound.
  - destruct (negb _) in H; [done|]. eapply (write_bits_sound NBitAnd); by auto.
  - destruct (negb _) in H; [done|]. eapply (write_bits_sound NBitOr); by auto.
  - destruct (negb _) in H; [done|]. eapply (write_bits_sound NXor); by auto.
  - by apply (write_shift_sound true l r x x0).
  - by apply (write_shift_sound false l r x x0).
Qed.

Lemma write_cast_sound child target try_cast s v :
  write_expression RequireType TryBindComparison TryGetMaxLogicalType cast_datum Equals GetDouble TryGetCanonicalText date_supported
    WriteIntervalArithmetic statement_mode default_division W (CAST child target try_cast) = Ok s ->
  sc (CAST child target try_cast) = true -> sm (CAST child target try_cast) = Ok v -> ev s = Ok (rep v).
Proof.
  cbn [write_expression]. intros H S V. destruct (match child with CONSTANT _ => true | _ => false end) eqn:Ec.
  - destruct (tgc (CAST child target try_cast)) as [c|] eqn:Et; [|by destruct child].
    assert (constant c = Ok s) as Hc by (by destruct child).
    destruct (constant_value _ c v Et S V) as [<- T]. by apply constant_sound.
  - assert ((source ← RequireType child; s ← W child; WC s source target try_cast) = Ok s) as H' by (by destruct child).
    clear H. cbn [scope sem] in S, V. repeat bind H'. repeat bind V.
    assert (RequireType child = Ok x2) as T by (by destruct child). rewrite E in T. apply Ok_inj in T as <-.
    pose proof (W_sound _ _ _ E0 S E1) as Hs. pose proof (cast_sound _ _ _ _ _ _ H' (type_sound _ _ _ S E E1) Hs) as C.
    destruct (cast_v x target x1); cbn [cast_result] in C; [by simplify_eq|]. destruct try_cast; [|done]. simplify_eq. by apply C.
Qed.

Lemma write_expression_sound e s v :
  write_expression RequireType TryBindComparison TryGetMaxLogicalType cast_datum Equals GetDouble TryGetCanonicalText date_supported
    WriteIntervalArithmetic statement_mode default_division W e = Ok s ->
  sc e = true -> sm e = Ok v -> ev s = Ok (rep v).
Proof.
  destruct e as [c|c|type l r|[] l|e|e|e|l|a b|n e l|checks els|child target try_cast|a b c|name e|name l r].
  - cbn [write_expression scope sem]. intros H S [= <-]. by apply constant_sound.
  - by intros [= <-] _ [= <-].
  - apply write_comparison_sound.
  - apply write_or_sound.
  - cbn [write_expression]. intros H. bind H. simplify_eq. by apply write_and_sound.
  - cbn [write_expression scope sem]. intros H S V. bind H. bind V. simplify_eq. cbn [eval]. rewrite (W_sound _ _ _ E S E0).
    cbn [mbind res_bind]. rewrite is_Null_rep. by destruct x0.
  - cbn [write_expression scope sem]. intros H S V. bind H. bind V. simplify_eq. cbn [eval]. rewrite (W_sound _ _ _ E S E0).
    cbn [mbind res_bind]. rewrite is_Null_rep. by destruct x0.
  - cbn [write_expression scope]. intros H S V. bind H. simplify_eq. by eapply write_not_sound.
  - apply write_coalesce_sound.
  - apply write_nullif_sound.
  - apply write_in_sound.
  - apply write_case_sound.
  - apply write_cast_sound.
  - apply write_between_sound.
  - apply write_unary_sound.
  - apply write_arithmetic_sound.
Qed.
End Step.
End Sound.

(** ** The recursion *)

Fixpoint depth (e : ParsedExpression) : nat :=
  S match e with
    | CONSTANT _ | COLUMN_REF _ => 0
    | COMPARISON _ a b | OPERATOR_NULLIF a b | BINARY _ a b => Nat.max (depth a) (depth b)
    | CONJUNCTION _ l | OPERATOR_COALESCE l => list_max (map depth l)
    | OPERATOR_IS_NULL a | OPERATOR_IS_NOT_NULL a | OPERATOR_NOT a | CAST a _ _ | UNARY _ a => depth a
    | COMPARE_IN _ a l => Nat.max (depth a) (list_max (map depth l))
    | CASE checks els => Nat.max (list_max (map (fun '(w, t) => Nat.max (depth w) (depth t)) checks)) (depth els)
    | BETWEEN a b c => Nat.max (depth a) (Nat.max (depth b) (depth c))
    end.

Lemma in_list_max {A} (f : A -> nat) l x : In x l -> (f x <= list_max (map f l))%nat.
Proof. intros H. pose proof (proj1 (list_max_le (map f l) _) (le_n _)) as L. rewrite List.Forall_forall in L. by apply L, in_map. Qed.

Lemma mapR_ext {E A B} (f g : A -> res E B) l : (forall x, In x l -> f x = g x) -> mapR f l = mapR g l.
Proof.
  induction l as [|x l IH]; intros H; [done|]. cbn [mapR]. rewrite (H x) by (by left). rewrite IH; [done|]. intros y Hy. apply H. by right.
Qed.

Section Recursion.
Context (RequireType : ParsedExpression -> res refusal LogicalTypeId)
  (TryBindComparison TryGetMaxLogicalType : LogicalTypeId -> LogicalTypeId -> option LogicalTypeId)
  (cast_datum : LogicalTypeId -> LogicalTypeId -> datum -> option datum) (Equals : ParsedExpression -> ParsedExpression -> bool)
  (GetDouble : Value -> Z) (TryGetCanonicalText : Value -> option (list Z)) (date_supported : Value -> bool)
  (WriteIntervalArithmetic : ParsedExpression -> ParsedExpression -> bool -> res refusal sql) (statement_mode default_division : bool).

Abbreviation write := (write_expression RequireType TryBindComparison TryGetMaxLogicalType cast_datum Equals GetDouble
  TryGetCanonicalText date_supported WriteIntervalArithmetic statement_mode default_division).
Abbreviation Write := (WriteExpression RequireType TryBindComparison TryGetMaxLogicalType cast_datum Equals GetDouble
  TryGetCanonicalText date_supported WriteIntervalArithmetic statement_mode default_division).

Section Ext.
Context (W W' : ParsedExpression -> res refusal sql).

Lemma operand_ext target e : W e = W' e ->
  write_operand RequireType cast_datum GetDouble TryGetCanonicalText date_supported statement_mode W target e =
  write_operand RequireType cast_datum GetDouble TryGetCanonicalText date_supported statement_mode W' target e.
Proof. intros H. unfold write_operand. by rewrite H. Qed.
Lemma as_ext target e : W e = W' e ->
  WriteAs RequireType cast_datum GetDouble TryGetCanonicalText statement_mode W e target =
  WriteAs RequireType cast_datum GetDouble TryGetCanonicalText statement_mode W' e target.
Proof. intros H. unfold WriteAs. by rewrite H. Qed.
Lemma condition_ext e : W e = W' e -> WriteCondition RequireType statement_mode W e = WriteCondition RequireType statement_mode W' e.
Proof. intros H. unfold WriteCondition. by rewrite H. Qed.
Lemma operands_ext l : (forall e, In e l -> W e = W' e) ->
  WriteComparisonOperands RequireType TryBindComparison cast_datum GetDouble TryGetCanonicalText date_supported statement_mode W l =
  WriteComparisonOperands RequireType TryBindComparison cast_datum GetDouble TryGetCanonicalText date_supported statement_mode W' l.
Proof.
  intros H. unfold WriteComparisonOperands. destruct (compare_as _ _ _ _); [|done]. cbn [mbind res_bind]. destruct (bool_decide _); [done|].
  apply mapR_ext. intros x Hx. apply operand_ext. auto.
Qed.
Lemma conditions_ext l : (forall e, In e l -> W e = W' e) ->
  mapR (WriteCondition RequireType statement_mode W) l = mapR (WriteCondition RequireType statement_mode W') l.
Proof. intros H. apply mapR_ext. intros x Hx. apply condition_ext. auto. Qed.

Lemma remaining_ext common ds : (forall d e, In d ds -> In e d -> W e = W' e) ->
  remaining_disjuncts RequireType Equals statement_mode W common ds = remaining_disjuncts RequireType Equals statement_mode W' common ds.
Proof.
  induction ds as [|d ds IH]; intros H; [done|]. cbn [remaining_disjuncts]. rewrite IH by (intros d' e Hd He; by apply (H d'); [right|]).
  rewrite conditions_ext; [done|]. intros e [He _]%filter_In. apply (H d); [by left|done].
Qed.

Lemma common_subset first ds : forall acc e, In e (common_conjuncts Equals first ds acc) -> In e acc \/ In e first.
Proof. intros acc e He. apply list_elem_of_In, common_in in He as [He|[He _]]; [left|right]; by apply list_elem_of_In. Qed.

Lemma disjunction_ext l : (forall e, In e l -> W e = W' e) -> (forall d e, In d l -> In e (SQLiteGetConjuncts d) -> W e = W' e) ->
  WriteDisjunction RequireType Equals statement_mode W l = WriteDisjunction RequireType Equals statement_mode W' l.
Proof.
  intros H H'. unfold WriteDisjunction. destruct (map SQLiteGetConjuncts l) as [|first ds] eqn:E; [done|]. cbn zeta.
  assert (forall d e, In d (first :: ds) -> In e d -> W e = W' e) as Hd.
  { rewrite <- E. intros d e (x & <- & Hx)%in_map_iff He. by eapply H'. }
  destruct (common_conjuncts Equals first ds []) as [|k K] eqn:Ek; [by rewrite conditions_ext|].
  rewrite conditions_ext, remaining_ext; [done|done|]. intros e He. rewrite <- Ek in He. apply common_subset in He as [[]|He].
  apply (Hd first); [by left|done].
Qed.

Lemma arithmetic_ext name l r : W l = W' l -> W r = W' r ->
  WriteArithmetic RequireType TryGetMaxLogicalType cast_datum GetDouble TryGetCanonicalText WriteIntervalArithmetic
    statement_mode default_division W name l r =
  WriteArithmetic RequireType TryGetMaxLogicalType cast_datum GetDouble TryGetCanonicalText WriteIntervalArithmetic
    statement_mode default_division W' name l r.
Proof.
  intros H1 H2. unfold WriteArithmetic, write_sum, write_shift, write_modulo, WriteDivision.
  by rewrite !(as_ext _ _ H1), !(as_ext _ _ H2), H1, H2.
Qed.

(** The writer looks at smaller expressions only. *)
Lemma write_ext e : (forall e', (depth e' < depth e)%nat -> W e' = W' e') -> write W e = write W' e.
Proof.
  intros H. destruct e as [c|c|type l r|[] l|e|e|e|l|a b|n e l|checks els|child target try_cast|a b c|name e|name l r];
    cbn [write_expression depth] in *; try done.
  - unfold write_comparison. rewrite operands_ext; [done|]. intros e [<-|[<-|[]]]; apply H; lia.
  - apply disjunction_ext.
    + intros e He. apply H. pose proof (in_list_max depth l e He). lia.
    + intros d e Hd He. apply H. pose proof (in_list_max depth l d Hd) as L. enough (depth e <= depth d)%nat by lia.
      destruct d as [| | |[] l'| | | | | | | | | | |]; cbn [SQLiteGetConjuncts] in He; try (destruct He as [<-|[]]; lia).
      pose proof (in_list_max depth l' e He). cbn [depth]. lia.
  - rewrite conditions_ext; [done|]. intros e He. apply H. pose proof (in_list_max depth l e He). lia.
  - by rewrite H by lia.
  - by rewrite H by lia.
  - by rewrite condition_ext by (apply H; lia).
  - unfold write_coalesce. destruct (CommonType _ _ _); [|done]. cbn [mbind res_bind]. erewrite mapR_ext; [done|]. intros e He.
    apply as_ext, H. pose proof (in_list_max depth l e He). lia.
  - unfold write_nullif. rewrite operands_ext by (intros e [<-|[<-|[]]]; apply H; lia).
    destruct (WriteComparisonOperands _ _ _ _ _ _ _ _ _), (RequireType a); try done. cbn [mbind res_bind]. by rewrite as_ext by (apply H; lia).
  - unfold write_in. rewrite operands_ext; [done|]. intros e' [<-|He]; apply H; [lia|]. pose proof (in_list_max depth l e' He). lia.
  - unfold WriteCase. destruct (CommonType _ _ _); [|done]. cbn [mbind res_bind]. rewrite as_ext by (apply H; lia).
    erewrite mapR_ext; [done|]. intros [w t] Hw. pose proof (in_list_max (fun '(w, t) => Nat.max (depth w) (depth t)) checks _ Hw) as L.
    cbn beta iota in L. by rewrite condition_ext, as_ext by (apply H; lia).
  - rewrite H by lia. done.
  - unfold write_between. rewrite operands_ext; [done|]. intros e [<-|[<-|[<-|[]]]]; apply H; lia.
  - unfold WriteUnary. by rewrite H by lia.
  - apply arithmetic_ext; apply H; lia.
Qed.
End Ext.

Lemma write_fixpoint fuel : forall e, (depth e <= fuel)%nat -> Write fuel e = write (Write fuel) e.
Proof.
  induction fuel as [|fuel IH]; intros e He; [by destruct e; cbn in He; lia|].
  change (Write (S fuel) e) with (write (Write fuel) e). apply write_ext. intros e' He'. rewrite IH by lia. done.
Qed.
End Recursion.


(** ** A binder that obeys the laws *)

#[local] Instance cmp_type_eq_dec : EqDecision cmp_type.
Proof. solve_decision. Defined.
#[local] Instance Value_eq_dec : EqDecision Value.
Proof. solve_decision. Defined.

Definition ex_cast (source target : LogicalTypeId) (d : datum) : option datum :=
  if is_type source target then (if has_type target d then Some d else None)
  else
    match d with
    | DInt z =>
        if SQLiteIsIntegerType target then (if in_bounds target z && in_i64 z then Some d else None)
        else match target with
             | BOOLEAN => Some (DBool (negb (z =? 0)))
             | DOUBLE => Some (DReal (double_of_int z))
             | VARCHAR => Some (DText (to_string z))
             | _ => None
             end
    | DBool b =>
        if SQLiteIsIntegerType target then Some (DInt (Z.b2z b))
        else match target with
             | DOUBLE => Some (DReal (double_of_int (Z.b2z b)))
             | VARCHAR => Some (DText (word (if b then "true" else "false")))
             | _ => None
             end
    | DReal r => match source, target with FLOAT, DOUBLE => Some d | _, _ => None end
    | _ => None
    end.
Definition ex_double (v : Value) : Z := match payload v with Some (DReal r) => r | _ => 0 end.
Definition ex_max (a b : LogicalTypeId) : option LogicalTypeId :=
  if is_type a b then Some a else if SQLiteIsIntegerType a && SQLiteIsIntegerType b then Some BIGINT else None.
Definition ex_type (e : ParsedExpression) : res refusal LogicalTypeId :=
  match e with
  | CONSTANT v => Ok (vtype v)
  | COLUMN_REF _ => Ok BIGINT
  | BINARY (NPlus | NMinus | NTimes) _ _ => Ok BIGINT
  | _ => if SQLiteIsBooleanExpression e then Ok BOOLEAN else Throw NotSupported
  end.
Definition ex_equals (a b : ParsedExpression) : bool :=
  match a, b with
  | COMPARISON t (COLUMN_REF c) (CONSTANT v), COMPARISON t' (COLUMN_REF c') (CONSTANT v') => bool_decide (t = t' /\ c = c' /\ v = v')
  | _, _ => false
  end.
Definition ex_row (c : nat) : option datum := if (c =? 0)%nat then Some (DInt 7) else None.

Lemma to_string_bytes z : forallb byteb (to_string z) = true.
Proof.
  assert (forall fuel n, forallb byteb (digits fuel n) = true) as D.
  { induction fuel as [|fuel IH]; intros n; [done|]. cbn [digits]. rewrite forallb_app. cbn [forallb].
    pose proof (Z.mod_pos_bound n 10 ltac:(lia)). unfold byteb at 2. destruct (n <? 10); cbn [forallb]; rewrite ?IH; lia. }
  unfold to_string. destruct (z <? 0); [cbn [forallb]; by rewrite D|done].
Qed.

Lemma double_typed z : in_i64 z = true -> has_type DOUBLE (DReal (double_of_int z)) = true.
Proof.
  intros H%in_i64_s. cbn [has_type]. pose proof (double_of_int_u64 z H) as U. rewrite (double_of_int_not_nan z H). unfold is_u in U. lia.
Qed.

Lemma is_type_refl t : is_type t t = true.
Proof. unfold is_type. by rewrite bool_decide_eq_true_2. Qed.

Lemma ex_cast_laws : CastLaws ex_cast ex_double.
Proof.
  split.
  - intros t d H. unfold ex_cast. by rewrite is_type_refl, H.
  - intros s t d d' Hd. unfold ex_cast. destruct (is_type s t) eqn:E; [destruct (has_type t d) eqn:Et; [|done]; by intros [= <-]|].
    destruct d as [b|z|r|z|z].
    + destruct (SQLiteIsIntegerType t) eqn:Ei; [destruct t, b; try done; by intros [= <-]|]. destruct t; try done; intros [= <-]; by destruct b.
    + destruct (SQLiteIsIntegerType t) eqn:Ei; [destruct (_ && _) eqn:Eb; [|done]; by intros [= <-]|].
      destruct t; try done; intros [= <-]; [done|apply double_typed|apply to_string_bytes].
      cbn [has_type] in Hd. by destruct (in_bounds s z).
    + destruct s, t; try done. by intros [= <-].
    + done.
    + done.
  - intros s t z Hs Ht Hz. unfold ex_cast. cbn [has_type]. rewrite Ht, Hz, andb_true_r. by destruct (is_type s t).
  - intros t b Ht. unfold ex_cast. by destruct t.
  - intros s z Hs. unfold ex_cast. by destruct s.
  - intros s z Hs. unfold ex_cast. by destruct s.
  - done.
  - done.
  - intros s z Hs. unfold ex_cast. by destruct s.
  - by intros [].
  - done.
Qed.

Lemma ex_sum_typed name l r v : name = NPlus \/ name = NMinus \/ name = NTimes ->
  scope ex_type ex_max ex_max ex_cast (BINARY name l r) = true ->
  sem ex_type ex_max ex_max ex_cast ex_row (BINARY name l r) = Ok v -> typed BIGINT v = true.
Proof.
  intros Hn _ V. assert (forall x y k, on_ints x y k = Ok v -> (forall a b, k a b = Ok v -> typed BIGINT v = true) -> typed BIGINT v = true) as K.
  { intros x y k H Hk. destruct x as [[]|], y as [[]|]; cbn [on_ints] in H; simplify_eq; try done. by eapply Hk. }
  assert (forall z, int_result BIGINT z = Ok v -> typed BIGINT v = true) as R.
  { intros z. unfold int_result. destruct (in_bounds BIGINT z) eqn:E; [|done]. intros [= <-]. cbn [typed has_type]. rewrite E.
    unfold in_bounds in E. cbn [int_bounds] in E. unfold in_i64, SMALLEST_INT64, LARGEST_INT64. lia. }
  destruct Hn as [->|[->| ->]]; cbn [sem] in V; do 2 bind V; cbn [zero_divisor] in V; eapply K; try done; intros a b H; bind H; do 2 bind H;
    cbn [ex_type] in *; simplify_eq; by eapply R.
Qed.

Lemma ex_equals_eq a b : ex_equals a b = true -> a = b.
Proof.
  destruct a as [| |t l r| | | | | | | | | | | |]; try done. destruct l; try done. destruct r; try done.
  destruct b as [| |t' l r| | | | | | | | | | | |]; try done. destruct l; try done. destruct r; try done.
  cbn [ex_equals]. by intros (-> & -> & ->)%bool_decide_eq_true.
Qed.

Lemma ex_binder_laws : BinderLaws ex_type ex_max ex_max ex_cast ex_equals ex_row.
Proof.
  split.
  - intros e t v S T V. assert (SQLiteIsBooleanExpression e = true -> typed BOOLEAN v = true) as B.
    { intros Hb. destruct (boolean_sem _ _ _ _ _ e v Hb V) as [[] ->]; done. }
    destruct e as [c|c|type l r|[] l|e|e|e|l|a b|n e l|checks els|child target try_cast|a b c|name e|name l r];
      cbn [ex_type SQLiteIsBooleanExpression] in T; simplify_eq; try (by apply B).
    + cbn [sem] in V. by simplify_eq.
    + cbn [sem] in V. simplify_eq. unfold ex_row. by destruct (c =? 0)%nat.
    + destruct name; simplify_eq; [apply (ex_sum_typed NPlus l r)|apply (ex_sum_typed NMinus l r)|apply (ex_sum_typed NTimes l r)]; auto.
  - by intros a b ->%ex_equals_eq.
  - by intros a b ->%ex_equals_eq.
  - intros e c t. destruct e as [| | |[]| | | | | | | |[] ? []| | |]; cbn [TryGetConstantValue ex_type SQLiteIsBooleanExpression]; intros; by simplify_eq.
Qed.

(** [(x > 5 AND y = 1) OR (x > 5 AND x + 1 < 9)] is written with [x > 5] taken out and
    holds in the row (7, NULL). *)
Definition ex_int (z : Z) : ParsedExpression := CONSTANT (mk_value BIGINT (Some (DInt z))).
Definition ex_gt : ParsedExpression := COMPARISON COMPARE_GREATERTHAN (COLUMN_REF 0) (ex_int 5).
Definition ex_expression : ParsedExpression :=
  CONJUNCTION true
    [CONJUNCTION false [ex_gt; COMPARISON COMPARE_EQUAL (COLUMN_REF 1) (ex_int 1)];
     CONJUNCTION false [ex_gt; COMPARISON COMPARE_LESSTHAN (BINARY NPlus (COLUMN_REF 0) (ex_int 1)) (ex_int 9)]].

Definition ex_sql : sql :=
  SAnd [SBinary SGt (SColumn 0) (SInt 5);
        SOr [SAnd [SBinary SEq (SColumn 1) (SInt 1)]; SAnd [SBinary SLt (SBinary SAdd (SColumn 0) (SInt 1)) (SInt 9)]]].
Definition ex_write (e : ParsedExpression) : res refusal sql :=
  WriteExpression ex_type ex_max ex_max ex_cast ex_equals ex_double (fun _ => None) (fun _ => false) (fun _ _ _ => Throw NotSupported)
    false true 5 e.

